(* ===== verification/_CoqProject ===== *)
-Q . S2P
Prelude.v
GoVal.v
Big.v
Bytes.v
Errors.v
Rlp.v
Value.v
Net.v
Text.v
Json.v
Files.v
Nat.v
Reactor.v
Loggers.v
Wire.v
Db.v
Crypto.v
Curve.v
MnemonicWords.v
Mnemonic.v
Keys.v
KeyStore.v
KeyManager.v
Nibbles.v
Trie.v
TrieSpec.v
Bloom.v
Pow.v
Opcodes.v
State.v
Dump.v
Machine.v
Vm.v
VmSpec.v
Transaction.v
Block.v
TrieRoot.v
TrieIter.v
BlockChain.v
Transition.v
Core.v
TxPool.v
StateManager.v
Filter.v
BlockPool.v
Node.v
Peer.v
PeerSpec.v
Gossip.v
StateSpec.v
TransitionSpec.v
WriteSpec.v
StateManagerSpec.v
Pipe.v
JSPipe.v
Display.v
PipeSpec.v
Rpc.v
RpcSpec.v
Miner.v
MinerSpec.v
RewardSpec.v
DumpSpec.v
