(* ===== verification/Prelude.v ===== *)
(** * A verification development for eth-go

    eth-go is an early Ethereum node: a Go library with the codec, the trie, the
    virtual machine, the chain, the network and the keys of a node.  This
    library models that code as executable definitions (shallow embedding: a Go
    function is a Rocq function with the same name, its branches and early
    returns in the source's order) and proves what makes the parts correct.
    Paths are relative to [src/].  A comment directly before a definition names
    the file and the function or the lines it translates.

    ** How code is represented

    - Go [int64], [uint64], [byte] and the like are [Z] (or [Byte.byte]) with
      their wrap-around written out ([Prelude]: [u64], [s64], [u8] and so on);
      [*big.Int] is [Z], or [option Z] where a nil pointer is met (the number of a
      block).  Strings and byte slices are lists of bytes.
      An [interface{}] is [goval] ([GoVal]), with one constructor for each
      dynamic type the program stores.
    - [outcome] is how a call ends: [Ret] a value, [Panic] (index out of range,
      nil dereference, failed type assertion), [NoFuel].  Go's [error] results
      are values ([option error], [Errors]).  [st S] is the state monad over
      [outcome]; each component runs in an instance of it: [TM] (trie and its
      store), [SM] (heap of state objects), [VM], [TXM], [CM] (chain), [NM]
      (node), [EM] (peers), [KM] (keys), [MM] (miner), [PM] (pipe).
    - Shared objects (accounts, peers) live in a heap and are named by their
      position, because the program depends on which copies are shared.
    - Loops whose length is not bounded by a list take fuel.  A theorem always
      says that enough fuel exists: the number of bytes left for the decoder
      ([Rlp.Decode_terminates]), the length of the key for the trie
      ([TrieSpec.trie_refines_map], whose runs return), twice the gas for the
      virtual machine ([VmSpec.RunClosure_terminates]), the block number for
      the walk down the chain ([BlockChain.GetBlockByNumber_spec]), the size of
      the stored trie for its iteration ([TrieIter.Each_lists_the_map]) and for a
      dump ([DumpSpec.Dump_writes_the_state]).
    - Goroutines: [Reactor] and [Loggers] model theirs as threads whose
      blocking operations interleave in any order; elsewhere a handler runs to its end
      before the next starts, and the orders of handlers are arbitrary.
    - Code outside the repository is a class of operations with documented
      laws: hash functions ([Crypto.Crypto]: the length of a digest; freedom of
      collisions is never assumed of all inputs, theorems ask for it on the
      inputs a run hashes), the secp256k1 library ([Curve]), LevelDB and the
      database interface ([Db]), the order in which a Go map is iterated
      and what lies behind the end of a contract's code, which [Closure.Gets] can reach ([State.MapOrder]), sorting ([Miner.NonceSort]), the Mutan compiler
      (an argument in [Pipe]), zip archives and JSON decoding ([Files]), HTTP and
      XML ([Nat]).  The JSON encoder of the standard library is modelled ([Json]).  What is met only through an interface in the code
      is a class here: [KeyStore.KeyStore] and [Loggers.LogSystem] with laws, [Nat.NAT].

    ** The parts

    - [ethutil]: [GoVal], [Big] (big.go), [Bytes] (bytes.go), [Text] (common.go
      and the parsing of numbers), [Rlp] (rlp.go), [Value] (value.go), [Db]
      (db.go, with ethdb), [Files] (path.go, package.go, config.go, rand.go).
      Everything above reads and writes RLP through [Value].
    - [ethtrie]: [Nibbles] (encoding.go, slice.go), [Trie] (trie.go).
      [TrieSpec] gives the abstract specification (a finite map from keys to
      values with sync and undo) and the refinement; [TrieRoot] shows that
      roots commit to contents, [TrieIter] that iterating lists them.
    - [ethcrypto]: [Crypto] (crypto.go), [Curve] (keypair.go), [MnemonicWords],
      [Mnemonic] (mnemonic.go), [Keys] (keyring.go), [KeyStore] (key_store.go: an interface
      with laws, and two instances), [KeyManager] (key_manager.go, against the interface).
    - [ethstate]: [State] (state_object.go, state.go, manifest.go), [StateSpec];
      [Dump] (dump.go), with [DumpSpec].
    - [ethvm]: [Opcodes] (types.go, asm.go), [Machine] (stack.go, closure.go,
      common.go), [Vm] (vm.go), [VmSpec].
    - [ethchain]: [Transaction], [Block] (block.go, genesis.go, fees.go),
      [Bloom], [Pow] (dagger.go), [BlockChain] (block_chain.go), [Transition]
      (state_transition.go, vm_env.go) with [TransitionSpec], [Core] (what
      pool and manager share), [TxPool] (transaction_pool.go), [StateManager] (state_manager.go)
      with [StateManagerSpec] and [RewardSpec], [Filter] (filter.go), [Errors].
      [WriteSpec] shows that applying transactions writes nothing to the database
      but data under its own digest, which the theorems on [Process] and the miner rest on.
    - [ethreact]: [Reactor], a transition system with its interleavings.
    - [ethlog]: [Loggers], likewise.
    - [ethwire]: [Wire] (messaging.go, client_identity.go).
    - The node: [Net] (addresses), [BlockPool] (block_pool.go), [Node]
      (ethereum.go and the data of peer.go), [Peer] (peer.go) with [PeerSpec], [Nat]
      (natupnp.go, natpmp.go, nat.go and the thread of ethereum.go); [Gossip] puts
      two nodes together.
    - [ethpipe]: [Pipe] (pipe.go, world.go, object.go, config.go, vm_env.go)
      with [PipeSpec], [JSPipe] (js_pipe.go, js_types.go), [Display] (the texts of
      blocks, transactions and receipts).
    - [ethrpc]: [Rpc] (packages.go) with [RpcSpec].
    - [ethminer]: [Miner] with [MinerSpec].

    A block comes from a peer ([Peer]) through the [BlockPool] to [Process] of
    [StateManager]; that reads the parent from the [BlockChain], applies the
    transactions ([Transition], which runs [Vm] on a [State] kept in a [Trie] over
    [Db]), checks receipts, uncles, time and [Pow], pays the rewards, compares
    the state's root and extends the chain.  The [Miner] assembles blocks by
    the same functions and hands them to [Process]; the [Pipe] (and [Rpc] through
    [JSPipe]) makes and signs transactions for the [TxPool].

    ** What the theorems show

    - Data: the codec, the wire format, mnemonics, secrets files, transactions,
      blocks, accounts and peer addresses are read back as they were written;
      the decoder ends on every input, and what it builds is well typed.
    - Commitment: trie roots, the transaction root and block hashes determine
      their contents, up to collisions of the hash on the inputs at hand.
    - The trie refines a finite map with commit and rollback; its iteration lists
      the map in order, and the dump of a state is the text of its accounts.
    - Execution: gas is never created, bounds every run and every transaction;
      arithmetic is modulo 2^256; the exact effect of a transfer, of a rejected
      transaction, and of the block rewards.
    - The chain: only blocks that pass every check, against the parent that the database
      had, become the head; a block's transactions are handled in order, and only those with a wrong
      nonce are left out; adding a block is durable; the miner extends the head or leaves the chain alone.
    - Invariants over every order of events: the transaction pool, the list of
      peers, the key manager, the order of events in the reactor and of messages
      in the logger; the thread that keeps the port mapping asks for one mapping and
      removes it at its end.
    - Sending: a request to the RPC server or the pipe queues one signed
      transaction with what was asked for and the nonce of its account, in memory or in the state trie; a transaction that
      one node's pool takes reaches the queue of another node's.
    - Behaviour that a user of the code must know, stated as the code has it: a
      reactor that hangs when it is stopped, a logger that never writes again after a
      reset, a miner that stale uncles stop, lookups that panic.

    Lemmas marked with no number are shared steps, or runs of the model on
    concrete inputs.

    ** Not modelled

    - Spare capacity of slices behind values that are never resliced, and
      exhaustion of memory.
    - The input of a call or creation in the virtual machine is a copy: in Go it
      is a slice of the caller's memory, so the input that a recorded message shows can
      still change when the caller writes there.  [Value.Cmp] is equality of values: [reflect.DeepEqual] also
      tells a nil slice from an empty one, and two representations of a [big.Int].
    - Log lines (the logger itself is [Loggers]), console printing, the
      virtual machine's debugger hooks.
    - Mutexes, and goroutines other than those of the reactor and the logger.
      A send to a full output queue of a peer, which would wait, is a plain
      append.
    - Sockets, the accept loop of the RPC server (ethrpc/server.go), opening and
      closing the databases: input and output.  What such code answers (a name
      look-up, the time, random numbers, a router) is an argument where it is used. *)

From stdpp Require Export base tactics list option gmap strings numbers sorting.
From Stdlib Require Export ZArith Lia Init.Byte.
From Stdlib Require Import Strings.Byte.

#[global] Open Scope Z_scope.

(** * Bytes

    A Go [byte] is [Byte.byte]; a Go [string] and a [[]byte] are both lists of
    bytes (Go strings are byte sequences). *)

Notation byte := Corelib.Init.Byte.byte.
Notation bytes := (list byte).

Definition b2z (b : byte) : Z := Z.of_N (Byte.to_N b).

(** [byte(z)]: the low eight bits of [z]. *)
Definition z2b (z : Z) : byte := default x00 (Byte.of_N (Z.to_N (z `mod` 256))).

Lemma byte_to_N_inj (a b : byte) : Byte.to_N a = Byte.to_N b -> a = b.
Proof.
  intros H. apply (f_equal Byte.of_N) in H. rewrite !Byte.of_to_N in H. congruence.
Qed.

#[export] Instance byte_eq_dec : EqDecision byte := λ a b,
  match N.eq_dec (Byte.to_N a) (Byte.to_N b) with
  | left H => left (byte_to_N_inj a b H)
  | right H => right (λ E, H (f_equal Byte.to_N E))
  end.

#[export] Program Instance byte_countable : Countable byte :=
  inj_countable Byte.to_N Byte.of_N _.
Next Obligation. intros b. apply Byte.of_to_N. Qed.

Arguments b2z : simpl never.
Arguments z2b : simpl never.

Lemma b2z_range b : 0 <= b2z b < 256.
Proof. unfold b2z. pose proof (Byte.to_N_bounded b). lia. Qed.

Lemma z2b_b2z b : z2b (b2z b) = b.
Proof.
  unfold z2b. rewrite Z.mod_small by apply b2z_range.
  unfold b2z. by rewrite N2Z.id, Byte.of_to_N.
Qed.

Lemma b2z_z2b z : b2z (z2b z) = z `mod` 256.
Proof.
  unfold z2b. pose proof (Z.mod_pos_bound z 256 ltac:(lia)) as Hb.
  destruct (Byte.of_N (Z.to_N (z `mod` 256))) as [b|] eqn:E; simpl.
  - unfold b2z. apply Byte.to_of_N in E. rewrite E. lia.
  - apply Byte.of_N_None_iff in E. lia.
Qed.

Lemma b2z_z2b_small z : 0 <= z < 256 -> b2z (z2b z) = z.
Proof. intros. rewrite b2z_z2b. by apply Z.mod_small. Qed.

Lemma b2z_inj a b : b2z a = b2z b -> a = b.
Proof. intros H. by rewrite <-(z2b_b2z a), <-(z2b_b2z b), H. Qed.

#[export] Instance b2z_Inj : Inj (=) (=) b2z.
Proof. exact b2z_inj. Qed.

(** * Machine integers *)

Definition u8 (z : Z) : Z := z `mod` 2 ^ 8.
Definition u16 (z : Z) : Z := z `mod` 2 ^ 16.
Definition u32 (z : Z) : Z := z `mod` 2 ^ 32.
Definition u64 (z : Z) : Z := z `mod` 2 ^ 64.

(** Two's complement reading of the low [w] bits. *)
Definition sgn (w z : Z) : Z :=
  let m := z `mod` 2 ^ w in if m <? 2 ^ (w - 1) then m else m - 2 ^ w.
Definition s8 : Z -> Z := sgn 8.
Definition s16 : Z -> Z := sgn 16.
Definition s32 : Z -> Z := sgn 32.
Definition s64 : Z -> Z := sgn 64.

Arguments sgn : simpl never.
Arguments u8 : simpl never.
Arguments u16 : simpl never.
Arguments u32 : simpl never.
Arguments u64 : simpl never.

Lemma u64_range z : 0 <= u64 z < 2 ^ 64.
Proof. apply Z.mod_pos_bound. lia. Qed.

Lemma u64_small z : 0 <= z < 2 ^ 64 -> u64 z = z.
Proof. apply Z.mod_small. Qed.

Lemma s64_small z : - 2 ^ 63 <= z < 2 ^ 63 -> s64 z = z.
Proof.
  intros H. unfold s64, sgn. change (64 - 1) with 63.
  destruct (decide (0 <= z)).
  - rewrite Z.mod_small by lia. destruct (Z.ltb_spec z (2 ^ 63)); lia.
  - replace (z `mod` 2 ^ 64) with (z + 2 ^ 64).
    + destruct (Z.ltb_spec (z + 2 ^ 64) (2 ^ 63)); lia.
    + apply (Z.mod_unique z (2 ^ 64) (-1)); lia.
Qed.

Lemma s64_range z : - 2 ^ 63 <= s64 z < 2 ^ 63.
Proof.
  unfold s64, sgn. change (64 - 1) with 63.
  pose proof (Z.mod_pos_bound z (2 ^ 64) ltac:(lia)).
  destruct (Z.ltb_spec (z `mod` 2 ^ 64) (2 ^ 63)); lia.
Qed.

(** * Outcomes

    A Go function returns, panics, or (in the model of a loop that needs it)
    runs out of the fuel it was given.  Go [error] values are ordinary results
    and appear in the result type. *)

Inductive outcome (A : Type) : Type :=
| Ret (a : A)
| Panic
| NoFuel.
Arguments Ret {A} a.
Arguments Panic {A}.
Arguments NoFuel {A}.

#[export] Instance outcome_ret : MRet outcome := @Ret.
#[export] Instance outcome_bind : MBind outcome :=
  λ A B f m, match m with Ret a => f a | Panic => Panic | NoFuel => NoFuel end.
#[export] Instance outcome_fmap : FMap outcome :=
  λ A B f m, match m with Ret a => Ret (f a) | Panic => Panic | NoFuel => NoFuel end.

#[export] Instance outcome_eq_dec {A} `{EqDecision A} : EqDecision (outcome A).
Proof. solve_decision. Defined.

Lemma bind_Ret_inv {A B} (m : outcome A) (f : A -> outcome B) b :
  m ≫= f = Ret b -> ∃ a, m = Ret a ∧ f a = Ret b.
Proof. destruct m; simpl; try discriminate. eauto. Qed.

Lemma bind_fuel {A B} (m : outcome A) (f : A -> outcome B) :
  m ≠ NoFuel -> (∀ a, m = Ret a -> f a ≠ NoFuel) -> m ≫= f ≠ NoFuel.
Proof. destruct m; simpl; auto. Qed.

(** The result of a run in an example. *)
Definition ret_or {A} (d : A) (o : outcome A) : A := match o with Ret a => a | _ => d end.

(** A field of a pointer that may be nil. *)
Definition deref {A} (p : option A) : outcome A := match p with Some a => Ret a | None => Panic end.

(** [inv_bind H]: peel the monadic binds of a computation that returned. *)
Ltac inv_bind H :=
  lazymatch type of H with
  | @mbind outcome _ _ _ _ ?m = Ret _ =>
      let a := fresh "a" in let E := fresh "E" in
      apply bind_Ret_inv in H; destruct H as (a & E & H)
  end.

(** * Computations on a state

    Code that changes a state returns an outcome and the state it leaves; a
    panic leaves the state as it was when it happened, as in Go. *)

Definition st (S A : Type) : Type := S -> outcome A * S.

#[export] Instance st_ret S : MRet (st S) := λ A a s, (Ret a, s).
#[export] Instance st_bind S : MBind (st S) := λ A B f m s,
  let '(o, s') := m s in
  match o with Ret a => f a s' | Panic => (Panic, s') | NoFuel => (NoFuel, s') end.

#[export] Instance st_fmap S : FMap (st S) := λ A B f m s,
  let '(o, s') := m s in (f <$> o, s').

Lemma st_bind_run {S A B} (m : st S A) (f : A -> st S B) s a s' :
  m s = (Ret a, s') -> (m ≫= f) s = f a s'.
Proof. intros Hm. unfold mbind, st_bind. by rewrite Hm. Qed.

(** Run a loop body over a list, collecting what it appends. *)
Fixpoint for_collect {S A B} (f : A -> st S (list B)) (l : list A) : st S (list B) :=
  match l with
  | [] => mret []
  | x :: r => a ← f x; b ← for_collect f r; mret (a ++ b)
  end.

(** Run a loop body over a list for its effect. *)
Fixpoint for_each {S A} (f : A -> st S unit) (l : list A) : st S unit :=
  match l with [] => mret tt | x :: r => _ ← f x; for_each f r end.

(** [twp m Q s]: from [s], the computation returns and the result satisfies [Q]. *)
Definition twp {S A} (m : st S A) (Q : A -> S -> Prop) (s : S) : Prop :=
  ∃ a s', m s = (Ret a, s') ∧ Q a s'.

Lemma twp_ret {S A} (a : A) (Q : A -> S -> Prop) s : Q a s -> twp (mret a) Q s.
Proof. intros HQ. by exists a, s. Qed.

Lemma twp_bind {S A B} (m : st S A) (f : A -> st S B) Q s :
  twp m (λ a s', twp (f a) Q s') s -> twp (m ≫= f) Q s.
Proof.
  intros (a & s' & Hm & b & s'' & Hf & HQ). exists b, s''. split; [|done].
  by rewrite (st_bind_run m f s a s').
Qed.

Lemma twp_mono {S A} (m : st S A) (Q Q' : A -> S -> Prop) s :
  (∀ a s', Q a s' -> Q' a s') -> twp m Q s -> twp m Q' s.
Proof. intros HQ (a & s' & Hm & H). exists a, s'. auto. Qed.

(** [wlp m Q s]: if from [s] the computation returns, the result satisfies [Q]. *)
Definition wlp {S A} (m : st S A) (Q : A -> S -> Prop) (s : S) : Prop :=
  ∀ a s', m s = (Ret a, s') -> Q a s'.

Lemma wlp_ret {S A} (a : A) (Q : A -> S -> Prop) s : Q a s -> wlp (mret a) Q s.
Proof. by intros HQ ? ? [= <- <-]. Qed.

Lemma wlp_bind {S A B} (m : st S A) (f : A -> st S B) Q s :
  wlp m (λ a s', wlp (f a) Q s') s -> wlp (m ≫= f) Q s.
Proof.
  intros Hm b s''. unfold mbind, st_bind. destruct (m s) as [[a| |] s'] eqn:E; [|done|done].
  intros Hf. by apply (Hm a s').
Qed.

Lemma wlp_mono {S A} (m : st S A) (Q Q' : A -> S -> Prop) s :
  (∀ a s', Q a s' -> Q' a s') -> wlp m Q s -> wlp m Q' s.
Proof. intros HQ Hm a s' E. by apply HQ, Hm. Qed.

Lemma wlp_any {S A} (m : st S A) s : wlp m (λ _ _, True) s.
Proof. done. Qed.

Lemma wlp_and {S A} (m : st S A) (Q Q' : A -> S -> Prop) s :
  wlp m Q s -> wlp m Q' s -> wlp m (λ a s', Q a s' ∧ Q' a s') s.
Proof. intros H H' a s' E. split; [by apply H|by apply H']. Qed.

(** [steps R m]: whatever its result, the computation goes from a state to a related
    one; [R] is a preorder. *)
Definition steps {S A} (R : relation S) (m : st S A) : Prop := ∀ s, R s (m s).2.

Lemma steps_ret {S A} R `{!Reflexive R} (a : A) : steps (S := S) R (mret a).
Proof. by intros s. Qed.

Lemma steps_bind {S A B} R `{!PreOrder R} (m : st S A) (f : A -> st S B) :
  steps R m -> (∀ a, steps R (f a)) -> steps R (m ≫= f).
Proof.
  intros Hm Hf s. specialize (Hm s). unfold mbind, st_bind.
  destruct (m s) as [[a| |] s']; cbn in *; [|done|done]. etrans; [exact Hm|apply Hf].
Qed.

Lemma steps_for_each {S A} R `{!PreOrder R} (f : A -> st S unit) l :
  (∀ x, steps R (f x)) -> steps R (for_each f l).
Proof.
  intros Hf. induction l as [|x l IH]; [by intros s|]. by apply steps_bind; [apply _| |].
Qed.

Lemma steps_wlp {S A} (R : relation S) (m : st S A) (Q : A -> S -> Prop) s :
  steps R m -> (∀ a s', R s s' -> Q a s') -> wlp m Q s.
Proof. intros Hm HQ a s' E. apply HQ. specialize (Hm s). by rewrite E in Hm. Qed.

Lemma for_each_map {S A B} (f : B -> st S unit) (g : A -> B) l :
  for_each f (map g l) = for_each (λ x, f (g x)) l.
Proof. induction l as [|x l IH]; [done|]. cbn [map for_each]. by rewrite IH. Qed.

(** A computation without a state. *)
Definition lift {S A} (m : outcome A) : st S A := λ s, (m, s).
Definition st_get {S} : st S S := λ s, (Ret s, s).

Lemma steps_lift {S A} R `{!Reflexive R} (o : outcome A) : steps (S := S) R (lift o).
Proof. by intros s. Qed.

Lemma wlp_lift {S A} (o : outcome A) (Q : A -> S -> Prop) s : (∀ a, o = Ret a -> Q a s) -> wlp (lift o) Q s.
Proof. intros HQ a s' [= -> <-]. by apply HQ. Qed.

Lemma wlp_get {S} (Q : S -> S -> Prop) s : Q s s -> wlp st_get Q s.
Proof. by intros HQ ? ? [= <- <-]. Qed.

Definition st_modify {S} (f : S -> S) : st S unit := λ s, (Ret tt, f s).
Definition st_panic {S A} : st S A := λ s, (Panic, s).
Definition st_nofuel {S A} : st S A := λ s, (NoFuel, s).

(** * Indexing and slicing with Go's bounds checks *)

Definition zlen {A} (l : list A) : Z := Z.of_nat (length l).

(** [l[i]]: panics when [i] is outside [0, len(l)). *)
Definition index {A} (l : list A) (i : Z) : outcome A :=
  if (0 <=? i) && (i <? zlen l)
  then match l !! Z.to_nat i with Some x => Ret x | None => Panic end
  else Panic.

(** [l[a:b]] of a value whose capacity is its length (a string, or the
    capacity [length l] given explicitly). *)
Definition slice {A} (l : list A) (a b : Z) : outcome (list A) :=
  if (0 <=? a) && (a <=? b) && (b <=? zlen l)
  then Ret (take (Z.to_nat (b - a)) (drop (Z.to_nat a) l))
  else Panic.

(** [l[i] = v]: panics out of range. *)
Definition assign {A} (l : list A) (i : Z) (v : A) : outcome (list A) :=
  if (0 <=? i) && (i <? zlen l) then Ret (<[Z.to_nat i := v]> l) else Panic.

(** [make([]T, n)] filled with the zero value. *)
Definition zeros (n : Z) : bytes := replicate (Z.to_nat n) x00.

Arguments index : simpl never.
Arguments slice : simpl never.
Arguments zeros : simpl never.

Lemma zlen_nonneg {A} (l : list A) : 0 <= zlen l.
Proof. unfold zlen. lia. Qed.

Lemma zlen_nil {A} : zlen (@nil A) = 0.
Proof. done. Qed.

Lemma zlen_cons {A} (x : A) l : zlen (x :: l) = 1 + zlen l.
Proof. unfold zlen. simpl. lia. Qed.

Lemma zlen_app {A} (l k : list A) : zlen (l ++ k) = zlen l + zlen k.
Proof. unfold zlen. rewrite length_app. lia. Qed.

Lemma zlen_take {A} n (l : list A) : zlen (take n l) = Z.min (Z.of_nat n) (zlen l).
Proof. unfold zlen. rewrite length_take. lia. Qed.

Lemma zlen_drop {A} n (l : list A) : zlen (drop n l) = Z.max 0 (zlen l - Z.of_nat n).
Proof. unfold zlen. rewrite length_drop. lia. Qed.

Lemma zlen_0 {A} (l : list A) : zlen l = 0 -> l = [].
Proof. destruct l; [done|]. rewrite zlen_cons. pose proof (zlen_nonneg l). lia. Qed.

Lemma zlen_replicate {A} n (x : A) : zlen (replicate n x) = Z.of_nat n.
Proof. unfold zlen. by rewrite length_replicate. Qed.

Lemma zlen_map {A B} (f : A -> B) l : zlen (map f l) = zlen l.
Proof. unfold zlen. by rewrite length_map. Qed.

#[export] Hint Rewrite @zlen_nil @zlen_cons @zlen_app @zlen_take @zlen_drop
  @zlen_replicate @zlen_map : zlen.

(** [lenlia]: arithmetic over the lengths in the context. *)
Ltac lenlia :=
  autorewrite with zlen in *;
  repeat match goal with
  | |- context [zlen ?l] =>
      lazymatch goal with
      | _ : 0 <= zlen l |- _ => fail
      | _ => pose proof (zlen_nonneg l)
      end
  | _ : context [zlen ?l] |- _ =>
      lazymatch goal with
      | _ : 0 <= zlen l |- _ => fail
      | _ => pose proof (zlen_nonneg l)
      end
  end; lia.

Lemma index_Ret {A} (l : list A) i x :
  index l i = Ret x <-> 0 <= i ∧ l !! Z.to_nat i = Some x.
Proof.
  unfold index, zlen. split.
  - destruct (Z.leb_spec 0 i), (Z.ltb_spec i (Z.of_nat (length l))); simpl; try done.
    destruct (l !! Z.to_nat i) eqn:E; try done. intros [= ->]. auto.
  - intros [H1 H2]. pose proof (lookup_lt_Some _ _ _ H2).
    rewrite (proj2 (Z.leb_le 0 i)) by lia.
    rewrite (proj2 (Z.ltb_lt i _)) by lia. simpl. by rewrite H2.
Qed.

Lemma index_middle {A} (l : list A) x k i : i = zlen l -> index (l ++ x :: k) i = Ret x.
Proof.
  intros ->. apply index_Ret. unfold zlen. split; [lia|].
  rewrite Nat2Z.id. by rewrite list_lookup_middle.
Qed.

Lemma index_head {A} (x : A) l : index (x :: l) 0 = Ret x.
Proof. by apply (index_middle [] x l). Qed.

Lemma index_fuel {A} (l : list A) i : index l i ≠ NoFuel.
Proof. unfold index. case_match; [|done]. by case_match. Qed.

Lemma deref_fuel {A} (p : option A) : deref p ≠ NoFuel.
Proof. by destruct p. Qed.

Lemma slice_fuel {A} (l : list A) a b : slice l a b ≠ NoFuel.
Proof. unfold slice. by case_match. Qed.

Lemma index_lt {A} (l : list A) i x : index l i = Ret x -> 0 <= i < zlen l.
Proof.
  intros [H1 H2]%index_Ret. apply lookup_lt_Some in H2. unfold zlen. lia.
Qed.

Lemma index_in {A} (l : list A) i : 0 <= i < zlen l -> ∃ x, index l i = Ret x.
Proof.
  intros Hi. destruct (lookup_lt_is_Some_2 l (Z.to_nat i)) as [x Hx]; [unfold zlen in Hi; lia|].
  exists x. apply index_Ret. split; [lia|done].
Qed.

Lemma slice_Ret {A} (l : list A) a b r :
  slice l a b = Ret r <->
  0 <= a <= b ∧ b <= zlen l ∧ r = take (Z.to_nat (b - a)) (drop (Z.to_nat a) l).
Proof.
  unfold slice. split.
  - destruct (Z.leb_spec 0 a), (Z.leb_spec a b), (Z.leb_spec b (zlen l)); simpl; try done.
    intros [= <-]. auto with lia.
  - intros (? & ? & ->).
    rewrite !(proj2 (Z.leb_le _ _)) by lia. done.
Qed.

Lemma slice_middle {A} (l m k : list A) a b :
  a = zlen l -> b = zlen l + zlen m -> slice (l ++ m ++ k) a b = Ret m.
Proof.
  intros -> ->. apply slice_Ret. split; [lenlia|]. split; [lenlia|].
  unfold zlen. rewrite Nat2Z.id.
  replace (Z.to_nat _) with (length m) by lia.
  by rewrite drop_app_length, take_app_length.
Qed.

(** [apps]: equality of list expressions up to associativity of [++]. *)
Ltac apps := repeat (progress (simpl; rewrite <-?app_assoc)); done.

Lemma slice_of {A} (l m k data : list A) a b :
  data = l ++ m ++ k -> a = zlen l -> b = zlen l + zlen m -> slice data a b = Ret m.
Proof. intros -> -> ->. by apply slice_middle. Qed.

(** [slice_at l m k]: the next slice in the goal is [m], between [l] and [k]. *)
Ltac slice_at l m k := rewrite (slice_of l m k) by first [apps | lenlia]; cbn [mbind outcome_bind].

#[export] Hint Resolve index_fuel slice_fuel deref_fuel : fuel.

(** Choose one witness per position of a list. *)
Lemma list_choose {A B} (Q : nat -> A -> B -> Prop) (l : list A) :
  (∀ i a, l !! i = Some a -> ∃ b, Q i a b) ->
  ∃ k, length k = length l ∧ ∀ i a b, l !! i = Some a -> k !! i = Some b -> Q i a b.
Proof.
  revert Q. induction l as [|x l IH]; intros Q HQ; [by exists []|].
  destruct (HQ 0%nat x eq_refl) as [b Hb].
  destruct (IH (λ i, Q (S i))) as (k & Hk & Hall); [intros i a Hi; by apply HQ|].
  exists (b :: k). split; [simpl; by f_equal|].
  intros [|i] a c Ha Hc; simplify_eq/=; eauto.
Qed.

Lemma assign_Ret {A} (l : list A) (i : nat) v :
  (i < length l)%nat -> assign l (Z.of_nat i) v = Ret (<[i := v]> l).
Proof.
  intros Hi. unfold assign, zlen. rewrite (proj2 (Z.leb_le 0 _)) by lia.
  rewrite (proj2 (Z.ltb_lt _ _)) by lia. simpl. by rewrite Nat2Z.id.
Qed.

Lemma filter_all {A} (P : A -> Prop) `{∀ x, Decision (P x)} (l : list A) :
  (∀ x, x ∈ l -> P x) -> filter P l = l.
Proof.
  induction l as [|x l IH]; intros Hl; [done|]. rewrite filter_cons_True by (apply Hl; left).
  by rewrite IH by (intros y Hy; apply Hl; by right).
Qed.
