(* ===== verification/GoVal.v ===== *)
(** Go interface values: the dynamic types that the program stores in an
    [interface{}] and that [ethutil.Encode] and [ethutil.Value] switch on. *)

From S2P Require Import Prelude.

(** The integer kinds; Go's [byte] is [uint8], and [int] is 64 bits wide. *)
Inductive intkind :=
| Kint | Kuint | Kint8 | Kint16 | Kint32 | Kint64 | Kuint8 | Kuint16 | Kuint32 | Kuint64.

#[export] Instance intkind_eq_dec : EqDecision intkind.
Proof. solve_decision. Defined.

(** [VBig] is a non-nil [*big.Int] and [VNilBig] a nil one (the number of a block that
    the chain has not numbered yet; it is only put into lists that
    are encoded: reading its digits would panic, and the readers of [Value] give their default), [VVal v] a
    pointer to a [Value] holding [v], [VRows] a [[][]interface{}] (a type the
    encoder has no case for), [VStrs] a [[]string]. *)
Inductive goval :=
| VNil
| VStr (s : bytes)
| VBytes (b : bytes)
| VInt (k : intkind) (z : Z)
| VBig (z : Z)
| VNilBig
| VList (l : list goval)
| VRows (rows : list (list goval))
| VStrs (l : list bytes)
| VVal (v : goval)
| VErr (msg : bytes).

Notation VByte b := (VInt Kuint8 (b2z b)).

(** The values an integer kind can hold. *)
Definition kind_range (k : intkind) (z : Z) : Prop :=
  match k with
  | Kint | Kint64 => - 2 ^ 63 <= z < 2 ^ 63
  | Kuint | Kuint64 => 0 <= z < 2 ^ 64
  | Kint8 => - 2 ^ 7 <= z < 2 ^ 7
  | Kint16 => - 2 ^ 15 <= z < 2 ^ 15
  | Kint32 => - 2 ^ 31 <= z < 2 ^ 31
  | Kuint8 => 0 <= z < 2 ^ 8
  | Kuint16 => 0 <= z < 2 ^ 16
  | Kuint32 => 0 <= z < 2 ^ 32
  end.

(** The width in bytes of the fixed-size kinds ([int] and [uint] are not
    fixed-size for [encoding/binary]). *)
Definition kind_bytes (k : intkind) : option Z :=
  match k with
  | Kint | Kuint => None
  | Kint8 | Kuint8 => Some 1
  | Kint16 | Kuint16 => Some 2
  | Kint32 | Kuint32 => Some 4
  | Kint64 | Kuint64 => Some 8
  end.

(** Induction with the elements of a list available. *)
Section goval_ind.
  Variable P : goval -> Prop.
  Hypothesis Hnil : P VNil.
  Hypothesis Hstr : ∀ s, P (VStr s).
  Hypothesis Hbytes : ∀ b, P (VBytes b).
  Hypothesis Hint : ∀ k z, P (VInt k z).
  Hypothesis Hbig : ∀ z, P (VBig z).
  Hypothesis Hnilbig : P VNilBig.
  Hypothesis Hlist : ∀ l, Forall P l -> P (VList l).
  Hypothesis Hrows : ∀ l, P (VRows l).
  Hypothesis Hstrs : ∀ l, P (VStrs l).
  Hypothesis Hval : ∀ v, P v -> P (VVal v).
  Hypothesis Herr : ∀ m, P (VErr m).

Fixpoint goval_ind' (v : goval) : P v :=
    match v with
    | VNil => Hnil
    | VStr s => Hstr s
    | VBytes b => Hbytes b
    | VInt k z => Hint k z
    | VBig z => Hbig z
    | VNilBig => Hnilbig
    | VList l => Hlist l ((fix go (l : list goval) : Forall P l :=
        match l with
        | [] => Forall_nil_2 P
        | x :: r => Forall_cons_2 P x r (goval_ind' x) (go r)
        end) l)
    | VRows l => Hrows l
    | VStrs l => Hstrs l
    | VVal v => Hval v (goval_ind' v)
    | VErr m => Herr m
    end.
End goval_ind.

Definition goval_eq_dec_fix : ∀ v w : goval, {v = w} + {v ≠ w}.
Proof.
  fix IH 1. intros v w.
  destruct v, w; try (right; discriminate); try (left; reflexivity).
  - destruct (decide (s = s0)); [left|right]; congruence.
  - destruct (decide (b = b0)); [left|right]; congruence.
  - destruct (decide (k = k0)); [|right; congruence].
    destruct (decide (z = z0)); [left|right]; congruence.
  - destruct (decide (z = z0)); [left|right]; congruence.
  - destruct (List.list_eq_dec IH l l0); [left|right]; congruence.
  - destruct (List.list_eq_dec (List.list_eq_dec IH) rows rows0); [left|right]; congruence.
  - destruct (decide (l = l0)); [left|right]; congruence.
  - destruct (IH v w); [left|right]; congruence.
  - destruct (decide (msg = msg0)); [left|right]; congruence.
Defined.

#[export] Instance goval_eq_dec : EqDecision goval := goval_eq_dec_fix.
