(* ===== verification/Big.v ===== *)
(** Big integers as the program uses them: Go's [math/big.Int] is an
    unbounded [Z]; its byte conversions are written out here because RLP, the
    trie keys and the virtual machine all depend on them.  The second half is
    [ethutil/big.go] and the currency table of [ethutil/common.go]. *)

From S2P Require Import Prelude.

(** * [big.Int.Bytes] and [big.Int.SetBytes] *)

Fixpoint le_bytes (fuel : nat) (z : Z) : bytes :=
  match fuel with
  | O => []
  | S f => if z <=? 0 then [] else z2b z :: le_bytes f (z / 256)
  end.

(** The absolute value of the number, big endian, without leading zeros. *)
Definition big_Bytes (z : Z) : bytes :=
  rev (le_bytes (Z.to_nat (Z.log2 (Z.abs z)) + 1) (Z.abs z)).

Definition big_SetBytes (b : bytes) : Z :=
  fold_left (λ acc x, acc * 256 + b2z x) b 0.

(** [x.Uint64()] and [x.Int64()]: the low 64 bits of the absolute value, the
    sign restored for the signed reading. *)
Definition big_Uint64 (z : Z) : Z := u64 (Z.abs z).
Definition big_Int64 (z : Z) : Z :=
  if z <? 0 then s64 (- s64 (Z.abs z)) else s64 (Z.abs z).

(** [x.Div(x, y)] and [x.Mod(x, y)] are Euclidean and panic on zero. *)
Definition big_Div (x y : Z) : outcome Z :=
  if y =? 0 then Panic else Ret (Z.sgn y * (x / Z.abs y)).
Definition big_Mod (x y : Z) : outcome Z :=
  if y =? 0 then Panic else Ret (x `mod` Z.abs y).

(** [x.Exp(x, y, m)]: [x**y mod |m|]; [m = 0] (or nil) means no modulus, a
    non-positive exponent gives 1 there. *)
Fixpoint pow_mod_pos (x : Z) (y : positive) (m : Z) : Z :=
  match y with
  | xH => x `mod` m
  | xO p => let r := pow_mod_pos x p m in (r * r) `mod` m
  | xI p => let r := pow_mod_pos x p m in (x * ((r * r) `mod` m)) `mod` m
  end.
Definition big_Exp (x y m : Z) : Z :=
  if m =? 0 then (if y <=? 0 then 1 else x ^ y)
  else match y with
       | Zpos p => pow_mod_pos x p (Z.abs m)
       | _ => 1 `mod` Z.abs m
       end.

(** * [ethutil/big.go] *)

(** ethutil/big.go, BigPow. *)
Definition BigPow (a b : Z) : Z := big_Exp a b 0.

(** ethutil/big.go, BigD. *)
Definition BigD (data : bytes) : Z := big_SetBytes data.

(** ethutil/big.go, BigToBytes. [num] in [base/8] bytes, more when it does not fit. *)
Definition BigToBytes (num base : Z) : bytes :=
  if Z.quot base 8 <? zlen (big_Bytes num) then big_Bytes num
  else zeros (Z.quot base 8 - zlen (big_Bytes num)) ++ big_Bytes num.

(** ethutil/big.go, BigCopy. The copy is a fresh integer of the same value. *)
Definition BigCopy (src : Z) : Z := src.

(** ethutil/big.go, BigMax. *)
Definition BigMax (x y : Z) : Z := if x <=? y then y else x.

(** ethutil/big.go, BigMin. *)
Definition BigMin (x y : Z) : Z := if y <=? x then y else x.

Arguments big_Bytes : simpl never.
Arguments big_SetBytes : simpl never.

(** * Lemmas *)

Lemma SetBytes_acc l acc :
  fold_left (λ a x, a * 256 + b2z x) l acc = acc * 256 ^ zlen l + big_SetBytes l.
Proof.
  unfold big_SetBytes. revert acc. induction l as [|x l IH]; intros acc; cbn [fold_left].
  - rewrite zlen_nil. lia.
  - rewrite IH, (IH (0 * 256 + b2z x)), zlen_cons, Z.pow_add_r by lenlia. nia.
Qed.

Lemma SetBytes_app l k :
  big_SetBytes (l ++ k) = big_SetBytes l * 256 ^ zlen k + big_SetBytes k.
Proof. unfold big_SetBytes at 1. by rewrite fold_left_app, SetBytes_acc. Qed.

Lemma SetBytes_cons x l : big_SetBytes (x :: l) = b2z x * 256 ^ zlen l + big_SetBytes l.
Proof.
  change (x :: l) with ([x] ++ l). rewrite SetBytes_app.
  unfold big_SetBytes at 1. simpl. lia.
Qed.

Lemma SetBytes_range l : 0 <= big_SetBytes l < 256 ^ zlen l.
Proof.
  induction l as [|x l IH]; [vm_compute; intuition congruence|].
  rewrite SetBytes_cons, zlen_cons, Z.pow_add_r by lenlia.
  pose proof (b2z_range x). nia.
Qed.

Lemma SetBytes_zeros n l : big_SetBytes (zeros n ++ l) = big_SetBytes l.
Proof.
  unfold zeros. induction (Z.to_nat n) as [|k IH]; [done|].
  simpl. rewrite SetBytes_cons, IH. change (b2z x00) with 0. lia.
Qed.

Lemma le_bytes_value fuel z :
  0 <= z < 2 ^ Z.of_nat fuel -> big_SetBytes (rev (le_bytes fuel z)) = z.
Proof.
  revert z. induction fuel as [|f IH]; intros z Hz.
  - change (2 ^ Z.of_nat 0) with 1 in Hz. simpl. change (big_SetBytes []) with 0. lia.
  - rewrite Nat2Z.inj_succ, Z.pow_succ_r in Hz by lia. simpl.
    destruct (Z.leb_spec z 0); simpl; [change (big_SetBytes []) with 0; lia|].
    rewrite SetBytes_app, IH.
    + rewrite SetBytes_cons, b2z_z2b. change (big_SetBytes []) with 0.
      change (256 ^ zlen [z2b z]) with 256. change (256 ^ zlen (@nil byte)) with 1.
      pose proof (Z.div_mod z 256). lia.
    + split; [apply Z.div_pos; lia|]. apply Z.div_lt_upper_bound; lia.
Qed.

Lemma abs_fuel z : 0 <= Z.abs z < 2 ^ Z.of_nat (Z.to_nat (Z.log2 (Z.abs z)) + 1).
Proof.
  split; [lia|]. rewrite Nat2Z.inj_add, Z2Nat.id by apply Z.log2_nonneg.
  destruct (decide (Z.abs z = 0)) as [->|]; [vm_compute; done|].
  apply (Z.log2_spec (Z.abs z)). lia.
Qed.

(** [SetBytes] inverts [Bytes] up to the sign. *)
Lemma SetBytes_Bytes z : big_SetBytes (big_Bytes z) = Z.abs z.
Proof. apply le_bytes_value, abs_fuel. Qed.

Lemma le_bytes_last fuel z x l :
  0 <= z < 2 ^ Z.of_nat fuel -> rev (le_bytes fuel z) = x :: l -> b2z x ≠ 0.
Proof.
  revert z x l. induction fuel as [|f IH]; intros z x l Hz; simpl; [done|].
  rewrite Nat2Z.inj_succ, Z.pow_succ_r in Hz by lia.
  destruct (Z.leb_spec z 0); simpl; [done|].
  assert (0 <= z / 256 < 2 ^ Z.of_nat f).
  { split; [apply Z.div_pos; lia|]. apply Z.div_lt_upper_bound; lia. }
  destruct (rev (le_bytes f (z / 256))) as [|y r] eqn:E; simpl.
  - intros [= <- <-]. rewrite b2z_z2b.
    pose proof (le_bytes_value f (z / 256) ltac:(done)) as Hv.
    rewrite E in Hv. change (big_SetBytes []) with 0 in Hv.
    pose proof (Z.div_mod z 256). lia.
  - intros [= <- _]. by eapply IH.
Qed.

(** [Bytes] has no leading zero byte. *)
Lemma Bytes_no_lead z x l : big_Bytes z = x :: l -> b2z x ≠ 0.
Proof. apply le_bytes_last, abs_fuel. Qed.

Lemma SetBytes_nonzero x l : b2z x ≠ 0 -> 256 ^ zlen l <= big_SetBytes (x :: l).
Proof.
  intros. rewrite SetBytes_cons. pose proof (SetBytes_range l).
  pose proof (b2z_range x). nia.
Qed.

Lemma SetBytes_inj l k :
  zlen l = zlen k -> big_SetBytes l = big_SetBytes k -> l = k.
Proof.
  revert k. induction l as [|x l IH]; intros [|y k]; rewrite ?zlen_nil, ?zlen_cons;
    try (intros; lenlia); [done|].
  intros Hlen. rewrite !SetBytes_cons.
  assert (zlen k = zlen l) as Hk by lia.
  pose proof (SetBytes_range l). pose proof (SetBytes_range k). rewrite Hk in *.
  pose proof (b2z_range x). pose proof (b2z_range y). intros Heq.
  assert (b2z x = b2z y) as Hxy by nia.
  f_equal; [by apply b2z_inj|]. apply IH; [lia|]. nia.
Qed.

Lemma Bytes_SetBytes_minimal x l :
  b2z x ≠ 0 -> big_Bytes (big_SetBytes (x :: l)) = x :: l.
Proof.
  intros Hx. set (z := big_SetBytes (x :: l)).
  assert (0 <= z) by (apply SetBytes_range).
  pose proof (SetBytes_Bytes z) as Hv. rewrite Z.abs_eq in Hv by done.
  apply SetBytes_inj; [|done].
  pose proof (SetBytes_nonzero x l Hx). fold z in H0.
  pose proof (SetBytes_range (x :: l)) as Hr. fold z in Hr.
  assert (0 < 256 ^ zlen l) by (apply Z.pow_pos_nonneg; lenlia).
  destruct (big_Bytes z) as [|y r] eqn:E.
  - change (big_SetBytes []) with 0 in Hv. lia.
  - pose proof (SetBytes_nonzero y r (Bytes_no_lead _ _ _ E)).
    pose proof (SetBytes_range (y :: r)).
    rewrite !zlen_cons in *. rewrite Hv in *.
    assert (zlen r < 1 + zlen l) by (apply (Z.pow_lt_mono_r_iff 256); lenlia).
    assert (zlen l < 1 + zlen r) by (apply (Z.pow_lt_mono_r_iff 256); lenlia).
    lia.
Qed.

Lemma Bytes_zero : big_Bytes 0 = [].
Proof. reflexivity. Qed.

Lemma Bytes_nil z : big_Bytes z = [] <-> z = 0.
Proof.
  split; [|by intros ->]. intros E.
  pose proof (SetBytes_Bytes z) as H. rewrite E in H. change (big_SetBytes []) with 0 in H. lia.
Qed.

(** [n] bytes hold exactly the numbers below [256^n]. *)
Lemma Bytes_len_le z n : 0 <= n -> zlen (big_Bytes z) <= n <-> Z.abs z < 256 ^ n.
Proof.
  intros Hn. rewrite <-(SetBytes_Bytes z).
  destruct (big_Bytes z) as [|x l] eqn:E.
  - change (big_SetBytes []) with 0. rewrite zlen_nil.
    split; [|lia]. intros _. apply Z.pow_pos_nonneg; lia.
  - pose proof (SetBytes_nonzero x l (Bytes_no_lead _ _ _ E)) as Hlo.
    pose proof (SetBytes_range (x :: l)) as Hhi.
    rewrite zlen_cons in *. split; intros H.
    + eapply Z.lt_le_trans; [apply Hhi|]. apply Z.pow_le_mono_r; lia.
    + assert (zlen l < n); [|lia].
      apply (Z.pow_lt_mono_r_iff 256); [lia|lia|]. lia.
Qed.

Lemma Bytes_len_pos z : z ≠ 0 -> 1 <= zlen (big_Bytes z).
Proof.
  intros Hz. destruct (big_Bytes z) eqn:E; [by apply Bytes_nil in E|]. lenlia.
Qed.

Lemma Bytes_single b : b2z b ≠ 0 -> big_Bytes (b2z b) = [b].
Proof.
  intros Hb. replace (b2z b) with (big_SetBytes [b]).
  - by apply Bytes_SetBytes_minimal.
  - rewrite SetBytes_cons. change (big_SetBytes []) with 0.
    change (256 ^ zlen (@nil byte)) with 1. lia.
Qed.

Lemma BigMax_max x y : BigMax x y = Z.max x y.
Proof. unfold BigMax. destruct (Z.leb_spec x y); lia. Qed.

Lemma BigMin_min x y : BigMin x y = Z.min x y.
Proof. unfold BigMin. destruct (Z.leb_spec y x); lia. Qed.

(** [BigToBytes] keeps the value, in exactly [base/8] bytes when it fits. *)
Lemma BigToBytes_value num base : big_SetBytes (BigToBytes num base) = Z.abs num.
Proof.
  unfold BigToBytes. case_match; rewrite ?SetBytes_zeros; apply SetBytes_Bytes.
Qed.

Lemma BigToBytes_len num base :
  0 <= base -> Z.abs num < 256 ^ (Z.quot base 8) -> zlen (BigToBytes num base) = Z.quot base 8.
Proof.
  intros Hb H. assert (0 <= Z.quot base 8) by (apply Z.quot_pos; lia).
  apply Bytes_len_le in H; [|done]. unfold BigToBytes.
  destruct (Z.ltb_spec (Z.quot base 8) (zlen (big_Bytes num))); [lia|].
  unfold zeros. rewrite zlen_app, zlen_replicate. lenlia.
Qed.

Lemma pow_mod_pos_spec x y m : m ≠ 0 -> pow_mod_pos x y m = x ^ Zpos y `mod` m.
Proof.
  intros Hm. induction y as [y IH|y IH|]; simpl.
  - rewrite IH. replace (Zpos y~1) with (Zpos y + Zpos y + 1) by lia.
    rewrite !Z.pow_add_r, Z.pow_1_r by lia.
    rewrite <-Z.mul_mod by done. rewrite Z.mul_mod_idemp_r by done. f_equal. lia.
  - rewrite IH. replace (Zpos y~0) with (Zpos y + Zpos y) by lia.
    rewrite Z.pow_add_r by lia. by rewrite <-Z.mul_mod.
  - by rewrite Z.pow_1_r.
Qed.

Lemma big_Exp_mod x y m : 0 < m -> 0 <= y -> big_Exp x y m = x ^ y `mod` m.
Proof.
  intros Hm Hy. unfold big_Exp. rewrite (proj2 (Z.eqb_neq m 0)) by lia.
  destruct y as [|p|p]; [|rewrite pow_mod_pos_spec|]; rewrite ?Z.abs_eq by lia; [done| |lia|lia].
  done.
Qed.

Lemma BigPow_pow a b : 0 <= b -> BigPow a b = a ^ b.
Proof.
  intros. unfold BigPow, big_Exp. rewrite Z.eqb_refl.
  destruct (Z.leb_spec b 0); [|done]. by replace b with 0 by lia.
Qed.
