(* ===== verification/Bytes.v ===== *)
(** [ethutil/bytes.go]: padding, hex, and the conversions between byte slices
    and numbers that the RLP decoder and the wire protocol rely on.  Strings
    are byte lists; [asc] writes an ASCII literal. *)

From S2P Require Import Prelude GoVal Big.

(** An ASCII literal as a byte string. *)
Definition asc (s : string) : bytes := String.list_byte_of_string s.

(** * Padding *)

(** ethutil/bytes.go, RightPadBytes. *)
Definition RightPadBytes (slice : bytes) (l : Z) : bytes :=
  if l <? zlen slice then slice else slice ++ zeros (l - zlen slice).

(** ethutil/bytes.go, LeftPadBytes. *)
Definition LeftPadBytes (slice : bytes) (l : Z) : bytes :=
  if l <? zlen slice then slice else zeros (l - zlen slice) ++ slice.

(** ethutil/bytes.go, CopyBytes. *)
Definition CopyBytes (b : bytes) : bytes := b.

(** ethutil/bytes.go, Address. An address is always twenty bytes. *)
Definition Address (slice : bytes) : bytes :=
  CopyBytes (if zlen slice <? 20 then LeftPadBytes slice 20
             else if 20 <? zlen slice then drop (Z.to_nat (zlen slice - 20)) slice
             else slice).

(** ethutil/bytes.go, ByteSliceToInterface. *)
Definition ByteSliceToInterface (slice : list bytes) : list goval := map VBytes slice.

(** * Numbers *)

(** The [n] big-endian bytes of [z] (two's complement), as
    [binary.Write(buf, binary.BigEndian, z)] emits them. *)
Fixpoint be_fixed (n : nat) (z : Z) : bytes :=
  match n with
  | O => []
  | S n => be_fixed n (z / 256) ++ [z2b z]
  end.

(** ethutil/bytes.go, NumberToBytes. [binary.Write] fails, and leaves the buffer empty,
    on anything but a fixed-size number. *)
Definition NumberToBytes (num : goval) (bits : Z) : outcome bytes :=
  let buf := match num with
             | VInt k z => match kind_bytes k with
                           | Some n => be_fixed (Z.to_nat n) z
                           | None => []
                           end
             | _ => []
             end in
  slice buf (zlen buf - Z.quot bits 8) (zlen buf).

(** ethutil/bytes.go, BytesToNumber. The buffer is [len(b)] zeros followed by [b], and
    its first eight bytes are read; [data[:len(b)]] panics past eight, and a
    buffer shorter than eight bytes makes the read fail. *)
Definition BytesToNumber (b : bytes) : outcome Z :=
  if 8 <? zlen b then Panic
  else let data := zeros (zlen b) ++ b in
       if zlen data <? 8 then Ret 0 else Ret (big_SetBytes (take 8 data)).

(** ethutil/bytes.go, ReadVarInt. *)
Definition ReadVarInt (buff : bytes) : Z :=
  let l := zlen buff in
  if 4 <? l then big_SetBytes (take 8 (LeftPadBytes buff 8))
  else if 2 <? l then big_SetBytes (take 4 (LeftPadBytes buff 4))
  else if 1 <? l then big_SetBytes (take 2 (LeftPadBytes buff 2))
  else big_SetBytes (take 1 buff).

(** ethutil/bytes.go, BinaryLength. The shift is arithmetic, so a negative number never
    reaches zero. *)
Fixpoint BinaryLength (fuel : nat) (num : Z) : outcome Z :=
  match fuel with
  | O => NoFuel
  | S f => if num =? 0 then Ret 0 else n ← BinaryLength f (Z.shiftr num 8); Ret (1 + n)
  end.

(** * Hex *)

Definition hexdigit (n : Z) : byte := z2b (if n <? 10 then 48 + n else 87 + n).

(** Decimal and hexadecimal digits of a number, as [fmt] prints it. *)
Fixpoint digits (fuel : nat) (base z : Z) : bytes :=
  match fuel with
  | O => []
  | S f => (if z <? base then [] else digits f base (z / base)) ++ [hexdigit (z `mod` base)]
  end.

Definition decimal (z : Z) : bytes :=
  (if z <? 0 then [x2d] else []) ++ digits (S (Z.to_nat (Z.log2 (Z.abs z)))) 10 (Z.abs z).
Definition hexadecimal (z : Z) : bytes := digits (S (Z.to_nat (Z.log2 z))) 16 z.

Definition unhex (c : byte) : option Z :=
  let z := b2z c in
  if (48 <=? z) && (z <=? 57) then Some (z - 48)
  else if (97 <=? z) && (z <=? 102) then Some (z - 87)
  else if (65 <=? z) && (z <=? 70) then Some (z - 55)
  else None.

(** ethutil/bytes.go, Bytes2Hex. [hex.EncodeToString]. *)
Definition Bytes2Hex (d : bytes) : bytes :=
  b ← d; [hexdigit (b2z b / 16); hexdigit (b2z b `mod` 16)].

(** [hex.DecodeString] on well-formed input. *)
Fixpoint hex_decode (s : bytes) : option bytes :=
  match s with
  | [] => Some []
  | [_] => None
  | a :: b :: r => x ← unhex a; y ← unhex b; t ← hex_decode r; Some (z2b (16 * x + y) :: t)
  end.

(** ethutil/bytes.go, Hex2Bytes. The error is dropped; a malformed string gives no
    bytes. *)
Definition Hex2Bytes (str : bytes) : bytes := default [] (hex_decode str).

(** ethutil/bytes.go, IsHex. *)
Definition IsHex (str : bytes) : bool :=
  let l := zlen str in
  (4 <=? l) && (l `mod` 2 =? 0) && bool_decide (take 2 str = asc "0x").

(** ethutil/bytes.go, StringToByteFunc. *)
Definition StringToByteFunc (str : bytes) (cb : bytes -> outcome bytes) : outcome bytes :=
  if (1 <? zlen str) && bool_decide (take 2 str = asc "0x") && negb (bool_decide (x0a ∈ str))
  then Ret (Hex2Bytes (drop 2 str)) else cb str.

(** ethutil/bytes.go, ParseData. *)
Definition ParseData (data : list goval) : bytes :=
  item ← data;
  match item with
  | VStr t => RightPadBytes (if IsHex t then Hex2Bytes (drop 2 t) else t) 32
  | VBytes t => LeftPadBytes t 32
  | _ => []
  end.

(** ethutil/bytes.go, LeftPadString. The zeros come in pairs of hex digits. *)
Definition LeftPadString (str : bytes) (l : Z) : bytes :=
  if l <? zlen str then str else Bytes2Hex (zeros ((l - zlen str) / 2)) ++ str.

(** ethutil/bytes.go, RightPadString. *)
Definition RightPadString (str : bytes) (l : Z) : bytes :=
  if l <? zlen str then str else str ++ Bytes2Hex (zeros ((l - zlen str) / 2)).

(** * Lemmas *)

Lemma zlen_zeros n : zlen (zeros n) = Z.max 0 n.
Proof. unfold zeros. rewrite zlen_replicate. lia. Qed.
#[export] Hint Rewrite zlen_zeros : zlen.

Lemma LeftPadBytes_len s l : zlen (LeftPadBytes s l) = Z.max l (zlen s).
Proof. unfold LeftPadBytes. destruct (Z.ltb_spec l (zlen s)); lenlia. Qed.

Lemma RightPadBytes_len s l : zlen (RightPadBytes s l) = Z.max l (zlen s).
Proof. unfold RightPadBytes. destruct (Z.ltb_spec l (zlen s)); lenlia. Qed.

Lemma LeftPadBytes_value s l : big_SetBytes (LeftPadBytes s l) = big_SetBytes s.
Proof. unfold LeftPadBytes. case_match; [done|]. apply SetBytes_zeros. Qed.

Lemma Address_len s : zlen (Address s) = 20.
Proof.
  unfold Address, CopyBytes. destruct (Z.ltb_spec (zlen s) 20).
  - rewrite LeftPadBytes_len. lia.
  - destruct (Z.ltb_spec 20 (zlen s)); [|lia]. lenlia.
Qed.

Lemma Address_id s : zlen s = 20 -> Address s = s.
Proof.
  intros H. unfold Address, CopyBytes.
  destruct (Z.ltb_spec (zlen s) 20); [lia|]. by destruct (Z.ltb_spec 20 (zlen s)); [lia|].
Qed.

Lemma take_zlen_all (b : bytes) n : zlen b <= Z.of_nat n -> take n b = b.
Proof. intros. apply take_ge. unfold zlen in *. lia. Qed.

(** Up to eight bytes are read as one big-endian number. *)
Lemma ReadVarInt_value b : zlen b <= 8 -> ReadVarInt b = big_SetBytes b.
Proof.
  intros Hb. unfold ReadVarInt.
  destruct (Z.ltb_spec 4 (zlen b)), (Z.ltb_spec 2 (zlen b)), (Z.ltb_spec 1 (zlen b));
    try lia; rewrite take_zlen_all by (rewrite ?LeftPadBytes_len; lia);
    rewrite ?LeftPadBytes_value; done.
Qed.

Lemma ReadVarInt_range b : 0 <= ReadVarInt b < 2 ^ 64.
Proof.
  assert (∀ (l : bytes) n, (n <= 8)%nat -> 0 <= big_SetBytes (take n l) < 2 ^ 64) as H.
  { intros l n Hn. pose proof (SetBytes_range (take n l)) as Hr.
    split; [lia|]. eapply Z.lt_le_trans; [apply Hr|].
    change (2 ^ 64) with (256 ^ 8). apply Z.pow_le_mono_r; lenlia. }
  unfold ReadVarInt. repeat case_match; apply H; lia.
Qed.

Lemma zlen_be_fixed n z : zlen (be_fixed n z) = Z.of_nat n.
Proof.
  revert z. induction n as [|n IH]; intros z; [done|].
  simpl be_fixed. rewrite zlen_app, IH. lenlia.
Qed.

Lemma be_fixed_value n z : big_SetBytes (be_fixed n z) = z `mod` 256 ^ Z.of_nat n.
Proof.
  revert z. induction n as [|n IH]; intros z; [by rewrite Z.mod_1_r|].
  simpl be_fixed. rewrite SetBytes_app, IH, SetBytes_cons, b2z_z2b.
  change (big_SetBytes []) with 0. change (256 ^ zlen (@nil byte)) with 1.
  change (256 ^ zlen [z2b z]) with 256.
  rewrite Nat2Z.inj_succ, Z.pow_succ_r by lia.
  rewrite Z.rem_mul_r by (try apply Z.pow_nonzero; lia). lia.
Qed.

(** The four-byte length field of the wire protocol: what [NumberToBytes]
    writes, [BytesToNumber] reads back. *)
Lemma BytesToNumber_four b : zlen b = 4 -> BytesToNumber b = Ret (big_SetBytes b).
Proof.
  intros Hb. unfold BytesToNumber. destruct (Z.ltb_spec 8 (zlen b)); [lia|].
  destruct (Z.ltb_spec (zlen (zeros (zlen b) ++ b)) 8); [lenlia|].
  rewrite take_zlen_all by lenlia. by rewrite SetBytes_zeros.
Qed.

Lemma NumberToBytes_u32 z :
  NumberToBytes (VInt Kuint32 z) 32 = Ret (be_fixed 4 z).
Proof.
  unfold NumberToBytes. simpl kind_bytes. cbn iota zeta.
  change (Z.to_nat 4) with 4%nat. change (Z.quot 32 8) with 4.
  rewrite zlen_be_fixed. change (Z.of_nat 4 - 4) with 0.
  apply slice_Ret. rewrite zlen_be_fixed.
  repeat split; lia.
Qed.

(** A four-byte field is the only one read back correctly: an eight-byte field
    of any content reads as zero. *)
Lemma BytesToNumber_eight b : zlen b = 8 -> BytesToNumber b = Ret 0.
Proof.
  intros Hb. unfold BytesToNumber. destruct (Z.ltb_spec 8 (zlen b)); [lia|].
  destruct (Z.ltb_spec (zlen (zeros (zlen b) ++ b)) 8); [lenlia|].
  rewrite take_app_le by (unfold zeros; rewrite length_replicate; lia).
  rewrite Hb. reflexivity.
Qed.

Lemma unhex_hexdigit n : 0 <= n < 16 -> unhex (hexdigit n) = Some n.
Proof.
  intros H. unfold hexdigit.
  assert (n = 0 ∨ n = 1 ∨ n = 2 ∨ n = 3 ∨ n = 4 ∨ n = 5 ∨ n = 6 ∨ n = 7 ∨ n = 8 ∨ n = 9
    ∨ n = 10 ∨ n = 11 ∨ n = 12 ∨ n = 13 ∨ n = 14 ∨ n = 15) as Hn by lia.
  destruct_or! Hn; subst; reflexivity.
Qed.

Lemma Bytes2Hex_cons b d :
  Bytes2Hex (b :: d) = hexdigit (b2z b / 16) :: hexdigit (b2z b `mod` 16) :: Bytes2Hex d.
Proof. done. Qed.

Lemma Bytes2Hex_len b : zlen (Bytes2Hex b) = 2 * zlen b.
Proof. induction b as [|c b IH]; [done|]. rewrite Bytes2Hex_cons, !zlen_cons, IH. lia. Qed.

Lemma nibbles_byte b : z2b (16 * (b2z b / 16) + b2z b `mod` 16) = b.
Proof. rewrite <-Z.div_mod by lia. apply z2b_b2z. Qed.

Lemma nibble_hi b : 0 <= b2z b / 16 < 16.
Proof. pose proof (b2z_range b). split; [apply Z.div_pos|apply Z.div_lt_upper_bound]; lia. Qed.

Lemma nibble_lo b : 0 <= b2z b `mod` 16 < 16.
Proof. apply Z.mod_pos_bound. lia. Qed.

#[export] Hint Resolve nibble_hi nibble_lo : nibble.

Lemma hex_decode_encode d : hex_decode (Bytes2Hex d) = Some d.
Proof.
  induction d as [|b d IH]; [done|]. rewrite Bytes2Hex_cons. simpl.
  rewrite !unhex_hexdigit by auto with nibble. simpl. rewrite IH. simpl.
  by rewrite nibbles_byte.
Qed.

Lemma Hex2Bytes_Bytes2Hex d : Hex2Bytes (Bytes2Hex d) = d.
Proof. unfold Hex2Bytes. by rewrite hex_decode_encode. Qed.

(** [BinaryLength] of a non-negative number terminates with its byte length. *)
Lemma BinaryLength_spec fuel z :
  0 <= z < 256 ^ Z.of_nat fuel ->
  BinaryLength (S fuel) z = Ret (zlen (big_Bytes z)).
Proof.
  revert z. induction fuel as [|f IH]; intros z Hz.
  - change (256 ^ Z.of_nat 0) with 1 in Hz. by replace z with 0 by lia.
  - rewrite Nat2Z.inj_succ, Z.pow_succ_r in Hz by lia.
    cbn [BinaryLength]. destruct (Z.eqb_spec z 0) as [->|]; [done|].
    rewrite Z.shiftr_div_pow2 by lia. change (2 ^ 8) with 256.
    assert (0 <= z / 256) by (apply Z.div_pos; lia).
    assert (z / 256 < 256 ^ Z.of_nat f) by (apply Z.div_lt_upper_bound; lia).
    specialize (IH (z / 256) ltac:(lia)). cbn [BinaryLength] in IH.
    rewrite IH. simpl. f_equal.
    enough (∀ m, 0 <= m -> zlen (big_Bytes z) <= 1 + m <-> zlen (big_Bytes (z / 256)) <= m) as H1.
    { pose proof (Bytes_len_pos z ltac:(lia)).
      pose proof (zlen_nonneg (big_Bytes (z / 256))).
      pose proof (H1 (zlen (big_Bytes z) - 1)). pose proof (H1 (zlen (big_Bytes (z / 256)))). lia. }
    intros m Hm. rewrite !Bytes_len_le, !Z.abs_eq, Z.pow_add_r by lia.
    split; intros; [apply Z.div_lt_upper_bound; lia|].
    pose proof (Z.div_mod z 256). pose proof (Z.mod_pos_bound z 256). nia.
Qed.
