(* ===== verification/Errors.v ===== *)
(** The error values of the program: [ethstate/errors.go] and
    [ethchain/error.go].  The two packages each declare a type [GasLimitErr];
    they are different types, so a type test of one package does not recognise
    the other's. *)

From S2P Require Import Prelude GoVal Big Bytes.

(** ethchain/error.go 10-98, ParentErr. The error types; [Errorf] is an error
    made with [fmt.Errorf], [StateGasLimitErr] the type of package [ethstate]. *)
Inductive error :=
| Errorf (Message : bytes)
| ParentErr (Message : bytes)
| ValidationErr (Message : bytes)
| GasLimitErr (Message : bytes) (Is Max : Z)
| NonceErr (Message : bytes) (Is Exp : Z)
| OutOfGasErr (Message : bytes)
| StateGasLimitErr (Message : bytes) (Is Max : Z).

#[export] Instance error_eq_dec : EqDecision error.
Proof. solve_decision. Defined.

(** ethchain/error.go, ParentErr.Error. All the types answer with their message. *)
Definition Error (e : error) : bytes :=
  match e with
  | Errorf m | ParentErr m | ValidationErr m | OutOfGasErr m
  | GasLimitErr m _ _ | NonceErr m _ _ | StateGasLimitErr m _ _ => m
  end.

(** ethchain/error.go, ParentError. *)
Definition ParentError (hash : bytes) : error :=
  ParentErr (asc "Block's parent unkown " ++ Bytes2Hex hash).

(** ethchain/error.go, IsParentErr. *)
Definition IsParentErr (err : error) : bool := match err with ParentErr _ => true | _ => false end.

(** ethchain/error.go, ValidationError. The formatted message. *)
Definition ValidationError (msg : bytes) : error := ValidationErr msg.

(** ethchain/error.go, IsValidationErr. *)
Definition IsValidationErr (err : error) : bool :=
  match err with ValidationErr _ => true | _ => false end.

Definition gas_limit_message (cur max : Z) : bytes :=
  asc "GasLimit error. Max " ++ decimal max ++ asc ", transaction would take it to " ++ decimal cur.

(** ethchain/error.go, GasLimitError. *)
Definition GasLimitError (cur max : Z) : error := GasLimitErr (gas_limit_message cur max) cur max.

(** ethchain/error.go, IsGasLimitErr. *)
Definition IsGasLimitErr (err : error) : bool :=
  match err with GasLimitErr _ _ _ => true | _ => false end.

(** ethstate/errors.go, GasLimitError. *)
Definition StateGasLimitError (cur max : Z) : error :=
  StateGasLimitErr (gas_limit_message cur max) cur max.

(** ethstate/errors.go, IsGasLimitErr. *)
Definition IsStateGasLimitErr (err : error) : bool :=
  match err with StateGasLimitErr _ _ _ => true | _ => false end.

(** ethchain/error.go, NonceError. *)
Definition NonceError (cur exp : Z) : error :=
  NonceErr (asc "Nonce err. Is " ++ decimal cur ++ asc ", expected " ++ decimal exp) cur exp.

(** ethchain/error.go, IsNonceErr. *)
Definition IsNonceErr (err : error) : bool :=
  match err with NonceErr _ _ _ => true | _ => false end.

(** ethchain/error.go, OutOfGasError. *)
Definition OutOfGasError : error := OutOfGasErr (asc "Out of gas").

(** ethchain/error.go, IsOutOfGasErr. *)
Definition IsOutOfGasErr (err : error) : bool :=
  match err with OutOfGasErr _ => true | _ => false end.
