(* ===== verification/Rlp.v ===== *)
(** [ethutil/rlp.go]: the RLP encoder and the two decoders.

    [Encode] is the encoder's type switch on an interface value.  [Decode]
    reads one item of a byte slice at a position; [spare] is what the backing
    array holds beyond the slice's length, because Go checks a reslice against
    the capacity and an index against the length.  The loop of a list header
    needs fuel; [Decode_no_fuel] shows how much is always enough.

    The abstract syntax [item] is what RLP can express: a byte string or a list
    of items.  [to_item] reads a Go value as an item, [enc] is the encoding of
    an item and [of_item] the value the decoder builds for it. *)

From S2P Require Import Prelude GoVal Big Bytes.

(** * The encoder *)

(** ethutil/rlp.go 127-138, Encode. The [[]byte] case. *)
Definition encode_bytes (t : bytes) : bytes :=
  if (zlen t =? 1) && forallb (λ c, b2z c <=? 0x7f) t then t
  else if zlen t <? 56 then z2b (zlen t + 0x80) :: t
  else let b := big_Bytes (zlen t) in z2b (zlen b + 0xb7) :: b ++ t.

(** ethutil/rlp.go 143-151, Encode. The inline [WriteSliceHeader]. *)
Definition WriteSliceHeader (len : Z) : bytes :=
  if len <? 56 then [z2b (len + 0xc0)]
  else let b := big_Bytes len in z2b (zlen b + 0xf7) :: b.

(** ethutil/rlp.go, Encode. Every integer kind goes through [int64]; a type
    without a case writes nothing. *)
Fixpoint Encode (object : goval) : bytes :=
  match object with
  | VNil => [xc0]
  | VVal v => Encode v
  | VInt _ t => encode_bytes (big_Bytes (s64 t))
  | VBig t => encode_bytes (big_Bytes t)
  | VNilBig => [xc0]
  | VBytes t => encode_bytes t
  | VStr t => encode_bytes t
  | VList t => let b := concat (map Encode t) in WriteSliceHeader (zlen b) ++ b
  | VRows _ | VStrs _ | VErr _ => []
  end.

(** * The position-based decoder *)

(** ethutil/rlp.go 190-205, Decode. The list loop: [i] counts the bytes read. *)
Fixpoint decode_loop (dec : Z -> outcome (goval * Z)) (fuel : nat) (b i pos : Z)
    (slice : list goval) : outcome (list goval * Z) :=
  if i <? b then
    match fuel with
    | O => NoFuel
    | S n =>
        '(obj, prevPos) ← dec pos;
        decode_loop dec n b (u64 (i + (prevPos - pos))) prevPos (slice ++ [obj])
    end
  else Ret (slice, pos).

(** ethutil/rlp.go, Decode. *)
Fixpoint Decode (fuel : nat) (data spare : bytes) (pos : Z) : outcome (goval * Z) :=
  match fuel with
  | O => NoFuel
  | S f =>
      c ← index data pos;
      let char := b2z c in
      if char <=? 0x7f then Ret (VInt Kuint8 char, pos + 1)
      else if char <=? 0xb7 then
        let b := char - 0x80 in
        d ← slice (data ++ spare) (pos + 1) (pos + 1 + b);
        Ret (VBytes d, pos + 1 + b)
      else if char <=? 0xbf then
        let b := char - 0xb7 in
        lb ← slice (data ++ spare) (pos + 1) (pos + 1 + b);
        let b2 := ReadVarInt lb in
        d ← slice (data ++ spare) (pos + 1 + b) (u64 (pos + 1 + b + b2));
        Ret (VBytes d, u64 (pos + 1 + b + b2))
      else if char <=? 0xf7 then
        let b := char - 0xc0 in
        '(l, p) ← decode_loop (Decode f data spare) (S (length data)) b 0 (pos + 1) [];
        Ret (VList l, p)
      else
        let l := char - 0xf7 in
        lb ← slice (data ++ spare) (pos + 1) (pos + 1 + l);
        let b := ReadVarInt lb in
        '(l', p) ← decode_loop (Decode f data spare) (S (length data)) b 0 (pos + l + 1) [];
        Ret (VList l', p)
  end.

(** [Decode] of a whole slice whose capacity is its length, with enough fuel. *)
Definition Decode0 (data : bytes) : outcome (goval * Z) :=
  Decode (S (length data)) data [] 0.

(** * The reader-based decoder *)

(** ethutil/rlp.go, Char. [rlpEof] is -1. *)
Definition Char (c : bytes) : Z := match c with [] => -1 | x :: _ => b2z x end.

(** [bytes.Buffer.Next(n)]: at most [n] bytes, fewer at the end of the buffer. *)
Definition reader_Next (r : bytes) (n : Z) : outcome (bytes * bytes) :=
  if n <? 0 then Panic else Ret (take (Z.to_nat n) r, drop (Z.to_nat n) r).

(** ethutil/rlp.go 63-78, DecodeWithReader. The list loops, which count items. *)
Fixpoint read_loop (dec : bytes -> outcome (goval * bytes)) (fuel : nat) (len i : Z)
    (r : bytes) (slice : list goval) : outcome (list goval * bytes) :=
  if i <? len then
    match fuel with
    | O => NoFuel
    | S n => '(obj, r') ← dec r; read_loop dec n len (i + 1) r' (slice ++ [obj])
    end
  else Ret (slice, r).

(** ethutil/rlp.go, DecodeWithReader. *)
Fixpoint DecodeWithReader (fuel : nat) (reader : bytes) : outcome (goval * bytes) :=
  match fuel with
  | O => NoFuel
  | S f =>
      '(c, r) ← reader_Next reader 1;
      let char := Char c in
      if char <=? 0x7f then Ret (VInt Kint char, r)
      else if char <=? 0xb7 then
        '(d, r') ← reader_Next r (char - 0x80); Ret (VBytes d, r')
      else if char <=? 0xbf then
        '(lb, r') ← reader_Next r (char - 0xb7);
        '(d, r'') ← reader_Next r' (s64 (ReadVarInt lb)); Ret (VBytes d, r'')
      else if char <=? 0xf7 then
        '(l, r') ← read_loop (DecodeWithReader f) f (char - 0xc0) 0 r [];
        Ret (VList l, r')
      else
        '(lb, r') ← reader_Next r (char - 0xf7);
        '(l, r'') ← read_loop (DecodeWithReader f) f (ReadVarInt lb) 0 r' [];
        Ret (VList l, r'')
  end.

(** * RLP items *)

Inductive item :=
| RStr (b : bytes)
| RList (l : list item).

Section item_ind.
  Variable P : item -> Prop.
  Hypothesis Hstr : ∀ b, P (RStr b).
  Hypothesis Hlist : ∀ l, Forall P l -> P (RList l).

Fixpoint item_ind' (it : item) : P it :=
    match it with
    | RStr b => Hstr b
    | RList l => Hlist l ((fix go (l : list item) : Forall P l :=
        match l with
        | [] => Forall_nil_2 P
        | x :: r => Forall_cons_2 P x r (item_ind' x) (go r)
        end) l)
    end.
End item_ind.

Fixpoint enc (it : item) : bytes :=
  match it with
  | RStr b => encode_bytes b
  | RList l => let b := concat (map enc l) in WriteSliceHeader (zlen b) ++ b
  end.

(** What the decoder builds: a single byte up to 0x7f is a [byte], any other
    string a [[]byte]. *)
Definition of_str (b : bytes) : goval :=
  match b with
  | [x] => if b2z x <=? 0x7f then VByte x else VBytes b
  | _ => VBytes b
  end.

Fixpoint of_item (it : item) : goval :=
  match it with
  | RStr b => of_str b
  | RList l => VList (map of_item l)
  end.

(** The item a Go value is encoded as; [None] where the encoder writes nothing. *)
Fixpoint to_item (v : goval) : option item :=
  match v with
  | VNil | VNilBig => Some (RList [])
  | VVal v => to_item v
  | VInt _ z => Some (RStr (big_Bytes (s64 z)))
  | VBig z => Some (RStr (big_Bytes z))
  | VBytes b | VStr b => Some (RStr b)
  | VList l =>
      RList <$> (fix go (l : list goval) : option (list item) :=
        match l with
        | [] => Some []
        | v :: r => i ← to_item v; its ← go r; Some (i :: its)
        end) l
  | VRows _ | VStrs _ | VErr _ => None
  end.

Lemma to_item_list l : to_item (VList l) = RList <$> mapM to_item l.
Proof. done. Qed.

(** * Lemmas: shape of the encoding *)

Lemma enc_list l : enc (RList l) = WriteSliceHeader (zlen (concat (map enc l))) ++ concat (map enc l).
Proof. done. Qed.

Lemma Encode_item v it : to_item v = Some it -> Encode v = enc it.
Proof.
  revert it. induction v as [| | | | | |l IH| | | |] using goval_ind'; intros it;
    try (intros [= <-]; reflexivity); try discriminate; [|by apply IHv].
  rewrite to_item_list, fmap_Some. intros (its & His & ->).
  enough (concat (map Encode l) = concat (map enc its)) as He by (simpl; by rewrite He).
  apply mapM_Some in His. revert IH.
  induction His as [|v i l its Hv _ IHl]; intros IH; [done|].
  inversion IH as [|?? Hve Hle]; subst. simpl. by rewrite (Hve i Hv), IHl.
Qed.

Lemma b2z_z2b_id z : 0 <= z < 256 -> b2z (z2b z) = z.
Proof. apply b2z_z2b_small. Qed.

(** Number of length bytes for a length below [2^64]. *)
Lemma len_bytes n : 56 <= n < 2 ^ 64 -> 1 <= zlen (big_Bytes n) <= 8.
Proof.
  intros Hn. split; [apply Bytes_len_pos; lia|].
  apply Bytes_len_le; [lia|]. rewrite Z.abs_eq by lia. change (256 ^ 8) with (2 ^ 64). lia.
Qed.

(** The four shapes of an encoded string, and the two of a list header. *)
Inductive str_shape (b : bytes) : bytes -> Prop :=
| shape_single x : b = [x] -> b2z x <= 0x7f -> str_shape b b
| shape_short : zlen b < 56 -> of_str b = VBytes b -> str_shape b (z2b (zlen b + 0x80) :: b)
| shape_long : 56 <= zlen b -> of_str b = VBytes b ->
    str_shape b (z2b (zlen (big_Bytes (zlen b)) + 0xb7) :: big_Bytes (zlen b) ++ b).

Lemma encode_bytes_shape b : str_shape b (encode_bytes b).
Proof.
  unfold encode_bytes. destruct (Z.eqb_spec (zlen b) 1) as [H1|H1]; simpl.
  - destruct b as [|x [|y b]]; rewrite ?zlen_cons in H1; [done| |exfalso; lenlia].
    simpl. rewrite andb_true_r. destruct (Z.leb_spec (b2z x) 127).
    + by apply shape_single with x.
    + destruct (Z.ltb_spec (zlen [x]) 56); [|lenlia].
      apply shape_short; [done|]. simpl. by destruct (Z.leb_spec (b2z x) 127); [lia|].
  - assert (of_str b = VBytes b) as Hb.
    { destruct b as [|x [|y b]]; [done|lenlia|done]. }
    destruct (Z.ltb_spec (zlen b) 56); [by apply shape_short|by apply shape_long].
Qed.

Lemma encode_bytes_pos b : 1 <= zlen (encode_bytes b).
Proof. destruct (encode_bytes_shape b); subst; lenlia. Qed.

Lemma header_pos n : 1 <= zlen (WriteSliceHeader n).
Proof. unfold WriteSliceHeader. case_match; lenlia. Qed.

Lemma enc_pos it : 1 <= zlen (enc it).
Proof.
  destruct it; [apply encode_bytes_pos|]. rewrite enc_list.
  pose proof (header_pos (zlen (concat (map enc l)))). lenlia.
Qed.

Lemma concat_enc_len l : zlen l <= zlen (concat (map enc l)).
Proof.
  induction l as [|it l IH]; [done|]. simpl. pose proof (enc_pos it). lenlia.
Qed.

(** * Lemmas: the decoder reads back what the encoder wrote *)

Lemma decode_str pre b post spare fuel :
  zlen b < 2 ^ 64 -> zlen pre + zlen (encode_bytes b) < 2 ^ 64 -> (0 < fuel)%nat ->
  Decode fuel (pre ++ encode_bytes b ++ post) spare (zlen pre)
  = Ret (of_str b, zlen pre + zlen (encode_bytes b)).
Proof.
  intros Hb Htot Hf. destruct fuel as [|f]; [lia|]. cbn [Decode].
  destruct (encode_bytes_shape b) as [x -> Hx|Hs Hv|Hl Hv].
  - simpl app. rewrite index_middle by done. cbn [mbind outcome_bind].
    unfold of_str. by rewrite (proj2 (Z.leb_le (b2z x) 127) Hx).
  - simpl app. rewrite index_middle by done. cbn [mbind outcome_bind].
    pose proof (zlen_nonneg b). rewrite b2z_z2b_id by lia.
    rewrite (proj2 (Z.leb_gt _ _)) by lia.
    destruct (Z.leb_spec (zlen b + 128) 0xb7); [|lia].
    slice_at (pre ++ [z2b (zlen b + 128)]) b (post ++ spare).
    rewrite Hv. do 2 f_equal. lenlia.
  - pose proof (len_bytes (zlen b) ltac:(lia)) as Hlb.
    assert (big_SetBytes (big_Bytes (zlen b)) = zlen b) as Hval
      by (rewrite SetBytes_Bytes; pose proof (zlen_nonneg b); lia).
    set (lb := big_Bytes (zlen b)) in *. set (h := z2b (zlen lb + 183)).
    simpl app. rewrite index_middle by done. cbn [mbind outcome_bind].
    unfold h. rewrite b2z_z2b_id by lia. fold h.
    rewrite !(proj2 (Z.leb_gt _ _)) by lia. simpl.
    destruct (Z.leb_spec (zlen lb + 0xb7) 0xbf); [|lia].
    rewrite zlen_cons, zlen_app in *.
    slice_at (pre ++ [h]) lb (b ++ post ++ spare).
    rewrite ReadVarInt_value, Hval by lia. rewrite u64_small by lenlia.
    slice_at (pre ++ [h] ++ lb) b (post ++ spare).
    rewrite Hv. do 2 f_equal. lenlia.
Qed.

(** The loop over the items of a list reads all of them and stops at the end. *)
Lemma decode_loop_items dec l : ∀ pre post fuel i acc,
  (∀ pre' it post', it ∈ l -> zlen post <= zlen post' ->
     pre ++ concat (map enc l) ++ post = pre' ++ enc it ++ post' ->
     dec (zlen pre') = Ret (of_item it, zlen pre' + zlen (enc it))) ->
  (length l <= fuel)%nat -> 0 <= i -> i + zlen (concat (map enc l)) < 2 ^ 64 ->
  decode_loop dec fuel (i + zlen (concat (map enc l))) i (zlen pre) acc
  = Ret (acc ++ map of_item l, zlen pre + zlen (concat (map enc l))).
Proof.
  induction l as [|it l IH]; intros pre post fuel i acc Hdec Hf Hi Hlim.
  - simpl in *. rewrite zlen_nil, !Z.add_0_r, app_nil_r.
    destruct fuel; simpl; by rewrite Z.ltb_irrefl.
  - simpl in Hf, Hlim, Hdec |- *. pose proof (enc_pos it).
    destruct fuel as [|fuel]; [lia|]. rewrite zlen_app in *. simpl.
    rewrite (proj2 (Z.ltb_lt _ _)) by lenlia.
    rewrite (Hdec pre it (concat (map enc l) ++ post)) 
      by first [set_solver | apps | lenlia]. simpl.
    rewrite u64_small by lenlia.
    replace (zlen pre + zlen (enc it)) with (zlen (pre ++ enc it)) by lenlia.
    replace (i + (zlen (pre ++ enc it) - zlen pre)) with (i + zlen (enc it)) by lenlia.
    rewrite (Z.add_assoc i).
    rewrite (IH (pre ++ enc it) post); [..|lia|lia|lenlia].
    + f_equal. f_equal; [by rewrite <-app_assoc|]. lenlia.
    + intros pre' it' post' Hit Hp Heq. apply (Hdec pre' it' post'); [set_solver|done|].
      rewrite <-Heq. apps.
Qed.

Arguments decode_loop : simpl never.

Lemma elem_enc_len it l : it ∈ l -> (length (enc it) <= length (concat (map enc l)))%nat.
Proof.
  induction 1 as [|it x l _ IH]; simpl; rewrite length_app; lia.
Qed.

Lemma header_len_pos n : (1 <= length (WriteSliceHeader n))%nat.
Proof. pose proof (header_pos n). unfold zlen in *. lia. Qed.

(** Decoding the encoding of an item, anywhere in a byte slice, gives the
    item's value and the position just after it. *)
Lemma decode_enc it : ∀ pre post spare fuel,
  zlen pre + zlen (enc it) < 2 ^ 64 -> (length (enc it) <= fuel)%nat ->
  Decode fuel (pre ++ enc it ++ post) spare (zlen pre)
  = Ret (of_item it, zlen pre + zlen (enc it)).
Proof.
  induction it as [b|l IH] using item_ind'; intros pre post spare fuel Hlim Hf.
  { apply decode_str; [|done|].
    - pose proof (zlen_nonneg pre). simpl in Hlim.
      destruct (encode_bytes_shape b); lenlia.
    - pose proof (enc_pos (RStr b)). unfold zlen in *. lia. }
  rewrite enc_list in *. set (body := concat (map enc l)) in *.
  rewrite length_app in Hf. pose proof (header_len_pos (zlen body)).
  destruct fuel as [|fuel]; [lia|].
  rewrite Forall_forall in IH.
  assert (∀ h data p fuel', data = pre ++ (h ++ body) ++ post -> p = zlen pre + zlen h ->
     (length body <= fuel')%nat -> zlen pre + zlen (h ++ body) < 2 ^ 64 ->
     decode_loop (Decode fuel' data spare) (S (length data)) (zlen body) 0 p []
     = Ret (map of_item l, zlen pre + zlen (h ++ body))) as Hloop.
  { intros h ? ? fuel' -> -> Hf' Hl'.
    replace (zlen pre + zlen h) with (zlen (pre ++ h)) by lenlia.
    replace (zlen body) with (0 + zlen body) by lia.
    rewrite (decode_loop_items _ l (pre ++ h) post).
    - f_equal. f_equal. fold body. lenlia.
    - fold body. intros pre' it post' Hit Hp Heq.
      replace (pre ++ (h ++ body) ++ post) with (pre' ++ enc it ++ post') by (rewrite <-Heq; apps).
      apply (f_equal zlen) in Heq.
      pose proof (elem_enc_len it l Hit). fold body in H0.
      apply IH; [done| |lia]. lenlia.
    - pose proof (concat_enc_len l) as Hc. fold body in Hc. clearbody body.
      rewrite !length_app. unfold zlen in *. lia.
    - lia.
    - fold body. lenlia. }
  cbn [Decode]. unfold WriteSliceHeader in *. destruct (Z.ltb_spec (zlen body) 56).
  - simpl app. rewrite index_middle by done. cbn [mbind outcome_bind].
    rewrite b2z_z2b_id by lenlia. rewrite !(proj2 (Z.leb_gt _ _)) by lenlia. simpl.
    destruct (Z.leb_spec (zlen body + 0xc0) 0xf7); [|lia].
    replace (zlen body + 192 - 192) with (zlen body) by lia.
    rewrite (Hloop [z2b (zlen body + 192)]); [done|apps|lenlia|simpl in Hf; lia|lenlia].
  - pose proof (len_bytes (zlen body) ltac:(lenlia)) as Hlb.
    assert (big_SetBytes (big_Bytes (zlen body)) = zlen body) as Hval
      by (rewrite SetBytes_Bytes; pose proof (zlen_nonneg body); lia).
    set (lb := big_Bytes (zlen body)) in *. set (h := z2b (zlen lb + 247)).
    simpl app. rewrite index_middle by done. cbn [mbind outcome_bind].
    unfold h. rewrite b2z_z2b_id by lia. fold h.
    rewrite !(proj2 (Z.leb_gt _ _)) by lia. simpl.
    slice_at (pre ++ [h]) lb (body ++ post ++ spare).
    rewrite ReadVarInt_value, Hval by lia.
    rewrite (Hloop (h :: lb)); [done|apps|lenlia|simpl in Hf; lia|lenlia].
Qed.

(** * Lemmas: the decoder always moves forward and needs bounded fuel *)

Lemma decode_loop_unfold dec fuel b i pos acc :
  decode_loop dec fuel b i pos acc =
  if i <? b then
    match fuel with
    | O => NoFuel
    | S n => '(obj, prevPos) ← dec pos;
             decode_loop dec n b (u64 (i + (prevPos - pos))) prevPos (acc ++ [obj])
    end
  else Ret (acc, pos).
Proof. by destruct fuel. Qed.

Lemma decode_loop_pos dec fuel : ∀ b i pos acc l p,
  (∀ q v p', pos <= q -> dec q = Ret (v, p') -> q < p') ->
  decode_loop dec fuel b i pos acc = Ret (l, p) -> pos <= p.
Proof.
  induction fuel as [|n IH]; intros b i pos acc l p Hdec; rewrite decode_loop_unfold; case_match;
    try discriminate; try (intros [= <- <-]; lia).
  intros H'. inv_bind H'. destruct a as [v p'].
  pose proof (Hdec pos v p' ltac:(lia) E).
  transitivity p'; [lia|]. eapply IH; [|exact H'].
  intros q w p'' Hq. apply Hdec. lia.
Qed.

(** A successful decode consumes at least one byte, and starts inside the data. *)
Lemma decode_pos fuel : ∀ data spare pos v p,
  Decode fuel data spare pos = Ret (v, p) -> 0 <= pos < p ∧ pos < zlen data.
Proof.
  induction fuel as [|f IH]; intros data spare pos v p H; [discriminate|].
  cbn [Decode] in H. inv_bind H. apply index_lt in E.
  assert (∀ q w p', pos <= q -> Decode f data spare q = Ret (w, p') -> q < p') as Hdec
    by (intros q w p' _ Hq; apply IH in Hq; lia).
  pose proof (b2z_range a) as Ha.
  enough (pos < p) by lia.
  destruct (Z.leb_spec (b2z a) 0x7f); [by injection H as <- <-; lia|].
  destruct (Z.leb_spec (b2z a) 0xb7).
  { inv_bind H. injection H as <- <-. lia. }
  destruct (Z.leb_spec (b2z a) 0xbf).
  { inv_bind H. inv_bind H. injection H as <- <-. apply slice_Ret in E1. lia. }
  destruct (Z.leb_spec (b2z a) 0xf7).
  { inv_bind H. destruct a0 as [l p0]. injection H as <- <-.
    apply decode_loop_pos in E0; [lia|]. intros q w p' Hq. apply Hdec. lia. }
  inv_bind H. inv_bind H. destruct a1 as [l p0]. injection H as <- <-.
  apply decode_loop_pos in E1; [lia|]. intros q w p' Hq. apply Hdec. lia.
Qed.

(** The types of the values that the decoder builds: a byte below 0x80, a
    byte slice, or a list of such values. *)
Inductive decoded : goval -> Prop :=
| decoded_byte z : 0 <= z < 128 -> decoded (VInt Kuint8 z)
| decoded_bytes b : decoded (VBytes b)
| decoded_list l : Forall decoded l -> decoded (VList l).

Lemma decode_loop_decoded dec fuel : ∀ b i pos acc l p,
  (∀ q v p', dec q = Ret (v, p') -> decoded v) -> Forall decoded acc ->
  decode_loop dec fuel b i pos acc = Ret (l, p) -> Forall decoded l.
Proof.
  induction fuel as [|n IH]; intros b i pos acc l p Hdec Hacc; rewrite decode_loop_unfold; case_match;
    try discriminate; try (by intros [= <- <-]).
  intros H'. inv_bind H'. destruct a as [v p']. eapply IH; [done| |exact H'].
  apply Forall_app. split; [done|]. constructor; [by eapply Hdec|done].
Qed.

Lemma Decode_decoded fuel : ∀ data spare pos v p, Decode fuel data spare pos = Ret (v, p) -> decoded v.
Proof.
  induction fuel as [|f IH]; intros data spare pos v p H; [discriminate|]. cbn [Decode] in H. inv_bind H.
  pose proof (b2z_range a) as Ha.
  assert (∀ b q l p, decode_loop (Decode f data spare) (S (length data)) b 0 q [] = Ret (l, p) -> Forall decoded l)
    as Hloop.
  { intros b q l p' Hl. eapply decode_loop_decoded; [|by constructor|exact Hl]. intros q' w p'' Hw. by eapply IH. }
  destruct (Z.leb_spec (b2z a) 0x7f); [injection H as <- <-; constructor; lia|].
  destruct (Z.leb_spec (b2z a) 0xb7); [inv_bind H; injection H as <- <-; constructor|].
  destruct (Z.leb_spec (b2z a) 0xbf); [do 2 inv_bind H; injection H as <- <-; constructor|].
  destruct (Z.leb_spec (b2z a) 0xf7).
  - inv_bind H. destruct a0 as [l p0]. injection H as <- <-. constructor. by eapply Hloop.
  - do 2 inv_bind H. destruct a1 as [l p0]. injection H as <- <-. constructor. by eapply Hloop.
Qed.

Lemma decoded_to_item v : decoded v -> ∃ it, to_item v = Some it.
Proof.
  induction v as [| | | | | |l IH| | | |] using goval_ind'; intros Hd; inversion Hd as [| |l' Hl]; subst; [by eexists..|].
  assert (∃ its, mapM to_item l = Some its) as [its Hits].
  { apply mapM_is_Some. apply Forall_forall. intros x Hx. rewrite Forall_forall in IH, Hl. exact (IH x Hx (Hl x Hx)). }
  exists (RList its). by rewrite to_item_list, Hits.
Qed.

Lemma decode_loop_fuel dec (n : Z) fuel : ∀ b i pos acc,
  (∀ q, pos <= q -> dec q ≠ NoFuel) ->
  (∀ q v p, pos <= q -> dec q = Ret (v, p) -> q < p ∧ q < n) ->
  n - pos < Z.of_nat fuel -> 0 < Z.of_nat fuel ->
  decode_loop dec fuel b i pos acc ≠ NoFuel.
Proof.
  induction fuel as [|k IH]; intros b i pos acc Hf Hp Hn Hk; [lia|].
  rewrite decode_loop_unfold. case_match; [|discriminate].
  destruct (dec pos) as [[v p]| |] eqn:E; simpl; [|discriminate|by apply Hf in E].
  apply Hp in E as [??]; [|lia]. destruct k as [|k]; [lia|].
  apply IH; [intros q Hq; apply Hf; lia|intros q w p' Hq; apply Hp; lia|lia|lia].
Qed.

Lemma decode_fuel fuel : ∀ data spare pos,
  0 <= pos -> zlen data - pos < Z.of_nat fuel -> (0 < fuel)%nat ->
  Decode fuel data spare pos ≠ NoFuel.
Proof.
  induction fuel as [|f IH]; intros data spare pos H0 Hd Hf; [lia|].
  cbn [Decode]. apply bind_fuel; [auto with fuel|]. intros a Ha.
  apply index_lt in Ha. pose proof (b2z_range a).
  assert (∀ b q, pos < q ->
    decode_loop (Decode f data spare) (S (length data)) b 0 q [] ≠ NoFuel) as Hloop.
  { intros b q Hq. apply decode_loop_fuel with (n := zlen data); [| |unfold zlen; lia|lia].
    - intros q' Hq'. destruct (decide (q' < zlen data)); [apply IH; lia|].
      destruct f; [lia|]. cbn [Decode]. unfold index.
      destruct (Z.ltb_spec q' (zlen data)); [lia|]. by rewrite andb_false_r.
    - intros q' v p Hq' Hret. apply decode_pos in Hret. lia. }
  repeat (case_match; [try discriminate|]);
    repeat (apply bind_fuel; [auto with fuel|intros]); try discriminate;
    try (case_match; discriminate).
  - apply Hloop. lia.
  - apply Hloop. lia.
Qed.

(** * Lemmas: canonical encodings *)

Lemma of_str_inj a b : of_str a = of_str b -> a = b.
Proof.
  unfold of_str. intros H. repeat case_match; simplify_eq; try done.
Qed.

Lemma of_item_inj a b : of_item a = of_item b -> a = b.
Proof.
  revert b. induction a as [x|l IH] using item_ind'; intros [y|k]; simpl.
  - by intros ->%of_str_inj.
  - unfold of_str. repeat case_match; discriminate.
  - unfold of_str. repeat case_match; discriminate.
  - intros [= H]. f_equal. revert k H.
    induction IH as [|i l Hi _ IHl]; intros [|j k]; simpl; try discriminate; [done|].
    intros [= ?%Hi ?%IHl]. by subst.
Qed.

(** The encoding determines the item. *)
Lemma enc_inj a b : zlen (enc a) < 2 ^ 64 -> enc a = enc b -> a = b.
Proof.
  intros Hlen Heq. apply of_item_inj.
  pose proof (decode_enc a [] [] [] _ ltac:(lenlia) (le_n _)) as Ha.
  pose proof (decode_enc b [] [] [] (length (enc a)) ltac:(rewrite <-Heq; lenlia)
    ltac:(rewrite Heq; lia)) as Hb.
  rewrite <-Heq in Hb. rewrite Ha in Hb. congruence.
Qed.

(** An item whose strings are never the single byte zero survives a trip
    through the decoder's value; [Encode] turns the byte zero into the empty
    string. *)
Fixpoint no_zero (it : item) : bool :=
  match it with
  | RStr b => bool_decide (b ≠ [x00])
  | RList l => forallb no_zero l
  end.

Lemma to_item_of_str b : b ≠ [x00] -> to_item (of_str b) = Some (RStr b).
Proof.
  intros Hb. unfold of_str. destruct b as [|x [|y b]]; [done| |done].
  destruct (Z.leb_spec (b2z x) 127); [|done]. simpl.
  pose proof (b2z_range x). rewrite s64_small by lia. rewrite Bytes_single; [done|].
  intros Hx. apply Hb. f_equal. by apply b2z_inj.
Qed.

Lemma to_item_of_item it : no_zero it = true -> to_item (of_item it) = Some it.
Proof.
  induction it as [b|l IH] using item_ind'; simpl no_zero.
  - intros ?%bool_decide_eq_true. by apply to_item_of_str.
  - intros H. change (of_item (RList l)) with (VList (map of_item l)).
    rewrite to_item_list, fmap_Some. exists l. split; [|done].
    induction IH as [|i l Hi _ IHl]; [done|]. simpl in *.
    apply andb_true_iff in H as [H1 H2]. rewrite Hi by done. simpl. by rewrite IHl.
Qed.

(** * Properties *)

(** C4. Round trip of the RLP codec: whatever Go value the encoder can encode
    (integers of every kind, big integers, strings, byte slices, nested lists),
    decoding the bytes it wrote, at any position of any larger slice and with
    any spare capacity behind it, gives the value of the encoded item and the
    position just after it. *)
Theorem Decode_Encode (v : goval) (it : item) (pre post spare : bytes) (fuel : nat) :
  to_item v = Some it ->
  zlen pre + zlen (Encode v) < 2 ^ 64 -> (length (Encode v) <= fuel)%nat ->
  Decode fuel (pre ++ Encode v ++ post) spare (zlen pre)
  = Ret (of_item it, zlen pre + zlen (Encode v)).
Proof. intros Hit. rewrite (Encode_item v it Hit). by apply decode_enc. Qed.

Lemma Decode_Encode_witness :
  Decode 100 ([x01] ++ Encode (VList [VInt Kuint64 1024; VStr (asc "dog"); VList []]) ++ [x02]) [] 1
  = Ret (VList [VBytes [x04; x00]; VBytes (asc "dog"); VList []], 10).
Proof.
  apply (Decode_Encode (VList [VInt Kuint64 1024; VStr (asc "dog"); VList []])
    (RList [RStr [x04; x00]; RStr (asc "dog"); RList []]) [x01] [x02] [] 100);
    vm_compute; [reflexivity|reflexivity|lia].
Defined.

(** Termination and progress of the decoder on arbitrary input: with fuel
    above the number of bytes left it always returns or panics (it never runs
    out), and when it returns it has read at least one byte of the data. *)
Theorem Decode_terminates (fuel : nat) (data spare : bytes) (pos : Z) :
  0 <= pos -> zlen data - pos < Z.of_nat fuel -> (0 < fuel)%nat ->
  Decode fuel data spare pos ≠ NoFuel ∧
  ∀ v p, Decode fuel data spare pos = Ret (v, p) -> pos < p ∧ pos < zlen data.
Proof.
  intros H0 Hd Hf. split; [by apply decode_fuel|].
  intros v p H. apply decode_pos in H. lia.
Qed.

Lemma Decode_terminates_witness :
  Decode 4 [xc8; x83; x01] [] 0 ≠ NoFuel ∧
  ∀ v p, Decode 4 [xc8; x83; x01] [] 0 = Ret (v, p) -> 0 < p ∧ 0 < 3.
Proof.
  apply (Decode_terminates 4 [xc8; x83; x01] [] 0); [lia|vm_compute; reflexivity|lia].
Defined.

(** The encoding is injective: two encodable values with the same bytes are
    the same RLP item, so hashes of encodings identify items. *)
Theorem Encode_injective (v w : goval) (a b : item) :
  to_item v = Some a -> to_item w = Some b -> zlen (Encode v) < 2 ^ 64 ->
  Encode v = Encode w -> a = b.
Proof.
  intros Ha Hb Hlen Heq. rewrite (Encode_item v a Ha) in *. rewrite (Encode_item w b Hb) in Heq.
  by apply enc_inj.
Qed.

Lemma Encode_injective_witness : RStr (asc "a") = RStr (asc "a").
Proof.
  apply (Encode_injective (VStr (asc "a")) (VInt Kint 97)); vm_compute; reflexivity.
Defined.

(** Re-encoding a decoded value gives the original bytes exactly as long as
    no string of the item is the single byte zero: that byte is decoded to the
    number 0, which the encoder writes as the empty string. *)
Theorem Encode_decoded (it : item) :
  (no_zero it = true -> Encode (of_item it) = enc it) ∧
  enc (RStr [x00]) = [x00] ∧ Decode0 [x00] = Ret (VByte x00, 1) ∧ Encode (VByte x00) = [x80].
Proof.
  split; [|done]. intros H. by apply Encode_item, to_item_of_item.
Qed.

Lemma Encode_decoded_witness : Encode (of_item (RList [RStr [x01]; RList []])) = [xc2; x01; xc0].
Proof. apply (Encode_decoded (RList [RStr [x01]; RList []])). reflexivity. Defined.

(** Every integer kind is converted to [int64] before it is encoded, so an
    unsigned number in the upper half of the 64-bit range is encoded as its
    distance to [2^64]: [2^64 - k] and [k] have the same encoding. *)
Theorem Encode_uint64_collision (k : Z) :
  0 < k <= 2 ^ 63 -> Encode (VInt Kuint64 (2 ^ 64 - k)) = Encode (VInt Kuint64 k).
Proof.
  intros Hk. simpl. f_equal.
  assert (big_Bytes (s64 (2 ^ 64 - k)) = big_Bytes (- k)) as ->.
  { f_equal. unfold s64, sgn. change (64 - 1) with 63.
    rewrite Z.mod_small by lia. destruct (Z.ltb_spec (2 ^ 64 - k) (2 ^ 63)); lia. }
  unfold big_Bytes. rewrite Z.abs_opp.
  destruct (decide (k = 2 ^ 63)) as [->|]; [done|]. by rewrite s64_small by lia.
Qed.

Lemma Encode_uint64_collision_witness :
  Encode (VInt Kuint64 18446744073709551615) = Encode (VInt Kuint64 1).
Proof. apply (Encode_uint64_collision 1). lia. Defined.
