(* ===== verification/Value.v ===== *)
(** [ethutil/value.go]: the dynamically typed [Value] that every decoded
    structure of the program is read through.  A [*Value] is represented by the
    interface value in its [Val] field (the [kind] field is never used);
    methods that assign to the receiver return the new content.  List values
    are taken to have no spare capacity. *)

From S2P Require Import Prelude GoVal Big Bytes Rlp.

(** ethutil/value.go, NewValue. A [*Value] is unwrapped. *)
Definition NewValue (val : goval) : goval :=
  match val with VVal v => v | _ => val end.

(** [reflect.Kind], as far as the program distinguishes kinds. *)
Inductive rkind := KSlice | KString | KPtr | KNumber.

#[export] Instance rkind_eq_dec : EqDecision rkind.
Proof. solve_decision. Defined.

(** ethutil/value.go, Value.Type. [reflect.TypeOf(nil).Kind()] panics. *)
Definition Value_Type (val : goval) : outcome rkind :=
  match val with
  | VNil => Panic
  | VStr _ => Ret KString
  | VBytes _ | VList _ | VRows _ | VStrs _ => Ret KSlice
  | VInt _ _ => Ret KNumber
  | VBig _ | VNilBig | VVal _ | VErr _ => Ret KPtr
  end.

(** ethutil/value.go, Value.IsNil. *)
Definition IsNil (val : goval) : bool := match val with VNil => true | _ => false end.

(** ethutil/value.go, Value.Bytes. *)
Definition Value_Bytes (val : goval) : bytes :=
  match val with
  | VBytes a => a
  | VInt Kuint8 s => [z2b s]
  | VStr s => s
  | VBig s => big_Bytes s
  | _ => []
  end.

(** ethutil/value.go, Value.Len. *)
Definition Value_Len (val : goval) : Z :=
  match val with
  | VList data => zlen data
  | _ => zlen (Value_Bytes val)
  end.

(** ethutil/value.go, Value.Raw. *)
Definition Value_Raw (val : goval) : goval := val.

(** ethutil/value.go, Value.Interface. *)
Definition Value_Interface (val : goval) : goval := val.

(** ethutil/value.go, Value.Uint. The signed fixed-size kinds have no case. *)
Definition Value_Uint (val : goval) : Z :=
  match val with
  | VInt (Kuint8 | Kuint16 | Kuint32 | Kuint64 | Kuint) z => z
  | VInt Kint z => u64 z
  | VBytes b => big_Uint64 (big_SetBytes b)
  | VBig z => big_Uint64 z
  | _ => 0
  end.

(** ethutil/value.go, Value.Int. The unsigned kinds have no case. *)
Definition Value_Int (val : goval) : Z :=
  match val with
  | VInt (Kint8 | Kint16 | Kint32 | Kint64 | Kint) z => z
  | VBytes b => big_Int64 (big_SetBytes b)
  | VBig z => big_Int64 z
  | _ => 0
  end.

(** ethutil/value.go, Value.Byte. *)
Definition Value_Byte (val : goval) : byte :=
  match val with VInt Kuint8 z => z2b z | _ => x00 end.

(** ethutil/value.go, Value.BigInt. *)
Definition Value_BigInt (val : goval) : Z :=
  match val with
  | VBytes a => big_SetBytes a
  | VBig a => a
  | _ => s64 (Value_Uint val)
  end.

(** [string(a)] of a byte [a] is the UTF-8 encoding of the code point [a]. *)
Definition rune_string (z : Z) : bytes :=
  if z <? 0x80 then [z2b z] else [z2b (0xc0 + z / 64); z2b (0x80 + z `mod` 64)].

(** ethutil/value.go, Value.Str. *)
Definition Value_Str (val : goval) : bytes :=
  match val with
  | VBytes a => a
  | VStr a => a
  | VInt Kuint8 a => rune_string a
  | _ => []
  end.

(** ethutil/value.go, Value.Err. *)
Definition Value_Err (val : goval) : option bytes :=
  match val with VErr e => Some e | _ => None end.

(** ethutil/value.go, Value.Slice. *)
Definition Value_Slice (val : goval) : list goval :=
  match val with VList d => d | _ => [] end.

(** ethutil/value.go, Value.SliceFrom. *)
Definition SliceFrom (val : goval) (from : Z) : outcome goval :=
  let s := Value_Slice val in
  d ← slice s from (zlen s); Ret (NewValue (VList d)).

(** ethutil/value.go, Value.SliceTo. *)
Definition SliceTo (val : goval) (to : Z) : outcome goval :=
  d ← slice (Value_Slice val) 0 to; Ret (NewValue (VList d)).

(** ethutil/value.go, Value.SliceFromTo. *)
Definition SliceFromTo (val : goval) (from to : Z) : outcome goval :=
  d ← slice (Value_Slice val) from to; Ret (NewValue (VList d)).

(** ethutil/value.go, Value.IsSlice. *)
Definition IsSlice (val : goval) : outcome bool :=
  t ← Value_Type val; Ret (bool_decide (t = KSlice)).

(** ethutil/value.go, Value.IsStr. *)
Definition IsStr (val : goval) : outcome bool :=
  t ← Value_Type val; Ret (bool_decide (t = KString)).

(** ethutil/value.go, Value.IsErr. *)
Definition IsErr (val : goval) : bool := bool_decide (is_Some (Value_Err val)).

(** ethutil/value.go, Value.IsList. *)
Definition IsList (val : goval) : bool := match val with VList _ => true | _ => false end.

(** ethutil/value.go, Value.IsEmpty. *)
Definition IsEmpty (val : goval) : outcome bool :=
  if IsNil val then Ret true
  else sl ← IsSlice val;
       st ← (if (sl : bool) then Ret true else IsStr val);
       Ret ((sl || st) && (Value_Len val =? 0)).

(** ethutil/value.go, Value.Get. Out of range, or not a list: nil. *)
Definition Get (val : goval) (idx : Z) : goval :=
  match val with
  | VList d =>
      if zlen d <=? idx then NewValue VNil
      else if idx <? 0 then NewValue VNil
      else match d !! Z.to_nat idx with Some x => NewValue x | None => NewValue VNil end
  | _ => NewValue VNil
  end.

(** ethutil/value.go, Value.Copy. Values are immutable here: the copy is equal. *)
Definition Value_Copy (self : goval) : goval :=
  match self with
  | VBig val => NewValue (VBig (BigCopy val))
  | VBytes val => NewValue (VBytes (CopyBytes val))
  | _ => NewValue self
  end.

(** ethutil/value.go, Value.Cmp. [reflect.DeepEqual]: the dynamic types count.
    (It also tells a nil slice from an empty one, and numbers by their internal form;
    values here have neither.) *)
Definition Value_Cmp (val o : goval) : bool := bool_decide (val = o).

(** ethutil/value.go, Value.DeepCmp. *)
Definition DeepCmp (self o : goval) : bool :=
  Value_Cmp (NewValue (VBig (Value_BigInt self))) (NewValue (VBig (Value_BigInt o))).

(** ethutil/value.go, Value.Encode. *)
Definition Value_Encode (val : goval) : bytes := Encode val.

(** ethutil/value.go, Value.Decode. *)
Definition Value_Decode (self : goval) : outcome goval :=
  '(v, _) ← Decode0 (Value_Bytes self); Ret v.

(** ethutil/value.go, NewValueFromBytes. *)
Definition NewValueFromBytes (data : bytes) : outcome goval :=
  if negb (zlen data =? 0) then Value_Decode (NewValue (VBytes data))
  else Ret (NewValue VNil).

(** ethutil/value.go, EmptyValue. *)
Definition EmptyValue : goval := NewValue (VList []).

(** ethutil/value.go, Value.Append. The new content of the receiver. *)
Definition Append (val v : goval) : goval := VList (Value_Slice val ++ [v]).

(** ethutil/value.go, Value.AppendList. The new content of the receiver and the
    appended, still empty, list (a [*Value] inside the interface). *)
Definition AppendList (val : goval) : goval * goval :=
  (VList (Value_Slice val ++ [VVal EmptyValue]), EmptyValue).

(** ethutil/value.go, NewSliceValue. *)
Definition NewSliceValue (s : goval) : goval :=
  match s with
  | VList l => fold_left Append l EmptyValue
  | VStrs l => fold_left (λ list val, Append list (VStr val)) l EmptyValue
  | _ => EmptyValue
  end.

(** ethutil/value.go 311-317, valOpAdd. *)
Inductive valOp := valOpAdd | valOpDiv | valOpMul | valOpPow | valOpSub.

(** ethutil/value.go, Value.doOp. Division by zero panics; [Exp] with the zero
    modulus is the plain power. *)
Definition doOp (self : goval) (op : valOp) (other : goval) : outcome goval :=
  let left := Value_BigInt self in
  let right := Value_BigInt (NewValue other) in
  match op with
  | valOpAdd => Ret (VBig (left + right))
  | valOpDiv => q ← big_Div left right; Ret (VBig q)
  | valOpMul => Ret (VBig (left * right))
  | valOpPow => Ret (VBig (big_Exp left right 0))
  | valOpSub => Ret (VBig (left - right))
  end.

(** ethutil/value.go, Value.Add. *)
Definition Value_Add (self other : goval) := doOp self valOpAdd other.
(** ethutil/value.go, Value.Sub. *)
Definition Value_Sub (self other : goval) := doOp self valOpSub other.
(** ethutil/value.go, Value.Div. *)
Definition Value_Div (self other : goval) := doOp self valOpDiv other.
(** ethutil/value.go, Value.Mul. *)
Definition Value_Mul (self other : goval) := doOp self valOpMul other.
(** ethutil/value.go, Value.Pow. *)
Definition Value_Pow (self other : goval) := doOp self valOpPow other.

(** ethutil/value.go, ValueIterator. *)
Record ValueIterator := {
  it_value : goval;
  it_currentValue : option goval;
  it_idx : Z;
}.

(** ethutil/value.go, Value.NewIterator. *)
Definition NewIterator (val : goval) : ValueIterator :=
  {| it_value := val; it_currentValue := None; it_idx := 0 |}.

(** ethutil/value.go, ValueIterator.Next. *)
Definition it_Next (it : ValueIterator) : bool * ValueIterator :=
  if Value_Len (it_value it) <=? it_idx it then (false, it)
  else (true, {| it_value := it_value it;
                 it_currentValue := Some (Get (it_value it) (it_idx it));
                 it_idx := it_idx it + 1 |}).

(** The loop [for it.Next() { ... it.Value() ... }]: the values it sees. *)
Fixpoint it_collect (fuel : nat) (it : ValueIterator) : outcome (list goval) :=
  match it_Next it with
  | (false, _) => Ret []
  | (true, it') =>
      match fuel with
      | O => NoFuel
      | S n => l ← it_collect n it'; Ret (default VNil (it_currentValue it') :: l)
      end
  end.

Definition Value_items (v : goval) : outcome (list goval) :=
  it_collect (Z.to_nat (Value_Len v)) (NewIterator v).

(** * Lemmas *)

Lemma Get_lookup l i x : 0 <= i -> l !! Z.to_nat i = Some x -> Get (VList l) i = NewValue x.
Proof.
  intros Hi Hx. pose proof (lookup_lt_Some _ _ _ Hx). unfold Get, zlen.
  destruct (Z.leb_spec (Z.of_nat (length l)) i); [lia|].
  destruct (Z.ltb_spec i 0); [lia|]. by rewrite Hx.
Qed.

Lemma Get_nat l (i : nat) x : l !! i = Some x -> Get (VList l) (Z.of_nat i) = NewValue x.
Proof. intros H. apply Get_lookup; [lia|]. by rewrite Nat2Z.id. Qed.

Lemma Get_out l i : i < 0 ∨ zlen l <= i -> Get (VList l) i = VNil.
Proof.
  intros H. unfold Get. destruct (Z.leb_spec (zlen l) i); [done|].
  destruct (Z.ltb_spec i 0); [done|lia].
Qed.

(** A decoded item answers [Bytes], [Str] and [Len] like the item itself. *)
Lemma Bytes_of_str b : Value_Bytes (of_str b) = b.
Proof.
  unfold of_str. destruct b as [|x [|y b]]; [done| |done]. case_match; [|done].
  simpl. by rewrite z2b_b2z.
Qed.

Lemma Str_of_str b : Value_Str (of_str b) = b.
Proof.
  unfold of_str. destruct b as [|x [|y b]]; [done| |done].
  destruct (Z.leb_spec (b2z x) 127); [|done]. unfold Value_Str, rune_string.
  destruct (Z.ltb_spec (b2z x) 128); [|lia]. by rewrite z2b_b2z.
Qed.

Lemma of_str_not_list b l : of_str b ≠ VList l.
Proof. unfold of_str. repeat case_match; discriminate. Qed.

Lemma Len_of_str b : Value_Len (of_str b) = zlen b.
Proof.
  rewrite <-(Bytes_of_str b) at 2. unfold of_str. by repeat case_match.
Qed.

Lemma BigInt_of_str b : Value_BigInt (of_str b) = big_SetBytes b.
Proof.
  unfold of_str. destruct b as [|x [|y b]]; [done| |done]. case_match; [|done].
  pose proof (b2z_range x). unfold Value_BigInt, Value_Uint. rewrite s64_small by lia.
  rewrite SetBytes_cons. change (big_SetBytes []) with 0.
  change (256 ^ zlen (@nil byte)) with 1. lia.
Qed.

Lemma Uint_of_str b : zlen b <= 8 -> Value_Uint (of_str b) = big_SetBytes b.
Proof.
  intros Hb. pose proof (SetBytes_range b) as Hr.
  assert (big_SetBytes b < 2 ^ 64).
  { eapply Z.lt_le_trans; [apply Hr|]. change (2 ^ 64) with (256 ^ 8).
    apply Z.pow_le_mono_r; lia. }
  assert (big_Uint64 (big_SetBytes b) = big_SetBytes b) as Hu.
  { unfold big_Uint64. rewrite Z.abs_eq by lia. apply u64_small. lia. }
  unfold of_str. destruct b as [|x [|y b]]; [done| |done]. case_match; [|done].
  unfold Value_Uint. rewrite SetBytes_cons. change (big_SetBytes []) with 0.
  change (256 ^ zlen (@nil byte)) with 1. lia.
Qed.

(** Decoding the stored encoding of a value. *)
Lemma NewValueFromBytes_enc it :
  zlen (enc it) < 2 ^ 64 -> NewValueFromBytes (enc it) = Ret (of_item it).
Proof.
  intros Hlen. unfold NewValueFromBytes. pose proof (enc_pos it).
  destruct (Z.eqb_spec (zlen (enc it)) 0); [lia|]. simpl.
  unfold Value_Decode, Decode0. simpl Value_Bytes.
  pose proof (decode_enc it [] [] [] (S (length (enc it))) ltac:(lenlia) ltac:(lia)) as H0.
  rewrite app_nil_r in H0. simpl app in H0. change (zlen (@nil byte)) with 0 in H0.
  by rewrite H0.
Qed.

Lemma NewValueFromBytes_fuel data : NewValueFromBytes data ≠ NoFuel.
Proof.
  unfold NewValueFromBytes. case_match; [|discriminate].
  unfold Value_Decode. apply bind_fuel; [|intros [??]; discriminate].
  apply decode_fuel; [lia|unfold zlen; simpl; lia|lia].
Qed.

(** The iterator visits the elements of a list in order, each once. *)
Lemma it_collect_drop l : ∀ n k cur,
  (k + n = length l)%nat ->
  it_collect n {| it_value := VList l; it_currentValue := cur; it_idx := Z.of_nat k |}
  = Ret (map NewValue (drop k l)).
Proof.
  induction n as [|n IH]; intros k cur Hk.
  - simpl. unfold it_Next. simpl. unfold zlen.
    rewrite (proj2 (Z.leb_le _ _)) by lia. by rewrite drop_ge by lia.
  - destruct (lookup_lt_is_Some_2 l k ltac:(lia)) as [x Hx].
    cbn [it_collect]. unfold it_Next. cbn [it_value it_idx Value_Len]. unfold zlen.
    rewrite (proj2 (Z.leb_gt _ _)) by lia. cbn [it_currentValue default].
    replace (Z.of_nat k + 1) with (Z.of_nat (S k)) by lia.
    rewrite IH by lia. rewrite (Get_nat l k x Hx), (drop_S l x k Hx). done.
Qed.

Lemma Value_items_list l : Value_items (VList l) = Ret (map NewValue l).
Proof.
  unfold Value_items, NewIterator. change 0 with (Z.of_nat 0).
  unfold Value_Len, zlen. rewrite Nat2Z.id.
  by rewrite it_collect_drop by lia.
Qed.

(** The components of a decoded list, and the fields of a decoded record. *)
Lemma NewValue_of_item it : NewValue (of_item it) = of_item it.
Proof. destruct it as [b|l]; [|done]. simpl. unfold of_str. by repeat case_match. Qed.

Lemma Get_item its (i : nat) it :
  its !! i = Some it -> Get (of_item (RList its)) (Z.of_nat i) = of_item it.
Proof.
  intros Hi. change (of_item (RList its)) with (VList (map of_item its)).
  rewrite (Get_nat _ _ (of_item it)); [apply NewValue_of_item|].
  by rewrite list_lookup_fmap, Hi.
Qed.

Lemma Get_field its i it :
  0 <= i -> its !! Z.to_nat i = Some it -> Get (of_item (RList its)) i = of_item it.
Proof. intros Hi H. rewrite <-(Z2Nat.id i Hi). by apply Get_item. Qed.

(** [get_fields]: read the fields of decoded records in the goal. *)
Ltac get_fields :=
  repeat match goal with
  | |- context [Get (of_item (RList ?l)) ?i] =>
      erewrite (Get_field l i) by first [reflexivity | lia]
  end.

Lemma BigInt_big z : 0 <= z -> Value_BigInt (of_str (big_Bytes z)) = z.
Proof. intros. rewrite BigInt_of_str, SetBytes_Bytes. lia. Qed.

Lemma Uint_big z : 0 <= z < 2 ^ 64 -> Value_Uint (of_str (big_Bytes z)) = z.
Proof.
  intros Hz. rewrite Uint_of_str, SetBytes_Bytes; [lia|].
  apply Bytes_len_le; [lia|]. change (256 ^ 8) with (2 ^ 64). lia.
Qed.

(** Writing a value and reading it back. *)
Lemma NewValueFromBytes_Encode v it :
  to_item v = Some it -> zlen (Encode v) < 2 ^ 64 -> NewValueFromBytes (Encode v) = Ret (of_item it).
Proof. intros Hv. rewrite (Encode_item v it Hv). apply NewValueFromBytes_enc. Qed.

(** * What comes off the wire *)

Lemma Get_decoded v i : decoded v -> Get v i = VNil ∨ decoded (Get v i).
Proof.
  intros [z Hz|b|l Hl]; [by left..|]. unfold Get. destruct (_ <=? _); [by left|]. destruct (_ <? _); [by left|].
  destruct (l !! _) as [x|] eqn:E; [|by left]. right. rewrite Forall_lookup in Hl. apply Hl in E.
  by destruct E; constructor.
Qed.

Lemma path_decoded path v : v = VNil ∨ decoded v -> foldl Get v path = VNil ∨ decoded (foldl Get v path).
Proof.
  revert v. induction path as [|i path IH]; intros v Hv; [done|]. cbn [foldl]. apply IH.
  destruct Hv as [->|Hv]; [by left|]. by apply Get_decoded.
Qed.

(** C21. Values off the wire are well typed, whatever the bytes are.  Everything a
    handler can reach with [Get] in a value decoded from any bytes is nil, a byte
    below 0x80, a byte slice or a list of such values; the numbers read from it
    are in the range of their types and not negative, [IsEmpty] answers, [IsSlice]
    and [IsStr] answer unless it is nil, and it can be encoded again. *)
Theorem wire_values_typed (data : bytes) (v : goval) (path : list Z) :
  NewValueFromBytes data = Ret v ->
  let w := foldl Get v path in
  (w = VNil ∨ decoded w ∧ (∃ b, IsSlice w = Ret b) ∧ IsStr w = Ret false) ∧
  0 <= Value_Uint w < 2 ^ 64 ∧ 0 <= Value_BigInt w ∧ (∃ b, IsEmpty w = Ret b) ∧
  ∃ it, Value_Encode w = enc it.
Proof.
  intros Hv w. assert (w = VNil ∨ decoded w) as Hw.
  { apply path_decoded. unfold NewValueFromBytes in Hv. destruct (negb _); [|injection Hv as <-; by left].
    right. unfold Value_Decode, Decode0 in Hv. inv_bind Hv. destruct a as [u p]. injection Hv as <-.
    by eapply Decode_decoded. }
  clearbody w. destruct Hw as [->|Hw].
  { split; [by left|]. split; [done|]. split; [done|]. split; [by eexists|]. by exists (RList []). }
  split; [right; split; [done|]; inversion Hw; subst; (split; [by eexists|done])|].
  split; [|split; [|split]].
  - inversion Hw as [z Hz|b|l Hl]; subst; cbn; [lia| |lia]. apply Z.mod_pos_bound. lia.
  - inversion Hw as [z Hz|b|l Hl]; subst; cbn; [rewrite s64_small by lia; lia| |done].
    apply SetBytes_range.
  - inversion Hw; subst; by eexists.
  - destruct (decoded_to_item w Hw) as [it Hit]. exists it. by apply Encode_item.
Qed.

Lemma wire_values_typed_witness :
  let w := foldl Get (VList [VBytes [x04; x00]; VList [VByte x05]]) [1; 0] in
  (w = VNil ∨ decoded w ∧ (∃ b, IsSlice w = Ret b) ∧ IsStr w = Ret false) ∧
  0 <= Value_Uint w < 2 ^ 64 ∧ 0 <= Value_BigInt w ∧ (∃ b, IsEmpty w = Ret b) ∧
  ∃ it, Value_Encode w = enc it.
Proof.
  apply (wire_values_typed [xc5; x82; x04; x00; xc1; x05] (VList [VBytes [x04; x00]; VList [VByte x05]]) [1; 0]).
  vm_compute. reflexivity.
Defined.
