(* ===== verification/Net.v ===== *)
(** Addresses as the network code handles them: [packAddr] and [unpackAddr] of
    [peer.go], and what they and [ethereum.go] use of the packages [strings],
    [strconv] and [net]. *)

From S2P Require Import Prelude GoVal Big Bytes Errors Rlp Value.

(** * The library *)

(** [strings.Split] with a separator of one byte. *)
Fixpoint Split (s : bytes) (sep : byte) : list bytes :=
  match s with
  | [] => [[]]
  | c :: r =>
      if bool_decide (c = sep) then [] :: Split r sep
      else match Split r sep with
           | w :: ws => (c :: w) :: ws
           | [] => [[c]]
           end
  end.

(** [strings.Join]. *)
Fixpoint Join (l : list bytes) (sep : bytes) : bytes :=
  match l with
  | [] => []
  | [w] => w
  | w :: ws => w ++ sep ++ Join ws sep
  end.

Definition digit (c : byte) : option Z :=
  let z := b2z c in if (48 <=? z) && (z <=? 57) then Some (z - 48) else None.

(** The value of a row of decimal digits, to the left of which [acc] stands. *)
Fixpoint digits_value (acc : Z) (s : bytes) : option Z :=
  match s with [] => Some acc | c :: r => d ← digit c; digits_value (10 * acc + d) r end.

(** [strconv.Atoi], its error dropped: zero for what is no number, the nearest
    bound for one out of range. *)
Definition Atoi (s : bytes) : Z :=
  let neg := bool_decide (head s = Some x2d) in
  let ds := if neg || bool_decide (head s = Some x2b) then tail s else s in
  match ds with
  | [] => 0
  | _ => match digits_value 0 ds with
         | None => 0
         | Some v => if neg then Z.max (- v) (- 2 ^ 63) else Z.min v (2 ^ 63 - 1)
         end
  end.

(** [net.JoinHostPort]. *)
Definition JoinHostPort (host port : bytes) : bytes :=
  if bool_decide (x3a ∈ host) || bool_decide (x25 ∈ host)
  then asc "[" ++ host ++ asc "]:" ++ port
  else host ++ asc ":" ++ port.

(** What is before and after the last [sep]. *)
Fixpoint last_split (s : bytes) (sep : byte) : option (bytes * bytes) :=
  match s with
  | [] => None
  | c :: r =>
      match last_split r sep with
      | Some (a, b) => Some (c :: a, b)
      | None => if bool_decide (c = sep) then Some ([], r) else None
      end
  end.

(** [net.SplitHostPort], its error dropped: nothing for an address that is not
    of the form. *)
Definition SplitHostPort (hostport : bytes) : bytes * bytes :=
  match last_split hostport x3a with
  | None => ([], [])
  | Some (before, port) =>
      if bool_decide (head before = Some x5b) then
        match last_split (tail before) x5d with
        | Some (host, []) =>
            if bool_decide (x5b ∈ host) || bool_decide (x5d ∈ host) || bool_decide (x5b ∈ port)
               || bool_decide (x5d ∈ port) then ([], []) else (host, port)
        | _ => ([], [])
        end
      else if bool_decide (x3a ∈ before) || bool_decide (x25 ∈ before) || bool_decide (x5b ∈ hostport)
              || bool_decide (x5d ∈ hostport) then ([], []) else (before, port)
  end.

(** An octet of a dotted address. *)
Definition octet (s : bytes) : option Z :=
  match s with
  | [] => None
  | _ => v ← digits_value 0 s; if v <? 256 then Some v else None
  end.

(** [net.ParseIP] on a dotted address; [None] is the nil address. *)
Definition parseIPv4 (s : bytes) : option (list Z) :=
  match Split s x2e with
  | [a; b; c; d] => a ← octet a; b ← octet b; c ← octet c; d ← octet d; Some [a; b; c; d]
  | _ => None
  end.

(** [net.ParseIP]: the first dot or colon decides the form.  Of the colon form
    only the first character is looked at: a bracket is not part of an
    address. *)
Fixpoint ip_form (s : bytes) : option bool :=
  match s with
  | [] => None
  | c :: r => if bool_decide (c = x2e) then Some true
              else if bool_decide (c = x3a) then Some false else ip_form r
  end.

Definition ParseIP (parseIPv6 : bytes -> option (list Z)) (s : bytes) : option (list Z) :=
  match ip_form s with
  | None => None
  | Some true => parseIPv4 s
  | Some false => if bool_decide (head s = Some x5b) then None else parseIPv6 s
  end.

(** [net.IP.IsLoopback]; the nil address is not. *)
Definition IsLoopback (ip : option (list Z)) : bool :=
  match ip with
  | Some [a; _; _; _] => a =? 127
  | Some l => bool_decide (l = replicate 15 0 ++ [1])
  | None => false
  end.

(** * Addresses of peers *)

(** peer.go, packAddr. An address without four parts panics. *)
Definition packAddr (address port : bytes) : outcome (bytes * Z) :=
  let addr := Split address x2e in
  a ← index addr 0;
  b ← index addr 1;
  c ← index addr 2;
  d ← index addr 3;
  Ret ([z2b (Atoi a); z2b (Atoi b); z2b (Atoi c); z2b (Atoi d)], u16 (Atoi port)).

(** peer.go, unpackAddr. A host of fewer than four bytes panics. *)
Definition unpackAddr (value : goval) (p : Z) : outcome bytes :=
  let byts := Value_Bytes value in
  a ← index byts 0;
  b ← index byts 1;
  c ← index byts 2;
  d ← index byts 3;
  let host := Join [decimal (b2z a); decimal (b2z b); decimal (b2z c); decimal (b2z d)] (asc ".") in
  Ret (JoinHostPort host (decimal (s64 p))).

(** * Numbers in decimal *)

Lemma digit_hexdigit z : 0 <= z < 10 -> digit (hexdigit z) = Some z.
Proof.
  intros Hz. unfold digit, hexdigit. rewrite (proj2 (Z.ltb_lt z 10)) by lia.
  rewrite b2z_z2b_small by lia.
  rewrite (proj2 (Z.leb_le 48 _)), (proj2 (Z.leb_le _ 57)) by lia. simpl. f_equal. lia.
Qed.

Lemma digits_value_snoc l c acc :
  digits_value acc (l ++ [c]) = v ← digits_value acc l; d ← digit c; Some (10 * v + d).
Proof.
  revert acc. induction l as [|x l IH]; intros acc; cbn.
  - by destruct (digit c).
  - destruct (digit x) as [d|]; [|done]. apply IH.
Qed.

Lemma digits_value_digits fuel z :
  0 <= z < 2 ^ Z.of_nat fuel -> digits_value 0 (digits fuel 10 z) = Some z.
Proof.
  revert z. induction fuel as [|fuel IH]; intros z Hz.
  - simpl in *. f_equal. lia.
  - cbn [digits]. rewrite digits_value_snoc, digit_hexdigit by (apply Z.mod_pos_bound; lia).
    rewrite Nat2Z.inj_succ, Z.pow_succ_r in Hz by lia. destruct (Z.ltb_spec z 10).
    + cbn. f_equal. by rewrite Z.mod_small by lia.
    + rewrite IH; [cbn; f_equal; pose proof (Z.div_mod z 10); lia|].
      split; [by apply Z.div_pos; lia|]. apply Z.div_lt_upper_bound; lia.
Qed.

Lemma log2_fuel z : 0 <= z -> z < 2 ^ Z.of_nat (S (Z.to_nat (Z.log2 z))).
Proof.
  intros Hz. rewrite Nat2Z.inj_succ, Z2Nat.id by apply Z.log2_nonneg.
  destruct (decide (z = 0)) as [->|]; [done|]. apply Z.log2_spec. lia.
Qed.

Lemma decimal_value z : 0 <= z -> digits_value 0 (decimal z) = Some z.
Proof.
  intros Hz. unfold decimal. rewrite (proj2 (Z.ltb_ge z 0)), Z.abs_eq by lia. cbn [app].
  apply digits_value_digits. split; [done|by apply log2_fuel].
Qed.

(** A row of digits contains only digits. *)
Lemma digits_value_digit acc s v c : digits_value acc s = Some v -> c ∈ s -> is_Some (digit c).
Proof.
  revert acc. induction s as [|x s IH]; intros acc; [by intros _ ?%elem_of_nil|]. cbn.
  destruct (digit x) as [d|] eqn:E; [|done]. cbn. intros Hv [->|Hin]%elem_of_cons; [by rewrite E|by eapply IH].
Qed.

Lemma decimal_no c z : digit c = None -> 0 <= z -> c ∉ decimal z.
Proof.
  intros Hc Hz Hin. destruct (digits_value_digit _ _ _ _ (decimal_value z Hz) Hin) as [d Hd].
  by rewrite Hc in Hd.
Qed.

Lemma decimal_pos z : decimal z ≠ [].
Proof. unfold decimal. cbn [digits]. intros [_ H]%app_nil. by apply app_nil in H as [_ ?]. Qed.

Lemma Atoi_digits s v : s ≠ [] -> digits_value 0 s = Some v -> Atoi s = Z.min v (2 ^ 63 - 1).
Proof.
  intros Hs Hv. unfold Atoi. destruct s as [|c s]; [done|].
  assert (c ≠ x2d ∧ c ≠ x2b) as [H1 H2].
  { split; intros ->; by destruct (digits_value_digit 0 _ _ _ Hv (list_elem_of_here _ _)). }
  cbn [head]. rewrite !bool_decide_eq_false_2 by congruence. cbn [orb]. by rewrite Hv.
Qed.

Lemma Atoi_decimal z : 0 <= z < 2 ^ 63 -> Atoi (decimal z) = z.
Proof. intros Hz. rewrite (Atoi_digits _ z); [lia|apply decimal_pos|apply decimal_value; lia]. Qed.

(** * Splitting and joining *)

Lemma Split_none s sep : sep ∉ s -> Split s sep = [s].
Proof.
  induction s as [|c s IH]; intros Hs; [done|]. cbn. rewrite bool_decide_eq_false_2 by set_solver.
  by rewrite IH by set_solver.
Qed.

Lemma Split_app s sep r : sep ∉ s -> Split (s ++ sep :: r) sep = s :: Split r sep.
Proof.
  induction s as [|c s IH]; intros Hs; cbn.
  - by rewrite bool_decide_eq_true_2.
  - rewrite bool_decide_eq_false_2 by set_solver. by rewrite IH by set_solver.
Qed.

(** Lines that do not contain the separator come back from the joined text. *)
Lemma Split_Join l sep : l ≠ [] -> Forall (λ w, sep ∉ w) l -> Split (Join l [sep]) sep = l.
Proof.
  intros Hne Hl. induction Hl as [|w l Hw Hl IH]; [done|]. destruct l as [|w' l]; [by apply Split_none|].
  change (Join (w :: w' :: l) [sep]) with (w ++ sep :: Join (w' :: l) [sep]).
  rewrite Split_app by done. by rewrite IH.
Qed.

Lemma Split_length s sep : (length (Split s sep) <= S (length s))%nat.
Proof.
  induction s as [|c s IH]; [done|]. cbn. case_bool_decide; [cbn; lia|].
  destruct (Split s sep); cbn in *; lia.
Qed.

Lemma last_split_app s sep r : sep ∉ r -> last_split (s ++ sep :: r) sep = Some (s, r).
Proof.
  intros Hr. assert (last_split r sep = None) as Hn.
  { induction r as [|c r IH]; [done|]. cbn. rewrite IH by set_solver.
    by rewrite bool_decide_eq_false_2 by set_solver. }
  induction s as [|c s IH]; cbn; [|by rewrite IH]. by rewrite Hn, bool_decide_eq_true_2.
Qed.

(** The text of a dotted address. *)
Definition dotted (a b c d : Z) : bytes :=
  Join [decimal a; decimal b; decimal c; decimal d] (asc ".").

Lemma dotted_no e a b c d :
  digit e = None -> e ≠ x2e -> 0 <= a -> 0 <= b -> 0 <= c -> 0 <= d -> e ∉ dotted a b c d.
Proof.
  intros He Hd Ha Hb Hc Hd'. unfold dotted, Join. change (asc ".") with [x2e].
  rewrite !not_elem_of_app, list_elem_of_singleton. by repeat split; try apply decimal_no.
Qed.

Lemma Split_dotted a b c d :
  0 <= a -> 0 <= b -> 0 <= c -> 0 <= d ->
  Split (dotted a b c d) x2e = [decimal a; decimal b; decimal c; decimal d].
Proof.
  intros Ha Hb Hc Hd. unfold dotted, Join. change (asc ".") with [x2e]. cbn [app].
  rewrite !Split_app by by apply decimal_no. by rewrite Split_none by by apply decimal_no.
Qed.

Lemma index_four {A} (a b c d : A) :
  index [a; b; c; d] 0 = Ret a ∧ index [a; b; c; d] 1 = Ret b ∧
  index [a; b; c; d] 2 = Ret c ∧ index [a; b; c; d] 3 = Ret d.
Proof. done. Qed.

(** The address of a peer survives the way through a message: packing the
    text of a dotted address and a port gives the four octets and the port, and
    unpacking them gives the same text, which splits into host and port again. *)
Theorem peer_address_roundtrip (a b c d p : Z) :
  0 <= a < 256 -> 0 <= b < 256 -> 0 <= c < 256 -> 0 <= d < 256 -> 0 <= p < 65536 ->
  let host := dotted a b c d in
  let octets := [z2b a; z2b b; z2b c; z2b d] in
  packAddr host (decimal p) = Ret (octets, p) ∧
  unpackAddr (VBytes octets) p = Ret (host ++ asc ":" ++ decimal p) ∧
  SplitHostPort (host ++ asc ":" ++ decimal p) = (host, decimal p).
Proof.
  intros Ha Hb Hc Hd Hp host octets. split; [|split].
  - unfold packAddr, host. rewrite Split_dotted by lia.
    destruct (index_four (decimal a) (decimal b) (decimal c) (decimal d)) as (-> & -> & -> & ->).
    cbn [mbind outcome_bind]. rewrite !Atoi_decimal by lia. do 2 f_equal. by apply Z.mod_small.
  - unfold unpackAddr, octets. cbn [Value_Bytes].
    destruct (index_four (z2b a) (z2b b) (z2b c) (z2b d)) as (-> & -> & -> & ->).
    cbn [mbind outcome_bind]. rewrite !b2z_z2b_small by lia. fold (dotted a b c d). fold host. unfold JoinHostPort.
    rewrite s64_small by lia.
    rewrite !bool_decide_eq_false_2; [done|apply dotted_no; done || lia..].
  - unfold SplitHostPort. change (asc ":") with [x3a]. cbn [app].
    rewrite last_split_app by (apply decimal_no; [done|lia]).
    assert (∀ e, digit e = None -> e ≠ x2e -> e ∉ host) as Hhost.
    { intros e H1 H2. apply dotted_no; done || lia. }
    assert (∀ e, digit e = None -> e ≠ x2e -> e ≠ x3a -> e ∉ host ++ x3a :: decimal p) as Hall.
    { intros e H1 H2 H3. rewrite not_elem_of_app, not_elem_of_cons. split; [by apply Hhost|].
      split; [done|]. apply decimal_no; [done|lia]. }
    assert (head host ≠ Some x5b) as Hhead.
    { intros E. apply (Hhost x5b); [done..|]. destruct host; [done|]. injection E as ->. left. }
    rewrite !bool_decide_eq_false_2; [done|by first [apply Hhost|apply Hall|apply Hhead]..].
Qed.

(** The octets of the loopback address, and back. *)
Lemma peer_address_roundtrip_witness :
  let host := dotted 127 0 0 1 in
  let octets := [z2b 127; z2b 0; z2b 0; z2b 1] in
  packAddr host (decimal 30303) = Ret (octets, 30303) ∧
  unpackAddr (VBytes octets) 30303 = Ret (host ++ asc ":" ++ decimal 30303) ∧
  SplitHostPort (host ++ asc ":" ++ decimal 30303) = (host, decimal 30303).
Proof. apply (peer_address_roundtrip 127 0 0 1 30303); lia. Defined.

(** An address that is not four parts between dots, such as one of IPv6, panics;
    so does a host of fewer than four bytes from the network. *)
Lemma packAddr_short address port : (length (Split address x2e) < 4)%nat -> packAddr address port = Panic.
Proof.
  intros Hl. unfold packAddr. destruct (Split address x2e) as [|? [|? [|? [|? ?]]]]; try done.
  simpl in Hl. lia.
Qed.

Lemma unpackAddr_short v p : zlen (Value_Bytes v) < 4 -> unpackAddr v p = Panic.
Proof.
  intros Hl. unfold unpackAddr. destruct (Value_Bytes v) as [|? [|? [|? [|? ?]]]]; try done. lenlia.
Qed.

(** The text of a remote address with its port is no address: nothing that is
    connected counts as loopback. *)
Lemma ip_form_dot s r : x3a ∉ s -> ip_form (s ++ x2e :: r) = Some true.
Proof.
  induction s as [|c s IH]; intros Hs; [done|]. cbn. destruct (decide (c = x2e)) as [->|Hne]; [done|].
  rewrite !bool_decide_eq_false_2 by set_solver. apply IH. set_solver.
Qed.

Lemma octet_socket d p : 0 <= d -> octet (decimal d ++ x3a :: decimal p) = None.
Proof.
  intros Hd. unfold octet. destruct (decimal d ++ x3a :: decimal p) as [|c s] eqn:E; [done|]. rewrite <-E.
  destruct (digits_value 0 (decimal d ++ x3a :: decimal p)) as [v|] eqn:Hv; [|done]. exfalso.
  destruct (digits_value_digit _ _ _ x3a Hv) as [x Hx]; [|done].
  apply elem_of_app. right. left.
Qed.

Lemma ParseIP_socket parse6 a b c d p :
  0 <= a < 256 -> 0 <= b < 256 -> 0 <= c < 256 -> 0 <= d < 256 -> 0 <= p ->
  ParseIP parse6 (JoinHostPort (dotted a b c d) (decimal p)) = None.
Proof.
  intros Ha Hb Hc Hd Hp. unfold JoinHostPort.
  rewrite !bool_decide_eq_false_2 by (apply dotted_no; done || lia). cbn [orb].
  unfold ParseIP, dotted, Join. change (asc ".") with [x2e]. change (asc ":") with [x3a]. cbn [app].
  repeat (rewrite <-?app_assoc; cbn [app]). rewrite ip_form_dot by (apply decimal_no; [done|lia]).
  unfold parseIPv4. rewrite !Split_app by (apply decimal_no; [done|lia]).
  rewrite Split_none; [|rewrite not_elem_of_app, not_elem_of_cons; repeat split; [|done|]; apply decimal_no; done || lia].
  destruct (octet (decimal a)), (octet (decimal b)), (octet (decimal c)); try done. cbn.
  by rewrite octet_socket by lia.
Qed.
