(* ===== verification/Text.v ===== *)
(** Numbers as users type and read them: [Big] of [ethutil/big.go],
    [FormatData] of [ethutil/bytes.go] and [CurrencyToString] of
    [ethutil/common.go], with what they use of [math/big]. *)

From S2P Require Import Prelude GoVal Big Bytes Net.

(** * The library *)

(** The digits in front of a text, and what follows them: their value from [acc]
    on, and how many they are. *)
Fixpoint scan_digits (base acc : Z) (n : nat) (s : bytes) : Z * nat :=
  match s with
  | [] => (acc, n)
  | c :: r =>
      match unhex c with
      | Some d => if d <? base then scan_digits base (base * acc + d) (S n) r else (acc, n)
      | None => (acc, n)
      end
  end.

(** [math/big]'s [Int.SetString] with base zero: the value that is left in the
    receiver, which the code uses whatever is answered.  The prefix tells the
    base; reading ends at the first byte that is no digit. *)
Definition scan_number (s : bytes) : Z :=
  match s with
  | c :: r =>
      if bool_decide (c = x30) then
        match r with
        | p :: ds =>
            if bool_decide (p = x78) || bool_decide (p = x58) then (scan_digits 16 0 0 ds).1
            else if bool_decide (p = x62) || bool_decide (p = x42) then (scan_digits 2 0 0 ds).1
            else (scan_digits 8 0 0 r).1
        | [] => 0
        end
      else (scan_digits 10 0 0 s).1
  | [] => 0
  end.

Definition SetString (s : bytes) : Z :=
  match s with
  | c :: r => if bool_decide (c = x2d) then - scan_number r
              else if bool_decide (c = x2b) then scan_number r else scan_number s
  | [] => 0
  end.

(** * The code *)

(** ethutil/big.go 22-27, Big. *)
Definition Big (num : bytes) : Z := SetString num.

(** ethutil/bytes.go, FormatData. A number, or a text in quotes; a single quote
    mark is both ends and its inside is out of range. *)
Definition FormatData (data : bytes) : outcome bytes :=
  if zlen data =? 0 then Ret []
  else if bool_decide (head data = Some x22) && bool_decide (last data = Some x22) then
    text ← slice data 1 (zlen data - 1); Ret (RightPadBytes text 32)
  else if (1 <? zlen data) && bool_decide (take 2 data = asc "0x") then
    Ret (BigToBytes (big_SetBytes (Hex2Bytes (drop 2 data))) 256)
  else Ret (BigToBytes (SetString data) 256).

(** ethutil/common.go 23-30, Douglas. The units, from the largest. *)
Definition units : list (Z * bytes) :=
  [(BigPow 10 42, asc "Douglas"); (BigPow 10 21, asc "Einstein"); (BigPow 10 18, asc "Ether");
   (BigPow 10 15, asc "Finney"); (BigPow 10 12, asc "Szabo"); (BigPow 10 9, asc "Shannon");
   (BigPow 10 6, asc "Babbage"); (BigPow 10 3, asc "Ada")].

(** ethutil/common.go 44-70, CurrencyToString. The first unit that the amount
    reaches. *)
Fixpoint choose_unit (l : list (Z * bytes)) (num : Z) : Z * bytes :=
  match l with
  | [] => (num, asc "Wei")
  | (u, denom) :: r => if u <=? num then (num / u, denom) else choose_unit r num
  end.

(** ethutil/common.go, CurrencyToString. More than five digits are cut to five
    with an exponent. *)
Definition CurrencyToString (num : Z) : bytes :=
  let '(fin, denom) := choose_unit units num in
  let s := decimal fin in
  if 5 <? zlen s then take 5 s ++ asc "E" ++ decimal (zlen s - 5) ++ asc " " ++ denom
  else s ++ asc " " ++ denom.

(** * Lemmas *)

Lemma scan_digits_value acc n s v :
  digits_value acc s = Some v -> scan_digits 10 acc n s = (v, (n + length s)%nat).
Proof.
  revert acc n. induction s as [|c s IH]; intros acc n; cbn [digits_value scan_digits length].
  - intros [= ->]. f_equal. lia.
  - destruct (digit c) as [d|] eqn:Hd; [|done]. cbn [mbind option_bind]. intros Hv.
    assert (unhex c = Some d ∧ d < 10) as [-> Hlt].
    { revert Hd. unfold digit, unhex. cbv zeta. pose proof (b2z_range c).
      destruct (Z.leb_spec 48 (b2z c)), (Z.leb_spec (b2z c) 57); cbn [andb]; try done. intros [= <-]. split; [done|lia]. }
    rewrite (proj2 (Z.ltb_lt _ _)) by done. rewrite (IH _ _ Hv). f_equal. lia.
Qed.

(** The decimal digits of a positive number do not begin with a zero. *)
Lemma digits_head fuel z :
  0 < z < 2 ^ Z.of_nat fuel -> ∃ d r, digits fuel 10 z = hexdigit d :: r ∧ 1 <= d <= 9.
Proof.
  revert z. induction fuel as [|fuel IH]; intros z Hz; [cbn in Hz; lia|]. cbn [digits].
  destruct (Z.ltb_spec z 10).
  - exists z, []. rewrite Z.mod_small by lia. split; [done|lia].
  - rewrite Nat2Z.inj_succ, Z.pow_succ_r in Hz by lia.
    destruct (IH (z / 10)) as (d & r & E & Hd).
    { split; [apply Z.div_str_pos; lia|]. apply Z.div_lt_upper_bound; lia. }
    exists d, (r ++ [hexdigit (z `mod` 10)]). by rewrite E.
Qed.

(** Numbers in decimal are read as they are written. *)
Lemma SetString_decimal z : 0 <= z -> SetString (decimal z) = z.
Proof.
  intros Hz. pose proof (decimal_value z Hz) as Hv. destruct (decide (z = 0)) as [->|Hne]; [by vm_compute|].
  assert (∃ d r, decimal z = hexdigit d :: r ∧ 1 <= d <= 9) as (d & r & E & Hd).
  { unfold decimal. destruct (Z.ltb_spec z 0); [lia|]. rewrite Z.abs_eq by lia. cbn [app].
    apply digits_head. split; [lia|]. apply log2_fuel. lia. }
  rewrite E in *. unfold SetString, scan_number.
  assert (unhex (hexdigit d) = Some d) as Hu by (apply unhex_hexdigit; lia).
  rewrite !bool_decide_eq_false_2 by (intros Hc; rewrite Hc in Hu; vm_compute in Hu; first [discriminate Hu|injection Hu; lia]).
  by rewrite (scan_digits_value _ _ _ _ Hv).
Qed.

(** A number that fits becomes a word with its value. *)
Lemma FormatData_decimal z :
  0 <= z < 2 ^ 256 -> ∃ w, FormatData (decimal z) = Ret w ∧ zlen w = 32 ∧ big_SetBytes w = z.
Proof.
  intros Hz. unfold FormatData.
  destruct (Z.eqb_spec (zlen (decimal z)) 0) as [E|_]; [apply zlen_0 in E; by apply decimal_pos in E|].
  assert (∀ c, c ∈ decimal z -> digit c ≠ None) as Hno.
  { intros c Hc Hn. by apply (decimal_no c z Hn) in Hc; [|lia]. }
  rewrite (bool_decide_eq_false_2 (head _ = _)) by (intros E; apply (Hno x22); [|done]; by apply head_Some_elem_of).
  rewrite (bool_decide_eq_false_2 (take 2 _ = _)), andb_false_r by
    (intros E; apply (Hno x78); [|done]; rewrite <-(take_drop 2 (decimal z)), E; set_solver).
  cbn [andb]. rewrite SetString_decimal by lia. eexists. split; [done|]. split.
  - apply BigToBytes_len; [lia|]. change (256 ^ Z.quot 256 8) with (2 ^ 256). lia.
  - rewrite BigToBytes_value. lia.
Qed.

Lemma CurrencyToString_examples :
  CurrencyToString (3 * 10 ^ 18) = asc "3 Ether" ∧ CurrencyToString 123456 = asc "123 Ada" ∧
  CurrencyToString (10 ^ 50) = asc "10000E4 Douglas" ∧ CurrencyToString 999 = asc "999 Wei".
Proof. vm_compute. repeat split. Qed.

(** What is not a number counts as far as it is one: [Big] does not look at
    the answer of [SetString]. *)
Lemma Big_examples :
  Big (asc "12ab") = 12 ∧ Big (asc "0x1f") = 31 ∧ Big (asc "010") = 8 ∧ Big (asc "ether") = 0 ∧ Big (asc "-5") = -5.
Proof. vm_compute. repeat split. Qed.
