(* ===== verification/Json.v ===== *)
(** The texts that [encoding/json] makes: [Marshal] and [MarshalIndent] of the
    structures, slices and maps that the program hands out ([ethstate/dump.go],
    [ethrpc/packages.go], [ethpipe]).  A value to encode is a tree; an object's
    fields come in the order of the structure, or sorted by key for a map.

    Control characters other than a line feed and a carriage return are written
    with their code, as are the characters that HTML treats specially; bytes
    that are not UTF-8 are replaced. *)

From stdpp Require Import sorting.
From S2P Require Import Prelude GoVal Big Bytes.

(** * Trees *)

Inductive json :=
| JNull
| JBool (b : bool)
| JNum (z : Z)
| JStr (s : bytes)
| JArr (l : list json)
| JObj (l : list (bytes * json)).

(** A nil slice is null. *)
Definition JSlice (l : list json) : json := match l with [] => JNull | _ => JArr l end.

(** The keys of a map are sorted as strings of bytes. *)
Fixpoint bytes_le (a b : bytes) : Prop :=
  match a, b with
  | [], _ => True
  | _ :: _, [] => False
  | x :: a, y :: b => b2z x < b2z y ∨ b2z x = b2z y ∧ bytes_le a b
  end.

#[export] Instance bytes_le_dec a b : Decision (bytes_le a b).
Proof.
  revert b. induction a as [|x a IH]; intros [|y b]; cbn; [by left|by left|by right; intros []|].
  pose proof (IH b). apply _.
Defined.

#[export] Instance bytes_le_total : Total bytes_le.
Proof.
  intros a. induction a as [|x a IH]; intros [|y b]; cbn; auto.
  destruct (IH b) as [Hab|Hab];
    destruct (Z.lt_trichotomy (b2z x) (b2z y)) as [?|[?|?]]; auto.
Qed.

#[export] Instance bytes_le_trans : Transitive bytes_le.
Proof.
  intros a. induction a as [|x a IH]; intros [|y b] [|z c]; cbn; try done.
  intros [?|[E1 ?]] [?|[E2 ?]]; [left; lia|left; lia|left; lia|].
  right. split; [by rewrite E1|by eapply IH].
Qed.

Lemma bytes_le_antisym a b : bytes_le a b -> bytes_le b a -> a = b.
Proof.
  revert b. induction a as [|x a IH]; intros [|y b]; cbn; try done.
  intros [?|[E ?]] [?|[? ?]]; try lia. f_equal; [by apply b2z_inj|by apply IH].
Qed.

Definition key_le {A} (x y : bytes * A) : Prop := bytes_le x.1 y.1.
#[export] Instance key_le_dec {A} (x y : bytes * A) : Decision (key_le x y).
Proof. apply bytes_le_dec. Defined.

Definition sorted_entries {A} (m : gmap bytes A) : list (bytes * A) :=
  merge_sort key_le (map_to_list m).

Definition JMap {A} (f : A -> json) (m : gmap bytes A) : json :=
  JObj (map (λ kv, (kv.1, f kv.2)) (sorted_entries m)).

Lemma sorted_entries_perm {A} (m : gmap bytes A) : sorted_entries m ≡ₚ map_to_list m.
Proof. apply merge_sort_Permutation. Qed.

(** The text does not depend on the order of Go's map. *)
Lemma sorted_entries_unique {A} (m : gmap bytes A) (l : list (bytes * A)) :
  l ≡ₚ map_to_list m -> Sorted key_le l -> l = sorted_entries m.
Proof.
  intros Hp Hs. assert (Total (key_le (A := A))) as Htot by (intros x y; apply bytes_le_total).
  assert (Transitive (key_le (A := A))) as Htr by (intros x y z; apply bytes_le_trans).
  eapply (Sorted_unique_strong key_le); [|done|apply (Sorted_merge_sort _)|by rewrite sorted_entries_perm].
  intros [k v] [k' v'] Hx Hy Hle Hle'. cbn in *. assert (k = k') as <- by by apply bytes_le_antisym.
  f_equal. rewrite Hp in Hx. rewrite sorted_entries_perm in Hy.
  apply elem_of_map_to_list in Hx, Hy. congruence.
Qed.

(** * Strings *)

(** The length of the UTF-8 sequence at the head of a text; none when it is
    not one ([utf8.DecodeRuneInString]). *)
Definition between (lo hi : Z) (b : byte) : bool := (lo <=? b2z b) && (b2z b <=? hi).

Definition rune_len (s : bytes) : option nat :=
  match s with
  | [] => None
  | b0 :: r =>
      let x := b2z b0 in
      (* [next lo hi l]: the byte at the head of [l] is in the range, then as
         many continuation bytes as asked for *)
      let tail n (l : bytes) := (n <=? length l)%nat && forallb (between 0x80 0xbf) (take n l) in
      let next lo hi n := match r with c :: r' => between lo hi c && tail n r' | [] => false end in
      if x <? 0x80 then Some 1%nat
      else if x <? 0xc2 then None
      else if x <? 0xe0 then (if next 0x80 0xbf 0%nat then Some 2%nat else None)
      else if x <? 0xf0 then
        let lo := if x =? 0xe0 then 0xa0 else 0x80 in
        let hi := if x =? 0xed then 0x9f else 0xbf in
        if next lo hi 1%nat then Some 3%nat else None
      else if x <? 0xf5 then
        let lo := if x =? 0xf0 then 0x90 else 0x80 in
        let hi := if x =? 0xf4 then 0x8f else 0xbf in
        if next lo hi 2%nat then Some 4%nat else None
      else None
  end.

(** One character below 0x80. *)
Definition escape (b : byte) : bytes :=
  if bool_decide (b = x5c) || bool_decide (b = x22) then [x5c; b]
  else if bool_decide (b = x0a) then asc "\n"
  else if bool_decide (b = x0d) then asc "\r"
  else if (b2z b <? 0x20) || bool_decide (b ∈ asc "<>&")
  then asc "\u00" ++ [hexdigit (b2z b / 16); hexdigit (b2z b `mod` 16)]
  else [b].

(** The separators U+2028 and U+2029 are written with their codes. *)
Definition is_separator (b c d : byte) : bool :=
  bool_decide (b = xe2 ∧ c = x80 ∧ (d = xa8 ∨ d = xa9)).

Fixpoint string_body (s : bytes) : bytes :=
  match s with
  | [] => []
  | b :: r =>
      match rune_len s, r with
      | Some 1%nat, _ => escape b ++ string_body r
      | Some 2%nat, c :: r => [b; c] ++ string_body r
      | Some 3%nat, c :: d :: r =>
          (if is_separator b c d then asc "\u202" ++ [hexdigit (b2z d `mod` 16)] else [b; c; d])
          ++ string_body r
      | Some 4%nat, c :: d :: e :: r => [b; c; d; e] ++ string_body r
      | _, _ => asc "\ufffd" ++ string_body r
      end
  end.

Definition json_string (s : bytes) : bytes := [x22] ++ string_body s ++ [x22].

(** * Values *)

Definition comma : bytes := asc ",".

Fixpoint Marshal (v : json) : bytes :=
  match v with
  | JNull => asc "null"
  | JBool b => asc (if b then "true" else "false")
  | JNum z => decimal z
  | JStr s => json_string s
  | JArr l =>
      let fix go l := match l with [] => [] | [v] => Marshal v | v :: r => Marshal v ++ comma ++ go r end in
      asc "[" ++ go l ++ asc "]"
  | JObj l =>
      let field kv := json_string kv.1 ++ asc ":" ++ Marshal kv.2 in
      let fix go l := match l with [] => [] | [kv] => field kv | kv :: r => field kv ++ comma ++ go r end in
      asc "{" ++ go l ++ asc "}"
  end.

(** [MarshalIndent] with an empty prefix: each element on a line of its own,
    nothing in an empty pair of brackets. *)
Section Indent.
Variable indent : bytes.

Definition newline (depth : nat) : bytes := x0a :: concat (replicate depth indent).

Fixpoint indented (depth : nat) (v : json) : bytes :=
  match v with
  | JArr (_ :: _ as l) =>
      let nl := newline (S depth) in
      let fix go l :=
        match l with
        | [] => [] | [v] => indented (S depth) v
        | v :: r => indented (S depth) v ++ comma ++ nl ++ go r
        end in
      asc "[" ++ nl ++ go l ++ newline depth ++ asc "]"
  | JObj (_ :: _ as l) =>
      let nl := newline (S depth) in
      let field kv := json_string kv.1 ++ asc ": " ++ indented (S depth) kv.2 in
      let fix go l :=
        match l with
        | [] => [] | [kv] => field kv
        | kv :: r => field kv ++ comma ++ nl ++ go r
        end in
      asc "{" ++ nl ++ go l ++ newline depth ++ asc "}"
  | _ => Marshal v
  end.

Definition MarshalIndent (v : json) : bytes := indented 0 v.
End Indent.

(** * Plain texts *)

(** Characters that are written as they are: hex digits, numbers, names. *)
Definition plain (b : byte) : bool :=
  (0x20 <=? b2z b) && (b2z b <? 0x80) && negb (bool_decide (b ∈ [x5c; x22] ++ asc "<>&")).

Lemma escape_plain b : plain b = true -> escape b = [b].
Proof.
  unfold plain, escape. rewrite !andb_true_iff, negb_true_iff, bool_decide_eq_false.
  intros [[Hlo%Z.leb_le _] Hn]. cbn in Hn.
  repeat match goal with |- context [bool_decide ?P] =>
    rewrite (bool_decide_eq_false_2 P) by (intros ?; subst; apply Hn; repeat constructor || set_solver) end.
  destruct (Z.ltb_spec (b2z b) 0x20); [lia|]. done.
Qed.

Lemma string_body_plain s : forallb plain s = true -> string_body s = s.
Proof.
  induction s as [|b s IH]; [done|]. cbn [forallb]. intros [Hb Hs]%andb_true_iff.
  pose proof (escape_plain b Hb) as He. unfold plain in Hb. rewrite !andb_true_iff in Hb.
  destruct Hb as [[_ Hhi] _]. cbn [string_body]. cbv zeta. cbn [rune_len]. cbv zeta.
  rewrite Hhi, He, IH by done. done.
Qed.

Lemma json_string_plain s : forallb plain s = true -> json_string s = [x22] ++ s ++ [x22].
Proof. intros Hs. unfold json_string. by rewrite string_body_plain. Qed.

(** A text that is not UTF-8 loses its bytes. *)
Lemma string_body_lossy : string_body [xff] = string_body [xfe].
Proof. reflexivity. Qed.

(** ** Runs *)

Example marshal_run :
  Marshal (JObj [(asc "a", JArr [JNum 1; JBool true; JNull]); (asc "b<", JStr [x0a; x09; xe2; x80; xa8; xc3; xa9])])
  = asc "{" ++ json_string (asc "a") ++ asc ":[1,true,null]," ++
    [x22] ++ asc "b\u003c" ++ [x22] ++ asc ":" ++ [x22] ++ asc "\n\u0009\u2028" ++ [xc3; xa9; x22] ++ asc "}".
Proof. vm_compute. reflexivity. Qed.
