(* ===== verification/Files.v ===== *)
(** The files of [ethutil]: paths and whole files ([path.go]), packages
    ([package.go]), the configuration ([config.go]) and random numbers
    ([rand.go]).

    What the operating system, the zip reader, the decoder of JSON and the
    package [globalconf] answer are arguments; the contents of files are a map
    by path. *)

From S2P Require Import Prelude GoVal Big Bytes Errors.

(** * Paths and files *)

(** What [os.Stat] says of a path. *)
Inductive stat := StatOk | StatNotExist | StatError (e : error).

(** ethutil/path.go, ExpandHomePath. [home] is the directory of the current user, when
    the user is known; a path of fewer than two bytes is sliced out of range. *)
Definition ExpandHomePath (home : option bytes) (p : bytes) : outcome bytes :=
  prefix ← slice p 0 2;
  if bool_decide (prefix = asc "~/") then dir ← deref home; Ret (dir ++ drop 1 p) else Ret p.

(** ethutil/path.go, FileExist. *)
Definition FileExist (os_Stat : bytes -> stat) (filePath : bytes) : bool :=
  match os_Stat filePath with StatNotExist => false | _ => true end.

Section OS.
(** The errors of opening a path and of reading it, of one that is not there, and
    how a write to it fails: after a number of bytes, with an error. *)
Variables (open_error read_error : bytes -> option error) (no_file : bytes -> error).
Variable write_error : bytes -> option (nat * error).

(** ethutil/path.go, ReadAllFile. *)
Definition ReadAllFile (files : gmap bytes bytes) (filePath : bytes) : error + bytes :=
  match open_error filePath, files !! filePath with
  | Some err, _ => inl err
  | None, None => inl (no_file filePath)
  | None, Some data => match read_error filePath with Some err => inl err | None => inr data end
  end.

(** ethutil/path.go, WriteFile. The file is created if it is not there, and is not cut
    when it is: the bytes go over the first ones it has. *)
Definition ethutil_WriteFile (filePath content : bytes) : st (gmap bytes bytes) (option error) := λ files,
  match open_error filePath with
  | Some err => (Ret (Some err), files)
  | None =>
      let old := default [] (files !! filePath) in
      let '(written, err) := match write_error filePath with
                             | None => (content, None)
                             | Some (n, err) => (take n content, Some err) end in
      (Ret err, <[filePath := written ++ drop (length written) old]> files)
  end.

(** What is read after a write that succeeds. *)
Lemma ReadAllFile_WriteFile files path content files' :
  ethutil_WriteFile path content files = (Ret None, files') -> read_error path = None ->
  ReadAllFile files' path = inr (content ++ drop (length content) (default [] (files !! path))).
Proof.
  unfold ethutil_WriteFile, ReadAllFile. intros Hw Hr.
  destruct (open_error path); [done|]. destruct (write_error path) as [[n e]|]; [done|].
  injection Hw as <-. by rewrite lookup_insert_eq, Hr.
Qed.

(** So what was written is what is read only if the file was no longer. *)
Lemma WriteFile_keeps_tail files path content files' :
  ethutil_WriteFile path content files = (Ret None, files') -> read_error path = None ->
  ReadAllFile files' path = inr content <->
  zlen (default [] (files !! path)) <= zlen content.
Proof.
  intros Hw Hr. rewrite (ReadAllFile_WriteFile _ _ _ _ Hw Hr). unfold zlen. split.
  - intros [= E]. apply (f_equal length) in E. rewrite length_app, length_drop in E. lia.
  - intros Hl. rewrite drop_ge by lia. by rewrite app_nil_r.
Qed.

End OS.

(** * Packages *)

(** ethutil/package.go 16-19, Manifest. *)
Record Package_Manifest := mkPackage_Manifest { pm_Entry : bytes; pm_Height : Z; pm_Width : Z }.

(** ethutil/package.go 24-27, ExtPackage. *)
Record ExtPackage := mkExtPackage { EntryHtml : bytes; ep_Manifest : Package_Manifest }.

(** An entry of an archive: its name, and what opening and reading it give. *)
Record ZipFile := mkZipFile { zf_Name : bytes; zf_Open : option error; zf_Content : error + bytes }.

(** What the decoder of JSON answers for a structure: the end of the input, an
    error, or the structure. *)
Inductive decoded := DecodeEOF | DecodeError (e : error) | DecodeOk (m : Package_Manifest).

(** ethutil/package.go, ReadFile. *)
Definition zip_ReadFile (f : ZipFile) : error + bytes :=
  match zf_Open f with Some err => inl err | None => zf_Content f end.

Section Package.
Variable zip_OpenReader : bytes -> error + list ZipFile.
Variable json_Decode : bytes -> decoded.

(** ethutil/package.go, ReadManifest. An input without a value is the empty manifest. *)
Definition ReadManifest (m : bytes) : error + Package_Manifest :=
  match json_Decode m with
  | DecodeEOF => inr (mkPackage_Manifest [] 0 0)
  | DecodeError err => inl err
  | DecodeOk manifest => inr manifest
  end.

(** ethutil/package.go, FindFileInArchive. The last of that name. *)
Definition FindFileInArchive (fn : bytes) (files : list ZipFile) : Z :=
  fst (fold_left (λ '(index, i) f, (if bool_decide (zf_Name f = fn) then i else index, i + 1)) files (-1, 0)).

(** A sequence of steps that stops at the first error. *)
Definition try {A B} (r : error + A) (k : A -> outcome (error + B)) : outcome (error + B) :=
  match r with inl err => Ret (inl err) | inr a => k a end.

(** ethutil/package.go 101-122, OpenPackage. The entry that the manifest [f] names. *)
Definition open_entry (files : list ZipFile) (f : bytes) : outcome (error + ExtPackage) :=
  try (ReadManifest f) (λ manifest,
  if bool_decide (pm_Entry manifest = []) then
    Ret (inl (Errorf (asc "Entry file specified but appears to be empty: " ++ pm_Entry manifest)))
  else
    let entryIndex := FindFileInArchive (pm_Entry manifest) files in
    if entryIndex <? 0
    then Ret (inl (Errorf (asc "Entry file not found: '" ++ pm_Entry manifest ++ asc "'")))
    else
      ef ← index files entryIndex;
      try (zip_ReadFile ef) (λ f, Ret (inr (mkExtPackage f manifest)))).

(** ethutil/package.go, OpenPackage. *)
Definition OpenPackage (fn : bytes) : outcome (error + ExtPackage) :=
  try (zip_OpenReader fn) (λ files,
  let manifestIndex := FindFileInArchive (asc "manifest.json") files in
  if manifestIndex <? 0 then Ret (inl (Errorf (asc "No manifest file found in archive")))
  else
    mf ← index files manifestIndex;
    try (zip_ReadFile mf) (open_entry files)).

(** ** What a package is *)

(** [f] is the last file of that name. *)
Definition last_named (files : list ZipFile) (fn : bytes) (f : ZipFile) : Prop :=
  ∃ before after, files = before ++ f :: after ∧ zf_Name f = fn ∧ Forall (λ g, zf_Name g ≠ fn) after.

Lemma find_loop fn files : ∀ index i,
  fst (fold_left (λ '(index, i) f, (if bool_decide (zf_Name f = fn) then i else index, i + 1)) files (index, i)) = index ∧
    Forall (λ g, zf_Name g ≠ fn) files ∨
  ∃ before f after, files = before ++ f :: after ∧ zf_Name f = fn ∧ Forall (λ g, zf_Name g ≠ fn) after ∧
    fst (fold_left (λ '(index, i) f, (if bool_decide (zf_Name f = fn) then i else index, i + 1)) files (index, i)) = i + zlen before.
Proof.
  induction files as [|f files IH]; intros index i; [by left|]. cbn [fold_left].
  destruct (IH (if bool_decide (zf_Name f = fn) then i else index) (i + 1)) as [[E Hall]|(b & g & a & -> & Hg & Ha & E)].
  - rewrite E. case_bool_decide as Hf; [right|left; by repeat constructor].
    exists [], f, files. cbn. repeat split; [done|done|]. rewrite zlen_nil. lia.
  - right. exists (f :: b), g, a. split; [done|]. do 2 (split; [done|]). rewrite E, zlen_cons. lia.
Qed.

Lemma FindFileInArchive_spec fn files :
  (FindFileInArchive fn files = -1 ∧ ∀ f, ¬ last_named files fn f) ∨
  ∃ f, 0 <= FindFileInArchive fn files ∧ index files (FindFileInArchive fn files) = Ret f ∧ last_named files fn f.
Proof.
  unfold FindFileInArchive. destruct (find_loop fn files (-1) 0) as [[-> Hall]|(b & f & a & -> & Hf & Ha & ->)].
  - left. split; [done|]. intros f (b & a & -> & Hf & _).
    apply Forall_app in Hall as [_ [Hne _]%Forall_cons]. done.
  - right. exists f. pose proof (zlen_nonneg b). split; [lia|]. split; [apply index_middle; lia|]. by exists b, a.
Qed.

Lemma last_named_unique files fn f g : last_named files fn f -> last_named files fn g -> f = g.
Proof.
  intros (b & a & -> & Hf & Ha) (b' & a' & E & Hg & Ha').
  revert b' E. induction b as [|x b IH]; intros [|y b'] E; cbn in E; injection E as E1 E2; [done|..].
  - subst. apply Forall_app in Ha as [_ [Hne _]%Forall_cons]. done.
  - subst. apply Forall_app in Ha' as [_ [Hne _]%Forall_cons]. done.
  - by apply (IH b').
Qed.

(** What the last file of a name holds. *)
Definition holds_file (files : list ZipFile) (fn content : bytes) : Prop :=
  ∃ f, last_named files fn f ∧ zip_ReadFile f = inr content.

Lemma holds_file_read files fn f content :
  last_named files fn f -> holds_file files fn content <-> zip_ReadFile f = inr content.
Proof.
  intros Hf. split; [|by exists f]. intros (g & Hg & <-). by rewrite (last_named_unique _ _ _ _ Hf Hg).
Qed.

Lemma open_entry_spec files f :
  (∃ r, open_entry files f = Ret r) ∧
  ∀ p, open_entry files f = Ret (inr p) <->
    ReadManifest f = inr (ep_Manifest p) ∧ pm_Entry (ep_Manifest p) ≠ [] ∧
    holds_file files (pm_Entry (ep_Manifest p)) (EntryHtml p).
Proof.
  unfold open_entry, try. destruct (ReadManifest f) as [e|m]; [split; [by eexists|]; naive_solver|].
  case_bool_decide as Hentry.
  { split; [by eexists|]. intros p. split; [done|]. intros ([= ->] & Hne & _). done. }
  destruct (FindFileInArchive_spec (pm_Entry m) files) as [[-> Hno]|(ef & Hge & -> & Hef)].
  { split; [by eexists|]. intros p. split; [done|]. intros ([= ->] & _ & g & Hg & _). by apply Hno in Hg. }
  destruct (Z.ltb_spec (FindFileInArchive (pm_Entry m) files) 0); [lia|]. cbn [mbind outcome_bind].
  split; [by destruct (zip_ReadFile ef); eexists|]. intros p. split.
  - destruct (zip_ReadFile ef) eqn:Ef; [done|]. intros [= <-]. split; [done|]. split; [done|]. by exists ef.
  - intros ([= ->] & _ & Hp). apply (holds_file_read _ _ _ _ Hef) in Hp. rewrite Hp. by destruct p.
Qed.

(** C40. Opening a package answers for every file name, without a panic, and gives the
    content of the entry that the manifest names: both the manifest and the
    entry are the last files of their names in the archive. *)
Lemma OpenPackage_spec fn :
  (∃ r, OpenPackage fn = Ret r) ∧
  ∀ p, OpenPackage fn = Ret (inr p) <->
    ∃ files m, zip_OpenReader fn = inr files ∧ holds_file files (asc "manifest.json") m ∧
      ReadManifest m = inr (ep_Manifest p) ∧ pm_Entry (ep_Manifest p) ≠ [] ∧
      holds_file files (pm_Entry (ep_Manifest p)) (EntryHtml p).
Proof.
  unfold OpenPackage, try. destruct (zip_OpenReader fn) as [e|files]; [split; [by eexists|]; naive_solver|].
  destruct (FindFileInArchive_spec (asc "manifest.json") files) as [[-> Hno]|(mf & Hge & -> & Hmf)].
  { split; [by eexists|]. intros p. split; [done|]. intros (? & ? & [= <-] & (g & Hg & _) & _). by apply Hno in Hg. }
  destruct (Z.ltb_spec (FindFileInArchive (asc "manifest.json") files) 0); [lia|]. cbn [mbind outcome_bind].
  destruct (zip_ReadFile mf) as [e|m] eqn:Emf.
  - split; [by eexists|]. intros p. split; [done|]. intros (? & m & [= <-] & Hm & _).
    apply (holds_file_read _ _ _ _ Hmf) in Hm. congruence.
  - destruct (open_entry_spec files m) as [Hr Hp]. split; [done|]. intros p. rewrite Hp. split.
    + intros Hopen. exists files, m. split; [done|]. split; [by exists mf|done].
    + intros (? & m' & [= <-] & Hm & Hopen). apply (holds_file_read _ _ _ _ Hmf) in Hm. congruence.
Qed.

End Package.

(** * Configuration *)

Section Config.
Context {Conf : Type}.
Variables (globalconf_New : bytes -> bytes -> error + Conf) (ParseAll : Conf -> Conf).
Variables (conf_Set : Conf -> bytes -> bytes -> Conf) (conf_Delete : Conf -> bytes -> Conf).

(** ethutil/config.go 12-22, ConfigManager. The database is passed as the environment. *)
Record ConfigManager := mkConfigManager {
  ExecPath : bytes; cfg_Debug : bool; cfg_Diff : bool; DiffType : bytes; cfg_Paranoia : bool; cfg_conf : option Conf;
}.

(** The variable [Config], and whether a file was made. *)
Record Configured := mkConfigured { Config : option ConfigManager; created : list bytes }.

(** ethutil/config.go, ReadConfig. Once there is a configuration it is not read again. *)
Definition ReadConfig (os_Stat : bytes -> stat) (ConfigFile Datadir EnvPrefix : bytes) : st Configured ConfigManager := λ s,
  match Config s with
  | Some c => (Ret c, s)
  | None =>
      let made := if FileExist os_Stat ConfigFile then created s else created s ++ [ConfigFile] in
      let g := match globalconf_New ConfigFile EnvPrefix with inl _ => None | inr g => Some (ParseAll g) end in
      let c := mkConfigManager Datadir true false [] true g in
      (Ret c, mkConfigured (Some c) made)
  end.

(** ethutil/config.go 61-63, confValue. *)
Record confValue := mkConfValue { cv_value : bytes }.

(** ethutil/config.go 66-68, newConfValue. From the text of the value. *)
Definition newConfValue (value : bytes) : confValue := mkConfValue value.

(** ethutil/config.go 70-70, confValue.String. *)
Definition confValue_String (self : confValue) : bytes := cv_value self.

(** ethutil/config.go 71-71, confValue.Set. It changes the copy it is called on: the value is the
    one it was. *)
Definition confValue_Set (self : confValue) (s : bytes) : confValue := self.

(** ethutil/config.go, ConfigManager.Save. The file may not have been read. *)
Definition Config_Save (c : ConfigManager) (key value : bytes) : outcome ConfigManager :=
  conf ← deref (cfg_conf c);
  Ret (mkConfigManager (ExecPath c) (cfg_Debug c) (cfg_Diff c) (DiffType c) (cfg_Paranoia c)
         (Some (conf_Set conf key (confValue_String (newConfValue value))))).

(** ethutil/config.go, ConfigManager.Delete. *)
Definition Config_Delete (c : ConfigManager) (key : bytes) : outcome ConfigManager :=
  conf ← deref (cfg_conf c);
  Ret (mkConfigManager (ExecPath c) (cfg_Debug c) (cfg_Diff c) (DiffType c) (cfg_Paranoia c)
         (Some (conf_Delete conf key))).

(** The configuration is read once. *)
Lemma ReadConfig_once stat file dir env s c s' :
  ReadConfig stat file dir env s = (Ret c, s') ->
  ∀ stat' file' dir' env', ReadConfig stat' file' dir' env' s' = (Ret c, s').
Proof.
  unfold ReadConfig. intros Hr *. destruct (Config s) as [c0|] eqn:E; injection Hr as <- <-; [by rewrite E|done].
Qed.

End Config.

(** * Random numbers *)

(** ethutil/rand.go, randomUint64. From what reading eight bytes gives: the bytes read
    and an error. *)
Definition randomUint64 (read : bytes * option error) : error + Z :=
  let '(b, err) := read in
  if negb (zlen b =? 8) then inl (Errorf (asc "short buffer"))
  else match err with Some err => inl err | None => inr (big_SetBytes b) end.

Lemma randomUint64_range read z : randomUint64 read = inr z -> 0 <= z < 2 ^ 64.
Proof.
  destruct read as [b err]. unfold randomUint64. destruct (Z.eqb_spec (zlen b) 8) as [Hl|]; [|done].
  cbn [negb]. destruct err; [done|]. intros [= <-]. pose proof (SetBytes_range b) as Hb.
  rewrite Hl in Hb. exact Hb.
Qed.
