(* ===== verification/Nat.v ===== *)
(** Opening a port of the router: the interface [NAT] ([nat.go]), its
    implementations over UPnP ([natupnp.go]) and NAT-PMP ([natpmp.go]), and the
    thread of [ethereum.go] that keeps the mapping (upnpUpdateThread).

    The network is a state [W]; requests over HTTP and those of the NAT-PMP
    client are computations on it, given as arguments, as are the reader of XML
    and the answers of the operating system. *)

From S2P Require Import Prelude GoVal Big Bytes Errors Rlp Value Net.

(** * The library *)

(** [strings.Index]. *)
Fixpoint strings_Index (s sub : bytes) : Z :=
  if bool_decide (take (length sub) s = sub) then 0
  else match s with
       | [] => -1
       | _ :: r => let i := strings_Index r sub in if i <? 0 then -1 else i + 1
       end.

(** [strings.ToLower] of a text in ASCII. *)
Definition lower (b : byte) : byte := if (65 <=? b2z b) && (b2z b <=? 90) then z2b (b2z b + 32) else b.
Definition ToLower (s : bytes) : bytes := map lower s.

(** [strconv.ParseInt] with base 10 and 16 bits, its error dropped: the nearest
    bound for a number out of range. *)
Definition ParseInt16 (s : bytes) : Z := Z.max (- 2 ^ 15) (Z.min (2 ^ 15 - 1) (Atoi s)).

Definition crlf : bytes := [x0d; x0a].

(** A text in double quotes. *)
Definition quote (s : bytes) : bytes := [x22] ++ s ++ [x22].

(** * The interface *)

(** nat.go, NAT. An address is its bytes, none for nil. *)
Class NAT (N W : Type) := {
  nat_GetExternalAddress : N -> st W (error + option (list Z));
  nat_AddPortMapping : N -> bytes -> Z -> Z -> bytes -> Z -> st W (error + Z);
  nat_DeletePortMapping : N -> bytes -> Z -> Z -> st W (option error);
}.

(** Computations that may fail. *)
Definition st_try {W A B} (m : st W (error + A)) (k : A -> st W (error + B)) : st W (error + B) :=
  r ← m; match r with inl err => mret (inl err) | inr a => k a end.

(** * UPnP *)

(** natupnp.go 18-21, upnpNAT. *)
Record upnpNAT := mkUpnpNAT { serviceURL : bytes; ourIP : bytes }.

(** natupnp.go 99-102, service. *)
Record service := mkService { ServiceType : bytes; ControlURL : bytes }.

(** natupnp.go 123-128, device. With its lists. *)
Inductive device := mkDevice (DeviceType : bytes) (DeviceList : list device) (ServiceList : list service).

Definition dv_DeviceType (d : device) : bytes := let 'mkDevice t _ _ := d in t.
Definition dv_DeviceList (d : device) : list device := let 'mkDevice _ l _ := d in l.
Definition dv_ServiceList (d : device) : list service := let 'mkDevice _ _ l := d in l.

(** natupnp.go, getChildDevice. *)
Definition getChildDevice (d : device) (deviceType : bytes) : option device :=
  find (λ x, bool_decide (dv_DeviceType x = deviceType)) (dv_DeviceList d).

(** natupnp.go, getChildService. *)
Definition getChildService (d : device) (serviceType : bytes) : option service :=
  find (λ x, bool_decide (ServiceType x = serviceType)) (dv_ServiceList d).

(** natupnp.go, combineURL. *)
Definition combineURL (rootURL subURL : bytes) : outcome bytes :=
  let protocolEnd := asc "://" in
  let protoEndIndex := strings_Index rootURL protocolEnd in
  a ← slice rootURL (protoEndIndex + zlen protocolEnd) (zlen rootURL);
  let rootIndex := strings_Index a (asc "/") in
  base ← slice rootURL 0 (protoEndIndex + zlen protocolEnd + rootIndex);
  Ret (base ++ subURL).

(** natupnp.go, getOurIP. From the name of the host, and the addresses of a name with the error
    of looking them up. *)
Definition getOurIP (os_Hostname : error + bytes) (net_LookupIP : bytes -> list bytes * option error)
    : outcome (error + bytes) :=
  match os_Hostname with
  | inl err => Ret (inl err)
  | inr hostname =>
      let '(p, err) := net_LookupIP hostname in
      match err with
      | Some err => if 0 <? zlen p then Ret (inl err) else ip ← index p 0; Ret (inr ip)
      | None => ip ← index p 0; Ret (inr ip)
      end
  end.

(** A response: its status and its body. *)
Record Response := mkResponse { StatusCode : Z; Body : bytes }.

(** A request: the URL, the headers and the body. *)
Record Request := mkRequest { rq_URL : bytes; rq_Header : list (bytes * bytes); rq_Body : bytes }.

Section UPnP.
Context {W : Type}.
Variable http_Get : bytes -> st W (error + Response).
Variable http_Do : Request -> st W (error + Response).
Variable http_NewRequest : bytes -> option error.
Variable xml_Decode : bytes -> error + device.

(** natupnp.go 196-217, getServiceURL. The services of the root device; each failure has its text. *)
Definition find_service (a : device) : error + service :=
  if negb (bool_decide (dv_DeviceType a = asc "urn:schemas-upnp-org:device:InternetGatewayDevice:1"))
  then inl (Errorf (asc "No InternetGatewayDevice"))
  else match getChildDevice a (asc "urn:schemas-upnp-org:device:WANDevice:1") with
  | None => inl (Errorf (asc "No WANDevice"))
  | Some b =>
  match getChildDevice b (asc "urn:schemas-upnp-org:device:WANConnectionDevice:1") with
  | None => inl (Errorf (asc "No WANConnectionDevice"))
  | Some c =>
  match getChildService c (asc "urn:schemas-upnp-org:service:WANIPConnection:1") with
  | None => inl (Errorf (asc "No WANIPConnection"))
  | Some d => inr d
  end end end.

(** natupnp.go, getServiceURL. The error for a status is one character. *)
Definition getServiceURL (rootURL : bytes) : st W (error + bytes) :=
  st_try (http_Get rootURL) (λ r,
  if 400 <=? StatusCode r then mret (inl (Errorf (rune_string (StatusCode r))))
  else match xml_Decode (Body r) with
  | inl err => mret (inl err)
  | inr root =>
  match find_service root with
  | inl err => mret (inl err)
  | inr d => url ← lift (combineURL rootURL (ControlURL d)); mret (inr url)
  end end).

(** natupnp.go, soapRequest. *)
Definition soapRequest (url function message : bytes) : st W (error + Response) :=
  let fullMessage :=
    asc "<?xml version=" ++ quote (asc "1.0") ++ asc " ?>" ++
    asc "<s:Envelope xmlns:s=" ++ quote (asc "http://schemas.xmlsoap.org/soap/envelope/") ++
    asc " s:encodingStyle=" ++ quote (asc "http://schemas.xmlsoap.org/soap/encoding/") ++ asc ">" ++ crlf ++
    asc "<s:Body>" ++ message ++ asc "</s:Body></s:Envelope>" in
  match http_NewRequest url with
  | Some err => mret (inl err)
  | None =>
      let header :=
        [(asc "Content-Type", asc "text/xml ; charset=" ++ quote (asc "utf-8"));
         (asc "User-Agent", asc "Darwin/10.0.0, UPnP/1.0, MiniUPnPc/1.3");
         (asc "SOAPAction", quote (asc "urn:schemas-upnp-org:service:WANIPConnection:1#" ++ function));
         (asc "Connection", asc "Close"); (asc "Cache-Control", asc "no-cache"); (asc "Pragma", asc "no-cache")] in
      st_try (http_Do (mkRequest url header fullMessage)) (λ r,
      if 400 <=? StatusCode r
      then mret (inl (Errorf (asc "Error " ++ decimal (StatusCode r) ++ asc " for " ++ function)))
      else mret (inr r))
  end.

Definition xmlns : bytes := asc " xmlns:u=" ++ quote (asc "urn:schemas-upnp-org:service:WANIPConnection:1") ++ asc ">" ++ crlf.

(** natupnp.go, upnpNAT.getStatusInfo. The reply is not read: the address is left empty. *)
Definition getStatusInfo (n : upnpNAT) : st W (error + bytes) :=
  let message := asc "<u:GetStatusInfo" ++ xmlns ++ asc "</u:GetStatusInfo>" in
  st_try (soapRequest (serviceURL n) (asc "GetStatusInfo") message) (λ _, mret (inr [])).

(** natupnp.go, upnpNAT.GetExternalAddress. *)
Definition upnp_GetExternalAddress (parseIPv6 : bytes -> option (list Z)) (n : upnpNAT)
    : st W (error + option (list Z)) :=
  st_try (getStatusInfo n) (λ externalIpAddress, mret (inr (ParseIP parseIPv6 externalIpAddress))).

(** natupnp.go 298-306, upnpNAT.AddPortMapping. The message. *)
Definition add_message (n : upnpNAT) (protocol : bytes) (externalPort internalPort : Z) (description : bytes)
    (timeout : Z) : bytes :=
  asc "<u:AddPortMapping" ++ xmlns ++
  asc "<NewRemoteHost></NewRemoteHost><NewExternalPort>" ++ decimal externalPort ++
  asc "</NewExternalPort><NewProtocol>" ++ protocol ++ asc "</NewProtocol>" ++
  asc "<NewInternalPort>" ++ decimal internalPort ++ asc "</NewInternalPort>" ++
  asc "<NewInternalClient>" ++ ourIP n ++ asc "</NewInternalClient>" ++
  asc "<NewEnabled>1</NewEnabled><NewPortMappingDescription>" ++ description ++
  asc "</NewPortMappingDescription><NewLeaseDuration>" ++ decimal timeout ++
  asc "</NewLeaseDuration></u:AddPortMapping>".

(** natupnp.go, upnpNAT.AddPortMapping. The port that was asked for is the answer. *)
Definition upnp_AddPortMapping (n : upnpNAT) (protocol : bytes) (externalPort internalPort : Z)
    (description : bytes) (timeout : Z) : st W (error + Z) :=
  st_try (soapRequest (serviceURL n) (asc "AddPortMapping")
            (add_message n protocol externalPort internalPort description timeout))
    (λ _, mret (inr externalPort)).

(** natupnp.go, upnpNAT.DeletePortMapping. *)
Definition upnp_DeletePortMapping (n : upnpNAT) (protocol : bytes) (externalPort internalPort : Z)
    : st W (option error) :=
  let message := asc "<u:DeletePortMapping" ++ xmlns ++
    asc "<NewRemoteHost></NewRemoteHost><NewExternalPort>" ++ decimal externalPort ++
    asc "</NewExternalPort><NewProtocol>" ++ protocol ++ asc "</NewProtocol>" ++ asc "</u:DeletePortMapping>" in
  r ← soapRequest (serviceURL n) (asc "DeletePortMapping") message;
  mret (match r with inl err => Some err | inr _ => None end).

Definition upnp_NAT (parseIPv6 : bytes -> option (list Z)) : NAT upnpNAT W := {|
  nat_GetExternalAddress := upnp_GetExternalAddress parseIPv6;
  nat_AddPortMapping := upnp_AddPortMapping;
  nat_DeletePortMapping := upnp_DeletePortMapping;
|}.

(** natupnp.go 61-78, Discover. The location in an answer, if it is one: the whole answer
    is put in lower case before. *)
Definition st_line : bytes := asc "ST: urn:schemas-upnp-org:device:InternetGatewayDevice:1" ++ crlf.

Definition location (answer : bytes) : outcome (option bytes) :=
  if strings_Index answer (crlf ++ st_line) <? 0 then Ret None
  else
    let locString := crlf ++ asc "location: " in
    let answer := ToLower answer in
    let locIndex := strings_Index answer locString in
    if locIndex <? 0 then Ret None
    else
      loc ← slice answer (locIndex + zlen locString) (zlen answer);
      let endIndex := strings_Index loc crlf in
      if endIndex <? 0 then Ret None else url ← slice loc 0 endIndex; Ret (Some url).

Variable our_ip : outcome (error + bytes).

(** natupnp.go 49-93, Discover. The attempts, each with the error of sending and what
    was received, of which the buffer takes 1024 bytes. *)
Fixpoint attempts (l : list (option error * (error + bytes))) : st W (error + upnpNAT) :=
  match l with
  | [] => mret (inl (Errorf (asc "UPnP port discovery failed.")))
  | (Some err, _) :: _ => mret (inl err)
  | (None, inl _) :: rest => attempts rest
  | (None, inr datagram) :: rest =>
      loc ← lift (location (take 1024 datagram));
      match loc with
      | None => attempts rest
      | Some locURL =>
          st_try (getServiceURL locURL) (λ serviceURL,
          ip ← lift our_ip;
          match ip with inl err => mret (inl err) | inr ourIP => mret (inr (mkUpnpNAT serviceURL ourIP)) end)
      end
  end.

(** natupnp.go, Discover. With the error of making the socket, and the outcome of three
    attempts. *)
Definition Discover (setup : option error) (a b c : option error * (error + bytes)) : st W (error + upnpNAT) :=
  match setup with Some err => mret (inl err) | None => attempts [a; b; c] end.

End UPnP.

(** * NAT-PMP *)

Section NatPMP.
Context {C W : Type}.

(** The client of the library: the address of four bytes, and a mapping for an
    internal port, an external port and a lifetime. *)
Variable client_GetExternalAddress : C -> st W (error + (Z * Z * Z * Z)).
Variable client_AddPortMapping : C -> bytes -> Z -> Z -> Z -> st W (error + Z).

(** natpmp.go, natPMPClient. *)
Record natPMPClient := mkNatPMPClient { client : C }.

(** natpmp.go, natPMPClient.GetExternalAddress. *)
Definition pmp_GetExternalAddress (n : natPMPClient) : st W (error + option (list Z)) :=
  st_try (client_GetExternalAddress (client n)) (λ '(a, b, c, d), mret (inr (Some [a; b; c; d]))).

(** natpmp.go, natPMPClient.AddPortMapping. The client takes the ports in the other order. *)
Definition pmp_AddPortMapping (n : natPMPClient) (protocol : bytes) (externalPort internalPort : Z)
    (description : bytes) (timeout : Z) : st W (error + Z) :=
  if timeout <=? 0 then mret (inl (Errorf (asc "timeout must not be <= 0")))
  else client_AddPortMapping (client n) protocol internalPort externalPort timeout.

(** natpmp.go, natPMPClient.DeletePortMapping. *)
Definition pmp_DeletePortMapping (n : natPMPClient) (protocol : bytes) (externalPort internalPort : Z)
    : st W (option error) :=
  r ← client_AddPortMapping (client n) protocol internalPort 0 0;
  mret (match r with inl err => Some err | inr _ => None end).

Definition pmp_NAT : NAT natPMPClient W := {|
  nat_GetExternalAddress := pmp_GetExternalAddress;
  nat_AddPortMapping := pmp_AddPortMapping;
  nat_DeletePortMapping := pmp_DeletePortMapping;
|}.

End NatPMP.
Arguments natPMPClient C : clear implicits.

(** * The thread that keeps the mapping *)

Definition minute : Z := 60.

(** ethereum.go 482-484, Ethereum.upnpUpdateThread. The variables of the thread; the timer is
    the time until it fires, when it is set. *)
Record mapping_thread := mkThread { th_lport : Z; th_first : bool; th_timer : option Z; th_done : bool }.

Definition th_start (Port : bytes) : mapping_thread := mkThread (ParseInt16 Port) true (Some (5 * minute)) false.

(** What the thread waits for. *)
Inductive th_event := TimerFires | QuitCloses.

Section Thread.
Context {N W : Type} `{NAT N W}.
Variable n : N.

(** ethereum.go 509-515, Ethereum.upnpUpdateThread. The end: the mapping is removed. *)
Definition th_end (t : mapping_thread) : st W mapping_thread :=
  _ ← nat_DeletePortMapping n (asc "TCP") (th_lport t) (th_lport t);
  mret (mkThread (th_lport t) (th_first t) None true).

(** ethereum.go 489-503, Ethereum.upnpUpdateThread. The timer has fired; when the address cannot
    be had the loop goes on without setting it again. *)
Definition th_fires (t : mapping_thread) : st W mapping_thread :=
  r ← nat_AddPortMapping n (asc "TCP") (th_lport t) (th_lport t) (asc "eth listen port") (20 * 60);
  match r with
  | inl _ => th_end t
  | inr _ =>
      let reset first := mkThread (th_lport t) first (Some (15 * minute)) false in
      if th_first t then
        a ← nat_GetExternalAddress n;
        match a with
        | inl _ => mret (mkThread (th_lport t) true None false)
        | inr _ => mret (reset false)
        end
      else mret (reset false)
  end.

(** ethereum.go 486-507, Ethereum.upnpUpdateThread. A timer that is not set does not fire. *)
Definition th_step (t : mapping_thread) (e : th_event) : st W mapping_thread :=
  if th_done t then mret t
  else match e with
       | QuitCloses => th_end t
       | TimerFires => match th_timer t with None => mret t | Some _ => th_fires t end
       end.

(** ethereum.go, Ethereum.upnpUpdateThread. *)
Fixpoint upnpUpdateThread (t : mapping_thread) (events : list th_event) : st W mapping_thread :=
  match events with
  | [] => mret t
  | e :: rest => t ← th_step t e; upnpUpdateThread t rest
  end.

End Thread.

(** * The calls of the thread *)

(** A router that answers the calls as it likes, which are written down. *)
Inductive nat_call :=
| CExternal
| CAdd (protocol : bytes) (externalPort internalPort : Z) (description : bytes) (timeout : Z)
| CDelete (protocol : bytes) (externalPort internalPort : Z).

Record router := mkRouter {
  rt_external : list nat_call -> error + option (list Z);
  rt_add : list nat_call -> error + Z;
  rt_delete : list nat_call -> option error;
}.

#[export] Instance router_NAT : NAT router (list nat_call) := {|
  nat_GetExternalAddress r := λ log, (Ret (rt_external r log), log ++ [CExternal]);
  nat_AddPortMapping r p e i d t := λ log, (Ret (rt_add r log), log ++ [CAdd p e i d t]);
  nat_DeletePortMapping r p e i := λ log, (Ret (rt_delete r log), log ++ [CDelete p e i]);
|}.

(** The mapping that the thread asks for, with its lease of twenty minutes. *)
Definition the_mapping (port : Z) : nat_call := CAdd (asc "TCP") port port (asc "eth listen port") (20 * 60).
Definition the_removal (port : Z) : nat_call := CDelete (asc "TCP") port port.

(** While the thread runs it has asked for the mapping only, and will again before the
    lease is over, or the router has not told its address and nothing will
    be asked any more. *)
Definition asked (port : Z) (c : nat_call) : Prop := c = the_mapping port ∨ c = CExternal.

Definition thread_ok (port : Z) (t : mapping_thread) (log : list nat_call) : Prop :=
  th_lport t = port ∧
  if th_done t then ∃ calls, log = calls ++ [the_removal port] ∧ Forall (asked port) calls
  else Forall (asked port) log ∧
       match th_timer t with
       | Some d => d <= 15 * minute ∧ (th_first t = true -> log = [])
       | None => th_first t = true ∧ log = [the_mapping port; CExternal]
       end.

Section Calls.
Variable r : router.

Lemma th_end_ok port t log :
  th_lport t = port -> Forall (asked port) log ->
  ∃ t' log', th_end r t log = (Ret t', log') ∧ thread_ok port t' log'.
Proof.
  intros <- Hlog. do 2 eexists. split; [reflexivity|]. split; [done|]. cbn. by eexists.
Qed.

Lemma th_step_ok port t e log :
  thread_ok port t log -> ∃ t' log', th_step r t e log = (Ret t', log') ∧ thread_ok port t' log'.
Proof.
  intros Hok. unfold th_step. destruct (th_done t) eqn:Ed; [by exists t, log|].
  pose proof Hok as [Hport Ht]. rewrite Ed in Ht. destruct Ht as [Hlog Htimer].
  destruct e; [|by apply th_end_ok]. destruct (th_timer t) as [d|]; [|by exists t, log].
  destruct Htimer as [_ Hempty]. unfold th_fires. rewrite Hport.
  rewrite (st_bind_run _ _ log (rt_add r log) (log ++ [the_mapping port])) by done.
  assert (Forall (asked port) (log ++ [the_mapping port])) as Hadd.
  { apply Forall_app. split; [done|]. repeat constructor. }
  destruct (rt_add r log) as [err|z].
  { by apply th_end_ok. }
  destruct (th_first t) eqn:Ef.
  - rewrite Hempty by done. cbn [app].
    rewrite (st_bind_run _ _ _ (rt_external r [the_mapping port]) [the_mapping port; CExternal]) by done.
    destruct (rt_external r _) as [err|a].
    + do 2 eexists. split; [reflexivity|]. split; [done|]. cbn. split; [|done].
      constructor; [by left|]. constructor; [by right|done].
    + do 2 eexists. split; [reflexivity|]. split; [done|]. cbn. split; [|done].
      constructor; [by left|]. constructor; [by right|done].
  - do 2 eexists. split; [reflexivity|]. split; [done|]. cbn. by split.
Qed.

Lemma thread_run_ok port events : ∀ t log,
  thread_ok port t log ->
  ∃ t' log', upnpUpdateThread r t events log = (Ret t', log') ∧ thread_ok port t' log'.
Proof.
  induction events as [|e events IH]; intros t log Hok; [by exists t, log|].
  destruct (th_step_ok port t e log Hok) as (t1 & log1 & H1 & Hok1). cbn [upnpUpdateThread].
  rewrite (st_bind_run _ _ _ _ _ H1). by apply IH.
Qed.

End Calls.

(** C35. The thread that keeps the port mapping, whatever the router answers and
    for every order of timer and quit: it asks for one mapping of one port only;
    while it runs, either the timer is set to fire again within fifteen
    minutes, five before the lease of the last mapping ends, or the first
    question for the address has failed, and then nothing more is asked; when
    it has ended the mapping has been removed, once and as the last call. *)
Theorem upnpUpdateThread_spec (r : router) (Port : bytes) (events : list th_event) :
  let port := ParseInt16 Port in
  ∃ t log, upnpUpdateThread r (th_start Port) events [] = (Ret t, log) ∧
    if th_done t then ∃ calls, log = calls ++ [the_removal port] ∧ Forall (asked port) calls
    else Forall (asked port) log ∧
         match th_timer t with
         | Some d => d <= 15 * minute ∧ d < 20 * 60
         | None => log = [the_mapping port; CExternal]
         end.
Proof.
  intros port. destruct (thread_run_ok r port events (th_start Port) []) as (t & log & Hrun & Hok).
  { split; [done|]. cbn. split; [done|]. unfold minute. split; [lia|done]. }
  exists t, log. split; [done|]. destruct Hok as [_ Ht]. destruct (th_done t); [done|].
  destruct Ht as [Hlog Ht]. split; [done|]. destruct (th_timer t) as [d|]; [|by apply Ht].
  unfold minute in *. lia.
Qed.

(** A router that cannot tell its address loses the mapping: once the question has
    failed, the timer does not fire and the mapping is not renewed. *)
Lemma lease_not_renewed (r : router) (Port : bytes) (k : nat) :
  (∀ log, rt_add r log = inr (ParseInt16 Port)) ->
  (∃ err, rt_external r [the_mapping (ParseInt16 Port)] = inl err) ->
  (upnpUpdateThread r (th_start Port) (replicate (S k) TimerFires) []).2
  = [the_mapping (ParseInt16 Port); CExternal].
Proof.
  intros Hadd [err Hext]. set (port := ParseInt16 Port) in *.
  assert (th_step r (th_start Port) TimerFires [] =
    (Ret (mkThread port true None false), [the_mapping port; CExternal])) as H1.
  { unfold th_step, th_fires. cbn [th_done th_start th_timer th_lport th_first]. fold port.
    rewrite (st_bind_run _ _ [] (rt_add r []) [the_mapping port]) by done. rewrite Hadd.
    rewrite (st_bind_run _ _ _ (rt_external r [the_mapping port]) [the_mapping port; CExternal]) by done.
    by rewrite Hext. }
  cbn [replicate upnpUpdateThread]. rewrite (st_bind_run _ _ _ _ _ H1).
  induction k as [|k IH]; [done|]. cbn [replicate upnpUpdateThread].
  rewrite (st_bind_run _ _ _ (mkThread port true None false) [the_mapping port; CExternal]) by done. exact IH.
Qed.

(** A port above 32767 is not the one that is mapped. *)
Lemma high_port_clamped : th_lport (th_start (asc "40404")) = 32767.
Proof. reflexivity. Qed.

(** * Addresses *)

Lemma strings_Index_app pre sub post :
  (∀ a b, pre = a ++ b -> b ≠ [] -> take (length sub) (b ++ sub ++ post) ≠ sub) ->
  strings_Index (pre ++ sub ++ post) sub = zlen pre.
Proof.
  induction pre as [|x pre IH]; intros Hno.
  - cbn [app]. assert (take (length sub) (sub ++ post) = sub) as E by apply take_app_length.
    destruct (sub ++ post) eqn:Es; cbn [strings_Index]; by rewrite bool_decide_eq_true_2.
  - cbn [app strings_Index]. rewrite bool_decide_eq_false_2 by (apply (Hno [] (x :: pre)); done).
    rewrite IH by (intros a b -> Hb; by apply (Hno (x :: a) b)).
    pose proof (zlen_nonneg pre). rewrite zlen_cons. destruct (Z.ltb_spec (zlen pre) 0); lia.
Qed.

(** The URL of a service is on the host of the description: everything up to the
    path, then the path of the service. *)
Lemma combineURL_spec proto host path sub :
  x3a ∉ proto -> x2f ∉ host ->
  combineURL (proto ++ asc "://" ++ host ++ x2f :: path) sub = Ret (proto ++ asc "://" ++ host ++ sub).
Proof.
  intros Hp Hh. unfold combineURL.
  assert (strings_Index (proto ++ asc "://" ++ host ++ x2f :: path) (asc "://") = zlen proto) as ->.
  { apply (strings_Index_app proto (asc "://")). intros a b -> Hb E. destruct b as [|c b]; [done|].
    injection E as -> _. apply Hp. apply elem_of_app. right. left. }
  rewrite (slice_of (proto ++ asc "://") (host ++ x2f :: path) []) by
    (by rewrite ?app_nil_r, <-?app_assoc || lenlia).
  cbn [mbind outcome_bind].
  assert (strings_Index (host ++ x2f :: path) (asc "/") = zlen host) as ->.
  { apply (strings_Index_app host (asc "/") path). intros a b -> Hb E. destruct b as [|c b]; [done|].
    injection E as ->. apply Hh. apply elem_of_app. right. left. }
  rewrite (slice_of [] (proto ++ asc "://" ++ host) (x2f :: path)) by
    (by rewrite <-?app_assoc || (rewrite ?zlen_app; change (zlen (asc "://")) with 3; lenlia)).
  cbn [mbind outcome_bind]. by rewrite <-!app_assoc.
Qed.

(** Without a path the last slash is lost with the host. *)
Example combineURL_no_path :
  combineURL (asc "http://10.0.0.1:5000") (asc "/ctl") = Ret (asc "http:/" ++ asc "/ctl").
Proof. reflexivity. Qed.

(** Over UPnP the external address is never known. *)
Lemma st_try_last {W A B} (m : st W (error + A)) (k : A -> st W (error + B)) (P : B -> Prop) w b w' :
  (∀ a w1 b w', m w = (Ret (inr a), w1) -> k a w1 = (Ret (inr b), w') -> P b) ->
  st_try m k w = (Ret (inr b), w') -> P b.
Proof.
  intros Hk. unfold st_try, mbind, st_bind. destruct (m w) as [[[err|a]| |] w1]; [done| |done|done].
  intros E. by eapply Hk.
Qed.

Lemma GetExternalAddress_unknown {W} (http_Do : Request -> st W (error + Response)) new p6 n (w w' : W) a :
  upnp_GetExternalAddress http_Do new p6 n w = (Ret (inr a), w') -> a = None.
Proof.
  apply (st_try_last _ _ (λ a, a = None)). intros ip w1 a' w2 Hip [= <- _].
  assert (ip = []) as ->; [|done]. revert Hip. apply (st_try_last _ _ (λ ip, ip = [])). by intros rsp w3 ip' w4 _ [= <- _].
Qed.
