(* ===== verification/Reactor.v ===== *)
(** [ethreact/reactor.go]: the event engine, a goroutine that hands events to
    the channels subscribed to them.

    The goroutines that call the engine interleave with its own: every step
    between two operations on a channel, or up to taking the lock, is an action
    of a thread, and a run of the system is a list of actions.  The log lines
    are left out. *)

From S2P Require Import Prelude Bytes.

(** The number of events that are kept for the engine ([eventBufferSize]). *)
Definition eventBufferSize : nat := 10.

Section Reactor.
Context {R : Type}.

(** ethreact/reactor.go, Event. *)
Record Event := mkEvent { Resource : R; Name : bytes }.

(** A subscriber's channel: what it has taken, and how many more events it can
    take at once (free places in its buffer, and receivers that wait at it). *)
Record Chan := mkChan { taken : list Event; room : nat }.

(** The channels by their identity. *)
Notation Chans := (gmap nat Chan).

(** * Handlers *)

(** ethreact/reactor.go, EventHandler. *)
Record EventHandler := mkHandler { h_name : bytes; chans : list nat }.

(** A send that does not wait. *)
Definition try_send (event : Event) (cs : Chans) (ch : nat) : Chans :=
  match cs !! ch with
  | Some (mkChan l (S room)) => <[ch := mkChan (l ++ [event]) room]> cs
  | _ => cs
  end.

(** ethreact/reactor.go, EventHandler.Post. *)
Definition handler_Post (e : EventHandler) (event : Event) (cs : Chans) : Chans :=
  foldl (try_send event) cs (chans e).

(** ethreact/reactor.go, EventHandler.Add. *)
Definition handler_Add (e : EventHandler) (ch : nat) : EventHandler := mkHandler (h_name e) (chans e ++ [ch]).

(** ethreact/reactor.go 54-58, EventHandler.Remove. The loop from slot [i]: it walks over the
    slots of the slice as it was at first ([arr]), which the deletions overwrite;
    [len] is the present length of the slice. *)
Fixpoint remove_loop (todo i : nat) (ch : nat) (arr : list nat) (len : nat) : outcome (list nat) :=
  match todo with
  | O => Ret (take len arr)
  | S todo =>
      if bool_decide (arr !! i = Some ch) then
        if (len <? i + 1)%nat then Panic
        else remove_loop todo (S i) ch
               (take i arr ++ take (len - (i + 1)) (drop (i + 1) arr) ++ drop (len - 1) arr) (len - 1)
      else remove_loop todo (S i) ch arr len
  end.

(** ethreact/reactor.go, EventHandler.Remove. The handler and what is left of its
    channels. *)
Definition handler_Remove (e : EventHandler) (ch : nat) : outcome (EventHandler * nat) :=
  l ← remove_loop (length (chans e)) 0 ch (chans e) (length (chans e));
  Ret (mkHandler (h_name e) l, length l).

(** * The engine *)

(** ethreact/reactor.go, ReactorEngine. The events not handled yet, the handlers
    (a nil one stays in the map), the thread whose request to stop waits, and
    whether the channel [drained] holds its one value.  The lock is with the
    threads. *)
Record ReactorEngine := mkEngine {
  eventChannel : list Event;
  eventHandlers : gmap bytes (option EventHandler);
  quit : option nat;
  running : bool;
  drained : bool;
}.

(** ethreact/reactor.go, New. *)
Definition New : ReactorEngine := mkEngine [] ∅ None false false.

Definition set_eventChannel (l : list Event) (r : ReactorEngine) : ReactorEngine :=
  mkEngine l (eventHandlers r) (quit r) (running r) (drained r).
Definition set_eventHandlers (m : gmap bytes (option EventHandler)) (r : ReactorEngine) : ReactorEngine :=
  mkEngine (eventChannel r) m (quit r) (running r) (drained r).
Definition set_quit (q : option nat) (r : ReactorEngine) : ReactorEngine :=
  mkEngine (eventChannel r) (eventHandlers r) q (running r) (drained r).
Definition set_running (b : bool) (r : ReactorEngine) : ReactorEngine :=
  mkEngine (eventChannel r) (eventHandlers r) (quit r) b (drained r).
Definition set_drained (b : bool) (r : ReactorEngine) : ReactorEngine :=
  mkEngine (eventChannel r) (eventHandlers r) (quit r) (running r) b.

(** ethreact/reactor.go, ReactorEngine.Subscribe. *)
Definition Subscribe (event : bytes) (ch : nat) (r : ReactorEngine) : ReactorEngine :=
  let h := default (mkHandler event []) (mjoin (eventHandlers r !! event)) in
  set_eventHandlers (<[event := Some (handler_Add h ch)]> (eventHandlers r)) r.

(** ethreact/reactor.go, ReactorEngine.Unsubscribe. *)
Definition Unsubscribe (event : bytes) (ch : nat) (r : ReactorEngine) : outcome ReactorEngine :=
  match mjoin (eventHandlers r !! event) with
  | None => Ret r
  | Some h =>
      '(h', len) ← handler_Remove h ch;
      let h' := if (len =? 0)%nat then None else Some h' in
      Ret (set_eventHandlers (<[event := h']> (eventHandlers r)) r)
  end.

(** ethreact/reactor.go, ReactorEngine.dispatch. *)
Definition dispatch (event : Event) (r : ReactorEngine) (cs : Chans) : Chans :=
  match mjoin (eventHandlers r !! Name event) with
  | Some h => handler_Post h event cs
  | None => cs
  end.

(** * Threads *)

(** Where the engine's goroutine is: not running, at its [select], about to send
    on [drained], waiting for the lock to stop, or waiting (with the lock) for the
    thread that stops it. *)
Inductive loop_state :=
| LNone
| LSelect
| LDrain
| LQuit (status : nat)
| LStopped (status : nat).

(** Where a thread is that posts an event, stops or flushes the engine. *)
Inductive thread :=
| TPost (event : Event)        (* wants the lock *)
| TSending (event : Event)     (* has the lock, sends the event *)
| TWaking                      (* has the lock and has sent the event *)
| TStopping                    (* sends its request to stop *)
| TStopWaking                  (* has sent it *)
| TWaiting                     (* waits for the answer *)
| TFlush.                      (* waits for [drained] *)

(** The system, and as ghosts the events that were accepted and handled. *)
Record Sys := mkSys {
  engine : ReactorEngine;
  loop : loop_state;
  threads : gmap nat thread;
  lock : option nat;  (* the thread that has the lock; the engine's own has the lock in [LStopped] *)
  channels : Chans;
  posted : list Event;
  dispatched : list Event;
}.

Inductive action :=
| AStart
| ASubscribe (event : bytes) (ch : nat)
| AUnsubscribe (event : bytes) (ch : nat)
| AReceive (ch : nat)
| APost (t : nat) (event : Event)
| AStop (t : nat)
| AFlush (t : nat)
| AThread (t : nat)
| ALoop
| ALoopQuit.

Definition set_engine (r : ReactorEngine) (s : Sys) : Sys :=
  mkSys r (loop s) (threads s) (lock s) (channels s) (posted s) (dispatched s).
Definition set_loop (l : loop_state) (s : Sys) : Sys :=
  mkSys (engine s) l (threads s) (lock s) (channels s) (posted s) (dispatched s).
Definition set_threads (m : gmap nat thread) (s : Sys) : Sys :=
  mkSys (engine s) (loop s) m (lock s) (channels s) (posted s) (dispatched s).
Definition set_lock (o : option nat) (s : Sys) : Sys :=
  mkSys (engine s) (loop s) (threads s) o (channels s) (posted s) (dispatched s).
Definition set_channels (cs : Chans) (s : Sys) : Sys :=
  mkSys (engine s) (loop s) (threads s) (lock s) cs (posted s) (dispatched s).

(** Nobody has the lock. *)
Definition unlocked (s : Sys) : bool :=
  match lock s, loop s with None, LStopped _ => false | None, _ => true | _, _ => false end.

(** A new thread. *)
Definition spawn (t : nat) (th : thread) (s : Sys) : option Sys :=
  match threads s !! t with None => Some (set_threads (<[t := th]> (threads s)) s) | Some _ => None end.

Definition goto (t : nat) (th : thread) (s : Sys) : Sys := set_threads (<[t := th]> (threads s)) s.
Definition finish (t : nat) (s : Sys) : Sys := set_threads (delete t (threads s)) s.

(** ethreact/reactor.go, ReactorEngine.Start. *)
Definition Start (s : Sys) : option Sys :=
  if unlocked s then
    Some (if running (engine s) then s
          else set_loop LSelect (set_engine (set_running true (engine s)) s))
  else None.

(** ethreact/reactor.go, ReactorEngine.Post. The steps of a thread that posts: it takes the
    lock, sends the event if the engine runs and there is room, takes a value
    from [drained] if there is one, and gives the lock back. *)
Definition Post_step (t : nat) (th : thread) (s : Sys) : option Sys :=
  match th with
  | TPost event =>
      if unlocked s then
        Some (if running (engine s) then set_lock (Some t) (goto t (TSending event) s) else finish t s)
      else None
  | TSending event =>
      if (length (eventChannel (engine s)) <? eventBufferSize)%nat then
        let r := set_eventChannel (eventChannel (engine s) ++ [event]) (engine s) in
        Some (mkSys r (loop s) (<[t := TWaking]> (threads s)) (lock s) (channels s)
                    (posted s ++ [event]) (dispatched s))
      else None
  | TWaking => Some (set_lock None (finish t (set_engine (set_drained false (engine s)) s)))
  | _ => None
  end.

(** ethreact/reactor.go, ReactorEngine.Stop. The steps of a thread that stops the engine; it does
    not take the lock. *)
Definition Stop_step (t : nat) (th : thread) (s : Sys) : option Sys :=
  match th with
  | TStopping =>
      match quit (engine s) with
      | None => Some (goto t TStopWaking (set_engine (set_quit (Some t) (engine s)) s))
      | Some _ => None
      end
  | TStopWaking => Some (goto t TWaiting (set_engine (set_drained false (engine s)) s))
  | TWaiting =>
      match loop s with
      | LStopped status =>
          if (status =? t)%nat then Some (set_loop LNone (finish t s)) else None
      | _ => None
      end
  | _ => None
  end.

(** ethreact/reactor.go, ReactorEngine.Flush. *)
Definition Flush_step (t : nat) (th : thread) (s : Sys) : option Sys :=
  match th with
  | TFlush =>
      if drained (engine s) then Some (finish t (set_engine (set_drained false (engine s)) s)) else None
  | _ => None
  end.

(** A step of thread [t]. *)
Definition thread_step (t : nat) (s : Sys) : option Sys :=
  th ← threads s !! t;
  match th with
  | TPost _ | TSending _ | TWaking => Post_step t th s
  | TStopping | TStopWaking | TWaiting => Stop_step t th s
  | TFlush => Flush_step t th s
  end.

(** ethreact/reactor.go 98-115, ReactorEngine.Start. A step of the engine's goroutine.  When both an
    event and a request to stop are there the [select] may take either;
    [stop] asks for the request. *)
Definition loop_step (stop : bool) (s : Sys) : option Sys :=
  let r := engine s in
  match loop s with
  | LSelect =>
      match quit r, eventChannel r with
      | Some status, events =>
          if stop then Some (set_loop (LQuit status) (set_engine (set_quit None r) s))
          else match events with
               | [] => None
               | event :: rest =>
                   Some (mkSys (set_eventChannel rest r) LSelect (threads s) (lock s)
                               (dispatch event r (channels s)) (posted s) (dispatched s ++ [event]))
               end
      | None, event :: rest =>
          if stop then None
          else Some (mkSys (set_eventChannel rest r) LSelect (threads s) (lock s)
                           (dispatch event r (channels s)) (posted s) (dispatched s ++ [event]))
      | None, [] => if stop then None else Some (set_loop LDrain s)
      end
  | LDrain =>
      if stop then None
      else if drained r then None
      else Some (set_loop LSelect (set_engine (set_drained true r) s))
  | LQuit status =>
      if unlocked s then Some (set_loop (LStopped status) (set_engine (set_running false r) s)) else None
  | LNone | LStopped _ => None
  end.

(** One action; [None] when it cannot be taken (it waits).  A panic is no action
    either: the program is gone. *)
Definition act (a : action) (s : Sys) : option Sys :=
  match a with
  | AStart => Start s
  | ASubscribe event ch => if unlocked s then Some (set_engine (Subscribe event ch (engine s)) s) else None
  | AUnsubscribe event ch =>
      if unlocked s then
        match Unsubscribe event ch (engine s) with Ret r => Some (set_engine r s) | _ => None end
      else None
  | AReceive ch =>
      let '(mkChan l room) := default (mkChan [] 0) (channels s !! ch) in
      Some (set_channels (<[ch := mkChan l (S room)]> (channels s)) s)
  | APost t event => spawn t (TPost event) s
  | AStop t => if running (engine s) then spawn t TStopping s else Some s
  | AFlush t => spawn t TFlush s
  | AThread t => thread_step t s
  | ALoop => loop_step false s
  | ALoopQuit => loop_step true s
  end.

Fixpoint run (l : list action) (s : Sys) : option Sys :=
  match l with [] => Some s | a :: l => s' ← act a s; run l s' end.

(** A new engine, and no thread yet. *)
Definition start_state : Sys := mkSys New LNone ∅ None ∅ [] [].

Definition reachable (s : Sys) : Prop := ∃ l, run l start_state = Some s.

Lemma run_app l k s : run (l ++ k) s = s' ← run l s; run k s'.
Proof. revert s. induction l as [|a l IH]; intros s; [done|]. cbn. destruct (act a s); [apply IH|done]. Qed.

(** What holds at first and is kept by every action holds in every reachable state. *)
Lemma reachable_ind' (P : Sys -> Prop) :
  P start_state -> (∀ a s s', P s -> act a s = Some s' -> P s') -> ∀ s, reachable s -> P s.
Proof.
  intros H0 Hs s [l Hl]. revert Hl. generalize start_state H0. induction l as [|a l IH]; intros s0 Hp; cbn.
  - by intros [= ->].
  - destruct (act a s0) as [s1|] eqn:E; [|done]. apply IH. by eapply Hs.
Qed.


(** * Removing a channel *)

Lemma remove_loop_absent todo i ch arr len :
  (∀ j, (i <= j < i + todo)%nat -> arr !! j ≠ Some ch) ->
  remove_loop todo i ch arr len = Ret (take len arr).
Proof.
  revert i. induction todo as [|todo IH]; intros i Hno; [done|]. cbn [remove_loop].
  rewrite bool_decide_eq_false_2 by (apply Hno; lia). apply IH. intros j Hj. apply Hno. lia.
Qed.

Lemma remove_loop_skip k todo i ch arr len :
  (∀ j, (i <= j < i + k)%nat -> arr !! j ≠ Some ch) ->
  remove_loop (k + todo) i ch arr len = remove_loop todo (i + k) ch arr len.
Proof.
  revert i. induction k as [|k IH]; intros i Hno; [by rewrite Nat.add_0_r|]. cbn [remove_loop Nat.add].
  rewrite bool_decide_eq_false_2 by (apply Hno; lia). rewrite IH by (intros j Hj; apply Hno; lia).
  f_equal. lia.
Qed.

Lemma remove_loop_middle l1 l2 ch :
  (∀ i, l1 !! i ≠ Some ch) -> (∀ i, l2 !! i ≠ Some ch) ->
  let l := l1 ++ ch :: l2 in remove_loop (length l) 0 ch l (length l) = Ret (l1 ++ l2).
Proof.
  intros H1 H2 l. replace (length l) with (length l1 + S (length l2))%nat at 1 by (subst l; rewrite length_app; done).
  rewrite remove_loop_skip.
  2:{ intros j Hj. subst l. rewrite lookup_app_l by lia. apply H1. }
  assert (length l = S (length l1 + length l2)) as Hl by (subst l; rewrite length_app; simpl; lia).
  cbn [remove_loop Nat.add]. rewrite bool_decide_eq_true_2 by by apply list_lookup_middle.
  destruct (Nat.ltb_spec (length l) (length l1 + 1)); [lia|]. rewrite Hl.
  replace (S (length l1 + length l2) - (length l1 + 1))%nat with (length l2) by lia.
  replace (S (length l1 + length l2) - 1)%nat with (length l1 + length l2)%nat by lia.
  subst l. rewrite take_app_length.
  replace (drop (length l1 + 1) (l1 ++ ch :: l2)) with l2
    by (by rewrite drop_app_add).
  rewrite firstn_all.
  assert (∀ j, (S (length l1) <= j < S (length l1) + length l2)%nat ->
    (l1 ++ l2 ++ drop (length l1 + length l2) (l1 ++ ch :: l2)) !! j ≠ Some ch) as Hrest.
  { intros j Hj. rewrite lookup_app_r by lia.
    destruct (decide (j - length l1 < length l2)%nat); [rewrite lookup_app_l by lia; apply H2|].
    rewrite lookup_app_r by lia. rewrite drop_app_add, lookup_drop.
    replace (_ + _)%nat with (length l2) by lia.
    destruct l2 as [|x l2]; [simpl in *; lia|]. apply (H2 (length l2)). }
  rewrite remove_loop_absent by done. f_equal.
  rewrite app_assoc, <-length_app. apply take_app_length.
Qed.

(** A channel that is subscribed at most once is taken out; the others stay in
    their order. *)
Lemma handler_Remove_once e ch :
  (∀ i j, chans e !! i = Some ch -> chans e !! j = Some ch -> i = j) ->
  ∃ e', handler_Remove e ch = Ret (e', length (chans e')) ∧ h_name e' = h_name e ∧
    chans e' = filter (λ c, c ≠ ch) (chans e).
Proof.
  intros Honce. unfold handler_Remove. destruct (decide (ch ∈ chans e)) as [Hin|Hin].
  - apply list_elem_of_split in Hin as (l1 & l2 & E). rewrite E in *.
    assert (∀ i, l1 !! i ≠ Some ch) as H1.
    { intros i Hi. assert (i = length l1); [|apply lookup_lt_Some in Hi; lia].
      apply Honce; [by rewrite lookup_app_l by by eapply lookup_lt_Some|by apply list_lookup_middle]. }
    assert (∀ i, l2 !! i ≠ Some ch) as H2.
    { intros i Hi. assert (length l1 + S i = length l1)%nat; [|lia].
      apply Honce; [|by apply list_lookup_middle].
      rewrite lookup_app_r by lia. replace (length l1 + S i - length l1)%nat with (S i) by lia.
      exact Hi. }
    rewrite remove_loop_middle by done. cbn [mbind outcome_bind]. eexists (mkHandler _ _).
    split; [reflexivity|]. split; [done|]. cbn [chans]. rewrite filter_app, filter_cons_False by tauto. symmetry.
    f_equal; apply filter_all; intros c Hc ->; apply list_elem_of_lookup in Hc as [i Hi]; naive_solver.
  - rewrite remove_loop_absent by (intros j _ Hj; apply Hin; by eapply list_elem_of_lookup_2).
    cbn [mbind outcome_bind]. rewrite firstn_all. eexists (mkHandler _ _).
    split; [reflexivity|]. split; [done|]. cbn [chans].
    symmetry. apply filter_all. by intros c Hc ->.
Qed.

(** One that is subscribed twice need not be: the loop runs over slots it has
    itself overwritten, and past the end of what is left. *)
Lemma handler_Remove_twice :
  handler_Remove (mkHandler [] [1; 1]%nat) 1 = Panic ∧
  handler_Remove (mkHandler [] [1; 1; 2]%nat) 1 = Ret (mkHandler [] [1; 2]%nat, 2%nat).
Proof. by split. Qed.

(** * Order *)

(** [l] is [evs] with each element left out or repeated. *)
Definition echoes (l evs : list Event) : Prop :=
  ∃ ns, length ns = length evs ∧ l = concat (zip_with replicate ns evs).

Lemma echoes_nil : echoes [] [].
Proof. by exists []. Qed.

Lemma echoes_snoc l evs n e : echoes l evs -> echoes (l ++ replicate n e) (evs ++ [e]).
Proof.
  intros (ns & Hlen & ->). exists (ns ++ [n]). rewrite !length_app, Hlen. split; [done|].
  rewrite zip_with_app, concat_app by done. cbn. by rewrite app_nil_r.
Qed.

(** A channel takes some copies of the event. *)
Lemma try_send_taken e cs c ch l k :
  cs !! ch = Some (mkChan l k) ->
  ∃ n k', try_send e cs c !! ch = Some (mkChan (l ++ replicate n e) k').
Proof.
  intros Hch. assert (∃ n k', cs !! ch = Some (mkChan (l ++ replicate n e) k')) as Hsame.
  { exists 0%nat, k. by rewrite app_nil_r. }
  unfold try_send. destruct (cs !! c) as [[l' [|r]]|] eqn:E; [done| |done].
  destruct (decide (c = ch)) as [->|Hne].
  - exists 1%nat, r. rewrite lookup_insert_eq. cbn [replicate]. congruence.
  - exists 0%nat, k. by rewrite lookup_insert_ne, app_nil_r by done.
Qed.

Lemma dispatch_taken e r cs ch l k :
  cs !! ch = Some (mkChan l k) ->
  ∃ n k', dispatch e r cs !! ch = Some (mkChan (l ++ replicate n e) k').
Proof.
  intros Hch. unfold dispatch, handler_Post. destruct (mjoin _) as [h|].
  2:{ exists 0%nat, k. by rewrite app_nil_r. }
  revert cs l k Hch. induction (chans h) as [|c cl IH]; intros cs l k Hch.
  { exists 0%nat, k. by rewrite app_nil_r. }
  destruct (try_send_taken e cs c ch l k Hch) as (n & k1 & H1).
  destruct (IH _ _ _ H1) as (m & k2 & H2). exists (n + m)%nat, k2. cbn [foldl]. rewrite H2.
  by rewrite replicate_add, app_assoc.
Qed.

Lemma try_send_none e cs c ch : cs !! ch = None -> try_send e cs c !! ch = None.
Proof.
  intros Hch. unfold try_send. destruct (cs !! c) as [[l' [|r]]|] eqn:E; [done| |done].
  rewrite lookup_insert_ne; [done|]. by intros ->; rewrite Hch in E.
Qed.

Lemma dispatch_none e r cs ch : cs !! ch = None -> dispatch e r cs !! ch = None.
Proof.
  intros Hch. unfold dispatch, handler_Post. destruct (mjoin _) as [h|]; [|done].
  revert cs Hch. induction (chans h) as [|c cl IH]; intros cs Hch; [done|]. cbn [foldl].
  by apply IH, try_send_none.
Qed.

(** * What every run keeps *)

(** The thread is between sending its event and waking the engine. *)
Definition waking (s : Sys) : Prop := ∃ t, threads s !! t = Some TWaking.

Record sys_ok (s : Sys) : Prop := {
  ok_fifo : posted s = dispatched s ++ eventChannel (engine s);
  ok_cap : (length (eventChannel (engine s)) <= eventBufferSize)%nat;
  ok_taken : ∀ ch l k, channels s !! ch = Some (mkChan l k) -> echoes l (dispatched s);
  ok_running : running (engine s) = true <-> loop s = LSelect ∨ loop s = LDrain ∨ ∃ t, loop s = LQuit t;
  ok_wake : loop s = LDrain -> drained (engine s) = true -> eventChannel (engine s) ≠ [] -> waking s;
}.

(** A step that leaves events and channels alone, and keeps the last two facts. *)
Lemma sys_ok_quiet s s' :
  sys_ok s -> posted s' = posted s -> dispatched s' = dispatched s ->
  eventChannel (engine s') = eventChannel (engine s) -> channels s' = channels s ->
  (running (engine s') = true <-> loop s' = LSelect ∨ loop s' = LDrain ∨ ∃ t, loop s' = LQuit t) ->
  (loop s' = LDrain -> drained (engine s') = true -> eventChannel (engine s) ≠ [] -> waking s') ->
  sys_ok s'.
Proof.
  intros [Hf Hc Ht _ _] Hp Hd He Hch Hr Hw.
  split; [by rewrite Hp, Hd, He|by rewrite He|by rewrite Hch, Hd|done|by rewrite He].
Qed.

Lemma waking_insert t th s s' :
  threads s' = <[t := th]> (threads s) -> threads s !! t ≠ Some TWaking -> waking s -> waking s'.
Proof.
  intros E Hne [t' Ht']. exists t'. rewrite E, lookup_insert_ne; [done|]. by intros ->.
Qed.

Lemma spawn_ok t th s s' : sys_ok s -> spawn t th s = Some s' -> sys_ok s'.
Proof.
  unfold spawn. destruct (threads s !! t) eqn:E; [done|]. intros Hok [= <-].
  apply (sys_ok_quiet s); try done; [apply Hok|]. intros Hl Hd He.
  eapply (waking_insert t th s); [done|by rewrite E|]. by apply Hok.
Qed.

Lemma sys_ok_dispatch s e rest :
  sys_ok s -> loop s = LSelect -> eventChannel (engine s) = e :: rest ->
  sys_ok (mkSys (set_eventChannel rest (engine s)) LSelect (threads s) (lock s)
                (dispatch e (engine s) (channels s)) (posted s) (dispatched s ++ [e])).
Proof.
  intros Hok Hl He. pose proof (ok_cap s Hok) as Hc. rewrite He in Hc. split; cbn.
  - by rewrite (ok_fifo s Hok), He, <-app_assoc.
  - simpl in Hc. lia.
  - intros ch l k Hch. destruct (channels s !! ch) as [[l0 k0]|] eqn:E.
    + destruct (dispatch_taken e (engine s) _ _ _ _ E) as (n & k' & H'). rewrite H' in Hch.
      injection Hch as <- _. apply echoes_snoc. by eapply ok_taken.
    + by rewrite dispatch_none in Hch.
  - pose proof (ok_running s Hok) as Hr. rewrite Hl in Hr. tauto.
  - done.
Qed.

Lemma loop_step_ok b s s' : sys_ok s -> loop_step b s = Some s' -> sys_ok s'.
Proof.
  intros Hok. pose proof (ok_running s Hok) as Hr. unfold loop_step.
  destruct (loop s) as [| | |t|t] eqn:Hl; try done.
  - destruct (quit _) as [t|] eqn:Hq; [destruct b|destruct (eventChannel (engine s)) as [|e rest] eqn:He; destruct b]; try done.
    + intros [= <-]. apply (sys_ok_quiet s); try done. cbn. rewrite Hr. naive_solver.
    + destruct (eventChannel (engine s)) as [|e rest] eqn:He; [done|]. intros [= <-].
      by apply sys_ok_dispatch.
    + intros [= <-]. apply (sys_ok_quiet s); try done. cbn. rewrite Hr. naive_solver.
    + intros [= <-]. by apply sys_ok_dispatch.
  - destruct b; [done|]. destruct (drained (engine s)) eqn:Hd; [done|]. intros [= <-]. apply (sys_ok_quiet s); try done.
    cbn. rewrite Hr. naive_solver.
  - destruct (unlocked s); [|done]. intros [= <-]. apply (sys_ok_quiet s); try done. cbn. naive_solver.
Qed.

Lemma thread_step_ok t s s' : sys_ok s -> thread_step t s = Some s' -> sys_ok s'.
Proof.
  intros Hok. pose proof (ok_running s Hok) as Hr. pose proof (ok_wake s Hok) as Hw. unfold thread_step.
  destruct (threads s !! t) as [th|] eqn:Ht; [|done]. cbn [mbind option_bind].
  assert (∀ s1, threads s1 = <[t := TWaking]> (threads s) -> waking s1) as Hwake.
  { intros s1 E. exists t. by rewrite E, lookup_insert_eq. }
  assert (th ≠ TWaking -> ∀ s1, threads s1 = delete t (threads s) -> waking s -> waking s1) as Hgone.
  { intros Hne s1 E [t' Ht']. exists t'. rewrite E, lookup_delete_ne; [done|]. intros ->. congruence. }
  destruct th as [e|e| | | | |]; cbn [Post_step Stop_step Flush_step].
  - destruct (unlocked s); [|done]. intros [= <-]. destruct (running _) eqn:Hrun.
    + apply (sys_ok_quiet s); try done; [cbn; by rewrite Hrun|]. intros H1 H2 H3.
      eapply (waking_insert t _ s); [done|by rewrite Ht|by apply Hw].
    + apply (sys_ok_quiet s); try done; [cbn; by rewrite Hrun|]. intros H1 H2 H3.
      by apply Hgone, Hw.
  - destruct (Nat.ltb_spec (length (eventChannel (engine s))) eventBufferSize) as [Hlt|]; [|done].
    intros [= <-]. split; cbn.
    + by rewrite (ok_fifo s Hok), app_assoc.
    + rewrite length_app. simpl. lia.
    + apply Hok.
    + done.
    + intros _ _ _. by apply Hwake.
  - intros [= <-]. by apply (sys_ok_quiet s).
  - destruct (quit _); [done|]. intros [= <-]. apply (sys_ok_quiet s); try done. intros H1 H2 H3.
    eapply (waking_insert t _ s); [done|by rewrite Ht|by apply Hw].
  - intros [= <-]. by apply (sys_ok_quiet s).
  - destruct (loop s) as [| | | |status] eqn:Hl; try done. destruct (_ =? _)%nat; [|done].
    intros [= <-]. apply (sys_ok_quiet s); try done. cbn. rewrite Hr. naive_solver.
  - destruct (drained (engine s)); [|done]. intros [= <-]. by apply (sys_ok_quiet s).
Qed.

Lemma act_ok a s s' : sys_ok s -> act a s = Some s' -> sys_ok s'.
Proof.
  intros Hok. pose proof (ok_running s Hok) as Hr. pose proof (ok_wake s Hok) as Hw.
  destruct a as [|ev ch|ev ch|ch|t e|t|t|t| |]; cbn [act].
  - unfold Start, unlocked. destruct (lock s), (loop s) eqn:Hl; try done; intros [= <-]; destruct (running _) eqn:Hrun; try done.
    all: apply (sys_ok_quiet s); try done; cbn; naive_solver.
  - destruct (unlocked s); [|done]. intros [= <-]. by apply (sys_ok_quiet s).
  - destruct (unlocked s); [|done]. destruct (Unsubscribe _ _ _) as [r| |] eqn:E; [|done..]. intros [= <-].
    assert (eventChannel r = eventChannel (engine s) ∧ running r = running (engine s)
            ∧ drained r = drained (engine s)) as (E1 & E2 & E3).
    { unfold Unsubscribe in E. destruct (mjoin _) as [h|]; [|by injection E as <-]. inv_bind E.
      destruct a as [h' len]. by injection E as <-. }
    apply (sys_ok_quiet s); try done; cbn; [by rewrite E2|by rewrite E3].
  - destruct (default _ _) as [l k] eqn:E. intros [= <-]. destruct Hok as [H1 H2 H3 H4 H5].
    split; try done. intros ch' l' k' Hch'. cbn in *. destruct (decide (ch' = ch)) as [->|Hne].
    + rewrite lookup_insert_eq in Hch'. injection Hch' as -> _.
      destruct (channels s !! ch) as [[l0 k0]|] eqn:E'; cbn in E; simplify_eq; [by eapply H3|].
      exists (replicate (length (dispatched s)) 0%nat). rewrite length_replicate. split; [done|].
      clear. by induction (dispatched s) as [|x l IH].
    + rewrite lookup_insert_ne in Hch' by done. by eapply H3.
  - by apply spawn_ok.
  - destruct (running _); [by apply spawn_ok|by intros [= <-]].
  - by apply spawn_ok.
  - by apply thread_step_ok.
  - by apply loop_step_ok.
  - by apply loop_step_ok.
Qed.

Lemma reachable_ok s : reachable s -> sys_ok s.
Proof.
  apply reachable_ind'; [|intros a s1 s2 H1 H2; by eapply act_ok].
  split; cbn; try done; [unfold eventBufferSize; lia|]. naive_solver.
Qed.

(** * What the engine promises *)

(** How many times a channel is subscribed to the events of a name. *)
Definition subscriptions (r : ReactorEngine) (name : bytes) (ch : nat) : nat :=
  match mjoin (eventHandlers r !! name) with
  | Some h => length (filter (λ c, c = ch) (chans h))
  | None => 0
  end.

Lemma try_sends e l : ∀ cs ch c,
  cs !! ch = Some c ->
  let n := Nat.min (length (filter (λ x, x = ch) l)) (room c) in
  foldl (try_send e) cs l !! ch = Some (mkChan (taken c ++ replicate n e) (room c - n)).
Proof.
  induction l as [|x l IH]; intros cs ch [t k] Hch.
  - cbn. by rewrite app_nil_r, Nat.sub_0_r.
  - cbn [foldl]. destruct (decide (x = ch)) as [->|Hne].
    + rewrite filter_cons_True by done. unfold try_send at 2. rewrite Hch. destruct k as [|k].
      { rewrite (IH _ _ _ Hch). cbn [taken room]. by rewrite !Nat.min_0_r. }
      rewrite (IH _ ch (mkChan (t ++ [e]) k)) by (by rewrite lookup_insert_eq). cbn [taken room length Nat.min replicate].
      by rewrite <-app_assoc.
    + rewrite filter_cons_False by done. apply (IH _ ch (mkChan t k)). unfold try_send.
      destruct (cs !! x) as [[t' [|k']]|]; [done| |done]. by rewrite lookup_insert_ne.
Qed.

(** Each subscriber gets the event once for each of its subscriptions, as far as it has room. *)
Lemma dispatch_delivers e r cs ch c :
  cs !! ch = Some c ->
  let n := Nat.min (subscriptions r (Name e) ch) (room c) in
  dispatch e r cs !! ch = Some (mkChan (taken c ++ replicate n e) (room c - n)).
Proof.
  intros Hch. unfold dispatch, subscriptions, handler_Post. destruct (mjoin _) as [h|]; [by apply try_sends|].
  cbn. rewrite app_nil_r, Nat.sub_0_r. by destruct c.
Qed.

(** The step handles the event that waits longest, and gives it to its subscribers. *)
Definition handles_event (s s' : Sys) : Prop := ∃ e rest,
  eventChannel (engine s) = e :: rest ∧ eventChannel (engine s') = rest ∧ dispatched s' = dispatched s ++ [e] ∧
  ∀ ch c, channels s !! ch = Some c ->
    let n := Nat.min (subscriptions (engine s) (Name e) ch) (room c) in
    channels s' !! ch = Some (mkChan (taken c ++ replicate n e) (room c - n)).

(** The step handles no event, and no channel takes anything. *)
Definition handles_none (s s' : Sys) : Prop :=
  dispatched s' = dispatched s ∧ ∀ ch c, channels s !! ch = Some c -> ∃ c', channels s' !! ch = Some c' ∧ taken c' = taken c.

(** What an action does to the subscriptions: a channel that is subscribed at most once is not
    subscribed after it is taken off. *)
Definition keeps_subscriptions (a : action) (r r' : ReactorEngine) : Prop := ∀ name ch,
  match a with
  | ASubscribe event c =>
      subscriptions r' name ch = (subscriptions r name ch + if decide (name = event ∧ ch = c) then 1 else 0)%nat
  | AUnsubscribe event c =>
      name ≠ event ∨ (subscriptions r event c <= 1)%nat ->
      subscriptions r' name ch = if decide (name = event ∧ ch = c) then 0%nat else subscriptions r name ch
  | _ => subscriptions r' name ch = subscriptions r name ch
  end.

Lemma handles_same s s' : dispatched s' = dispatched s -> channels s' = channels s -> handles_none s s'.
Proof. intros Hd Hc. split; [done|]. intros ch c. rewrite Hc. by exists c. Qed.

Lemma act_handles a s s' : act a s = Some s' -> handles_event s s' ∨ handles_none s s'.
Proof.
  destruct a as [|ev ch|ev ch|ch|t e|t|t|t| |]; cbn [act].
  - unfold Start. destruct (unlocked s); [|done]. intros [= <-]. right. by destruct (running _); apply handles_same.
  - destruct (unlocked s); [|done]. intros [= <-]. right. by apply handles_same.
  - destruct (unlocked s); [|done]. destruct (Unsubscribe _ _ _); [|done..]. intros [= <-]. right. by apply handles_same.
  - destruct (default _ _) as [l k] eqn:E. intros [= <-]. right. split; [done|]. intros ch' c Hc.
    cbn. destruct (decide (ch' = ch)) as [->|Hne]; [|exists c; by rewrite lookup_insert_ne].
    rewrite Hc in E. cbn in E. subst c. eexists. by rewrite lookup_insert_eq.
  - unfold spawn. destruct (threads s !! t); [done|]. intros [= <-]. right. by apply handles_same.
  - destruct (running _); [|intros [= <-]; right; by apply handles_same]. unfold spawn.
    destruct (threads s !! t); [done|]. intros [= <-]. right. by apply handles_same.
  - unfold spawn. destruct (threads s !! t); [done|]. intros [= <-]. right. by apply handles_same.
  - unfold thread_step. destruct (threads s !! t) as [th|]; [|done]. cbn [mbind option_bind]. intros E. right.
    unfold Post_step, Stop_step, Flush_step in E. repeat (case_match; simplify_eq); by apply handles_same.
  - unfold loop_step. intros E. repeat (case_match; simplify_eq); try (right; by apply handles_same);
      left; do 2 eexists; (do 3 (split; [done|])); intros ch c Hc; by apply dispatch_delivers.
  - unfold loop_step. intros E. repeat (case_match; simplify_eq); try (right; by apply handles_same);
      left; do 2 eexists; (do 3 (split; [done|])); intros ch c Hc; by apply dispatch_delivers.
Qed.

Lemma subscriptions_same r r' name ch : eventHandlers r' = eventHandlers r -> subscriptions r' name ch = subscriptions r name ch.
Proof. unfold subscriptions. by intros ->. Qed.

Lemma Subscribe_counts event c r name ch :
  subscriptions (Subscribe event c r) name ch
  = (subscriptions r name ch + if decide (name = event ∧ ch = c) then 1 else 0)%nat.
Proof.
  unfold subscriptions, Subscribe. cbn [eventHandlers set_eventHandlers]. destruct (decide (name = event)) as [->|Hne].
  - rewrite lookup_insert_eq. cbn [mjoin option_join]. unfold handler_Add. cbn [chans].
    rewrite filter_app, length_app.
    assert (length (filter (λ x, x = ch) [c]) = if decide (event = event ∧ ch = c) then 1 else 0)%nat as ->.
    { case_decide as H; [rewrite filter_cons_True by naive_solver|rewrite filter_cons_False by naive_solver]; done. }
    by destruct (mjoin _).
  - rewrite lookup_insert_ne by done. case_decide; [naive_solver|]. lia.
Qed.

Lemma filter_once {A} `{EqDecision A} (x : A) l i j :
  (length (filter (λ y, y = x) l) <= 1)%nat -> l !! i = Some x -> l !! j = Some x -> i = j.
Proof.
  revert i j. induction l as [|y l IH]; intros i j; [done|]. destruct (decide (y = x)) as [->|Hne].
  - rewrite filter_cons_True by done. cbn [length]. intros Hl.
    assert (∀ k, l !! k = Some x -> False) as Hno.
    { intros k Hk. assert (x ∈ filter (λ y, y = x) l) as Hx.
      { apply list_elem_of_filter. split; [done|]. by eapply list_elem_of_lookup_2. }
      apply list_elem_of_lookup in Hx as [k' Hk']. apply lookup_lt_Some in Hk'. lia. }
    destruct i, j; cbn; [done|..]; intros; exfalso; eauto.
  - rewrite filter_cons_False by done. intros Hl. destruct i, j; cbn; try congruence. intros. f_equal. by eapply IH.
Qed.

Lemma length_filter_filter {A} `{EqDecision A} (x y : A) l :
  length (filter (λ z, z = y) (filter (λ z, z ≠ x) l)) = if decide (y = x) then 0%nat else length (filter (λ z, z = y) l).
Proof.
  rewrite list_filter_filter. case_decide as E.
  - subst y. induction l as [|z l IH]; [done|]. rewrite filter_cons_False by naive_solver. done.
  - f_equal. apply list_filter_iff. naive_solver.
Qed.

Lemma Unsubscribe_counts event c r r' name ch :
  Unsubscribe event c r = Ret r' -> name ≠ event ∨ (subscriptions r event c <= 1)%nat ->
  subscriptions r' name ch = if decide (name = event ∧ ch = c) then 0%nat else subscriptions r name ch.
Proof.
  unfold Unsubscribe. destruct (mjoin (eventHandlers r !! event)) as [h|] eqn:Eh.
  2:{ intros [= <-] _. case_decide as H; [|done]. destruct H as [-> ->]. unfold subscriptions. by rewrite Eh. }
  intros E Hc. inv_bind E. destruct a as [h' len]. injection E as <-.
  unfold subscriptions at 1. cbn [eventHandlers set_eventHandlers].
  destruct (decide (name = event)) as [->|Hne].
  - destruct Hc as [?|Hc]; [done|]. unfold subscriptions in Hc. rewrite Eh in Hc.
    destruct (handler_Remove_once h c) as (h1 & Hr & _ & Hl).
    { intros i j. by apply filter_once. }
    rewrite Hr in E0. injection E0 as <- <-. rewrite lookup_insert_eq. unfold subscriptions. rewrite Eh.
    transitivity (length (filter (λ x, x = ch) (chans h1))).
    { destruct (chans h1) as [|x l] eqn:E1; [done|]. cbn [length Nat.eqb mjoin option_join]. by rewrite E1. }
    rewrite Hl, length_filter_filter. repeat case_decide; naive_solver.
  - rewrite lookup_insert_ne by done. case_decide; [naive_solver|done].
Qed.

Lemma act_subscriptions a s s' : act a s = Some s' -> keeps_subscriptions a (engine s) (engine s').
Proof.
  destruct a as [|ev ch|ev ch|ch|t e|t|t|t| |]; cbn [act]; intros E name ch'.
  - unfold Start in E. repeat (case_match; simplify_eq); by apply subscriptions_same.
  - destruct (unlocked s); [|done]. injection E as <-. apply Subscribe_counts.
  - destruct (unlocked s); [|done]. destruct (Unsubscribe _ _ _) as [r| |] eqn:Eu; [|done..]. injection E as <-.
    by apply Unsubscribe_counts.
  - destruct (default _ _). by injection E as <-.
  - unfold spawn in E. destruct (threads s !! t); [done|]. by injection E as <-.
  - unfold spawn in E. repeat (case_match; simplify_eq); done.
  - unfold spawn in E. destruct (threads s !! t); [done|]. by injection E as <-.
  - unfold thread_step in E. destruct (threads s !! t) as [th|]; [|done]. cbn [mbind option_bind] in E.
    unfold Post_step, Stop_step, Flush_step in E. repeat (case_match; simplify_eq); by apply subscriptions_same.
  - unfold loop_step in E. repeat (case_match; simplify_eq); by apply subscriptions_same.
  - unfold loop_step in E. repeat (case_match; simplify_eq); by apply subscriptions_same.
Qed.

(** C18. Order, bounds and delivery, in every interleaving of any number of threads that
    post, subscribe, unsubscribe, receive, flush, start and stop.  The events
    accepted are those handled followed by those that wait, in the order in
    which they were posted; no more than [eventBufferSize] wait.  Every step handles either no event, and
    then no channel takes anything, or the one that waits longest, and then each
    channel takes it once for each of its subscriptions to the event's name, as far as it has
    room.  Subscribing adds one subscription, unsubscribing a channel that has at most one leaves it
    none, and nothing else changes them.  So what any
    channel has taken is the sequence of the handled events, some left out and some repeated,
    never reordered. *)
Theorem events_keep_their_order (s : Sys) :
  reachable s ->
  posted s = dispatched s ++ eventChannel (engine s) ∧
  (length (eventChannel (engine s)) <= eventBufferSize)%nat ∧
  (∀ ch c, channels s !! ch = Some c -> echoes (taken c) (dispatched s)) ∧
  (∀ a s', act a s = Some s' ->
     (handles_event s s' ∨ handles_none s s') ∧ keeps_subscriptions a (engine s) (engine s')).
Proof.
  intros Hr%reachable_ok. split; [by apply ok_fifo|]. split; [by apply ok_cap|]. split.
  - intros ch [l k] Hch. by eapply ok_taken.
  - intros a s' E. split; [by apply (act_handles a)|by apply act_subscriptions].
Qed.

Lemma drain_select n s :
  loop s = LSelect -> quit (engine s) = None -> length (eventChannel (engine s)) = n ->
  ∃ s', run (replicate n ALoop) s = Some s' ∧ loop s' = LSelect ∧ quit (engine s') = None ∧
    eventChannel (engine s') = [] ∧ dispatched s' = dispatched s ++ eventChannel (engine s) ∧
    threads s' = threads s ∧ lock s' = lock s.
Proof.
  revert s. induction n as [|n IH]; intros s Hl Hq Hn.
  - exists s. apply nil_length_inv in Hn. rewrite Hn, app_nil_r. done.
  - destruct (eventChannel (engine s)) as [|e rest] eqn:He; [done|]. injection Hn as Hn.
    set (s1 := mkSys (set_eventChannel rest (engine s)) LSelect (threads s) (lock s)
                     (dispatch e (engine s) (channels s)) (posted s) (dispatched s ++ [e])).
    destruct (IH s1) as (s' & Hrun & H1 & H2 & H3 & H4 & H5 & H6); [done..|].
    exists s'. cbn [replicate run act]. unfold loop_step. rewrite Hl, Hq, He. cbn [mbind option_bind].
    split; [exact Hrun|]. rewrite H4. cbn. by rewrite <-app_assoc.
Qed.

(** C36. No wake-up is lost.  Whatever has happened before, when the engine's
    goroutine is at work, nobody asks it to stop, and no thread is just between
    sending an event and taking a value from [drained], the goroutine handles all
    the events that wait by its own steps, in order, however it may be waiting on
    [drained] at that moment; so a thread that waits for room to post finds it. *)
Theorem waiting_events_are_handled (s : Sys) :
  reachable s -> loop s = LSelect ∨ loop s = LDrain -> quit (engine s) = None -> ¬ waking s ->
  ∃ n s', (n <= length (eventChannel (engine s)) + 1)%nat ∧
    run (replicate n ALoop) s = Some s' ∧ eventChannel (engine s') = [] ∧ dispatched s' = posted s ∧
    (∀ t e, threads s !! t = Some (TSending e) -> ∃ s'', act (AThread t) s' = Some s'').
Proof.
  intros Hr%reachable_ok Hloop Hq Hno. set (n := length (eventChannel (engine s))).
  assert (∃ k s1, (k <= 1)%nat ∧ run (replicate k ALoop) s = Some s1 ∧
    (eventChannel (engine s) = [] ∧ s1 = s ∨
     loop s1 = LSelect ∧ quit (engine s1) = None ∧ eventChannel (engine s1) = eventChannel (engine s) ∧
     dispatched s1 = dispatched s ∧ threads s1 = threads s ∧ lock s1 = lock s)) as (k & s1 & Hk & Hrun1 & H1).
  { destruct Hloop as [Hl|Hl]; [exists 0%nat, s; naive_solver lia|].
    destruct (eventChannel (engine s)) as [|e rest] eqn:He; [exists 0%nat, s; naive_solver lia|].
    destruct (drained (engine s)) eqn:Hd.
    - destruct Hno. apply (ok_wake s Hr Hl Hd). by rewrite He.
    - eexists 1%nat, _. split; [lia|]. cbn. unfold loop_step. rewrite Hl, Hd. cbn.
      split; [reflexivity|]. by right. }
  assert (∃ n' s', (n' <= n)%nat ∧ run (replicate n' ALoop) s1 = Some s' ∧ eventChannel (engine s') = [] ∧
    dispatched s' = posted s ∧ threads s' = threads s) as (n' & s' & Hn' & Hrun2 & He' & Hd' & Ht').
  { rewrite (ok_fifo s Hr). destruct H1 as [[He ->]|(Hl1 & Hq1 & He1 & Hd1 & Ht1 & _)].
    - exists 0%nat, s. rewrite He, app_nil_r. split; [lia|done].
    - destruct (drain_select n s1 Hl1 Hq1) as (s' & Hrun & _ & _ & ? & Hd & Ht & _); [by rewrite He1|].
      exists n, s'. rewrite Hd, Hd1, He1, Ht, Ht1. split; [lia|done]. }
  exists (k + n')%nat, s'. split; [lia|]. rewrite replicate_add, run_app, Hrun1. split; [exact Hrun2|].
  split; [done|]. split; [done|]. intros t e Ht. cbn [act]. unfold thread_step. rewrite Ht', Ht.
  cbn [mbind option_bind Post_step]. rewrite He'. cbn. by eexists.
Qed.

(** * Stopping and flushing *)

(** A thread posts an event, from start to end. *)
Definition post (t : nat) (e : Event) : list action := [APost t e; AThread t; AThread t; AThread t].

(** Thread 0 holds the lock and has no room, thread 1 waits for the engine to
    stop, and the engine waits for the lock. *)
Record deadlocked (e : Event) (s : Sys) : Prop := {
  dl_poster : threads s !! 0%nat = Some (TSending e);
  dl_stopper : threads s !! 1%nat = Some TWaiting;
  dl_lock : lock s = Some 0%nat;
  dl_loop : loop s = LQuit 1;
  dl_full : length (eventChannel (engine s)) = eventBufferSize;
  dl_holder : ∀ t th, threads s !! t = Some th -> t ≠ 0%nat ->
    match th with TWaking | TSending _ => False | _ => True end;
}.

Lemma deadlocked_goto e t th s s' :
  deadlocked e s -> t ≠ 0%nat -> t ≠ 1%nat ->
  match th with TWaking | TSending _ => False | _ => True end ->
  threads s' = <[t := th]> (threads s) -> lock s' = lock s -> loop s' = loop s ->
  eventChannel (engine s') = eventChannel (engine s) -> deadlocked e s'.
Proof.
  intros [H1 H2 H3 H4 H5 H6] Ht0 Ht1 Hth Et Ek El Ee. split; rewrite ?Et, ?Ek, ?El, ?Ee; try done.
  - by rewrite lookup_insert_ne.
  - by rewrite lookup_insert_ne.
  - intros t' th' Ht' Hne. destruct (decide (t' = t)) as [->|Hne'].
    + rewrite lookup_insert_eq in Ht'. by injection Ht' as <-.
    + rewrite lookup_insert_ne in Ht' by done. by eapply H6.
Qed.

Lemma deadlocked_finish e t s s' :
  deadlocked e s -> t ≠ 0%nat -> t ≠ 1%nat ->
  threads s' = delete t (threads s) -> lock s' = lock s -> loop s' = loop s ->
  eventChannel (engine s') = eventChannel (engine s) -> deadlocked e s'.
Proof.
  intros [H1 H2 H3 H4 H5 H6] Ht0 Ht1 Et Ek El Ee. split; rewrite ?Et, ?Ek, ?El, ?Ee; try done.
  - by rewrite lookup_delete_ne.
  - by rewrite lookup_delete_ne.
  - intros t' th' [_ Ht']%lookup_delete_Some. by apply H6.
Qed.

Lemma deadlocked_spawn e t th s s' :
  deadlocked e s -> match th with TWaking | TSending _ => False | _ => True end ->
  spawn t th s = Some s' -> deadlocked e s' ∧ dispatched s' = dispatched s.
Proof.
  unfold spawn. destruct (threads s !! t) eqn:E; [done|]. intros Hd Hth [= <-]. split; [|done].
  pose proof (dl_poster e s Hd). pose proof (dl_stopper e s Hd).
  apply (deadlocked_goto e t th s); try done; congruence.
Qed.

Lemma deadlocked_thread e t s s' :
  deadlocked e s -> thread_step t s = Some s' -> deadlocked e s' ∧ dispatched s' = dispatched s.
Proof.
  intros Hd. pose proof Hd as [H1 H2 H3 H4 H5 H6]. unfold thread_step.
  destruct (decide (t = 0%nat)) as [->|Ht0].
  { rewrite H1. cbn [mbind option_bind Post_step]. by rewrite H5. }
  destruct (decide (t = 1%nat)) as [->|Ht1].
  { rewrite H2. cbn [mbind option_bind Stop_step]. by rewrite H4. }
  destruct (threads s !! t) as [th|] eqn:Ht; [|done]. specialize (H6 t th Ht Ht0).
  cbn [mbind option_bind]. destruct th as [ev|ev| | | | |]; try done; cbn [Post_step Stop_step Flush_step].
  - unfold unlocked. by rewrite H3.
  - destruct (quit _); [done|]. intros [= <-]. split; [|done]. by apply (deadlocked_goto e t TStopWaking s).
  - intros [= <-]. split; [|done]. by apply (deadlocked_goto e t TWaiting s).
  - by rewrite H4.
  - destruct (drained (engine s)); [|done]. intros [= <-]. split; [|done].
    by apply (deadlocked_finish e t s).
Qed.

Lemma deadlocked_act e a s s' :
  deadlocked e s -> act a s = Some s' -> deadlocked e s' ∧ dispatched s' = dispatched s.
Proof.
  intros Hd. pose proof Hd as [H1 H2 H3 H4 H5 H6].
  assert (unlocked s = false) as Hlock by (unfold unlocked; by rewrite H3).
  destruct a as [|ev ch|ev ch|ch|t ev|t|t|t| |]; cbn [act]; rewrite ?Hlock; try done.
  - unfold Start. by rewrite Hlock.
  - destruct (default _ _). intros [= <-]. split; [|done]. by split.
  - by apply deadlocked_spawn.
  - destruct (running _); [by apply deadlocked_spawn|by intros [= <-]].
  - by apply deadlocked_spawn.
  - by apply deadlocked_thread.
  - unfold loop_step. by rewrite H4, Hlock.
  - unfold loop_step. by rewrite H4, Hlock.
Qed.

(** C39. Stopping can hang for good.  When ten events wait and a thread posts
    another (it holds the lock and waits for room), a request to stop may be
    taken before the events: the goroutine then wants the lock, which the poster
    keeps until the goroutine makes room.  From there on no run of the whole
    program handles an event, ends the post, or ends the stop. *)
Theorem stop_can_hang (e : Event) :
  ∃ s, reachable s ∧ threads s !! 0%nat = Some (TSending e) ∧ threads s !! 1%nat = Some TWaiting ∧
    ∀ l s', run l s = Some s' ->
      threads s' !! 0%nat = Some (TSending e) ∧ threads s' !! 1%nat = Some TWaiting ∧
      dispatched s' = dispatched s.
Proof.
  set (l := AStart :: concat (replicate 10 (post 0 e)) ++ [APost 0 e; AThread 0; AStop 1; AThread 1; AThread 1; ALoopQuit]).
  destruct (run l start_state) as [s|] eqn:E; [|by vm_compute in E].
  assert (deadlocked e s) as Hd.
  { assert ((λ s, (threads s, lock s, loop s, length (eventChannel (engine s)))) <$> run l start_state
            = Some (<[1%nat := TWaiting]> (<[0%nat := TSending e]> ∅), Some 0%nat, LQuit 1, 10%nat)) as E'
      by (vm_compute; reflexivity).
    rewrite E in E'. cbn [fmap option_fmap option_map] in E'. injection E' as Ht Hk Hl Hn. clear E l.
    split; [by rewrite Ht|by rewrite Ht|done..|].
    intros t th. rewrite Ht. intros [[_ <-]|(_ & [[<- _]|[_ H]]%lookup_insert_Some)]%lookup_insert_Some; done. }
  exists s. split; [exists l; exact E|]. split; [apply Hd|]. split; [apply Hd|]. clear E l.
  intros l. revert s Hd. induction l as [|a l IH]; intros s Hd s'; cbn.
  - intros [= <-]. split; [apply Hd|]. by split; [apply Hd|].
  - destruct (act a s) as [s1|] eqn:E; [|done]. intros Hrun.
    destruct (deadlocked_act e a s s1 Hd E) as [Hd1 Hd2]. rewrite <-Hd2. by apply IH.
Qed.

(** [Flush] may return while an event waits: the value that it takes from
    [drained] can be one from before the event was posted. *)
Lemma Flush_returns_early (e : Event) :
  ∃ s, run ([AStart; ALoop; ALoop; ALoop] ++ post 0 e ++ [ALoop; AFlush 1; AThread 1]) start_state = Some s ∧
    threads s = ∅ ∧ posted s = [e] ∧ eventChannel (engine s) = [e] ∧ dispatched s = [].
Proof. eexists. split; [vm_compute; reflexivity|]. repeat split; reflexivity. Qed.
End Reactor.

(** * Runs *)

(** One thread posts twice, and the engine handles the first event. *)
Definition two_posts : list (action (R := Z)) :=
  [AStart; ASubscribe (asc "a") 3; AReceive 3] ++ post 0 (mkEvent 1 (asc "a"))
    ++ post 0 (mkEvent 2 (asc "b")) ++ [ALoop].
Definition two_events : Sys := default start_state (run two_posts start_state).

Lemma two_events_reachable : reachable two_events.
Proof. exists two_posts. vm_compute. reflexivity. Qed.

Lemma events_keep_their_order_witness :
  (posted two_events = dispatched two_events ++ eventChannel (engine two_events) ∧
   (length (eventChannel (engine two_events)) <= eventBufferSize)%nat ∧
   (∀ ch c, channels two_events !! ch = Some c -> echoes (taken c) (dispatched two_events)) ∧
   (∀ a s', act a two_events = Some s' ->
      (handles_event two_events s' ∨ handles_none two_events s') ∧
      keeps_subscriptions a (engine two_events) (engine s'))) ∧
  taken <$> (channels two_events !! 3%nat) = Some [mkEvent 1 (asc "a")].
Proof.
  split; [apply (events_keep_their_order two_events), two_events_reachable|vm_compute; reflexivity].
Defined.

Lemma waiting_events_are_handled_witness :
  ∃ n s', (n <= length (eventChannel (engine two_events)) + 1)%nat ∧
    run (replicate n ALoop) two_events = Some s' ∧ eventChannel (engine s') = [] ∧
    dispatched s' = posted two_events ∧
    (∀ t e, threads two_events !! t = Some (TSending e) -> ∃ s'', act (AThread t) s' = Some s'').
Proof.
  apply (waiting_events_are_handled two_events).
  - exact two_events_reachable.
  - left. vm_compute. reflexivity.
  - vm_compute. reflexivity.
  - intros [t Ht]. vm_compute in Ht. discriminate.
Defined.
