(* ===== verification/Loggers.v ===== *)
(** [ethlog/loggers.go]: the logger.  Messages go through a channel of ten
    places to a goroutine that writes them on every log system.

    As in [Reactor] a run is a list of actions: the steps of the threads that
    log, flush and reset (each up to the operation on a channel or on the mutex it may wait
    for), and those of the goroutine.  [AddLogSystem] is one action: its mutex
    is a local variable and orders nothing, but it is called when a program starts.
    What the package [fmt] makes of the values to print is an argument, and so is
    the exit that [Fatalln] and [Fatalf] end in. *)

From S2P Require Import Prelude Bytes.

(** ethlog/loggers.go 18-22, logMessage. *)
Record logMessage := mkMessage { m_level : Z; m_format : bool; m_msg : bytes }.

(** ethlog/loggers.go, newPrintlnLogMessage. *)
Definition newPrintlnLogMessage (level : Z) (tag text : bytes) : logMessage :=
  mkMessage level false (asc "[" ++ tag ++ asc "] " ++ text).

(** ethlog/loggers.go, newPrintfLogMessage. *)
Definition newPrintfLogMessage (level : Z) (tag text : bytes) : logMessage :=
  mkMessage level true (asc "[" ++ tag ++ asc "] " ++ text).

(** ethlog/loggers.go 46-55, LogLevel. *)
Inductive LogLevel := Silence | ErrorLevel | WarnLevel | InfoLevel | DebugLevel | DebugDetailLevel.

Definition level_num (l : LogLevel) : Z :=
  match l with
  | Silence => 0 | ErrorLevel => 1 | WarnLevel => 2 | InfoLevel => 3 | DebugLevel => 4 | DebugDetailLevel => 5
  end.

(** The methods of a logger. *)
Inductive method :=
| Errorln | Warnln | Infoln | Debugln | DebugDetailln
| Errorf | Warnf | Infof | Debugf | DebugDetailf
| Fatalln | Fatalf.

(** ethlog/loggers.go 144-182, Logger.Errorln. The level a method logs at, whether it goes
    through [sendf], and (for the last two) whether the program ends after it. *)
Definition method_info (m : method) : LogLevel * bool * bool :=
  match m with
  | Errorln => (ErrorLevel, false, false) | Warnln => (WarnLevel, false, false)
  | Infoln => (InfoLevel, false, false) | Debugln => (DebugLevel, false, false)
  | DebugDetailln => (DebugDetailLevel, false, false)
  | Errorf => (ErrorLevel, true, false) | Warnf => (WarnLevel, true, false)
  | Infof => (InfoLevel, true, false) | Debugf => (DebugLevel, true, false)
  | DebugDetailf => (DebugDetailLevel, true, false)
  | Fatalln => (ErrorLevel, false, true) | Fatalf => (ErrorLevel, true, true)
  end.

(** * Log systems *)

(** ethlog/loggers.go 11-16, LogSystem. [Println] and [Printf] are only called
    with one text. *)
Class LogSystem (L : Type) := {
  GetLogLevel : L -> Z;
  SetLogLevel : Z -> L -> L;
  Println : bytes -> L -> L;
  Printf : bytes -> L -> L;
}.

(** What the logger relies on: a log system keeps the texts it was given
    (with [true] for a format) in order, and its level until it is set. *)
Class LogSystemLaws (L : Type) `{LogSystem L} (written : L -> list (bool * bytes)) := {
  Println_written : ∀ t l, written (Println t l) = written l ++ [(false, t)];
  Printf_written : ∀ t l, written (Printf t l) = written l ++ [(true, t)];
  SetLogLevel_written : ∀ i l, written (SetLogLevel i l) = written l;
  Println_level : ∀ t l, GetLogLevel (Println t l) = GetLogLevel l;
  Printf_level : ∀ t l, GetLogLevel (Printf t l) = GetLogLevel l;
  SetLogLevel_level : ∀ i l, GetLogLevel (SetLogLevel i l) = i;
}.

(** ethlog/loggers.go 196-199, StdLogSystem. The [log.Logger] is the list of the calls made
    to it. *)
Record StdLogSystem := mkStd { std_logger : list (bool * bytes); std_level : Z }.

(** ethlog/loggers.go, NewStdLogSystem. *)
Definition NewStdLogSystem (level : Z) : StdLogSystem := mkStd [] level.

(** ethlog/loggers.go, StdLogSystem.Println. *)
Definition Std_Println (t : bytes) (l : StdLogSystem) : StdLogSystem :=
  mkStd (std_logger l ++ [(false, t)]) (std_level l).

(** ethlog/loggers.go, StdLogSystem.Printf. *)
Definition Std_Printf (t : bytes) (l : StdLogSystem) : StdLogSystem :=
  mkStd (std_logger l ++ [(true, t)]) (std_level l).

(** ethlog/loggers.go, StdLogSystem.SetLogLevel. *)
Definition Std_SetLogLevel (i : Z) (l : StdLogSystem) : StdLogSystem := mkStd (std_logger l) i.

(** ethlog/loggers.go, StdLogSystem.GetLogLevel. *)
Definition Std_GetLogLevel (l : StdLogSystem) : Z := std_level l.

#[export] Instance Std_LogSystem : LogSystem StdLogSystem := {
  GetLogLevel := Std_GetLogLevel; SetLogLevel := Std_SetLogLevel;
  Println := Std_Println; Printf := Std_Printf }.

#[export] Instance Std_laws : LogSystemLaws StdLogSystem std_logger.
Proof. by split. Qed.

(** * The logger *)

Section Loggers.
Context {L : Type} `{LogSystem L}.

(** ethlog/loggers.go, logMessage.send. *)
Definition message_send (m : logMessage) (l : L) : L :=
  if m_format m then Printf (m_msg m) l else Println (m_msg m) l.

(** ethlog/loggers.go 59-61, dispatch. One turn of the loop: a message for one log system. *)
Definition offer (m : logMessage) (l : L) : L :=
  if m_level m <=? GetLogLevel l then message_send m l else l.

(** ethlog/loggers.go, dispatch. The log systems are pointers: one that was added twice
    writes twice. *)
Definition dispatch (m : logMessage) (ps : list nat) (systems : gmap nat L) : gmap nat L :=
  foldl (λ h p, alter (offer m) p h) systems ps.

(** Where the goroutine is: not running, at its [select], about to send on
    [drained], or answering the thread that resets. *)
Inductive loop_state := LNone | LSelect | LDrain | LStatus (status : nat).

(** Where a thread is. [fatal] says that the program exits after it. *)
Inductive thread :=
| TSending (fatal : bool) (m : logMessage)  (* sends the message *)
| TSent (fatal : bool)                      (* has sent it *)
| TFlush (fatal : bool)                     (* waits for [drained] *)
| TReset                                    (* wants the mutex *)
| TQuitting                                 (* sends its request to quit *)
| TResetWaking                              (* has sent it *)
| TWaiting.                                 (* waits for the answer *)

(** ethlog/loggers.go 40-44, logMessages. The variables of the package, the log systems in memory,
    the threads, and as ghosts the messages accepted and those dispatched.  The
    three channels are made together: they are nil as long as [logMessages] is. *)
Record Logging := mkLogging {
  logMessages : option (list logMessage);
  logSystems : list nat;
  quit : option nat;
  drained : bool;
  mutex : option nat;
  loop : loop_state;
  threads : gmap nat thread;
  systems : gmap nat L;
  exited : bool;
  sent : list logMessage;
  dispatched : list logMessage;
}.

Definition set_quit (q : option nat) (s : Logging) : Logging :=
  mkLogging (logMessages s) (logSystems s) q (drained s) (mutex s) (loop s) (threads s) (systems s) (exited s) (sent s) (dispatched s).
Definition set_drained (d : bool) (s : Logging) : Logging :=
  mkLogging (logMessages s) (logSystems s) (quit s) d (mutex s) (loop s) (threads s) (systems s) (exited s) (sent s) (dispatched s).
Definition set_mutex (o : option nat) (s : Logging) : Logging :=
  mkLogging (logMessages s) (logSystems s) (quit s) (drained s) o (loop s) (threads s) (systems s) (exited s) (sent s) (dispatched s).
Definition set_loop (l : loop_state) (s : Logging) : Logging :=
  mkLogging (logMessages s) (logSystems s) (quit s) (drained s) (mutex s) l (threads s) (systems s) (exited s) (sent s) (dispatched s).
Definition set_threads (m : gmap nat thread) (s : Logging) : Logging :=
  mkLogging (logMessages s) (logSystems s) (quit s) (drained s) (mutex s) (loop s) m (systems s) (exited s) (sent s) (dispatched s).
Definition set_systems (m : gmap nat L) (s : Logging) : Logging :=
  mkLogging (logMessages s) (logSystems s) (quit s) (drained s) (mutex s) (loop s) (threads s) m (exited s) (sent s) (dispatched s).
Definition exit (s : Logging) : Logging :=
  mkLogging (logMessages s) (logSystems s) (quit s) (drained s) (mutex s) (loop s) (threads s) (systems s) true (sent s) (dispatched s).
Definition goto (t : nat) (th : thread) (s : Logging) : Logging := set_threads (<[t := th]> (threads s)) s.
Definition finish (t : nat) (s : Logging) : Logging := set_threads (delete t (threads s)) s.

(** The messages that wait. *)
Definition waiting (s : Logging) : list logMessage := default [] (logMessages s).

(** The end of a call; [Fatalln] and [Fatalf] end the program. *)
Definition return_from (fatal : bool) (t : nat) (s : Logging) : Logging :=
  if fatal then exit (finish t s) else finish t s.

(** ethlog/loggers.go, Flush. From its start: the test, and the wait. *)
Definition Flush (fatal : bool) (t : nat) (s : Logging) : Logging :=
  match logSystems s with [] => return_from fatal t s | _ => goto t (TFlush fatal) s end.

(** ethlog/loggers.go, send. The steps of a thread that logs: it waits for room, and then
    takes a value from [drained] if there is one. *)
Definition send_step (t : nat) (th : thread) (s : Logging) : option Logging :=
  match th with
  | TSending fatal m =>
      q ← logMessages s;
      if (length q <? 10)%nat then
        Some (mkLogging (Some (q ++ [m])) (logSystems s) (quit s) (drained s) (mutex s) (loop s)
                (<[t := TSent fatal]> (threads s)) (systems s) (exited s) (sent s ++ [m]) (dispatched s))
      else None
  | TSent fatal =>
      let s := set_drained false s in
      Some (if fatal then Flush true t s else finish t s)
  | TFlush fatal => if drained s then Some (return_from fatal t (set_drained false s)) else None
  | _ => None
  end.

(** ethlog/loggers.go, Reset. The steps of a thread that resets; it has the mutex until the
    goroutine has answered. *)
Definition Reset_step (t : nat) (th : thread) (s : Logging) : option Logging :=
  match th with
  | TReset =>
      match mutex s with
      | Some _ => None
      | None =>
          Some (match logSystems s with [] => finish t s | _ => set_mutex (Some t) (goto t TQuitting s) end)
      end
  | TQuitting =>
      match quit s with None => Some (goto t TResetWaking (set_quit (Some t) s)) | Some _ => None end
  | TResetWaking => Some (goto t TWaiting (set_drained false s))
  | TWaiting =>
      match loop s with
      | LStatus status =>
          if (status =? t)%nat then Some (set_loop LNone (set_mutex None (finish t s))) else None
      | _ => None
      end
  | _ => None
  end.

Definition thread_step (t : nat) (s : Logging) : option Logging :=
  th ← threads s !! t;
  match th with
  | TSending _ _ | TSent _ | TFlush _ => send_step t th s
  | _ => Reset_step t th s
  end.

(** ethlog/loggers.go, start. A step of the goroutine.  When both a message and a request
    to quit are there the [select] may take either; [stop] asks for the request. *)
Definition loop_step (stop : bool) (s : Logging) : option Logging :=
  match loop s, stop with
  | LSelect, true => status ← quit s; Some (set_loop (LStatus status) (set_quit None s))
  | LSelect, false =>
      match waiting s, quit s with
      | m :: rest, _ =>
          Some (mkLogging (Some rest) (logSystems s) (quit s) (drained s) (mutex s) LSelect (threads s)
                  (dispatch m (logSystems s) (systems s)) (exited s) (sent s) (dispatched s ++ [m]))
      | [], None => Some (set_loop LDrain s)
      | [], Some _ => None
      end
  | LDrain, false => if drained s then None else Some (set_loop LSelect (set_drained true s))
  | _, _ => None
  end.

(** ethlog/loggers.go, AddLogSystem. *)
Definition AddLogSystem (p : nat) (s : Logging) : Logging :=
  match logSystems s with
  | [] => mkLogging (Some []) [p] None false (mutex s) LSelect (threads s) (systems s) (exited s) (sent s) (dispatched s)
  | ps => mkLogging (logMessages s) (ps ++ [p]) (quit s) (drained s) (mutex s) (loop s) (threads s) (systems s) (exited s) (sent s) (dispatched s)
  end.

(** ethlog/loggers.go, Logger.sendln. The start of a call of a logger's method with [sendln]:
    nothing is sent as long as there is no channel. *)
Definition sendln (level : Z) (tag text : bytes) (fatal : bool) (t : nat) (s : Logging) : Logging :=
  match logMessages s with
  | Some _ => goto t (TSending fatal (newPrintlnLogMessage level tag text)) s
  | None => if fatal then Flush true t s else s
  end.

(** ethlog/loggers.go, Logger.sendf. *)
Definition sendf (level : Z) (tag text : bytes) (fatal : bool) (t : nat) (s : Logging) : Logging :=
  match logMessages s with
  | Some _ => goto t (TSending fatal (newPrintfLogMessage level tag text)) s
  | None => if fatal then Flush true t s else s
  end.

Inductive action :=
| AAdd (p : nat)
| ASetLevel (p : nat) (i : Z)
| ALog (t : nat) (m : method) (tag text : bytes)
| AFlush (t : nat)
| AReset (t : nat)
| AThread (t : nat)
| ALoop
| ALoopQuit.

(** ethlog/loggers.go 184-194, Logger.Fatalln. A call of a method: [sendln] or [sendf], then for
    the fatal ones a flush and the exit. *)
Definition log_call (t : nat) (m : method) (tag text : bytes) (s : Logging) : Logging :=
  let '(level, formatted, fatal) := method_info m in
  (if formatted then sendf else sendln) (level_num level) tag text fatal t s.

(** One action; [None] when it cannot be taken: it waits, or the program has
    exited. *)
Definition act (a : action) (s : Logging) : option Logging :=
  if exited s then None
  else
    let fresh t s' := match threads s !! t with None => Some s' | Some _ => None end in
    match a with
    | AAdd p => Some (AddLogSystem p s)
    | ASetLevel p i => Some (set_systems (alter (SetLogLevel i) p (systems s)) s)
    | ALog t m tag text => fresh t (log_call t m tag text s)
    | AFlush t => fresh t (Flush false t s)
    | AReset t => fresh t (goto t TReset s)
    | AThread t => thread_step t s
    | ALoop => loop_step false s
    | ALoopQuit => loop_step true s
    end.

Fixpoint run (l : list action) (s : Logging) : option Logging :=
  match l with [] => Some s | a :: l => s' ← act a s; run l s' end.

(** The program at its start, with log systems in memory. *)
Definition start_state (h : gmap nat L) : Logging := mkLogging None [] None false None LNone ∅ h false [] [].

(** * What every run keeps *)

Context {written : L -> list (bool * bytes)} `{!LogSystemLaws L written}.

(** What a log system is given for a message. *)
Definition call (m : logMessage) : bool * bytes := (m_format m, m_msg m).

(** [l] is what [evs] make, each element left out, taken or repeated. *)
Definition calls_of (l : list (bool * bytes)) (evs : list logMessage) : Prop :=
  ∃ ns, length ns = length evs ∧ l = concat (zip_with (λ n m, replicate n (call m)) ns evs).

Lemma calls_snoc l evs n e : calls_of l evs -> calls_of (l ++ replicate n (call e)) (evs ++ [e]).
Proof.
  intros (ns & Hlen & ->). exists (ns ++ [n]). rewrite !length_app, Hlen. split; [done|].
  rewrite zip_with_app, concat_app by done. cbn. by rewrite app_nil_r.
Qed.

Lemma offer_written m l :
  written (offer m l) = written l ++ (if m_level m <=? GetLogLevel l then [call m] else []) ∧
  GetLogLevel (offer m l) = GetLogLevel l.
Proof.
  unfold offer, message_send, call. destruct (_ <=? _); [|by rewrite app_nil_r].
  destruct (m_format m); by rewrite ?Printf_written, ?Println_written, ?Printf_level, ?Println_level.
Qed.

(** A message is written on every log system as often as it was added, if its
    level is high enough. *)
Lemma dispatch_written m ps h p l :
  h !! p = Some l ->
  ∃ l', dispatch m ps h !! p = Some l' ∧ GetLogLevel l' = GetLogLevel l ∧
    written l' = written l ++
      (if m_level m <=? GetLogLevel l then replicate (length (filter (λ q, q = p) ps)) (call m) else []).
Proof.
  unfold dispatch. revert h l. induction ps as [|q ps IH]; intros h l Hp.
  { exists l. cbn. destruct (_ <=? _); cbn; by rewrite app_nil_r. }
  cbn [foldl]. destruct (decide (q = p)) as [->|Hne].
  - destruct (offer_written m l) as [Hw Hl].
    destruct (IH (alter (offer m) p h) (offer m l)) as (l' & H1 & H2 & H3).
    { by rewrite lookup_alter_eq, Hp. }
    exists l'. rewrite H2, Hl, filter_cons_True by done. split; [done|]. split; [done|].
    rewrite H3, Hw, Hl, <-app_assoc. by destruct (_ <=? _).
  - destruct (IH (alter (offer m) q h) l) as (l' & H1 & H2 & H3).
    { by rewrite lookup_alter_ne. }
    exists l'. by rewrite filter_cons_False.
Qed.

Lemma log_dispatch_none m ps h p : h !! p = None -> dispatch m ps h !! p = None.
Proof.
  unfold dispatch. revert h. induction ps as [|q ps IH]; intros h Hp; [done|]. cbn [foldl]. apply IH.
  destruct (decide (q = p)) as [->|Hne]; [by rewrite lookup_alter_eq, Hp|by rewrite lookup_alter_ne].
Qed.

(** The log systems were [h] at the start. *)
Record log_ok (h : gmap nat L) (s : Logging) : Prop := {
  ok_fifo : sent s = dispatched s ++ waiting s;
  ok_cap : (length (waiting s) <= 10)%nat;
  ok_written : ∀ p l, systems s !! p = Some l ->
    ∃ l0 k, h !! p = Some l0 ∧ written l = written l0 ++ k ∧ calls_of k (dispatched s);
  ok_started : logSystems s = [] -> loop s = LNone ∧ logMessages s = None;
}.

(** A step that leaves messages and log systems alone. *)
Lemma log_ok_quiet h s s' :
  log_ok h s -> logMessages s' = logMessages s -> logSystems s' = logSystems s -> systems s' = systems s ->
  sent s' = sent s -> dispatched s' = dispatched s -> (logSystems s = [] -> loop s' = LNone) -> log_ok h s'.
Proof.
  intros [H1 H2 H3 H4] Em Es Ey Et Ed El. unfold waiting in *. split; unfold waiting.
  - by rewrite Em, Et, Ed.
  - by rewrite Em.
  - by rewrite Ey, Ed.
  - rewrite Em, Es. intros E. split; [by apply El|by apply H4].
Qed.

(** The fields that a step of a thread which only moves it leaves alone. *)
Definition same_but_threads (s s' : Logging) : Prop :=
  logMessages s' = logMessages s ∧ logSystems s' = logSystems s ∧ systems s' = systems s ∧
  sent s' = sent s ∧ dispatched s' = dispatched s ∧ loop s' = loop s.

Lemma Flush_same fatal t s : same_but_threads s (Flush fatal t s).
Proof. unfold Flush, return_from. by destruct (logSystems s) eqn:E, fatal; cbn; rewrite ?E. Qed.

Lemma log_call_same t m tag text s : same_but_threads s (log_call t m tag text s).
Proof.
  unfold log_call. destruct (method_info m) as [[l f] fatal].
  destruct f; unfold sendln, sendf; destruct (logMessages s) eqn:E; try done; destruct fatal; try done; apply Flush_same.
Qed.

Lemma send_step_cases t th s s' :
  send_step t th s = Some s' ->
  same_but_threads s s' ∨
  ∃ m q, logMessages s = Some q ∧ (length q < 10)%nat ∧ logMessages s' = Some (q ++ [m]) ∧ sent s' = sent s ++ [m] ∧
    logSystems s' = logSystems s ∧ systems s' = systems s ∧ dispatched s' = dispatched s ∧ loop s' = loop s.
Proof.
  destruct th as [fatal m|fatal|fatal| | | |]; try done; cbn [send_step].
  - destruct (logMessages s) as [q|] eqn:Eq; [|done]. cbn [mbind option_bind].
    destruct (Nat.ltb_spec (length q) 10); [|done]. intros [= <-]. right. by exists m, q.
  - intros [= <-]. left. destruct fatal; [|done].
    exact (Flush_same true t (set_drained false s)).
  - destruct (drained s); [|done]. intros [= <-]. left. by destruct fatal.
Qed.

Lemma Reset_step_cases t th s s' :
  Reset_step t th s = Some s' ->
  same_but_threads s s' ∨
  th = TWaiting ∧ loop s = LStatus t ∧ s' = set_loop LNone (set_mutex None (finish t s)).
Proof.
  destruct th; try done; cbn [Reset_step].
  - destruct (mutex s); [done|]. intros [= <-]. left. by destruct (logSystems s) eqn:E; cbn; rewrite ?E.
  - destruct (quit s); [done|]. intros [= <-]. by left.
  - intros [= <-]. by left.
  - destruct (loop s) as [| | |status] eqn:E; try done. destruct (Nat.eqb_spec status t) as [->|]; [|done].
    intros [= <-]. by right.
Qed.

Lemma thread_step_cases t s s' :
  thread_step t s = Some s' ->
  ∃ th, threads s !! t = Some th ∧ (send_step t th s = Some s' ∨ Reset_step t th s = Some s').
Proof.
  unfold thread_step. destruct (threads s !! t) as [th|] eqn:Ht; [|done]. cbn [mbind option_bind]. intros E.
  exists th. split; [done|]. destruct th; auto.
Qed.

Lemma log_ok_same h s s' : log_ok h s -> same_but_threads s s' -> log_ok h s'.
Proof.
  intros Hok (H1 & H2 & H3 & H4 & H5 & H6). apply (log_ok_quiet h s); try done.
  rewrite H6. apply Hok.
Qed.

Lemma log_thread_ok h t s s' : log_ok h s -> thread_step t s = Some s' -> log_ok h s'.
Proof.
  intros Hok (th & Ht & [E|E])%thread_step_cases.
  - apply send_step_cases in E as [E|(m & q & Eq & Hlt & Em & Et & Es & Ey & Ed & El)]; [by eapply log_ok_same|].
    destruct Hok as [H1 H2 H3 H4]. unfold waiting in *. rewrite Eq in *. cbn in *.
    split; unfold waiting; rewrite ?Em, ?Et, ?Es, ?Ey, ?Ed, ?El; cbn.
    + by rewrite H1, app_assoc.
    + rewrite length_app. simpl. lia.
    + done.
    + intros E0. by destruct (H4 E0).
  - apply Reset_step_cases in E as [E|(-> & El & ->)]; [by eapply log_ok_same|].
    by apply (log_ok_quiet h s).
Qed.

Lemma log_loop_ok h b s s' : log_ok h s -> loop_step b s = Some s' -> log_ok h s'.
Proof.
  intros Hok. pose proof (ok_started h s Hok) as H4. unfold loop_step.
  destruct (loop s) eqn:El; try done; destruct b; try done.
  - destruct (quit s); [|done]. intros [= <-]. apply (log_ok_quiet h s); try done. naive_solver.
  - destruct (waiting s) as [|m rest] eqn:Ew.
    { destruct (quit s); [done|]. intros [= <-]. apply (log_ok_quiet h s); try done. naive_solver. }
    intros [= <-]. destruct Hok as [H1 H2 H3 _]. rewrite Ew in *. simpl in H2. split; unfold waiting; cbn.
    + by rewrite H1, <-app_assoc.
    + lia.
    + intros p l Hl. destruct (systems s !! p) as [l1|] eqn:Ep.
      * destruct (dispatch_written m (logSystems s) _ _ _ Ep) as (l' & E' & _ & Hw).
        rewrite Hl in E'. injection E' as <-. destruct (H3 p l1 Ep) as (l0 & k & Hl0 & Hw0 & Hk).
        eexists l0, _. split; [done|]. rewrite Hw, Hw0, <-app_assoc. split; [reflexivity|].
        destruct (_ <=? _); [by apply calls_snoc|]. by apply (calls_snoc _ _ 0).
      * by rewrite log_dispatch_none in Hl.
    + intros E0. naive_solver.
  - destruct (drained s); [done|]. intros [= <-]. apply (log_ok_quiet h s); try done. naive_solver.
Qed.

Lemma log_act_ok h a s s' : log_ok h s -> act a s = Some s' -> log_ok h s'.
Proof.
  intros Hok. unfold act. destruct (exited s); [done|]. destruct a as [p|p i|t m tag text|t|t|t| |].
  - intros [= <-]. unfold AddLogSystem. destruct Hok as [H1 H2 H3 H4].
    destruct (logSystems s) as [|p0 ps] eqn:E.
    + destruct (H4 eq_refl) as [_ Em]. unfold waiting in *. rewrite Em in *. by split.
    + by split.
  - intros [= <-]. destruct Hok as [H1 H2 H3 H4]. split; try done. cbn. intros q l Hl.
    destruct (decide (q = p)) as [->|Hne]; [|rewrite lookup_alter_ne in Hl by done; by apply H3].
    rewrite lookup_alter_eq in Hl. destruct (systems s !! p) as [l1|] eqn:Ep; [|done]. injection Hl as <-.
    destruct (H3 p l1 Ep) as (l0 & k & Hl0 & Hw & Hk). exists l0, k. by rewrite SetLogLevel_written.
  - destruct (threads s !! t); [done|]. intros [= <-]. eapply log_ok_same, log_call_same. done.
  - destruct (threads s !! t); [done|]. intros [= <-]. eapply log_ok_same, Flush_same. done.
  - destruct (threads s !! t); [done|]. intros [= <-]. by eapply log_ok_same.
  - by apply log_thread_ok.
  - by apply log_loop_ok.
  - by apply log_loop_ok.
Qed.

Lemma run_ok h l s s' : log_ok h s -> run l s = Some s' -> log_ok h s'.
Proof.
  revert s. induction l as [|a l IH]; intros s Hok; cbn; [by intros [= <-]|].
  destruct (act a s) as [s1|] eqn:E; [|done]. apply IH. by eapply log_act_ok.
Qed.

Lemma start_ok h : log_ok h (start_state h).
Proof. split; cbn; try done; [unfold waiting; cbn; lia|]. intros p l Hl. exists l, []. rewrite app_nil_r. split; [done|]. split; [done|]. by exists []. Qed.

(** * What the logger promises *)

(** The step writes out the message that waits longest, on every log system as often as it was added if the
    message's level is not above the system's. *)
Definition writes_one (s s' : Logging) : Prop := ∃ m rest,
  waiting s = m :: rest ∧ waiting s' = rest ∧ dispatched s' = dispatched s ++ [m] ∧
  ∀ p sys, systems s !! p = Some sys -> ∃ sys', systems s' !! p = Some sys' ∧
    GetLogLevel sys' = GetLogLevel sys ∧
    written sys' = written sys ++
      (if m_level m <=? GetLogLevel sys
       then replicate (length (filter (λ q, q = p) (logSystems s))) (call m) else []).

(** The step writes nothing; only [SetLogLevel] changes a level. *)
Definition writes_none (a : action) (s s' : Logging) : Prop :=
  dispatched s' = dispatched s ∧
  ∀ p sys, systems s !! p = Some sys -> ∃ sys', systems s' !! p = Some sys' ∧ written sys' = written sys ∧
    GetLogLevel sys' = match a with
                       | ASetLevel q i => if decide (q = p) then i else GetLogLevel sys
                       | _ => GetLogLevel sys
                       end.

Lemma writes_none_same a s s' :
  dispatched s' = dispatched s -> systems s' = systems s ->
  match a with ASetLevel _ _ => False | _ => True end -> writes_none a s s'.
Proof. intros Hd Hs Ha. split; [done|]. intros p sys. rewrite Hs. exists sys. by destruct a. Qed.

Lemma thread_writes_none t s s' : thread_step t s = Some s' -> dispatched s' = dispatched s ∧ systems s' = systems s ∧ logSystems s' = logSystems s.
Proof.
  intros (th & Ht & [E|E])%thread_step_cases.
  - by apply send_step_cases in E as [(_ & ? & ? & _ & ? & _)|(m & q & _ & _ & _ & _ & ? & ? & ? & _)].
  - apply Reset_step_cases in E as [(_ & ? & ? & _ & ? & _)|(_ & _ & ->)]; done.
Qed.

Lemma loop_writes a b s s' :
  loop_step b s = Some s' -> match a with ASetLevel _ _ => False | _ => True end ->
  (writes_one s s' ∨ writes_none a s s') ∧ logSystems s' = logSystems s.
Proof.
  intros E Ha. unfold loop_step in E. destruct (loop s); try done; destruct b; try done.
  - destruct (quit s); [|done]. injection E as <-. split; [|done]. right. by apply writes_none_same.
  - destruct (waiting s) as [|m rest] eqn:Ew.
    + destruct (quit s); [done|]. injection E as <-. split; [|done]. right. by apply writes_none_same.
    + injection E as <-. split; [|done]. left. exists m, rest. do 3 (split; [done|]).
      intros p sys Hp. by apply dispatch_written.
  - destruct (drained s); [done|]. injection E as <-. split; [|done]. right. by apply writes_none_same.
Qed.

Lemma log_act_writes a s s' :
  act a s = Some s' ->
  (writes_one s s' ∨ writes_none a s s') ∧
  logSystems s' = match a with AAdd p => logSystems s ++ [p] | _ => logSystems s end.
Proof.
  unfold act. destruct (exited s); [done|].
  destruct a as [p|p i|t m tag text|t|t|t| |]; try (destruct (threads s !! t); [done|]).
  - intros [= <-]. unfold AddLogSystem. destruct (logSystems s) as [|p0 ps]; (split; [|done]); right; by apply writes_none_same.
  - intros [= <-]. split; [|done]. right. split; [done|]. intros q sys Hq. cbn.
    case_decide as E; [subst q|].
    + rewrite lookup_alter_eq, Hq. eexists. split; [done|]. by rewrite SetLogLevel_written, SetLogLevel_level.
    + exists sys. by rewrite lookup_alter_ne.
  - intros [= <-]. destruct (log_call_same t m tag text s) as (_ & ? & ? & _ & ? & _).
    split; [|done]. right. by apply writes_none_same.
  - intros [= <-]. destruct (Flush_same false t s) as (_ & ? & ? & _ & ? & _).
    split; [|done]. right. by apply writes_none_same.
  - intros [= <-]. split; [|done]. right. by apply writes_none_same.
  - intros (? & ? & ?)%thread_writes_none. split; [|done]. right. by apply writes_none_same.
  - intros E. by apply (loop_writes ALoop) in E.
  - intros E. by apply (loop_writes ALoopQuit) in E.
Qed.

(** C19. Log messages keep their order, in every interleaving of any number of
    threads that log, flush, reset, add log systems and set levels.  The messages accepted are those
    written out followed by at most ten that wait, in the order in which they
    were sent.  Every step writes either nothing, or the message that waits longest: on each log system as
    often as it was added, with the text and the kind of call the message was made with, if its level is not
    above the level of the system, and otherwise not at all.  Only [SetLogLevel] changes a
    level, and only [AddLogSystem] the log systems, at the end of their list.  So what any log system was given since
    the start is the sequence of the messages written out, some left out and some repeated, never reordered. *)
Theorem messages_keep_their_order (h : gmap nat L) (l : list action) (s : Logging) :
  run l (start_state h) = Some s ->
  sent s = dispatched s ++ waiting s ∧ (length (waiting s) <= 10)%nat ∧
  (∀ p sys, systems s !! p = Some sys ->
    ∃ sys0 k, h !! p = Some sys0 ∧ written sys = written sys0 ++ k ∧ calls_of k (dispatched s)) ∧
  (∀ a s', act a s = Some s' ->
    (writes_one s s' ∨ writes_none a s s') ∧
    logSystems s' = match a with AAdd p => logSystems s ++ [p] | _ => logSystems s end).
Proof.
  intros E. destruct (run_ok h l _ s (start_ok h) E) as [H1 H2 H3 _].
  do 3 (split; [done|]). intros a s'. apply log_act_writes.
Qed.

(** The goroutine has ended: log systems stay registered, and nothing starts
    it again. *)
Definition over (s : Logging) : Prop := loop s = LNone ∧ logSystems s ≠ [].

Lemma over_act a s s' :
  over s -> act a s = Some s' ->
  over s' ∧ dispatched s' = dispatched s ∧
  ∀ p, written <$> systems s' !! p = written <$> systems s !! p.
Proof.
  intros [Hl Hs]. unfold act. destruct (exited s); [done|].
  assert (∀ s', same_but_threads s s' -> over s' ∧ dispatched s' = dispatched s ∧
    ∀ p, written <$> systems s' !! p = written <$> systems s !! p) as Hsame.
  { intros s1 (_ & E2 & E3 & _ & E5 & E6). unfold over. by rewrite E2, E3, E5, E6. }
  destruct a as [p|p i|t m tag text|t|t|t| |].
  - intros [= <-]. unfold over, AddLogSystem. destruct (logSystems s) as [|p0 ps]; [done|]. by split.
  - intros [= <-]. split; [done|]. split; [done|]. intros q. cbn.
    destruct (decide (q = p)) as [->|Hne]; [rewrite lookup_alter_eq|by rewrite lookup_alter_ne].
    destruct (systems s !! p); [|done]. cbn. by rewrite SetLogLevel_written.
  - destruct (threads s !! t); [done|]. intros [= <-]. apply Hsame, log_call_same.
  - destruct (threads s !! t); [done|]. intros [= <-]. apply Hsame, Flush_same.
  - destruct (threads s !! t); [done|]. intros [= <-]. by apply Hsame.
  - intros (th & Ht & [E|E])%thread_step_cases.
    + apply send_step_cases in E as [E|(m & q & _ & _ & _ & _ & Es & Ey & Ed & El)]; [by apply Hsame|].
      unfold over. by rewrite Es, Ey, Ed, El.
    + apply Reset_step_cases in E as [E|(_ & El & _)]; [by apply Hsame|]. by rewrite El in Hl.
  - unfold loop_step. by rewrite Hl.
  - unfold loop_step. by rewrite Hl.
Qed.

Lemma over_run l s s' :
  over s -> run l s = Some s' ->
  over s' ∧ dispatched s' = dispatched s ∧ ∀ p, written <$> systems s' !! p = written <$> systems s !! p.
Proof.
  revert s. induction l as [|a l IH]; intros s Ho; cbn; [by intros [= <-]|].
  destruct (act a s) as [s1|] eqn:E; [|done]. intros Hrun.
  apply over_act in E as (Ho1 & Hd & Hw); [|done]. destruct (IH s1 Ho1 Hrun) as (Ho2 & Hd2 & Hw2).
  split; [done|]. rewrite Hd2, Hd. split; [done|]. intros p. by rewrite Hw2, Hw.
Qed.

(** A reset ends all logging.  From the moment a [Reset] returns, on any run and
    whatever log systems are added, nothing is written on a log system again;
    at most ten more messages are accepted, and with ten waiting every call of a
    logger waits for ever; and no other [Reset] returns. *)
Theorem reset_ends_logging (h : gmap nat L) (l1 l2 : list action) (t : nat) (s s' s'' : Logging) :
  run l1 (start_state h) = Some s -> threads s !! t = Some TWaiting -> act (AThread t) s = Some s' ->
  run l2 s' = Some s'' ->
  (∀ p, written <$> systems s'' !! p = written <$> systems s !! p) ∧
  (length (sent s'') <= length (dispatched s) + 10)%nat ∧
  (∀ t', threads s'' !! t' = Some TWaiting -> act (AThread t') s'' = None) ∧
  (length (waiting s'') = 10%nat ->
   ∀ t' fatal m, threads s'' !! t' = Some (TSending fatal m) -> act (AThread t') s'' = None).
Proof.
  intros H1 Ht Ha H2. assert (log_ok h s) as Hok by (eapply run_ok, H1; apply start_ok).
  assert (log_ok h s'') as Hok2 by (eapply run_ok, H2; by eapply log_act_ok).
  assert (over s' ∧ dispatched s' = dispatched s ∧ systems s' = systems s) as (Ho & Hd & Hy).
  { revert Ha. unfold act. destruct (exited s); [done|]. unfold thread_step. rewrite Ht. cbn [mbind option_bind].
    intros E. pose proof E as E'. cbn [Reset_step] in E'. destruct (loop s) eqn:El; try done.
    destruct (_ =? _)%nat; [|done]. injection E' as <-. split; [|done]. split; [done|].
    cbn. intros E0. destruct (ok_started h s Hok E0) as [? _]. congruence. }
  destruct (over_run l2 s' s'' Ho H2) as ([Hl Hs] & Hd2 & Hw).
  split; [intros p; by rewrite Hw, Hy|]. split.
  { rewrite (ok_fifo h s'' Hok2), Hd2, Hd, length_app. pose proof (ok_cap h s'' Hok2). lia. }
  unfold act, thread_step. split.
  - intros t' Ht'. destruct (exited s''); [done|]. rewrite Ht'. cbn [mbind option_bind Reset_step]. by rewrite Hl.
  - intros Hfull t' fatal m Ht'. destruct (exited s''); [done|]. rewrite Ht'. cbn [mbind option_bind send_step].
    unfold waiting in Hfull. destruct (logMessages s'') as [q|]; [|done]. cbn in *. by rewrite Hfull.
Qed.
End Loggers.

(** * Runs *)

(** A thread logs from start to end. *)
Definition log (t : nat) (m : method) (text : bytes) : list action :=
  [ALog t m (asc "T") text; AThread t; AThread t].

(** Thread [t] resets from start to end. *)
Definition reset (t : nat) : list action :=
  [AReset t; AThread t; AThread t; AThread t].

Definition one_system : gmap nat StdLogSystem := {[ 7%nat := NewStdLogSystem 2 ]}.

(** Two messages are written and one is not important enough; then a reset. *)
Definition first_run : list action :=
  [AAdd 7] ++ log 0 Errorln (asc "a") ++ log 1 Infoln (asc "b") ++ log 0 Warnf (asc "c")
    ++ [ALoop; ALoop; ALoop] ++ reset 0 ++ [ALoopQuit].

Definition first_state : Logging := default (start_state ∅) (run first_run (start_state one_system)).

Lemma messages_keep_their_order_witness :
  (sent first_state = dispatched first_state ++ waiting first_state ∧
   (length (waiting first_state) <= 10)%nat ∧
   (∀ p sys, systems first_state !! p = Some sys ->
     ∃ sys0 k, one_system !! p = Some sys0 ∧ std_logger sys = std_logger sys0 ++ k ∧
       calls_of k (dispatched first_state)) ∧
   (∀ a s', act a first_state = Some s' ->
     (writes_one (written := std_logger) first_state s' ∨ writes_none (written := std_logger) a first_state s') ∧
     logSystems s' = match a with AAdd p => logSystems first_state ++ [p] | _ => logSystems first_state end)) ∧
  std_logger <$> systems first_state !! 7%nat = Some [(false, asc "[T] a"); (true, asc "[T] c")].
Proof.
  split; [|vm_compute; reflexivity].
  apply (messages_keep_their_order one_system first_run first_state). vm_compute. reflexivity.
Defined.

(** After the reset three messages are accepted, a log system is added again, and
    another reset begins. *)
Definition second_run : list action :=
  log 1 Errorln (asc "d") ++ [AAdd 7] ++ log 1 Errorln (asc "e") ++ reset 2.
Definition reset_state : Logging := default (start_state ∅) (act (AThread 0) first_state).
Definition last_state : Logging := default (start_state ∅) (run second_run reset_state).

Lemma reset_ends_logging_witness :
  (∀ p, std_logger <$> systems last_state !! p = std_logger <$> systems first_state !! p) ∧
  (length (sent last_state) <= length (dispatched first_state) + 10)%nat ∧
  (∀ t', threads last_state !! t' = Some TWaiting -> act (AThread t') last_state = None) ∧
  (length (waiting last_state) = 10%nat ->
   ∀ t' fatal m, threads last_state !! t' = Some (TSending fatal m) -> act (AThread t') last_state = None).
Proof.
  apply (reset_ends_logging one_system first_run second_run 0 first_state reset_state last_state);
    vm_compute; reflexivity.
Defined.

(** The messages after the reset wait for ever. *)
Lemma last_state_waits : m_msg <$> waiting last_state = [asc "[T] d"; asc "[T] e"].
Proof. vm_compute. reflexivity. Qed.

(** [Fatalln] may exit before its message is written: the goroutine waits on
    [drained] with a value that is older than the message, which the flush takes. *)
Lemma Fatalln_loses_its_message :
  ∃ s, run ([AAdd 7; ALoop; ALoop; ALoop; ALog 0 Fatalln (asc "T") (asc "x"); AThread 0; AThread 0; ALoop; AThread 0])
        (start_state one_system) = Some s ∧
    exited s = true ∧ m_msg <$> sent s = [asc "[T] x"] ∧ std_logger <$> systems s !! 7%nat = Some [].
Proof. eexists. split; [vm_compute; reflexivity|]. repeat split; vm_compute; reflexivity. Qed.
