(* ===== verification/Wire.v ===== *)
(** [ethwire]: the framing of messages on a network connection
    ([messaging.go]) and the client identity ([client_identity.go]).

    A connection is the list of what its reads will return; an empty read (the
    end of the stream, or the deadline) ends the reading of a batch, as in the
    code.  Decoding works on a slice of the read buffer, so it can see the bytes behind the
    message; what lies behind the buffer itself (the spare capacity that [append] left)
    is the argument [spare]. *)

From S2P Require Import Prelude GoVal Big Bytes Errors Rlp Value.

(** ethwire/messaging.go 22-22, MagicToken. *)
Definition MagicToken : bytes := [x22; x40; x08; x91].

(** ethwire/messaging.go 24-48, MsgType. The constants. *)
Definition MsgType : Type := Z.
Definition MsgHandshakeTy : MsgType := 0x00.
Definition MsgDiscTy : MsgType := 0x01.
Definition MsgPingTy : MsgType := 0x02.
Definition MsgPongTy : MsgType := 0x03.
Definition MsgGetPeersTy : MsgType := 0x10.
Definition MsgPeersTy : MsgType := 0x11.
Definition MsgTxTy : MsgType := 0x12.
Definition MsgGetChainTy : MsgType := 0x14.
Definition MsgNotInChainTy : MsgType := 0x15.
Definition MsgGetTxsTy : MsgType := 0x16.
Definition MsgGetBlockHashesTy : MsgType := 0x17.
Definition MsgBlockHashesTy : MsgType := 0x18.
Definition MsgGetBlocksTy : MsgType := 0x19.
Definition MsgBlockTy : MsgType := 0x13.
Definition MsgOldBlockTy : MsgType := 0xbb.
Definition MsgTalkTy : MsgType := 0xff.

(** ethwire/messaging.go 50-65, msgTypeToString. *)
Definition msgTypeToString : list (MsgType * bytes) := [
  (MsgHandshakeTy, asc "Handshake"); (MsgDiscTy, asc "Disconnect"); (MsgPingTy, asc "Ping");
  (MsgPongTy, asc "Pong"); (MsgGetPeersTy, asc "Get peers"); (MsgPeersTy, asc "Peers");
  (MsgTxTy, asc "Transactions"); (MsgBlockTy, asc "Blocks"); (MsgGetChainTy, asc "Get chain");
  (MsgGetTxsTy, asc "Get Txs"); (MsgNotInChainTy, asc "Not in chain");
  (MsgGetBlockHashesTy, asc "Get block hashes"); (MsgBlockHashesTy, asc "Block hashes");
  (MsgGetBlocksTy, asc "Get blocks")].

(** ethwire/messaging.go, MsgType.String. A type without a name is the empty string. *)
Definition MsgType_String (mt : MsgType) : bytes :=
  default [] (snd <$> List.find (λ p, p.1 =? mt) msgTypeToString).

(** ethwire/messaging.go, Msg. *)
Record Msg := mkMsg { Msg_Type : MsgType; Msg_Data : goval }.

(** ethwire/messaging.go, NewMessage. *)
Definition NewMessage (msgType : MsgType) (data : goval) : Msg := mkMsg msgType (NewValue data).

(** * Writing *)

(** A frame: the token, the length in four bytes, the payload. *)
Definition pack (encoded : bytes) : outcome bytes :=
  payloadLength ← NumberToBytes (VInt Kuint32 (u32 (zlen encoded))) 32;
  Ret (MagicToken ++ payloadLength ++ encoded).

(** ethwire/messaging.go, WriteMessage. The bytes written to the connection. *)
Definition WriteMessage (msg : Msg) : outcome bytes :=
  pack (Value_Encode (NewValue (VList (VInt Kuint8 (Msg_Type msg) :: Value_Slice (Msg_Data msg))))).

(** An argument of [Connection.Write]. *)
Inductive writable :=
| Encodable (rlpValue : list goval)
| Raw (l : list goval)
| Unwritable.

(** ethwire/messaging.go 119-128, Connection.Write. The rows. *)
Fixpoint rows (v : list writable) : outcome (list (list goval)) :=
  match v with
  | [] => Ret []
  | (Encodable l | Raw l) :: rest => r ← rows rest; Ret (l :: r)
  | Unwritable :: _ => Panic
  end.

(** ethwire/messaging.go, Connection.Write. The bytes written. *)
Definition Connection_Write (typ : MsgType) (v : list writable) : outcome bytes :=
  r ← rows v;
  pack (Value_Encode (NewValue (VRows ([VInt Kuint8 typ] :: r)))).

(** * Reading *)

(** The answer of [ReadMessage]. *)
Record read_result := mkRead {
  rr_msg : option Msg;
  rr_remaining : bytes;
  rr_done : bool;
  rr_err : option error;
}.

(** The format [%v] of a byte slice. *)
Definition show_bytes (b : bytes) : bytes :=
  asc "[" ++ concat (imap (λ i x, (if decide (i = 0%nat) then [] else asc " ") ++ decimal (b2z x)) b)
  ++ asc "]".

(** [ethutil.NewValueFromBytes] on a slice with [spare] behind it. *)
Definition decode_slice (data spare : bytes) : outcome goval :=
  if negb (zlen data =? 0) then '(v, _) ← Decode (S (length data)) data spare 0; Ret v
  else Ret (NewValue VNil).

(** ethwire/messaging.go, ReadMessage. The rest is sliced off before the length
    is compared. *)
Definition ReadMessage (spare data : bytes) : outcome read_result :=
  if zlen data =? 0 then Ret (mkRead None [] true None)
  else if zlen data <=? 8 then
    Ret (mkRead None [] false (Some (Errorf (asc "Invalid message"))))
  else
    token ← slice data 0 4;
    if negb (bool_decide (MagicToken = token)) then
      Ret (mkRead None [] false (Some (Errorf (asc "MagicToken mismatch. Received " ++ show_bytes token))))
    else
      lenField ← slice data 4 8;
      messageLength ← BytesToNumber lenField;
      remaining ← slice data (u64 (8 + messageLength)) (zlen data);
      rest ← slice data 8 (zlen data);
      if zlen rest <? s64 messageLength then
        Ret (mkRead None [] false (Some (Errorf (asc "message length " ++ decimal (zlen rest)
               ++ asc ", expected " ++ decimal messageLength))))
      else
        message ← slice data 8 (u64 (8 + messageLength));
        decoder ← decode_slice message (remaining ++ spare);
        let t := Value_Uint (Get decoder 0) in
        d ← SliceFrom decoder 1;
        Ret (mkRead (Some (mkMsg (u8 t) d)) remaining false None).

(** ethwire/messaging.go, Connection.readMessage. The same code. *)
Definition readMessage (spare data : bytes) : outcome read_result := ReadMessage spare data.

(** ethwire/messaging.go 289-311, ReadMessages. Everything up to the first
    empty read; the reads that are left. *)
Fixpoint read_all (reads : list bytes) : bytes * list bytes :=
  match reads with
  | [] => ([], [])
  | b :: rest => if zlen b =? 0 then ([], rest)
                 else let '(buff, later) := read_all rest in (b ++ buff, later)
  end.

(** ethwire/messaging.go 314-322, ReadMessages. The loop, the messages so far being
    kept when it panics; only the error of the last call is left. *)
Fixpoint split_messages (fuel : nat) (spare data : bytes) (msgs : list Msg)
    : outcome (option error) * list Msg :=
  match ReadMessage spare data with
  | Panic => (Panic, msgs)
  | NoFuel => (NoFuel, msgs)
  | Ret r =>
      if rr_done r then (Ret (rr_err r), msgs)
      else match fuel with
           | O => (NoFuel, msgs)
           | S f => split_messages f spare (rr_remaining r)
                      (match rr_msg r with Some m => msgs ++ [m] | None => msgs end)
           end
  end.

(** What [recover] makes of a panic; the text of the runtime error, which the
    code appends to the message, is left out. *)
Definition recovered_read (r : outcome (option error) * list Msg) : outcome (list Msg * option error) :=
  match r with
  | (Ret err, msgs) => Ret (msgs, err)
  | (Panic, msgs) => Ret (msgs, Some (Errorf (asc "ethwire.ReadMessage error: ")))
  | (NoFuel, _) => NoFuel
  end.

(** ethwire/messaging.go, ReadMessages. A panic is recovered and becomes the
    error; the messages read before it are returned with it. *)
Definition ReadMessages (spare : bytes) (reads : list bytes) : outcome (list Msg * option error) :=
  let '(buff, _) := read_all reads in
  recovered_read (split_messages (S (length buff)) spare buff []).

(** ethwire/messaging.go, Connection. *)
Record Connection := mkConnection { conn : list bytes; pendingMessages : list Msg }.

(** ethwire/messaging.go, New. *)
Definition New (conn : list bytes) : Connection := mkConnection conn [].

(** ethwire/messaging.go, Connection.readMessages. The messages are pending as they
    are read, also when a panic is recovered. *)
Definition readMessages (spare : bytes) (self : Connection)
    : outcome (option error) * Connection :=
  let '(buff, later) := read_all (conn self) in
  match recovered_read (split_messages (S (length buff)) spare buff (pendingMessages self)) with
  | Ret (msgs, err) => (Ret err, mkConnection later msgs)
  | Panic => (Panic, self)
  | NoFuel => (NoFuel, self)
  end.

(** Read only when nothing is pending; the error is dropped. *)
Definition refill (spare : bytes) : st Connection unit := λ self,
  if zlen (pendingMessages self) =? 0
  then let '(r, self') := readMessages spare self in ((λ _, tt) <$> r, self')
  else (Ret tt, self).

Definition pop : st Connection Msg := λ self,
  match pendingMessages self with
  | [] => (Panic, self)
  | m :: rest => (Ret m, mkConnection (conn self) rest)
  end.

(** ethwire/messaging.go, Connection.Read. Nothing read: the index panics. *)
Definition Connection_Read (spare : bytes) : st Connection Msg :=
  _ ← refill spare; pop.

(** * The client identity *)

(** ethwire/client_identity.go, SimpleClientIdentity. *)
Record SimpleClientIdentity := mkIdentity {
  clientString : bytes;
  clientIdentifier : bytes;
  version : bytes;
  customIdentifier : bytes;
  os : bytes;
  implementation : bytes;
}.

(** ethwire/client_identity.go, SimpleClientIdentity.init. *)
Definition identity_init (c : SimpleClientIdentity) : SimpleClientIdentity :=
  mkIdentity (clientIdentifier c ++ asc "/v" ++ version c ++ asc "/" ++ customIdentifier c
              ++ asc "/" ++ os c ++ asc "/" ++ implementation c)
             (clientIdentifier c) (version c) (customIdentifier c) (os c) (implementation c).

(** ethwire/client_identity.go, NewSimpleClientIdentity. [goos] is
    [runtime.GOOS]. *)
Definition NewSimpleClientIdentity (goos clientIdentifier version customIdentifier : bytes)
    : SimpleClientIdentity :=
  identity_init (mkIdentity [] clientIdentifier version customIdentifier goos (asc "Go")).

(** ethwire/client_identity.go, SimpleClientIdentity.String. *)
Definition identity_String (c : SimpleClientIdentity) : bytes := clientString c.

(** ethwire/client_identity.go, SimpleClientIdentity.SetCustomIdentifier. *)
Definition SetCustomIdentifier (custom : bytes) (c : SimpleClientIdentity) : SimpleClientIdentity :=
  identity_init (mkIdentity (clientString c) (clientIdentifier c) (version c) custom (os c)
                            (implementation c)).

(** ethwire/client_identity.go, SimpleClientIdentity.GetCustomIdentifier. *)
Definition GetCustomIdentifier (c : SimpleClientIdentity) : bytes := customIdentifier c.

(** * What a stream of messages becomes *)

(** A message that can be sent: a type of one byte, data that can be encoded,
    in less than 4 GB.  [its] are its data as RLP items. *)
Definition payload (ty : Z) (its : list item) : bytes := enc (RList (RStr (big_Bytes ty) :: its)).

Definition sendable (m : Msg) (its : list item) : Prop :=
  0 <= Msg_Type m < 256 ∧ (∃ l, Msg_Data m = VList l ∧ mapM to_item l = Some its) ∧
  zlen (payload (Msg_Type m) its) < 2 ^ 32.

Definition frame (m : Msg) (its : list item) : bytes :=
  let p := payload (Msg_Type m) its in MagicToken ++ be_fixed 4 (zlen p) ++ p.

Definition received (m : Msg) (its : list item) : Msg :=
  mkMsg (Msg_Type m) (VList (map of_item its)).

Lemma pack_run p : zlen p < 2 ^ 32 -> pack p = Ret (MagicToken ++ be_fixed 4 (zlen p) ++ p).
Proof.
  intros Hp. unfold pack. rewrite NumberToBytes_u32. cbn [mbind outcome_bind].
  unfold u32. rewrite Z.mod_small by lenlia. done.
Qed.

Lemma WriteMessage_frame m its : sendable m its -> WriteMessage m = Ret (frame m its).
Proof.
  intros (Ht & (l & Hl & Hits) & Hlen). unfold WriteMessage. rewrite Hl. cbn [Value_Slice NewValue].
  unfold Value_Encode.
  assert (to_item (VList (VInt Kuint8 (Msg_Type m) :: l))
          = Some (RList (RStr (big_Bytes (Msg_Type m)) :: its))) as Hi.
  { rewrite to_item_list. cbn [mapM]. rewrite Hits. cbn. by rewrite s64_small by lia. }
  rewrite (Encode_item _ _ Hi). by apply pack_run.
Qed.

Lemma decode_slice_enc it spare :
  zlen (enc it) < 2 ^ 64 -> decode_slice (enc it) spare = Ret (of_item it).
Proof.
  intros Hl. unfold decode_slice. pose proof (enc_pos it).
  destruct (Z.eqb_spec (zlen (enc it)) 0); [lia|]. cbn [negb].
  pose proof (decode_enc it [] [] spare (S (length (enc it))) ltac:(lenlia) ltac:(lia)) as Hd.
  rewrite app_nil_r in Hd. cbn [app] in Hd. change (zlen (@nil byte)) with 0 in Hd. by rewrite Hd.
Qed.

Lemma frame_length m its : zlen (frame m its) = 8 + zlen (payload (Msg_Type m) its).
Proof.
  unfold frame. cbn zeta. rewrite !zlen_app, zlen_be_fixed. change (zlen MagicToken) with 4. lia.
Qed.

(** [carve a b l m k]: the slice from [a] to [b] in the goal is [m], between [l] and [k]. *)
Ltac carve a b l m k :=
  rewrite (slice_of l m k _ a b)
    by first [ rewrite ?app_nil_r, <-?app_assoc; reflexivity
             | rewrite ?zlen_app; change (zlen MagicToken) with 4;
               change (zlen (@nil byte)) with 0; lia ];
  cbn [mbind outcome_bind].

Lemma ReadMessage_frame spare m its rest :
  sendable m its -> zlen rest < 2 ^ 62 ->
  ReadMessage spare (frame m its ++ rest) = Ret (mkRead (Some (received m its)) rest false None).
Proof.
  intros (Ht & _ & Hlen) Hrest. set (p := payload (Msg_Type m) its) in *.
  assert (1 <= zlen p) by apply enc_pos.
  assert (zlen (frame m its ++ rest) = 8 + zlen p + zlen rest) as Htot.
  { rewrite zlen_app, frame_length. done. }
  unfold ReadMessage. destruct (Z.eqb_spec (zlen (frame m its ++ rest)) 0); [lenlia|].
  destruct (Z.leb_spec (zlen (frame m its ++ rest)) 8); [lenlia|].
  rewrite Htot. unfold frame. fold p. cbn zeta. set (lenf := be_fixed 4 (zlen p)).
  assert (zlen lenf = 4) by apply zlen_be_fixed.
  rewrite <-!app_assoc.
  carve 0 4 (@nil byte) MagicToken (lenf ++ p ++ rest).
  rewrite bool_decide_eq_true_2 by done. cbn [negb].
  carve 4 8 MagicToken lenf (p ++ rest).
  rewrite BytesToNumber_four by done. cbn [mbind outcome_bind].
  assert (big_SetBytes lenf = zlen p) as ->.
  { unfold lenf. rewrite be_fixed_value. apply Z.mod_small. change (256 ^ Z.of_nat 4) with (2 ^ 32). lia. }
  rewrite !(u64_small (8 + zlen p)) by lia. rewrite (s64_small (zlen p)) by lia.
  carve (8 + zlen p) (8 + zlen p + zlen rest) (MagicToken ++ lenf ++ p) rest (@nil byte).
  carve 8 (8 + zlen p + zlen rest) (MagicToken ++ lenf) (p ++ rest) (@nil byte).
  destruct (Z.ltb_spec (zlen (p ++ rest)) (zlen p)); [lenlia|].
  carve 8 (8 + zlen p) (MagicToken ++ lenf) p rest.
  unfold p at 1, payload. rewrite decode_slice_enc by (unfold p in *; unfold payload in *; lia).
  cbn [mbind outcome_bind]. get_fields. cbn [of_item]. rewrite Uint_big by lia.
  unfold SliceFrom. cbn [Value_Slice map]. fold of_item.
  rewrite (slice_of [of_str (big_Bytes (Msg_Type m))] (map of_item its) [])
    by first [rewrite ?app_nil_r; done | lenlia].
  cbn [mbind outcome_bind NewValue]. unfold received, u8. by rewrite Z.mod_small by lia.
Qed.

(** The last bytes of a stream: no complete message. *)
Definition incomplete (t : bytes) : Prop :=
  zlen t <= 8 ∨ take 4 t ≠ MagicToken ∨ zlen t - 8 < big_SetBytes (take 4 (drop 4 t)).

(** A tail that starts like a message and is cut off is an error; any other
    tail is dropped without one. *)
Definition tail_error (t : bytes) : option error :=
  if (8 <? zlen t) && bool_decide (take 4 t = MagicToken)
  then Some (Errorf (asc "ethwire.ReadMessage error: ")) else None.

Lemma split_messages_tail spare t msgs fuel :
  incomplete t -> zlen t < 2 ^ 62 -> (0 < fuel)%nat ->
  recovered_read (split_messages fuel spare t msgs) = Ret (msgs, tail_error t).
Proof.
  intros Ht Hlen Hf. destruct fuel as [|f]; [lia|]. unfold tail_error.
  cbn [split_messages]. unfold ReadMessage at 1.
  destruct (Z.eqb_spec (zlen t) 0) as [E|E].
  { destruct (Z.ltb_spec 8 (zlen t)); [lia|]. done. }
  destruct (Z.leb_spec (zlen t) 8); destruct (Z.ltb_spec 8 (zlen t)); try lia; cbn [andb].
  { by destruct f. }
  assert (slice t 0 4 = Ret (take 4 t)) as ->.
  { apply slice_Ret. split; [lia|]. by split; [lia|]. }
  cbn [mbind outcome_bind]. case_bool_decide as E1; cbn [negb].
  2:{ rewrite bool_decide_eq_false_2 by congruence. by destruct f. }
  rewrite bool_decide_eq_true_2 by congruence.
  assert (slice t 4 8 = Ret (take 4 (drop 4 t))) as ->.
  { apply slice_Ret. split; [lia|]. by split; [lia|]. }
  cbn [mbind outcome_bind].
  assert (zlen (take 4 (drop 4 t)) = 4) as H4 by (rewrite zlen_take, zlen_drop; lia).
  rewrite BytesToNumber_four by done. cbn [mbind outcome_bind].
  pose proof (SetBytes_range (take 4 (drop 4 t))) as Hr. rewrite H4 in Hr.
  change (256 ^ 4) with (2 ^ 32) in Hr.
  destruct Ht as [|[|Ht]]; [lia|congruence|].
  rewrite u64_small by lia.
  assert (∀ n, zlen t < n -> slice t n (zlen t) = Panic) as Hpanic.
  { intros n Hn. unfold slice. destruct (Z.leb_spec n (zlen t)); [lia|]. by rewrite andb_false_r. }
  by rewrite (Hpanic (8 + big_SetBytes (take 4 (drop 4 t)))) by lia.
Qed.

Lemma split_messages_stream spare tail sent : ∀ fuel msgs,
  Forall (λ p, sendable p.1 p.2) sent -> incomplete tail ->
  zlen (concat (map (λ p, frame p.1 p.2) sent) ++ tail) < 2 ^ 62 ->
  (length (concat (map (λ p, frame p.1 p.2) sent) ++ tail) < fuel)%nat ->
  recovered_read (split_messages fuel spare (concat (map (λ p, frame p.1 p.2) sent) ++ tail) msgs)
  = Ret (msgs ++ map (λ p, received p.1 p.2) sent, tail_error tail).
Proof.
  induction sent as [|[m its] sent IH]; intros fuel msgs Hall Htail Hlen Hf.
  - rewrite app_nil_r. apply split_messages_tail; [done|done|lia].
  - apply Forall_cons in Hall as [Hm Hall]. cbn [fst snd] in Hm. destruct fuel as [|f]; [lia|].
    cbn [map concat fst snd] in *. rewrite <-app_assoc in *. cbn [split_messages].
    pose proof (frame_length m its) as Hfl. pose proof (enc_pos (RList (RStr (big_Bytes (Msg_Type m)) :: its))).
    unfold payload in Hfl.
    rewrite ReadMessage_frame by (done || lenlia). cbn [rr_done rr_msg rr_remaining].
    rewrite IH; [by rewrite <-app_assoc|done|done|lenlia|].
    rewrite length_app in Hf. unfold zlen in Hfl at 1. lia.
Qed.

Lemma read_all_chunks chunks later :
  Forall (λ b, b ≠ []) chunks -> read_all (chunks ++ [] :: later) = (concat chunks, later).
Proof.
  induction 1 as [|b chunks Hb Hall IH]; [done|]. cbn [app read_all concat].
  destruct (Z.eqb_spec (zlen b) 0) as [E|E]; [by apply zlen_0 in E|]. by rewrite IH.
Qed.

(** C22. Framing round trip of [WriteMessage] and [ReadMessages]: messages whose
    type is one byte, whose data is a list of values that can be encoded, and whose
    encoding is below 4 GB, are written as frames without an error; when the frames
    arrive one after the other, in non-empty pieces of any size (below 2^62 bytes
    in all) and then nothing, they are read back, all of them in order, with the
    decoded values of their data.  If the last piece stops in the middle of a
    message, the ones before it are still delivered: a fragment of more than eight
    bytes that starts with the token gives an error, any other rest (at most eight
    bytes, or bytes without the token) is dropped without one.  ([Connection.Write]
    does not write such frames, see [Connection_Write_empty].) *)
Theorem messages_roundtrip (spare : bytes) (sent : list (Msg * list item)) (tail : bytes)
    (chunks later : list bytes) :
  Forall (λ p, sendable p.1 p.2) sent -> incomplete tail ->
  Forall (λ b, b ≠ []) chunks -> zlen (concat chunks) < 2 ^ 62 ->
  concat chunks = concat (map (λ p, frame p.1 p.2) sent) ++ tail ->
  Forall (λ p, WriteMessage p.1 = Ret (frame p.1 p.2)) sent ∧
  ReadMessages spare (chunks ++ [] :: later)
  = Ret (map (λ p, received p.1 p.2) sent, tail_error tail).
Proof.
  intros Hsent Htail Hchunks Hlen Hcat. split.
  - eapply Forall_impl; [exact Hsent|]. intros [m its] Hm. by apply WriteMessage_frame.
  - unfold ReadMessages. rewrite (read_all_chunks _ _ Hchunks), Hcat.
    rewrite split_messages_stream; [done|done|done|by rewrite <-Hcat|lia].
Qed.

Definition example_messages : list (Msg * list item) :=
  [(mkMsg MsgPingTy (VList []), []);
   (mkMsg MsgGetChainTy (VList [VBytes (zeros 32); VInt Kuint64 500]),
    [RStr (zeros 32); RStr (big_Bytes 500)])].

Definition example_stream : bytes := concat (map (λ p, frame p.1 p.2) example_messages).

Lemma messages_roundtrip_witness :
  Forall (λ p, WriteMessage p.1 = Ret (frame p.1 p.2)) example_messages ∧
  ReadMessages [] ([take 5 example_stream; drop 5 example_stream; frame (mkMsg MsgPongTy (VList [])) [] ]
                   ++ [] :: [])
  = Ret (map (λ p, received p.1 p.2) (example_messages ++ [(mkMsg MsgPongTy (VList []), [])]), None).
Proof.
  assert (Forall (λ p, sendable p.1 p.2) (example_messages ++ [(mkMsg MsgPongTy (VList []), [])])) as Hs.
  { repeat (apply Forall_cons; split); [..|by apply Forall_nil];
      (split; [vm_compute; split; [discriminate|reflexivity]|]; split;
       [eexists; split; reflexivity|vm_compute; reflexivity]). }
  destruct (messages_roundtrip [] (example_messages ++ [(mkMsg MsgPongTy (VList []), [])]) []
              [take 5 example_stream; drop 5 example_stream; frame (mkMsg MsgPongTy (VList [])) [] ] [])
    as [H1 H2].
  - exact Hs.
  - left. vm_compute. discriminate.
  - repeat constructor; vm_compute; discriminate.
  - vm_compute. reflexivity.
  - vm_compute. reflexivity.
  - apply Forall_app in H1 as [H1 _]. by split.
Defined.

(** [Connection.Write] sends nothing: whatever type and data it is given, it
    puts them in a value that the encoder has no case for, and writes the
    token and the length zero; [ReadMessages] drops that without an error, and [Read]
    on a connection that delivers it panics. *)
Theorem Connection_Write_empty (spare : bytes) (typ : MsgType) (v : list writable)
    (r : list (list goval)) (later : list bytes) :
  rows v = Ret r ->
  let sent := MagicToken ++ zeros 4 in
  Connection_Write typ v = Ret sent ∧
  ReadMessages spare ([sent] ++ [] :: later) = Ret ([], None) ∧
  (Connection_Read spare (New ([sent] ++ [] :: later))).1 = Panic.
Proof. intros Hr sent. unfold Connection_Write. rewrite Hr. repeat split. Qed.

Lemma Connection_Write_empty_witness :
  Connection_Write MsgPingTy [Raw [VStr (asc "hello")]] = Ret (MagicToken ++ zeros 4) ∧
  ReadMessages [] ([MagicToken ++ zeros 4] ++ [] :: []) = Ret ([], None) ∧
  (Connection_Read [] (New ([MagicToken ++ zeros 4] ++ [] :: []))).1 = Panic.
Proof. by apply (Connection_Write_empty [] MsgPingTy [Raw [VStr (asc "hello")]] [[VStr (asc "hello")]] []). Defined.
