(* ===== verification/Db.v ===== *)
(** The key/value store interface [ethutil.Database] ([ethutil/db.go]) as a
    class of operations with its laws, and its two implementations: the
    in-memory database of [ethdb/memory_database.go], which is a map, and the
    LevelDB wrapper of [ethdb/database.go], over the operations of the LevelDB
    library as parameters. *)

From S2P Require Import Prelude Bytes.

(** ethutil/db.go, Database. [Get] returns the stored bytes (none: the empty
    slice) and whether there was an error; [Close] and [Print] are I/O. *)
Class Database (D : Type) := {
  db_Put : D -> bytes -> bytes -> D;
  db_Get : D -> bytes -> bytes * bool;
  db_Delete : D -> bytes -> D;
  db_LastKnownTD : D -> bytes;
}.

(** The bytes a caller that ignores the error sees. *)
Definition db_data {D} `{Database D} (d : D) (k : bytes) : bytes := fst (db_Get d k).

(** What the program relies on. *)
Class DatabaseLaws (D : Type) `{Database D} := {
  db_get_put_eq : ∀ d k v, db_data (db_Put d k v) k = v;
  db_get_put_ne : ∀ d k k' v, k ≠ k' -> db_data (db_Put d k v) k' = db_data d k';
  db_get_delete_eq : ∀ d k, db_data (db_Delete d k) k = [];
  db_get_delete_ne : ∀ d k k', k ≠ k' -> db_data (db_Delete d k) k' = db_data d k';
  db_td : ∀ d, db_LastKnownTD d =
    let data := db_data d (asc "LastKnownTotalDifficulty") in if zlen data =? 0 then [x00] else data;
}.

(** * The in-memory database *)

(** ethdb/memory_database.go, MemDatabase. *)
Record MemDatabase := { mem_db : gmap bytes bytes }.

(** ethdb/memory_database.go, NewMemDatabase. *)
Definition NewMemDatabase : MemDatabase := {| mem_db := ∅ |}.

(** ethdb/memory_database.go, MemDatabase.Put. *)
Definition Mem_Put (db : MemDatabase) (key value : bytes) : MemDatabase :=
  {| mem_db := <[key := value]> (mem_db db) |}.

(** ethdb/memory_database.go, MemDatabase.Get. A missing key is no error. *)
Definition Mem_Get (db : MemDatabase) (key : bytes) : bytes * bool :=
  (default [] (mem_db db !! key), false).

(** ethdb/memory_database.go, MemDatabase.Delete. *)
Definition Mem_Delete (db : MemDatabase) (key : bytes) : MemDatabase :=
  {| mem_db := delete key (mem_db db) |}.

(** ethdb/memory_database.go, MemDatabase.LastKnownTD. *)
Definition Mem_LastKnownTD (db : MemDatabase) : bytes :=
  let data := fst (Mem_Get db (asc "LastKnownTotalDifficulty")) in
  if zlen data =? 0 then [x00] else data.

#[export] Instance Mem_Database : Database MemDatabase := {|
  db_Put := Mem_Put;
  db_Get := Mem_Get;
  db_Delete := Mem_Delete;
  db_LastKnownTD := Mem_LastKnownTD;
|}.

#[export] Instance Mem_DatabaseLaws : DatabaseLaws MemDatabase.
Proof.
  split; intros; unfold db_data; simpl.
  - by rewrite lookup_insert_eq.
  - by rewrite lookup_insert_ne.
  - by rewrite lookup_delete_eq.
  - by rewrite lookup_delete_ne.
  - done.
Qed.

(** * The LevelDB wrapper *)

(** The LevelDB library: a failing [Put] or [Delete] leaves the store alone. *)
Class LevelDB (L : Type) := {
  ldb_Put : L -> bytes -> bytes -> option L;
  ldb_Get : L -> bytes -> option bytes;
  ldb_Delete : L -> bytes -> option L;
}.

Section LDB.
Context {L : Type} `{LevelDB L}.

(** ethdb/database.go, LDBDatabase.Put. An error is printed and dropped. *)
Definition LDB_Put (db : L) (key value : bytes) : L := default db (ldb_Put db key value).

(** ethdb/database.go, LDBDatabase.Get. *)
Definition LDB_Get (db : L) (key : bytes) : bytes * bool :=
  match ldb_Get db key with Some v => (v, false) | None => ([], true) end.

(** ethdb/database.go, LDBDatabase.Delete. *)
Definition LDB_Delete (db : L) (key : bytes) : L := default db (ldb_Delete db key).

(** ethdb/database.go, LDBDatabase.LastKnownTD. *)
Definition LDB_LastKnownTD (db : L) : bytes :=
  let data := fst (LDB_Get db (asc "LastKnownTotalDifficulty")) in
  if zlen data =? 0 then [x00] else data.

End LDB.

#[export] Instance LDB_Database {L} `{LevelDB L} : Database L := {|
  db_Put := LDB_Put;
  db_Get := LDB_Get;
  db_Delete := LDB_Delete;
  db_LastKnownTD := LDB_LastKnownTD;
|}.
