(* ===== verification/Crypto.v ===== *)
(** [ethcrypto/crypto.go]: the hash functions come from outside the repository
    and are a class of operations; the class carries the one documented fact
    the program relies on, the length of a Keccak-256 digest.  Collision
    freedom is never assumed for all inputs: the theorems that need it ask for
    it on the inputs actually hashed. *)

From S2P Require Import Prelude GoVal Big Bytes Rlp Value.

Class Crypto := {
  Sha3Bin : bytes -> bytes;
  Sha3Bin_len : ∀ b, zlen (Sha3Bin b) = 32;
}.

(** No two different byte strings of the list have the same digest, and none
    is too long to be encoded. *)
Definition collision_free `{Crypto} (hs : list bytes) : Prop :=
  (∀ a b, a ∈ hs -> b ∈ hs -> Sha3Bin a = Sha3Bin b -> a = b) ∧
  (∀ a, a ∈ hs -> zlen a < 2 ^ 64).

Lemma collision_free_mono `{Crypto} hs hs' :
  hs ⊆ hs' -> collision_free hs' -> collision_free hs.
Proof. intros Hsub [H1 H2]. split; intros; [apply H1|apply H2]; auto. Qed.

Lemma collision_free_pair `{Crypto} a b :
  collision_free [a; b] -> Sha3Bin a = Sha3Bin b -> a = b ∧ zlen a < 2 ^ 64.
Proof.
  intros [Hcf Hlen] Heq. split.
  - apply (Hcf a b); [by left|by right; left|done].
  - apply Hlen. by left.
Qed.

(** A check that evaluates each digest once. *)
Definition cf_check `{Crypto} (hs : list bytes) : bool :=
  let l := remove_dups hs in
  bool_decide (NoDup (map Sha3Bin l)) && forallb (λ a, zlen a <? 2 ^ 64) l.

Lemma cf_check_ok `{Crypto} hs : cf_check hs = true -> collision_free hs.
Proof.
  unfold cf_check. intros [Hnd%bool_decide_eq_true Hlen]%andb_true_iff. rewrite forallb_forall in Hlen. split.
  - intros x y Hx Hy Heq. apply elem_of_remove_dups, list_elem_of_lookup in Hx as [i Hi].
    apply elem_of_remove_dups, list_elem_of_lookup in Hy as [j Hj].
    enough (i = j) by (subst; congruence).
    apply (proj1 (NoDup_alt _) Hnd i j (Sha3Bin x)); rewrite list_lookup_fmap.
    + by rewrite Hi.
    + by rewrite Hj, Heq.
  - intros x Hx. apply Z.ltb_lt, Hlen, list_elem_of_In. by apply elem_of_remove_dups.
Qed.

(** * Runs that hash

    A state that remembers, as a ghost, everything hashed so far.  [hwp m Q s]:
    if the digests of what has been hashed by the end of the run are free of
    collisions, [m] returns from [s] and the result satisfies [Q]. *)

Class Hashing (S : Type) := st_hashed : S -> list bytes.

Definition hwp `{Crypto} {S A} `{Hashing S} (m : st S A) (Q : A -> S -> Prop) (s : S) : Prop :=
  collision_free (st_hashed (m s).2) -> ∃ a, (m s).1 = Ret a ∧ Q a (m s).2.

(** A run only adds to what is hashed. *)
Definition grows {S A} `{Hashing S} (m : st S A) : Prop :=
  ∀ s, st_hashed s ⊆ st_hashed (m s).2.

Section hwp.
Context `{Crypto} {S : Type} `{Hashing S}.

Lemma grows_ret {A} (a : A) : grows (mret a).
Proof. by intros s x. Qed.

Lemma grows_lift {A} (o : outcome A) : grows (lift o).
Proof. by intros s x. Qed.

Lemma grows_bind {A B} (m : st S A) (f : A -> st S B) :
  grows m -> (∀ a, grows (f a)) -> grows (m ≫= f).
Proof.
  intros Hm Hf s. unfold mbind, st_bind. specialize (Hm s).
  destruct (m s) as [[a| |] s'] eqn:E; simpl in *; [|done|done].
  etrans; [done|apply Hf].
Qed.

Lemma hwp_ret {A} (a : A) Q s : Q a s -> hwp (mret a) Q s.
Proof. intros HQ _. eauto. Qed.

Lemma hwp_lift {A} (o : outcome A) a Q s : o = Ret a -> Q a s -> hwp (lift o) Q s.
Proof. intros -> HQ _. eauto. Qed.

Lemma hwp_mono {A} (m : st S A) Q Q' s :
  (∀ a s', Q a s' -> Q' a s') -> hwp m Q s -> hwp m Q' s.
Proof. intros HQ Hm Hc. destruct (Hm Hc) as (a & Ha & Hq). eauto. Qed.

Lemma hwp_bind {A B} (m : st S A) (f : A -> st S B) Q s :
  (∀ a, grows (f a)) -> hwp m (λ a s', hwp (f a) Q s') s -> hwp (m ≫= f) Q s.
Proof.
  intros Hf Hm Hc. unfold mbind, st_bind, hwp in *.
  destruct (m s) as [o s'] eqn:E. simpl in *.
  assert (collision_free (st_hashed s')) as Hc'.
  { eapply collision_free_mono; [|apply Hc]. destruct o; [apply Hf|done|done]. }
  destruct (Hm Hc') as (a & -> & Ha). by apply Ha.
Qed.

Lemma hwp_bind_lift {A B} (o : outcome A) (f : A -> st S B) a Q s :
  o = Ret a -> hwp (f a) Q s -> hwp (lift o ≫= f) Q s.
Proof. by intros ->. Qed.

(** What has been hashed so far may be assumed to be free of collisions. *)
Lemma hwp_assume {A} (m : st S A) Q s :
  grows m -> (collision_free (st_hashed s) -> hwp m Q s) -> hwp m Q s.
Proof. intros Hm Hs Hc. apply Hs; [|done]. eapply collision_free_mono; [apply Hm|done]. Qed.

Lemma hwp_run {A B} (m : st S A) (f : A -> st S B) a Q s s' :
  m s = (Ret a, s') -> hwp (f a) Q s' -> hwp (m ≫= f) Q s.
Proof. intros Hm Hf. unfold hwp. by rewrite (st_bind_run m f s a s' Hm). Qed.

End hwp.

(** ethcrypto/crypto.go, CreateAddress. *)
Definition CreateAddress `{Crypto} (b : bytes) (nonce : Z) : bytes :=
  drop 12 (Sha3Bin (Value_Encode (NewValue (VList [VBytes b; VInt Kuint64 nonce])))).

Lemma CreateAddress_len `{Crypto} b nonce : zlen (CreateAddress b nonce) = 20.
Proof. unfold CreateAddress. rewrite zlen_drop, Sha3Bin_len. done. Qed.

(** A concrete digest for running examples: the bytes as digits to the base 257,
    kept to 64 bits and padded.  It is not a secure hash; it is only required to have the right
    length and to tell apart the inputs of the examples. *)
Definition toy_digest (b : bytes) : bytes :=
  be_fixed 32 (fold_left (λ acc x, Z.land (acc * 257 + b2z x + 1) (Z.ones 64)) b 7).

Lemma toy_digest_len b : zlen (toy_digest b) = 32.
Proof. unfold toy_digest. by rewrite zlen_be_fixed. Qed.

Definition toy_crypto : Crypto :=
  {| Sha3Bin := toy_digest; Sha3Bin_len := toy_digest_len |}.
