(* ===== verification/Curve.v ===== *)
(** The elliptic curve library that [ethcrypto] and [ethchain] call
    ([github.com/obscuren/secp256k1-go]), as a class, and the key pairs of
    [ethcrypto/keypair.go].

    The library is not part of the repository.  [Secp256k1] has the operations
    the code calls and [Secp256k1Laws] what is documented about them: a secret
    key that has a public key signs a digest in 65 bytes (r, s and the
    recovery id), and the public key recovered from a signature is the one of
    the key that made it. *)

From S2P Require Import Prelude GoVal Big Bytes Rlp Value Crypto.

(** The error of a failed signature or recovery is dropped by the code, which
    goes on with the nil slice. *)
Class Secp256k1 := mkSecp256k1 {
  secp_Sign : bytes -> bytes -> bytes;
  secp_RecoverPubkey : bytes -> bytes -> bytes;
  secp_GeneratePubKey : bytes -> option bytes;
}.

Class Secp256k1Laws `{Secp256k1} := {
  secp_pub_len : ∀ k pub, secp_GeneratePubKey k = Some pub -> zlen pub = 65;
  secp_pub_head : ∀ k pub, secp_GeneratePubKey k = Some pub -> pub !! 0%nat = Some x04;
  secp_sign_len : ∀ h k, zlen h = 32 -> is_Some (secp_GeneratePubKey k) ->
    zlen (secp_Sign h k) = 65;
  secp_sign_v : ∀ h k v, zlen h = 32 -> is_Some (secp_GeneratePubKey k) ->
    secp_Sign h k !! 64%nat = Some v -> b2z v < 4;
  secp_recover : ∀ h k pub, zlen h = 32 -> secp_GeneratePubKey k = Some pub ->
    secp_RecoverPubkey h (secp_Sign h k) = pub;
}.

(** ethcrypto/keypair.go, KeyPair. The cached address and mnemonic are
    computed when asked for. *)
Record KeyPair := mkKeyPair { PrivateKey : bytes; kp_PublicKey : bytes }.

Section KeyPair.
Context `{Crypto} `{Secp256k1}.

(** ethcrypto/keypair.go, NewKeyPairFromSec. *)
Definition NewKeyPairFromSec (seckey : bytes) : option KeyPair :=
  mkKeyPair seckey <$> secp_GeneratePubKey seckey.

(** ethcrypto/keypair.go, KeyPair.Address. *)
Definition KeyPair_Address (k : KeyPair) : outcome bytes :=
  key ← slice (kp_PublicKey k) 1 (zlen (kp_PublicKey k));
  Ret (drop 12 (Sha3Bin key)).

(** ethcrypto/keypair.go, KeyPair.RlpValue. *)
Definition KeyPair_RlpValue (k : KeyPair) : goval := NewValue (VBytes (PrivateKey k)).

(** ethcrypto/keypair.go, KeyPair.RlpEncode. *)
Definition KeyPair_RlpEncode (k : KeyPair) : bytes := Value_Encode (KeyPair_RlpValue k).

Lemma KeyPair_Address_ok `{!Secp256k1Laws} sec kp :
  NewKeyPairFromSec sec = Some kp ->
  KeyPair_Address kp = Ret (drop 12 (Sha3Bin (drop 1 (kp_PublicKey kp)))).
Proof.
  unfold NewKeyPairFromSec. intros (pub & Hp & ->)%fmap_Some.
  unfold KeyPair_Address. cbn [kp_PublicKey]. pose proof (secp_pub_len _ _ Hp) as Hl.
  rewrite (slice_of (take 1 pub) (drop 1 pub) []); [done|by rewrite app_nil_r, take_drop|lenlia|lenlia].
Qed.

End KeyPair.

(** A curve for running examples: keys have 32 bytes, and the key itself is the
    first half of its public key and of its signatures. *)
Definition toy_curve : Secp256k1 := {|
  secp_Sign := λ h k, k ++ zeros 32 ++ [x01];
  secp_RecoverPubkey := λ h sig, x04 :: take 64 sig;
  secp_GeneratePubKey := λ k, if zlen k =? 32 then Some (x04 :: k ++ zeros 32) else None;
|}.

Lemma toy_pub k pub :
  @secp_GeneratePubKey toy_curve k = Some pub -> zlen k = 32 ∧ pub = x04 :: k ++ zeros 32.
Proof. cbn. destruct (Z.eqb_spec (zlen k) 32); [|done]. by intros [= <-]. Qed.

Lemma toy_curve_laws : @Secp256k1Laws toy_curve.
Proof.
  split.
  - intros k pub [Hk ->]%toy_pub. unfold zeros. lenlia.
  - by intros k pub [Hk ->]%toy_pub.
  - intros h k _ [pub [Hk ->]%toy_pub]. cbn. unfold zeros. lenlia.
  - intros h k v _ [pub [Hk ->]%toy_pub]. cbn [secp_Sign toy_curve].
    unfold zlen in Hk. rewrite app_assoc, list_lookup_middle; [by intros [= <-]|].
    unfold zeros. rewrite length_app, length_replicate. lia.
  - intros h k pub _ [Hk ->]%toy_pub. cbn [secp_Sign secp_RecoverPubkey toy_curve].
    unfold zlen in Hk. f_equal.
    rewrite app_assoc. apply take_app_length'. unfold zeros. rewrite length_app, length_replicate. lia.
Qed.
