(* ===== verification/Mnemonic.v ===== *)
(** [ethcrypto/mnemonic.go]: a private key as twenty-four words.  Four bytes of
    the key, eight hex digits, are a number below 2^32, which three digits in
    base 1626 hold; each word is a digit added to the place of the word before
    it.  The theorem is that decoding finds the key again. *)

From S2P Require Import Prelude GoVal Big Bytes MnemonicWords Net.

(** * The library *)

(** [strconv.ParseInt] in base sixteen, 64 bits wide, its error dropped. *)
Fixpoint hex_value (acc : Z) (s : bytes) : option Z :=
  match s with [] => Some acc | c :: r => d ← unhex c; hex_value (16 * acc + d) r end.

Definition ParseHex (s : bytes) : Z :=
  let neg := bool_decide (head s = Some x2d) in
  let ds := if neg || bool_decide (head s = Some x2b) then tail s else s in
  match ds with
  | [] => 0
  | _ => match hex_value 0 ds with
         | None => 0
         | Some v => if neg then Z.max (- v) (- 2 ^ 63) else Z.min v (2 ^ 63 - 1)
         end
  end.

(** [fmt.Sprintf] with the verb [%08x]: a width of eight, the sign first. *)
Definition zero_pad (n : nat) (s : bytes) : bytes := replicate (n - length s) x30 ++ s.

Definition hex08 (x : Z) : bytes :=
  if x <? 0 then x2d :: zero_pad 7 (hexadecimal (- x)) else zero_pad 8 (hexadecimal x).

(** * The code *)

(** ethcrypto/mnemonic.go, IndexOf. *)
Fixpoint IndexOf (l : list bytes) (value : bytes) : Z :=
  match l with
  | [] => -1
  | v :: r => if bool_decide (v = value) then 0
              else let p := IndexOf r value in if p <? 0 then -1 else 1 + p
  end.

(** ethcrypto/mnemonic.go 18-28, MnemonicEncode. The loop; [%] and [/] truncate. *)
Fixpoint encode_loop (fuel : nat) (message : bytes) (i : Z) : outcome (list bytes) :=
  match fuel with
  | O => NoFuel
  | S f =>
      if zlen message <=? i then Ret []
      else
        let n := zlen MnemonicWords in
        x ← slice message i (i + 8);
        let bit := ParseHex x in
        let w1 := Z.rem bit n in
        let w2 := Z.rem (Z.quot bit n + w1) n in
        let w3 := Z.rem (Z.quot (Z.quot bit n) n + w2) n in
        a ← index MnemonicWords w1;
        b ← index MnemonicWords w2;
        c ← index MnemonicWords w3;
        out ← encode_loop f message (i + zlen message / 8);
        Ret (a :: b :: c :: out)
  end.

(** ethcrypto/mnemonic.go, MnemonicEncode. *)
Definition MnemonicEncode (message : bytes) : outcome (list bytes) :=
  encode_loop (S (length message)) message 0.

(** ethcrypto/mnemonic.go 40-54, MnemonicDecode. The number three words stand
    for. *)
Definition decode_words (word1 word2 word3 : bytes) : Z :=
  let n := zlen MnemonicWords in
  let w1 := IndexOf MnemonicWords word1 in
  let w2 := IndexOf MnemonicWords word2 in
  let w3 := IndexOf MnemonicWords word3 in
  let y := Z.rem (w2 - w1) n in
  let z := Z.rem (w3 - w2) n in
  let z := if z <? 0 then z + n else z in
  let y := if y <? 0 then y + n else y in
  w1 + n * y + n * n * z.

(** ethcrypto/mnemonic.go, MnemonicDecode. A last group of one or two words
    panics. *)
Fixpoint MnemonicDecode (wordsar : list bytes) : outcome bytes :=
  match wordsar with
  | [] => Ret []
  | word1 :: word2 :: word3 :: rest =>
      out ← MnemonicDecode rest;
      Ret (hex08 (decode_words word1 word2 word3) ++ out)
  | _ => Panic
  end.

(** * Hex digits *)

(** The last [n] hex digits of a number. *)
Fixpoint hex_fixed (n : nat) (z : Z) : bytes :=
  match n with O => [] | S m => hex_fixed m (z / 16) ++ [hexdigit (z `mod` 16)] end.

Lemma hex_fixed_length n z : length (hex_fixed n z) = n.
Proof. revert z. induction n as [|n IH]; intros z; [done|]. cbn [hex_fixed]. rewrite length_app, IH. cbn. lia. Qed.

Lemma hex_fixed_0 n : hex_fixed n 0 = replicate n x30.
Proof.
  induction n as [|n IH]; [done|]. cbn [hex_fixed]. change (0 / 16) with 0. rewrite IH.
  change [hexdigit (0 `mod` 16)] with (replicate 1 x30). by rewrite <-replicate_add, Nat.add_comm.
Qed.

Lemma hex_fixed_add m n z :
  0 <= z -> hex_fixed (m + n) z = hex_fixed m (z / 16 ^ Z.of_nat n) ++ hex_fixed n z.
Proof.
  revert z. induction n as [|n IH]; intros z Hz.
  - rewrite Nat.add_0_r, app_nil_r. change (16 ^ Z.of_nat 0) with 1. by rewrite Z.div_1_r.
  - rewrite Nat.add_succ_r. cbn [hex_fixed]. rewrite IH by (apply Z.div_pos; lia).
    rewrite Nat2Z.inj_succ, Z.pow_succ_r by lia. rewrite Z.div_div by lia. by rewrite app_assoc.
Qed.

Lemma zero_pad_snoc n s c : zero_pad (S n) (s ++ [c]) = zero_pad n s ++ [c].
Proof. unfold zero_pad. rewrite length_app. cbn [length]. rewrite app_assoc. do 3 f_equal. lia. Qed.

(** What [fmt] prints, padded, is the last digits of the number. *)
Lemma zero_pad_digits fuel n z :
  0 <= z < 16 ^ Z.of_nat n -> (0 < n)%nat -> z < 2 ^ Z.of_nat fuel ->
  zero_pad n (digits fuel 16 z) = hex_fixed n z.
Proof.
  revert n z. induction fuel as [|fuel IH]; intros n z Hz Hn Hf.
  { change (2 ^ Z.of_nat 0) with 1 in Hf. replace z with 0 by lia. rewrite hex_fixed_0.
    unfold zero_pad. cbn. by rewrite app_nil_r, Nat.sub_0_r. }
  destruct n as [|n]; [lia|]. cbn [digits hex_fixed]. rewrite zero_pad_snoc. f_equal.
  destruct (Z.ltb_spec z 16).
  - rewrite Z.div_small, hex_fixed_0 by lia. unfold zero_pad. cbn. by rewrite app_nil_r, Nat.sub_0_r.
  - rewrite Nat2Z.inj_succ, Z.pow_succ_r in Hz, Hf by lia.
    destruct n as [|n]; [change (16 ^ Z.of_nat 0) with 1 in Hz; lia|].
    apply IH; [|lia|].
    + split; [apply Z.div_pos; lia|]. apply Z.div_lt_upper_bound; lia.
    + apply Z.div_lt_upper_bound; lia.
Qed.

Lemma hex08_fixed z : 0 <= z < 2 ^ 32 -> hex08 z = hex_fixed 8 z.
Proof.
  intros Hz. unfold hex08. destruct (Z.ltb_spec z 0); [lia|]. unfold hexadecimal.
  apply zero_pad_digits; [change (16 ^ Z.of_nat 8) with (2 ^ 32); lia|lia|apply log2_fuel; lia].
Qed.

Lemma Bytes2Hex_fixed b : Bytes2Hex b = hex_fixed (2 * length b) (big_SetBytes b).
Proof.
  induction b as [|c b IH] using rev_ind; [done|]. pose proof (b2z_range c).
  rewrite SetBytes_app, length_app. replace (2 * (length b + length [c]))%nat with (S (S (2 * length b))) by (cbn; lia).
  rewrite SetBytes_cons. change (big_SetBytes []) with 0. change (256 ^ zlen [c]) with 256.
  change (256 ^ zlen (@nil byte)) with 1. rewrite Z.mul_1_r, Z.add_0_r.
  cbn [hex_fixed]. rewrite Z.div_div by lia. change (16 * 16) with 256.
  rewrite Z.div_add_l, Z.div_small, Z.add_0_r, <-IH by lia. unfold Bytes2Hex. rewrite bind_app, <-app_assoc. f_equal.
  cbn. do 2 f_equal; [|f_equal].
  - replace (big_SetBytes b * 256 + b2z c) with (big_SetBytes b * 16 * 16 + b2z c) by lia.
    rewrite Z.div_add_l, Z.add_comm, Z.mod_add by lia. symmetry. apply Z.mod_small, nibble_hi.
  - replace (big_SetBytes b * 256 + b2z c) with (b2z c + big_SetBytes b * 16 * 16) by lia. by rewrite Z.mod_add by lia.
Qed.

Lemma hex_value_Bytes2Hex acc b :
  hex_value acc (Bytes2Hex b) = Some (acc * 256 ^ zlen b + big_SetBytes b).
Proof.
  revert acc. induction b as [|c b IH]; intros acc.
  - change (Some acc = Some (acc * 1 + 0)). f_equal. lia.
  - rewrite Bytes2Hex_cons. cbn [hex_value].
    rewrite (unhex_hexdigit _ (nibble_hi c)). cbn [mbind option_bind].
    rewrite (unhex_hexdigit _ (nibble_lo c)). cbn [mbind option_bind].
    rewrite IH, SetBytes_cons, zlen_cons, Z.pow_add_r by lenlia. f_equal.
    replace (16 * (16 * acc + b2z c / 16) + b2z c `mod` 16) with (acc * 256 + b2z c)
      by (pose proof (Z.div_mod (b2z c) 16 ltac:(lia)); lia).
    change (256 ^ 1) with 256. ring.
Qed.

Lemma ParseHex_Bytes2Hex b : zlen b = 4 -> ParseHex (Bytes2Hex b) = big_SetBytes b.
Proof.
  intros Hb. pose proof (SetBytes_range b) as Hr. rewrite Hb in Hr.
  pose proof (hex_value_Bytes2Hex 0 b) as Hv. unfold ParseHex.
  destruct b as [|c b]; [by rewrite zlen_nil in Hb|]. rewrite Bytes2Hex_cons in *. cbn [head tail].
  assert (∀ x, unhex x = None -> bool_decide (Some (hexdigit (b2z c / 16)) = Some x) = false) as Hs.
  { intros x Hx. apply bool_decide_eq_false. intros [= <-]. by rewrite (unhex_hexdigit _ (nibble_hi c)) in Hx. }
  rewrite !Hs by reflexivity. cbn [orb]. rewrite Hv, Z.mul_0_l, Z.add_0_l. change (256 ^ 4) with (2 ^ 32) in Hr. lia.
Qed.

(** * Words *)

Lemma IndexOf_at l (i : nat) w :
  l !! i = Some w -> (∀ j, l !! j = Some w -> j = i) -> IndexOf l w = Z.of_nat i.
Proof.
  revert i. induction l as [|v l IH]; intros i Hi Hinj; [done|]. cbn [IndexOf].
  destruct i as [|i].
  - injection Hi as ->. by rewrite bool_decide_eq_true_2.
  - rewrite bool_decide_eq_false_2.
    + rewrite (IH i); [|done|].
      * destruct (Z.ltb_spec (Z.of_nat i) 0); lia.
      * intros j Hj. specialize (Hinj (S j) Hj). lia.
    + intros ->. specialize (Hinj 0%nat eq_refl). lia.
Qed.

Lemma IndexOf_word i w : index MnemonicWords i = Ret w -> IndexOf MnemonicWords w = i.
Proof.
  intros Hi. pose proof (index_lt _ _ _ Hi). apply index_Ret in Hi as [? Hw].
  rewrite (IndexOf_at _ (Z.to_nat i)); [lia|done|]. intros j Hj. by eapply MnemonicWords_inj.
Qed.

(** The remainder as the code corrects it. *)
Lemma rem_fix x n : 0 < n -> (if Z.rem x n <? 0 then Z.rem x n + n else Z.rem x n) = x `mod` n.
Proof.
  intros Hn. pose proof (Z.quot_rem' x n). pose proof (Z.rem_bound_abs x n ltac:(lia)).
  destruct (Z.ltb_spec (Z.rem x n) 0).
  - apply (Z.mod_unique _ _ (Z.quot x n - 1)); lia.
  - apply (Z.mod_unique _ _ (Z.quot x n)); lia.
Qed.

Lemma mod_sub_mod a b n : 0 < n -> ((a + b) `mod` n - b) `mod` n = a `mod` n.
Proof. intros. rewrite Zminus_mod_idemp_l. f_equal. lia. Qed.

(** The three digits of a number below 1626^3, each word's place the sum of its
    digit and the place before, and back. *)
Lemma three_words x w1 w2 w3 :
  0 <= x < 2 ^ 32 ->
  let n := zlen MnemonicWords in
  let i1 := Z.rem x n in
  let i2 := Z.rem (Z.quot x n + i1) n in
  let i3 := Z.rem (Z.quot (Z.quot x n) n + i2) n in
  index MnemonicWords i1 = Ret w1 -> index MnemonicWords i2 = Ret w2 -> index MnemonicWords i3 = Ret w3 ->
  decode_words w1 w2 w3 = x.
Proof.
  intros Hx n i1 i2 i3 H1 H2 H3. unfold decode_words. fold n.
  rewrite (IndexOf_word _ _ H1), (IndexOf_word _ _ H2), (IndexOf_word _ _ H3). clear H1 H2 H3.
  assert (n = 1626) as Hn by apply MnemonicWords_length. clearbody n. subst n i1 i2 i3.
  assert (0 <= x / 1626) by (apply Z.div_pos; lia).
  assert (0 <= x / 1626 / 1626) by (apply Z.div_pos; lia).
  rewrite (Z.quot_div_nonneg x), Z.quot_div_nonneg by lia.
  assert (x / 1626 / 1626 < 1626) by (rewrite Z.div_div by lia; apply Z.div_lt_upper_bound; lia).
  pose proof (Z.mod_pos_bound x 1626 ltac:(lia)).
  rewrite (Z.rem_mod_nonneg x) by lia.
  rewrite (Z.rem_mod_nonneg (x / 1626 + x mod 1626)) by lia.
  pose proof (Z.mod_pos_bound (x / 1626 + x mod 1626) 1626 ltac:(lia)).
  rewrite (Z.rem_mod_nonneg (x / 1626 / 1626 + _)) by lia.
  rewrite !rem_fix, !mod_sub_mod by lia. rewrite (Z.mod_small (x / 1626 / 1626)) by lia.
  pose proof (Z.div_mod x 1626 ltac:(lia)). pose proof (Z.div_mod (x / 1626) 1626 ltac:(lia)). lia.
Qed.

Lemma words_at i : 0 <= i < zlen MnemonicWords -> ∃ w, index MnemonicWords i = Ret w ∧ w ∈ MnemonicWords.
Proof.
  intros Hi. destruct (index_in _ _ Hi) as [w Hw]. exists w. split; [done|].
  apply index_Ret in Hw as [_ Hw]. by eapply list_elem_of_lookup_2.
Qed.

Lemma Bytes2Hex_app a b : Bytes2Hex (a ++ b) = Bytes2Hex a ++ Bytes2Hex b.
Proof. apply bind_app. Qed.

(** The loop on what is left of a message of sixty-four digits. *)
Lemma encode_rest k : ∀ f pre rest,
  zlen (pre ++ Bytes2Hex rest) = 64 -> length rest = (4 * k)%nat -> (k < f)%nat ->
  ∃ ws, encode_loop f (pre ++ Bytes2Hex rest) (zlen pre) = Ret ws ∧ length ws = (3 * k)%nat ∧
    Forall (λ w, w ∈ MnemonicWords) ws ∧ MnemonicDecode ws = Ret (Bytes2Hex rest).
Proof.
  induction k as [|k IH]; intros f pre rest Hlen Hk Hf; (destruct f as [|f]; [lia|]); cbn [encode_loop].
  - destruct rest; [|done]. cbn [Bytes2Hex] in *. rewrite app_nil_r, Z.leb_refl. by exists [].
  - pose proof (take_drop 4 rest) as Hr. set (b := take 4 rest) in *. set (r := drop 4 rest) in *.
    assert (zlen b = 4) as Hb by (subst b; rewrite zlen_take; unfold zlen; lia).
    assert (length r = 4 * k)%nat as Hrl by (subst r; rewrite length_drop; lia).
    clearbody b r. subst rest. rewrite Bytes2Hex_app in *. rewrite Hlen.
    pose proof (Bytes2Hex_len b) as Hbl.
    destruct (Z.leb_spec 64 (zlen pre)) as [Hge|_]; [exfalso; lenlia|].
    rewrite (slice_middle pre (Bytes2Hex b) (Bytes2Hex r)) by lia. cbn [mbind outcome_bind].
    rewrite (ParseHex_Bytes2Hex b Hb). pose proof (SetBytes_range b) as Hx. rewrite Hb in Hx.
    change (256 ^ 4) with (2 ^ 32) in Hx. set (x := big_SetBytes b) in *.
    assert (0 <= Z.quot x (zlen MnemonicWords)) by (rewrite MnemonicWords_length; apply Z.quot_pos; lia).
    assert (0 <= Z.quot (Z.quot x (zlen MnemonicWords)) (zlen MnemonicWords))
      by (rewrite MnemonicWords_length in *; apply Z.quot_pos; lia).
    assert (∀ z, 0 <= z -> 0 <= Z.rem z (zlen MnemonicWords) < zlen MnemonicWords) as Hrem
      by (intros z Hz; rewrite MnemonicWords_length; apply Z.rem_bound_pos; lia).
    pose proof (Hrem x ltac:(lia)) as R1.
    set (i1 := Z.rem x (zlen MnemonicWords)) in *.
    set (i2 := Z.rem (Z.quot x (zlen MnemonicWords) + i1) (zlen MnemonicWords)) in *.
    assert (0 <= i2 < zlen MnemonicWords) as R2 by (apply Hrem; lia).
    set (i3 := Z.rem (Z.quot (Z.quot x (zlen MnemonicWords)) (zlen MnemonicWords) + i2) (zlen MnemonicWords)) in *.
    assert (0 <= i3 < zlen MnemonicWords) as R3 by (apply Hrem; lia).
    destruct (words_at i1 R1) as (w1 & W1 & M1), (words_at i2 R2) as (w2 & W2 & M2), (words_at i3 R3) as (w3 & W3 & M3).
    rewrite W1, W2, W3. cbn [mbind outcome_bind].
    destruct (IH f (pre ++ Bytes2Hex b) r) as (ws & E & Hl & Hin & Hd); [by rewrite <-app_assoc|done|lia|].
    rewrite <-app_assoc, zlen_app, Hbl, Hb in E. change (64 / 8) with 8. change (2 * 4) with 8 in E. rewrite E.
    eexists. split; [reflexivity|]. split; [cbn; lia|]. split; [by rewrite !Forall_cons|].
    cbn [MnemonicDecode]. rewrite Hd. cbn [mbind outcome_bind].
    rewrite (three_words x w1 w2 w3 ltac:(lia) W1 W2 W3), hex08_fixed by lia.
    rewrite (Bytes2Hex_fixed b). replace (2 * length b)%nat with 8%nat by (unfold zlen in Hb; lia). done.
Qed.

Lemma encode_key key :
  zlen key = 32 ->
  ∃ words, MnemonicEncode (Bytes2Hex key) = Ret words ∧ length words = 24%nat ∧
    Forall (λ w, w ∈ MnemonicWords) words ∧ MnemonicDecode words = Ret (Bytes2Hex key).
Proof.
  intros Hk. pose proof (Bytes2Hex_len key) as Hl.
  apply (encode_rest 8 (S (length (Bytes2Hex key))) [] key); [cbn [app]; lia|unfold zlen in Hk; lia|unfold zlen in Hl, Hk; lia].
Qed.

(** C27. A private key survives its mnemonic: the twenty-four words made of the
    hex digits of any 32 bytes are words of the list, and decoding them gives
    the digits back. *)
Theorem mnemonic_roundtrip (key : bytes) :
  zlen key = 32 ->
  ∃ words, MnemonicEncode (Bytes2Hex key) = Ret words ∧ length words = 24%nat ∧
    Forall (λ w, w ∈ MnemonicWords) words ∧ MnemonicDecode words = Ret (Bytes2Hex key).
Proof. exact (encode_key key). Qed.

(** The key of the repository's own test. *)
Definition test_key : bytes := Hex2Bytes (asc "c61d43dc5bb7a4e754d111dae8105b6f25356492df5e50ecb33b858d94f8c338").

Lemma mnemonic_roundtrip_witness :
  zlen test_key = 32 ∧
  ∃ words, MnemonicEncode (Bytes2Hex test_key) = Ret words ∧ length words = 24%nat ∧
    Forall (λ w, w ∈ MnemonicWords) words ∧ MnemonicDecode words = Ret (Bytes2Hex test_key).
Proof. split; [vm_compute; reflexivity|]. apply (mnemonic_roundtrip test_key). vm_compute. reflexivity. Defined.

(** Its first six words, as the test has them. *)
Lemma test_words :
  (take 6 <$> MnemonicEncode (Bytes2Hex test_key))
  = Ret (map asc ["ink"; "balance"; "gain"; "fear"; "happen"; "melt"]%string).
Proof. vm_compute. reflexivity. Qed.

(** A message whose length is not a multiple of eight digits is not encoded: up
    to seven digits the first slice is already out of range (and the step would
    be zero), and for sixty-five the last one is. *)
Lemma short_message_panics message : 0 < zlen message < 8 -> MnemonicEncode message = Panic.
Proof.
  intros Hm. unfold MnemonicEncode. cbn [encode_loop].
  destruct (Z.leb_spec (zlen message) 0); [lia|]. unfold slice.
  rewrite (proj2 (Z.leb_gt (0 + 8) (zlen message))) by lia. by rewrite andb_false_r.
Qed.
