(* ===== verification/Keys.v ===== *)
(** Key rings, the stores they are kept in and the manager that holds the key
    in use: [ethcrypto/keyring.go], [key_store.go] and [key_manager.go].

    A store is an interface, [KeyStore]; [KeyStoreLaws] is what the manager's
    theorems ask of it, and the database store and the file store are its two
    instances.  The keys the curve library generates come from a function
    [generated] of how many were drawn before. *)

From S2P Require Import Prelude GoVal Big Bytes Errors Rlp Value Net Db Crypto Curve MnemonicWords Mnemonic.

(** * Key rings *)

(** ethcrypto/keyring.go, KeyRing. A key pair that could not be made is a nil
    pointer. *)
Record KeyRing := mkKeyRing { keys : list (option KeyPair) }.

(** ethcrypto/keyring.go, NewKeyRing. *)
Definition NewKeyRing : KeyRing := mkKeyRing [].

(** ethcrypto/keyring.go, KeyRing.AddKeyPair. *)
Definition AddKeyPair (k : KeyRing) (keyPair : option KeyPair) : KeyRing := mkKeyRing (keys k ++ [keyPair]).

(** ethcrypto/keyring.go, KeyRing.GetKeyPair. A negative index panics. *)
Definition GetKeyPair (k : KeyRing) (i : Z) : outcome (option KeyPair) :=
  if i <? zlen (keys k) then index (keys k) i else Ret None.

(** ethcrypto/keyring.go, KeyRing.Len. *)
Definition Len (k : KeyRing) : Z := zlen (keys k).

(** ethcrypto/keyring.go, KeyRing.Empty. *)
Definition Empty (k : KeyRing) : bool := Len k =? 0.

(** ethcrypto/keyring.go, KeyRing.Each. What the callback makes of each pair, in
    order. *)
Fixpoint each_pair {A} (f : option KeyPair -> outcome A) (l : list (option KeyPair)) : outcome (list A) :=
  match l with
  | [] => Ret []
  | keyPair :: r => a ← f keyPair; rest ← each_pair f r; Ret (a :: rest)
  end.

Definition Each {A} (k : KeyRing) (f : option KeyPair -> outcome A) : outcome (list A) := each_pair f (keys k).

(** ethcrypto/keyring.go, KeyRing.RlpValue. *)
Definition KeyRing_RlpValue (k : KeyRing) : outcome goval :=
  vs ← Each k (λ keyPair, kp ← deref keyPair; Ret (VVal (KeyPair_RlpValue kp)));
  Ret (fold_left Append vs EmptyValue).

(** ethcrypto/keyring.go, KeyRing.RlpEncode. *)
Definition KeyRing_RlpEncode (k : KeyRing) : outcome bytes := Value_Encode <$> KeyRing_RlpValue k.

Section Ring.
Context `{Crypto} `{Secp256k1}.

(** The library's error for a secret that has no public key. *)
Variable pubkey_error : bytes -> error.

(** ethcrypto/keypair.go, KeyPair.Mnemonic. *)
Definition KeyPair_Mnemonic (k : KeyPair) : outcome bytes :=
  words ← MnemonicEncode (Bytes2Hex (PrivateKey k));
  Ret (Join words (asc " ")).

(** ethcrypto/keypair.go, KeyPair.AsStrings. *)
Definition AsStrings (k : KeyPair) : outcome (bytes * bytes * bytes * bytes) :=
  m ← KeyPair_Mnemonic k;
  a ← KeyPair_Address k;
  Ret (m, Bytes2Hex a, Bytes2Hex (PrivateKey k), Bytes2Hex (kp_PublicKey k)).

(** ethcrypto/keypair.go, GenerateNewKeyPair. The error is swallowed: the pair
    of a secret without a public key is nil. *)
Definition GenerateNewKeyPair (prv : bytes) : option KeyPair := NewKeyPairFromSec prv.

(** ethcrypto/keyring.go, NewGeneratedKeyRing. From the secrets the library
    generates. *)
Definition NewGeneratedKeyRing (prvs : list bytes) : KeyRing :=
  fold_left (λ k prv, AddKeyPair k (GenerateNewKeyPair prv)) prvs NewKeyRing.

(** ethcrypto/keyring.go 85-91, NewKeyRingFromSecrets. The loop. *)
Fixpoint ring_from_secrets (k : KeyRing) (secs : list bytes) : error + KeyRing :=
  match secs with
  | [] => inr k
  | sec :: rest =>
      match NewKeyPairFromSec sec with
      | None => inl (pubkey_error sec)
      | Some keyPair => ring_from_secrets (AddKeyPair k (Some keyPair)) rest
      end
  end.

(** ethcrypto/keyring.go, NewKeyRingFromSecrets. *)
Definition NewKeyRingFromSecrets (secs : list bytes) : error + KeyRing := ring_from_secrets NewKeyRing secs.

(** ethcrypto/keyring.go 65-77, NewKeyRingFromString. The secrets on the lines:
    twenty-four words are a mnemonic, one word is hex digits, an empty line is
    skipped. *)
Fixpoint line_secrets (lines : list bytes) : outcome (error + list bytes) :=
  match lines with
  | [] => Ret (inr [])
  | secretString :: rest =>
      let words := Split secretString x20 in
      secret ← (if (length words =? 24)%nat then inr <$> MnemonicDecode words
                else if negb (length words =? 1)%nat then Ret (inl (Errorf (asc "Unrecognised key format")))
                else Ret (inr secretString));
      match secret with
      | inl err => Ret (inl err)
      | inr secret =>
          secrets ← line_secrets rest;
          match secrets with
          | inl err => Ret (inl err)
          | inr l => Ret (inr (if negb (zlen secret =? 0) then Hex2Bytes secret :: l else l))
          end
      end
  end.

(** ethcrypto/keyring.go, NewKeyRingFromString. *)
Definition NewKeyRingFromString (content : bytes) : outcome (error + KeyRing) :=
  secrets ← line_secrets (Split content x0a);
  match secrets with
  | inl err => Ret (inl err)
  | inr secrets => Ret (NewKeyRingFromSecrets secrets)
  end.

(** ethcrypto/keyring.go, NewKeyRingFromBytes. *)
Definition NewKeyRingFromBytes (data : bytes) : outcome (error + KeyRing) :=
  v ← NewValueFromBytes data;
  items ← Value_items v;
  Ret (NewKeyRingFromSecrets (map Value_Bytes items)).

End Ring.

(** * Rings of good pairs *)

Section RingLemmas.
Context `{Crypto} `{Secp256k1} `{!Secp256k1Laws}.
Variable pubkey_error : bytes -> error.

(** A pair made from a secret of 32 bytes. *)
Definition key_ok (kp : KeyPair) : Prop :=
  NewKeyPairFromSec (PrivateKey kp) = Some kp ∧ zlen (PrivateKey kp) = 32.

(** A ring with such pairs only, at least one, and not too many to be encoded. *)
Definition ring_ok (r : KeyRing) : Prop :=
  ∃ kps, keys r = map Some kps ∧ kps ≠ [] ∧ Forall key_ok kps ∧ zlen kps < 2 ^ 58.

Lemma ring_eq r l : keys r = l -> r = mkKeyRing l.
Proof. by destruct r; cbn; intros ->. Qed.

Lemma ring_ok_Len r : ring_ok r -> 0 < Len r.
Proof.
  intros (kps & Hr & Hne & _). unfold Len. rewrite Hr, zlen_map. destruct kps; [done|].
  rewrite zlen_cons. lenlia.
Qed.

Lemma secrets_of_ring k kps :
  Forall key_ok kps -> ring_from_secrets pubkey_error k (map PrivateKey kps) = inr (mkKeyRing (keys k ++ map Some kps)).
Proof.
  intros Hok. revert k. induction Hok as [|kp kps [Hkp _] Hok IH]; intros k; cbn [map ring_from_secrets].
  - rewrite app_nil_r. by destruct k.
  - rewrite Hkp, IH. unfold AddKeyPair. cbn [keys]. by rewrite <-app_assoc.
Qed.

Lemma ring_of_secrets k secs r :
  (∀ sec, is_Some (NewKeyPairFromSec sec) -> zlen sec = 32) ->
  ring_from_secrets pubkey_error k secs = inr r ->
  ∃ kps, keys r = keys k ++ map Some kps ∧ Forall key_ok kps ∧ length kps = length secs.
Proof.
  intros H32. revert k. induction secs as [|sec secs IH]; intros k.
  - intros [= <-]. exists []. by rewrite app_nil_r.
  - cbn [ring_from_secrets]. destruct (NewKeyPairFromSec sec) as [kp|] eqn:E; [|done].
    intros (kps & Hr & Hok & Hlen)%IH. exists (kp :: kps). cbn [keys AddKeyPair] in Hr.
    rewrite <-app_assoc in Hr. split; [exact Hr|]. split; [|cbn; lia].
    constructor; [|done]. unfold key_ok.
    assert (PrivateKey kp = sec) as ->.
    { revert E. unfold NewKeyPairFromSec. by intros (? & _ & ->)%fmap_Some. }
    by split; [|apply H32; rewrite E].
Qed.

Lemma each_pair_map {A} (f : option KeyPair -> outcome A) (g : KeyPair -> A) kps :
  Forall (λ kp, f (Some kp) = Ret (g kp)) kps -> each_pair f (map Some kps) = Ret (map g kps).
Proof.
  induction 1 as [|kp kps Hkp _ IH]; [done|]. cbn [map each_pair]. rewrite Hkp, IH. done.
Qed.

(** * The encoding of a ring *)

Lemma KeyRing_RlpValue_ok kps :
  KeyRing_RlpValue (mkKeyRing (map Some kps)) = Ret (VList (map (λ kp, VVal (VBytes (PrivateKey kp))) kps)).
Proof.
  unfold KeyRing_RlpValue, Each. cbn [keys].
  rewrite (each_pair_map _ (λ kp, VVal (KeyPair_RlpValue kp))) by (apply Forall_forall; done).
  cbn [mbind outcome_bind]. f_equal.
  change (map (λ kp, VVal (KeyPair_RlpValue kp)) kps) with (map (λ kp, VVal (VBytes (PrivateKey kp))) kps).
  generalize (map (λ kp, VVal (VBytes (PrivateKey kp))) kps). intros l.
  enough (∀ acc, fold_left Append l (VList acc) = VList (acc ++ l)) as E by apply (E []).
  induction l as [|v l IH]; intros acc; [by rewrite app_nil_r|]. cbn [fold_left].
  unfold Append at 2. cbn [Value_Slice]. rewrite IH. by rewrite <-app_assoc.
Qed.

Definition ring_item (kps : list KeyPair) : item := RList (map (λ kp, RStr (PrivateKey kp)) kps).

Lemma to_item_ring kps : to_item (VList (map (λ kp, VVal (VBytes (PrivateKey kp))) kps)) = Some (ring_item kps).
Proof.
  rewrite to_item_list. unfold ring_item. rewrite fmap_Some. eexists. split; [|reflexivity].
  induction kps as [|kp kps IH]; [done|]. cbn [map mapM]. cbn [to_item]. cbn [mbind option_bind].
  rewrite IH. done.
Qed.

Lemma ring_item_size kps : Forall key_ok kps -> zlen kps < 2 ^ 58 -> zlen (enc (ring_item kps)) < 2 ^ 64.
Proof.
  intros Hok Hn. unfold ring_item. rewrite enc_list, map_map.
  assert (zlen (concat (map (λ kp, enc (RStr (PrivateKey kp))) kps)) = 33 * zlen kps) as Hc.
  { clear Hn. induction Hok as [|kp kps [_ H32] _ IH]; [done|]. cbn [map concat]. rewrite zlen_app, zlen_cons, IH.
    cbn [enc]. unfold encode_bytes. rewrite H32. cbn [Z.eqb andb Pos.eqb]. rewrite (proj2 (Z.ltb_lt 32 56)) by lia.
    rewrite zlen_cons, H32. lia. }
  rewrite zlen_app, Hc. unfold WriteSliceHeader.
  destruct (Z.ltb_spec (33 * zlen kps) 56); [lenlia|].
  pose proof (len_bytes (33 * zlen kps) ltac:(lia)). lenlia.
Qed.

(** A ring comes back from its encoding. *)
Lemma ring_roundtrip r :
  ring_ok r -> ∃ data, KeyRing_RlpEncode r = Ret data ∧ NewKeyRingFromBytes pubkey_error data = Ret (inr r).
Proof.
  intros (kps & Hr & _ & Hok & Hn). apply ring_eq in Hr as ->. unfold KeyRing_RlpEncode.
  rewrite KeyRing_RlpValue_ok. eexists. split; [reflexivity|]. unfold NewKeyRingFromBytes, Value_Encode.
  pose proof (to_item_ring kps) as Hi. pose proof (ring_item_size kps Hok Hn) as Hs.
  rewrite (NewValueFromBytes_Encode _ _ Hi) by (rewrite (Encode_item _ _ Hi); done).
  cbn [mbind outcome_bind of_item ring_item]. rewrite Value_items_list. cbn [mbind outcome_bind]. do 2 f_equal.
  rewrite !map_map.
  rewrite (map_ext _ PrivateKey) by (intros kp; rewrite NewValue_of_item; apply Bytes_of_str).
  exact (secrets_of_ring NewKeyRing kps Hok).
Qed.

(** * The text of a ring *)

Lemma hex_no c b : unhex c = None -> c ∉ Bytes2Hex b.
Proof.
  intros Hc. induction b as [|x b IH]; [set_solver|]. rewrite Bytes2Hex_cons, !not_elem_of_cons.
  split_and!; [| |done]; intros ->.
  - by rewrite (unhex_hexdigit _ (nibble_hi x)) in Hc.
  - by rewrite (unhex_hexdigit _ (nibble_lo x)) in Hc.
Qed.

Lemma words_no c words :
  Forall (λ w, w ∈ MnemonicWords) words -> b2z c < 97 -> Forall (λ w, c ∉ w) words.
Proof. intros Hw Hc. eapply Forall_impl; [exact Hw|]. intros w Hin Hcw. pose proof (word_letters w c Hin Hcw). lia. Qed.

Lemma Join_no c l sep : c ≠ sep -> Forall (λ w, c ∉ w) l -> c ∉ Join l [sep].
Proof.
  intros Hc Hl. induction Hl as [|w l Hw Hl IH]; [set_solver|]. destruct l as [|w' l]; [done|].
  change (c ∉ w ++ sep :: Join (w' :: l) [sep]). set_solver.
Qed.

(** The mnemonic of a good pair: twenty-four words on one line. *)
Lemma KeyPair_Mnemonic_ok kp :
  key_ok kp -> ∃ words, KeyPair_Mnemonic kp = Ret (Join words [x20]) ∧ length words = 24%nat ∧
    Forall (λ w, w ∈ MnemonicWords) words ∧ MnemonicDecode words = Ret (Bytes2Hex (PrivateKey kp)).
Proof.
  intros [_ H32]. destruct (encode_key _ H32) as (words & E & H24 & Hin & Hd).
  exists words. split; [|done]. unfold KeyPair_Mnemonic. by rewrite E.
Qed.

(** A line of a secrets file: the hex digits of a private key or its mnemonic. *)
Definition key_line (kp : KeyPair) (line : bytes) : Prop :=
  line = Bytes2Hex (PrivateKey kp) ∨ KeyPair_Mnemonic kp = Ret line.

Lemma key_line_no_newline kp line : key_ok kp -> key_line kp line -> x0a ∉ line.
Proof.
  intros Hok [->|Hm]; [by apply hex_no|].
  destruct (KeyPair_Mnemonic_ok kp Hok) as (words & E & _ & Hin & _).
  rewrite E in Hm. injection Hm as <-. apply Join_no; [done|]. by apply words_no.
Qed.

Lemma line_secrets_ok kps lines :
  Forall key_ok kps -> Forall2 key_line kps lines -> line_secrets lines = Ret (inr (map PrivateKey kps)).
Proof.
  intros Hok Hl. induction Hl as [|kp line kps lines Hline Hl IH]; [done|].
  apply Forall_cons in Hok as [Hkp Hok]. cbn [map line_secrets]. rewrite (IH Hok).
  assert (zlen (Bytes2Hex (PrivateKey kp)) = 64) as H64 by (rewrite Bytes2Hex_len, (proj2 Hkp); lia).
  assert (∀ s, s = Bytes2Hex (PrivateKey kp) ->
    (if negb (zlen s =? 0) then Hex2Bytes s :: map PrivateKey kps else map PrivateKey kps)
    = PrivateKey kp :: map PrivateKey kps) as Hs.
  { intros s ->. rewrite H64. cbn [Z.eqb negb]. by rewrite Hex2Bytes_Bytes2Hex. }
  destruct Hline as [->|Hm].
  - rewrite (Split_none _ x20) by by apply hex_no. cbn [length Nat.eqb negb mbind outcome_bind]. by rewrite Hs.
  - destruct (KeyPair_Mnemonic_ok kp Hkp) as (words & E & H24 & Hin & Hd). rewrite E in Hm. injection Hm as <-.
    rewrite Split_Join by (first [by destruct words|by apply words_no]). rewrite H24. cbn [Nat.eqb]. rewrite Hd.
    cbn [fmap outcome_fmap mbind outcome_bind]. by rewrite Hs.
Qed.

Lemma text_ring (kps : list KeyPair) (lines : list bytes) :
  Forall key_ok kps -> kps ≠ [] -> Forall2 key_line kps lines ->
  NewKeyRingFromString pubkey_error (Join lines [x0a]) = Ret (inr (mkKeyRing (map Some kps))).
Proof.
  intros Hok Hne Hl. unfold NewKeyRingFromString.
  rewrite Split_Join; [|by inversion Hl; subst| ].
  - rewrite (line_secrets_ok kps lines Hok Hl). cbn [mbind outcome_bind].
    unfold NewKeyRingFromSecrets. by rewrite secrets_of_ring.
  - apply Forall_forall. intros line [i Hi]%list_elem_of_lookup.
    destruct (Forall2_lookup_r _ _ _ _ _ Hl Hi) as (kp & Hkp & Hline).
    eapply key_line_no_newline; [|exact Hline]. by eapply Forall_lookup_1.
Qed.

(** A text has no more secrets than lines, and those are no more than its bytes. *)
Lemma line_secrets_len lines l : line_secrets lines = Ret (inr l) -> (length l <= length lines)%nat.
Proof.
  revert l. induction lines as [|line lines IH]; intros l; [by intros [= <-]|]. cbn [line_secrets].
  intros (secret & _ & E)%bind_Ret_inv. destruct secret as [e|secret]; [done|].
  apply bind_Ret_inv in E as ([e|l'] & E' & E); [done|]. specialize (IH l' E'). injection E as <-.
  case_match; cbn; lia.
Qed.

Lemma ring_from_string content r :
  (∀ sec, is_Some (NewKeyPairFromSec sec) -> zlen sec = 32) -> zlen content < 2 ^ 57 ->
  NewKeyRingFromString pubkey_error content = Ret (inr r) -> 0 < Len r -> ring_ok r.
Proof.
  intros H32 Hc. unfold NewKeyRingFromString. intros ([e|l] & E & Hr)%bind_Ret_inv; [done|].
  injection Hr as Hr. apply ring_of_secrets in Hr as (kps & Hr & Hok & Hlen); [|done].
  cbn [keys NewKeyRing app] in Hr. unfold Len. rewrite Hr, zlen_map. intros Hpos. exists kps.
  split_and!; [done|by intros ->|done|]. apply line_secrets_len in E. pose proof (Split_length content x0a).
  unfold zlen in *. lia.
Qed.

(** A secrets file gives back the ring it was made from: whatever mixture of
    hex digits and mnemonics its lines are, one line for each pair of a ring of
    good keys, reading the text makes the ring with the same pairs in the same
    order, addresses and public keys included. *)
Theorem keyring_text_roundtrip (kps : list KeyPair) (lines : list bytes) :
  Forall key_ok kps -> kps ≠ [] -> Forall2 key_line kps lines ->
  NewKeyRingFromString pubkey_error (Join lines [x0a]) = Ret (inr (mkKeyRing (map Some kps))).
Proof. exact (text_ring kps lines). Qed.

End RingLemmas.
