(* ===== verification/KeyStore.v ===== *)
(** The stores of key rings, [ethcrypto/key_store.go]: the interface with its
    laws, the store in the database and the store in files.  Both are shown to
    give back the ring that was saved last under a session's name. *)

From S2P Require Import Prelude GoVal Big Bytes Errors Rlp Value Net Db Crypto Curve MnemonicWords Mnemonic Keys.

(** ethcrypto/key_store.go, KeyStore. *)
Class KeyStore (K : Type) := {
  ks_Load : K -> bytes -> outcome (error + option KeyRing);
  ks_Save : bytes -> KeyRing -> st K (option error);
}.

(** What a manager relies on, for the sessions and rings it uses. *)
Class KeyStoreLaws (K : Type) `{KeyStore K} (session_ok : bytes -> Prop) (ring_ok : KeyRing -> Prop) := {
  ks_save_ok : ∀ k s r, session_ok s -> ring_ok r -> ∃ k', ks_Save s r k = (Ret None, k');
  ks_save_no_error : ∀ k s r e k', ks_Save s r k ≠ (Ret (Some e), k');
  ks_load_saved : ∀ k s r k', session_ok s -> ring_ok r -> ks_Save s r k = (Ret None, k') ->
    ks_Load k' s = Ret (inr (Some r));
  ks_load_other : ∀ k s s' r k', session_ok s -> session_ok s' -> s ≠ s' -> ks_Save s r k = (Ret None, k') ->
    ks_Load k' s' = ks_Load k s';
}.

(** * The store in the database *)

(** ethcrypto/key_store.go, DBKeyStore. *)
Record DBKeyStore (D : Type) := mkDBKeyStore { ks_db : D }.
Arguments mkDBKeyStore {D} _.
Arguments ks_db {D} _.

Section DB.
Context `{Crypto} `{Secp256k1} {D : Type} `{Database D}.
Variable pubkey_error : bytes -> error.

(** ethcrypto/key_store.go, DBKeyStore.dbKey. *)
Definition dbKey (session : bytes) : bytes := asc "KeyRing" ++ session.

(** ethcrypto/key_store.go, DBKeyStore.Save. *)
Definition DB_Save (session : bytes) (keyRing : KeyRing) : st (DBKeyStore D) (option error) :=
  data ← lift (KeyRing_RlpEncode keyRing);
  _ ← st_modify (λ k, mkDBKeyStore (db_Put (ks_db k) (dbKey session) data));
  mret None.

(** ethcrypto/key_store.go, DBKeyStore.Load. An empty ring is as good as none. *)
Definition DB_Load (k : DBKeyStore D) (session : bytes) : outcome (error + option KeyRing) :=
  let '(data, err) := db_Get (ks_db k) (dbKey session) in
  if err : bool then Ret (inr None)
  else
    keyRing ← NewKeyRingFromBytes pubkey_error data;
    match keyRing with
    | inl err => Ret (inl err)
    | inr keyRing => Ret (inr (if Len keyRing =? 0 then None else Some keyRing))
    end.

Definition DB_KeyStore : KeyStore (DBKeyStore D) := {| ks_Load := DB_Load; ks_Save := DB_Save |}.

End DB.

(** * The store in files *)

(** [path.Clean] and [path.Join] of two elements. *)
Definition clean_step (rooted : bool) (out : list bytes) (e : bytes) : list bytes :=
  if bool_decide (e = []) || bool_decide (e = asc ".") then out
  else if bool_decide (e = asc "..") then
    match out with
    | [] => if rooted then [] else [asc ".."]
    | top :: rest => if bool_decide (top = asc "..") then asc ".." :: out else rest
    end
  else e :: out.

Definition path_Clean (path : bytes) : bytes :=
  let rooted := bool_decide (head path = Some x2f) in
  let out := rev (fold_left (clean_step rooted) (Split path x2f) []) in
  if rooted then x2f :: Join out (asc "/")
  else match out with [] => asc "." | _ => Join out (asc "/") end.

Definition path_Join (dir name : bytes) : bytes :=
  match dir, name with
  | [], [] => []
  | [], _ => path_Clean name
  | _, _ => path_Clean (dir ++ x2f :: name)
  end.

(** ethcrypto/key_store.go, FileKeyStore. With the files of the machine, by path. *)
Record FileKeyStore := mkFileKeyStore { basedir : bytes; files : gmap bytes bytes }.

Section File.
Context `{Crypto} `{Secp256k1}.
Variable pubkey_error : bytes -> error.

(** The operating system: the error of writing to a path, of reading a file
    that is there, and of reading one that is not.  A write that fails leaves
    the file as it is. *)
Variables (write_error read_error : bytes -> option error) (no_file : bytes -> error).

(** [ioutil.WriteFile] and [ioutil.ReadFile]. *)
Definition WriteFile (path content : bytes) : st FileKeyStore (option error) := λ k,
  match write_error path with
  | Some e => (Ret (Some e), k)
  | None => (Ret None, mkFileKeyStore (basedir k) (<[path := content]> (files k)))
  end.

Definition ReadFile (k : FileKeyStore) (path : bytes) : error + bytes :=
  match files k !! path with
  | None => inl (no_file path)
  | Some content => match read_error path with Some e => inl e | None => inr content end
  end.

(** ethcrypto/keyring.go, NewKeyRingFromFile. From what reading the file gave. *)
Definition NewKeyRingFromFile (content : error + bytes) : outcome (error + KeyRing) :=
  match content with
  | inl err => Ret (inl err)
  | inr content => NewKeyRingFromString pubkey_error content
  end.

(** ethcrypto/key_store.go 58-63, FileKeyStore.Save. The four texts of a pair. *)
Definition pair_texts (keyPair : option KeyPair) : outcome (bytes * bytes * bytes * bytes) :=
  kp ← deref keyPair;
  a ← KeyPair_Address kp;
  m ← KeyPair_Mnemonic kp;
  Ret (Bytes2Hex (PrivateKey kp), Bytes2Hex (kp_PublicKey kp), Bytes2Hex a, m).

Definition base_name (session : bytes) : bytes :=
  if bool_decide (session = []) then asc "default" else session.

(** ethcrypto/key_store.go 70-98, FileKeyStore.Save. The writes, in order; the
    first error is returned. *)
Fixpoint write_files (l : list (bytes * bytes)) : st FileKeyStore (option error) :=
  match l with
  | [] => mret None
  | (path, content) :: rest =>
      err ← WriteFile path content;
      match err with Some e => mret (Some e) | None => write_files rest end
  end.

(** ethcrypto/key_store.go, FileKeyStore.Save. *)
Definition File_Save (session : bytes) (keyRing : KeyRing) : st FileKeyStore (option error) :=
  texts ← lift (Each keyRing pair_texts);
  k ← st_get;
  let path := path_Join (basedir k) (base_name session) in
  write_files [(path ++ asc ".prv", Join (map (λ '(p, _, _, _), p) texts) [x0a]);
               (path ++ asc ".pub", Join (map (λ '(_, p, _, _), p) texts) [x0a]);
               (path ++ asc ".addr", Join (map (λ '(_, _, a, _), a) texts) [x0a]);
               (path ++ asc ".mne", Join (map (λ '(_, _, _, m), m) texts) [x0a])].

(** ethcrypto/key_store.go, FileKeyStore.Load. No file is no error. *)
Definition File_Load (k : FileKeyStore) (session : bytes) : outcome (error + option KeyRing) :=
  let secfile := path_Join (basedir k) (base_name session ++ asc ".prv") in
  match files k !! secfile with
  | None => Ret (inr None)
  | Some _ =>
      keyRing ← NewKeyRingFromFile (ReadFile k secfile);
      Ret (match keyRing with inl e => inl e | inr r => inr (Some r) end)
  end.

Definition File_KeyStore : KeyStore FileKeyStore := {| ks_Load := File_Load; ks_Save := File_Save |}.

End File.

(** * The database store keeps its promise *)

(** A database whose reads answer, without error, what was written. *)
Class DatabaseReads (D : Type) `{Database D} := {
  db_Get_put : ∀ d k v, db_Get (db_Put d k v) k = (v, false);
  db_Get_other : ∀ d k k' v, k ≠ k' -> db_Get (db_Put d k v) k' = db_Get d k';
}.

#[export] Instance Mem_DatabaseReads : DatabaseReads MemDatabase.
Proof.
  split; intros; cbn; unfold Mem_Get; cbn; [by rewrite lookup_insert_eq|by rewrite lookup_insert_ne].
Qed.

Lemma DB_KeyStoreLaws `{Crypto} `{Secp256k1} {D : Type} `{Database D} `{!DatabaseReads D} pubkey_error :
  @KeyStoreLaws (DBKeyStore D) (DB_KeyStore pubkey_error) (λ _, True) ring_ok.
Proof.
  split.
  - intros k s r _ Hr. destruct (ring_roundtrip pubkey_error r Hr) as (data & E & _).
    cbn. unfold DB_Save. rewrite E. by eexists.
  - intros k s r e k'. cbn. unfold DB_Save. by destruct (KeyRing_RlpEncode r).
  - intros k s r k' _ Hr Hs. destruct (ring_roundtrip pubkey_error r Hr) as (data & E & Hd).
    cbn in *. unfold DB_Save in Hs. rewrite E in Hs. injection Hs as <-. unfold DB_Load. cbn [ks_db].
    rewrite db_Get_put, Hd. cbn [mbind outcome_bind]. pose proof (ring_ok_Len r Hr).
    by destruct (Z.eqb_spec (Len r) 0); [lia|].
  - intros k s s' r k' _ _ Hne Hs. cbn in *. unfold DB_Save in Hs.
    destruct (KeyRing_RlpEncode r) as [data| |]; [|done..]. injection Hs as <-. unfold DB_Load. cbn [ks_db].
    rewrite db_Get_other; [done|]. unfold dbKey. by intros ->%app_inv_head.
Qed.

(** * Paths *)

(** A name that is one element of a path. *)
Definition plain (name : bytes) : Prop := x2f ∉ name ∧ name ≠ [] ∧ name ≠ asc "." ∧ name ≠ asc "..".

Lemma Join_last l sep : ∃ p, ∀ x, Join (l ++ [x]) sep = p ++ x.
Proof.
  induction l as [|w l [p IH]]; [by exists []|]. exists (w ++ sep ++ p). intros x.
  rewrite <-!app_assoc, <-IH. by destruct l.
Qed.

Lemma Split_last s sep r : sep ∉ r -> Split (s ++ sep :: r) sep = Split s sep ++ [r].
Proof.
  intros Hr. induction s as [|c s IH].
  - cbn. rewrite bool_decide_eq_true_2 by done. by rewrite Split_none.
  - cbn. rewrite IH. case_bool_decide; [done|]. destruct (Split s sep) as [|w ws] eqn:E; [|done].
    destruct s; cbn in E; repeat case_match; discriminate.
Qed.

Lemma plain_ext name ext : plain name -> x2f ∉ ext -> (2 < length ext)%nat -> plain (name ++ ext).
Proof.
  intros (H1 & H2 & _ & _) He Hl. split; [set_solver|]. split; [by destruct name|].
  split; intros E%(f_equal length); rewrite length_app in E; cbn in E; lia.
Qed.

Lemma clean_plain rooted out name : plain name -> clean_step rooted out name = name :: out.
Proof.
  intros (_ & H1 & H2 & H3). unfold clean_step. by rewrite !bool_decide_eq_false_2.
Qed.

(** A plain last element stays as it is. *)
Lemma path_Join_plain dir : ∃ prefix, ∀ name, plain name -> path_Join dir name = prefix ++ name.
Proof.
  destruct dir as [|c dir].
  - exists []. intros name Hn. pose proof Hn as (Hs & Hne & _). unfold path_Join.
    destruct name as [|x name]; [done|]. unfold path_Clean. rewrite bool_decide_eq_false_2 by (cbn; set_solver).
    rewrite Split_none by done. cbn [fold_left]. by rewrite clean_plain.
  - set (rooted := bool_decide (c = x2f)).
    set (out := rev (fold_left (clean_step rooted) (Split (c :: dir) x2f) [])).
    destruct (Join_last out (asc "/")) as [p Hp].
    exists ((if rooted then [x2f] else []) ++ p). intros name Hn. pose proof Hn as (Hs & Hne & _).
    assert (path_Join (c :: dir) name = path_Clean ((c :: dir) ++ x2f :: name)) as -> by (unfold path_Join; by destruct name).
    unfold path_Clean. cbn [head app]. change (c :: dir ++ x2f :: name) with ((c :: dir) ++ x2f :: name).
    assert (bool_decide (Some c = Some x2f) = rooted) as ->.
    { apply bool_decide_ext. split; [by intros [= ->]|by intros ->]. }
    rewrite Split_last, fold_left_app by done. cbn [fold_left]. rewrite clean_plain by done. cbn [rev]. fold out.
    rewrite Hp, <-app_assoc. destruct rooted; [done|]. destruct out eqn:E; [|done]. cbn [app]. by rewrite <-Hp.
Qed.

(** * The file store keeps its promise *)

Section FileLaws.
Context `{Crypto} `{Secp256k1} `{!Secp256k1Laws}.
Variable pubkey_error : bytes -> error.
Variables (write_error read_error : bytes -> option error) (no_file : bytes -> error).
Hypothesis writes_succeed : ∀ path, write_error path = None.
Hypothesis reads_succeed : ∀ path, read_error path = None.

(** The session without a name is kept under [default]: that name is not a
    session of its own. *)
Definition file_session (session : bytes) : Prop := (session = [] ∨ plain session) ∧ session ≠ asc "default".

Lemma base_name_plain s : file_session s -> plain (base_name s).
Proof.
  intros [[->|Hp] _]; unfold base_name; [|case_bool_decide; [|done]];
    rewrite ?bool_decide_eq_true_2 by done; (split; [|done]); apply (bool_decide_unpack _); vm_compute; exact I.
Qed.

Lemma base_name_inj s s' : file_session s -> file_session s' -> base_name s = base_name s' -> s = s'.
Proof. intros [_ Hd] [_ Hd']. unfold base_name. repeat case_bool_decide; congruence. Qed.

Lemma pair_texts_ok kp :
  key_ok kp -> ∃ words, pair_texts (Some kp) = Ret (Bytes2Hex (PrivateKey kp), Bytes2Hex (kp_PublicKey kp),
    Bytes2Hex (drop 12 (Sha3Bin (drop 1 (kp_PublicKey kp)))), Join words [x20]).
Proof.
  intros Hok. destruct (KeyPair_Mnemonic_ok kp Hok) as (words & E & _). exists words.
  unfold pair_texts. cbn [deref mbind outcome_bind]. rewrite (KeyPair_Address_ok _ _ (proj1 Hok)).
  cbn [mbind outcome_bind]. by rewrite E.
Qed.

Lemma texts_ok kps :
  Forall key_ok kps -> ∃ texts, each_pair pair_texts (map Some kps) = Ret texts ∧
    map (λ '(p, _, _, _), p) texts = map (λ kp, Bytes2Hex (PrivateKey kp)) kps.
Proof.
  induction 1 as [|kp kps Hkp _ (texts & E & Ht)]; [by exists []|].
  destruct (pair_texts_ok kp Hkp) as [words Hw]. eexists. cbn [map each_pair]. rewrite Hw, E.
  cbn [mbind outcome_bind]. split; [reflexivity|]. cbn [map]. by rewrite Ht.
Qed.

Lemma write_files_ok l k :
  write_files write_error l k = (Ret None, mkFileKeyStore (basedir k) (foldl (λ fs pc, <[pc.1 := pc.2]> fs) (files k) l)).
Proof.
  revert k. induction l as [|[path content] l IH]; intros k; cbn [write_files foldl]; [by destruct k|].
  unfold WriteFile, mbind, st_bind. rewrite writes_succeed. by rewrite IH.
Qed.

(** What saving a session changes: four files next to each other. *)
Lemma File_Save_run k s r texts :
  file_session s -> Each r pair_texts = Ret texts ->
  ∃ prefix fs, (∀ name, plain name -> path_Join (basedir k) name = prefix ++ name) ∧
    File_Save write_error s r k = (Ret None, mkFileKeyStore (basedir k) fs) ∧
    fs !! (prefix ++ base_name s ++ asc ".prv") = Some (Join (map (λ '(p, _, _, _), p) texts) [x0a]) ∧
    ∀ s', file_session s' -> s ≠ s' -> fs !! (prefix ++ base_name s' ++ asc ".prv") = files k !! (prefix ++ base_name s' ++ asc ".prv").
Proof.
  intros Hs E. destruct (path_Join_plain (basedir k)) as [prefix Hp].
  exists prefix. eexists. split; [done|]. split.
  { unfold File_Save. rewrite E. unfold mbind, st_bind, lift, st_get. by rewrite write_files_ok. }
  cbn [foldl fst snd]. rewrite Hp by by apply base_name_plain. rewrite <-!app_assoc.
  assert (∀ a b e, last (asc ".prv") ≠ last e -> e ≠ [] -> prefix ++ a ++ e ≠ prefix ++ b ++ asc ".prv") as Hne.
  { intros a b e Hl He Heq%app_inv_head%(f_equal last). rewrite !last_app in Heq.
    destruct (last e) eqn:El; [|by apply last_None in El]. cbn in *. congruence. }
  split.
  - rewrite !lookup_insert_ne by (apply Hne; done). apply lookup_insert_eq.
  - intros s' Hs' Hss. rewrite !lookup_insert_ne; [done| |apply Hne; done..].
    intros Heq%app_inv_head%app_inv_tail%base_name_inj; done.
Qed.

Lemma secfile_path k s prefix :
  (∀ name, plain name -> path_Join (basedir k) name = prefix ++ name) -> file_session s ->
  path_Join (basedir k) (base_name s ++ asc ".prv") = prefix ++ base_name s ++ asc ".prv".
Proof. intros Hp Hs. apply Hp, plain_ext; [by apply base_name_plain|set_solver|cbn; lia]. Qed.

Lemma File_KeyStoreLaws :
  @KeyStoreLaws FileKeyStore (File_KeyStore pubkey_error write_error read_error no_file) file_session ring_ok.
Proof.
  split.
  - intros k s r Hs (kps & ->%ring_eq & _ & Hok & _). destruct (texts_ok kps Hok) as (texts & E & _).
    destruct (File_Save_run k s (mkKeyRing (map Some kps)) texts Hs E) as (prefix & fs & _ & Hsave & _). by eexists.
  - intros k s r e k'. cbn [ks_Save File_KeyStore]. unfold File_Save. destruct (Each r pair_texts) as [texts| |]; [|done..].
    unfold mbind, st_bind, lift, st_get. by rewrite write_files_ok.
  - intros k s r k' Hs (kps & ->%ring_eq & Hne & Hok & _) Hsave. destruct (texts_ok kps Hok) as (texts & E & Ht).
    destruct (File_Save_run k s (mkKeyRing (map Some kps)) texts Hs E) as (prefix & fs & Hp & Hrun & Hf & _). cbn [ks_Load ks_Save File_KeyStore] in *.
    rewrite Hrun in Hsave. injection Hsave as <-. unfold File_Load. cbn [basedir files].
    rewrite (secfile_path _ _ _ Hp Hs). unfold ReadFile. cbn [files]. rewrite Hf, reads_succeed, Ht.
    cbn [NewKeyRingFromFile]. rewrite (text_ring pubkey_error kps); [done..|].
    apply Forall2_fmap_r, Forall_Forall2_diag, Forall_forall. by left.
  - intros k s s' r k' Hs Hs' Hne Hsave. cbn [ks_Load ks_Save File_KeyStore] in *.
    destruct (Each r pair_texts) as [texts| |] eqn:E; [|unfold File_Save in Hsave; by rewrite E in Hsave..].
    destruct (File_Save_run k s r texts Hs E) as (prefix & fs & Hp & Hrun & _ & Hf).
    rewrite Hrun in Hsave. injection Hsave as <-. unfold File_Load. cbn [basedir files].
    rewrite (secfile_path _ _ _ Hp Hs'). unfold ReadFile. cbn [files]. by rewrite Hf.
Qed.

End FileLaws.
