(* ===== verification/KeyManager.v ===== *)
(** The manager of the node's keys, [ethcrypto/key_manager.go], over any store
    with the laws of [KeyStore]: it caches the rings of the sessions it has
    saved, and holds one ring and one key of it as current.  The theorems say
    that cache and store agree, and that a manager started afresh on the same
    store finds the same key. *)

From S2P Require Import Prelude GoVal Big Bytes Errors Rlp Value Net Db Crypto Curve MnemonicWords Mnemonic Keys KeyStore.

(** ethcrypto/key_manager.go, KeyManager. *)
Record KeyManager (K : Type) := mkKeyManager {
  m_keyRing : option KeyRing;
  m_session : bytes;
  m_keyStore : K;
  m_keyRings : gmap bytes KeyRing;
  m_keyPair : option KeyPair;
}.
Arguments mkKeyManager {K}.
Arguments m_keyRing {K}.
Arguments m_session {K}.
Arguments m_keyStore {K}.
Arguments m_keyRings {K}.
Arguments m_keyPair {K}.

(** ethcrypto/key_manager.go, NewDBKeyManager. *)
Definition NewDBKeyManager {D} (db : D) : KeyManager (DBKeyStore D) :=
  mkKeyManager None [] (mkDBKeyStore db) ∅ None.

(** ethcrypto/key_manager.go, NewFileKeyManager. On the files of the machine. *)
Definition NewFileKeyManager (basedir : bytes) (files : gmap bytes bytes) : KeyManager FileKeyStore :=
  mkKeyManager None [] (mkFileKeyStore basedir files) ∅ None.

Section Manager.
Context `{Crypto} `{Secp256k1} {K : Type} `{KeyStore K}.
Variable pubkey_error : bytes -> error.

(** The secrets the curve library generates: the first, the second, ... *)
Variable generated : nat -> bytes.

(** The manager, and how many secrets have been generated. *)
Record KeyState := mkKeyState { manager : KeyManager K; drawn : nat }.

Definition KM : Type -> Type := st KeyState.

Definition get_manager : KM (KeyManager K) := λ s, (Ret (manager s), s).
Definition put_manager (k : KeyManager K) : KM unit := λ s, (Ret tt, mkKeyState k (drawn s)).

(** ethcrypto/key_manager.go, KeyManager.PrivateKey. *)
Definition km_PrivateKey (k : KeyManager K) : outcome bytes := PrivateKey <$> deref (m_keyPair k).

(** ethcrypto/key_manager.go, KeyManager.PublicKey. *)
Definition km_PublicKey (k : KeyManager K) : outcome bytes := kp_PublicKey <$> deref (m_keyPair k).

(** ethcrypto/key_manager.go, KeyManager.Address. *)
Definition km_Address (k : KeyManager K) : outcome bytes := kp ← deref (m_keyPair k); KeyPair_Address kp.

(** ethcrypto/key_manager.go, KeyManager.save. *)
Definition save (session : bytes) (keyRing : KeyRing) : KM (option error) := λ s,
  let k := manager s in
  let '(r, store) := ks_Save session keyRing (m_keyStore k) in
  match r with
  | Ret (Some err) =>
      (Ret (Some err), mkKeyState (mkKeyManager (m_keyRing k) (m_session k) store (m_keyRings k) (m_keyPair k)) (drawn s))
  | Ret None =>
      (Ret None, mkKeyState (mkKeyManager (m_keyRing k) (m_session k) store
                               (<[session := keyRing]> (m_keyRings k)) (m_keyPair k)) (drawn s))
  | Panic => (Panic, s)
  | NoFuel => (NoFuel, s)
  end.

(** ethcrypto/key_manager.go, KeyManager.load. *)
Definition load (session : bytes) : KM (error + option KeyRing) :=
  k ← get_manager;
  match m_keyRings k !! session with
  | Some keyRing => mret (inr (Some keyRing))
  | None => lift (ks_Load (m_keyStore k) session)
  end.

(** ethcrypto/key_manager.go, cursorError. *)
Definition cursorError (cursor len : Z) : error :=
  Errorf (asc "cursor " ++ decimal cursor ++ asc " out of range (0.." ++ decimal len ++ asc ")").

(** ethcrypto/key_manager.go, KeyManager.reset. The mutex it takes is its own. *)
Definition reset (session : bytes) (cursor : Z) (keyRing : KeyRing) : KM (option error) :=
  if Len keyRing <=? cursor then mret (Some (cursorError cursor (Len keyRing)))
  else
    err ← save session keyRing;
    match err with
    | Some err => mret (Some err)
    | None =>
        k ← get_manager;
        _ ← put_manager (mkKeyManager (Some keyRing) session (m_keyStore k) (m_keyRings k) (m_keyPair k));
        keyPair ← lift (GetKeyPair keyRing cursor);
        k ← get_manager;
        _ ← put_manager (mkKeyManager (m_keyRing k) (m_session k) (m_keyStore k) (m_keyRings k) keyPair);
        mret None
    end.

(** ethcrypto/key_manager.go, KeyManager.SetCursor. *)
Definition SetCursor (cursor : Z) : KM (option error) :=
  k ← get_manager;
  keyRing ← lift (deref (m_keyRing k));
  if Len keyRing <=? cursor then mret (Some (cursorError cursor (Len keyRing)))
  else
    keyPair ← lift (GetKeyPair keyRing cursor);
    _ ← put_manager (mkKeyManager (m_keyRing k) (m_session k) (m_keyStore k) (m_keyRings k) keyPair);
    mret None.

(** [NewGeneratedKeyRing(1)]. *)
Definition generate_ring : KM KeyRing := λ s,
  (Ret (NewGeneratedKeyRing [generated (drawn s)]), mkKeyState (manager s) (S (drawn s))).

(** ethcrypto/key_manager.go, KeyManager.Init. *)
Definition Init (session : bytes) (cursor : Z) (force : bool) : KM (option error) :=
  keyRing ← (if force then mret (inr None) else load session);
  match keyRing with
  | inl err => mret (Some err)
  | inr keyRing =>
      keyRing ← (match keyRing with None => generate_ring | Some keyRing => mret keyRing end);
      reset session cursor keyRing
  end.

(** ethcrypto/key_manager.go, KeyManager.InitFromSecretsFile. From what reading
    the file gave. *)
Definition InitFromSecretsFile (session : bytes) (cursor : Z) (content : error + bytes) : KM (option error) :=
  keyRing ← lift (NewKeyRingFromFile pubkey_error content);
  match keyRing with
  | inl err => mret (Some err)
  | inr keyRing => reset session cursor keyRing
  end.

(** ethcrypto/key_manager.go, KeyManager.InitFromString. *)
Definition InitFromString (session : bytes) (cursor : Z) (secrets : bytes) : KM (option error) :=
  keyRing ← lift (NewKeyRingFromString pubkey_error secrets);
  match keyRing with
  | inl err => mret (Some err)
  | inr keyRing => reset session cursor keyRing
  end.

(** ethcrypto/key_manager.go, KeyManager.Export. Into the files of a directory. *)
Definition Export (write_error : bytes -> option error) (dir : bytes) (fs : gmap bytes bytes) (k : KeyManager K)
    : outcome (option error) * FileKeyStore :=
  match m_keyRing k with
  | None => (Panic, mkFileKeyStore dir fs)
  | Some keyRing => File_Save write_error (m_session k) keyRing (mkFileKeyStore dir fs)
  end.

End Manager.
Arguments KeyState K : clear implicits.
Arguments mkKeyState {K}.
Arguments manager {K}.
Arguments drawn {K}.

(** * Cache and store agree *)

Section ManagerLaws.
Context `{Crypto} `{Secp256k1} `{!Secp256k1Laws} {K : Type} `{!KeyStore K}.
Context {session_ok : bytes -> Prop} `{!KeyStoreLaws K session_ok ring_ok}.
Variable pubkey_error : bytes -> error.
Variable generated : nat -> bytes.

(** What the curve library promises: what it generates is a secret key, and
    secret keys have 32 bytes. *)
Hypothesis generated_ok : ∀ n, is_Some (NewKeyPairFromSec (generated n)).
Hypothesis secret_len : ∀ sec, is_Some (NewKeyPairFromSec sec) -> zlen sec = 32.

(** Every ring the store holds for a session is good, the store answers for every
    session what the cache has for it, and the current key is one of the
    current ring, which is the one cached for the current session. *)
Record manager_ok (k : KeyManager K) : Prop := {
  ok_store : ∀ s r, session_ok s -> ks_Load (m_keyStore k) s = Ret (inr (Some r)) -> ring_ok r;
  ok_cache : ∀ s r, m_keyRings k !! s = Some r -> session_ok s ∧ ks_Load (m_keyStore k) s = Ret (inr (Some r));
  ok_current : match m_keyRing k with
               | None => m_keyPair k = None
               | Some r => m_keyRings k !! m_session k = Some r ∧
                           ∃ kp, m_keyPair k = Some kp ∧ Some kp ∈ keys r ∧ key_ok kp
               end;
}.

Lemma GetKeyPair_ok r cursor keyPair :
  ring_ok r -> cursor < Len r -> GetKeyPair r cursor = Ret keyPair ->
  ∃ kp, keyPair = Some kp ∧ Some kp ∈ keys r ∧ key_ok kp.
Proof.
  intros (kps & Hr & _ & Hok & _) Hc. unfold GetKeyPair, Len in *. rewrite (proj2 (Z.ltb_lt _ _)) by done.
  intros [_ Hi]%index_Ret. pose proof Hi as Hin%list_elem_of_lookup_2.
  rewrite Hr, list_lookup_fmap in Hi. destruct (kps !! Z.to_nat cursor) as [kp|] eqn:E; [|done].
  injection Hi as <-. exists kp. split_and!; [done..|]. by eapply Forall_lookup_1.
Qed.

(** A ring that makes [reset] return without an error is not empty. *)
Lemma reset_ok session cursor r s s' :
  session_ok session -> (0 < Len r -> ring_ok r) -> manager_ok (manager s) ->
  reset session cursor r s = (Ret None, s') ->
  manager_ok (manager s') ∧ ring_ok r ∧ m_keyRings (manager s') !! session = Some r ∧
  GetKeyPair r cursor = Ret (m_keyPair (manager s')) ∧ cursor < Len r ∧ drawn s' = drawn s.
Proof.
  intros Hs Hr Hm. unfold reset. destruct (Z.leb_spec (Len r) cursor) as [|Hc]; [done|].
  unfold mbind, st_bind, save. destruct (ks_Save session r (m_keyStore (manager s))) as [[[e|]| |] k'] eqn:E; try done.
  unfold get_manager, put_manager, lift, mret, st_ret. cbn [manager drawn m_keyRing m_session m_keyStore m_keyRings m_keyPair].
  destruct (GetKeyPair r cursor) as [keyPair| |] eqn:Eg; [|done..]. intros [= <-].
  cbn [manager drawn m_keyRing m_session m_keyStore m_keyRings m_keyPair].
  assert (ring_ok r) as Hok.
  { apply Hr. unfold Len, GetKeyPair in *. revert Eg. destruct (Z.ltb_spec cursor (zlen (keys r))); [|lia].
    intros Hi%index_lt. lia. }
  split; [|split_and!; [done|apply lookup_insert_eq|done..]]. destruct Hm as [Hst Hca Hcu].
  pose proof (ks_load_saved _ _ _ _ Hs Hok E) as Hl.
  split; cbn [m_keyRing m_session m_keyStore m_keyRings m_keyPair].
  - intros s1 r1 Hs1 Hl1. destruct (decide (s1 = session)) as [->|Hne]; [congruence|].
    apply (Hst s1 r1 Hs1). by rewrite <-(ks_load_other _ _ s1 _ _ Hs Hs1 (not_eq_sym Hne) E).
  - intros s1 r1. destruct (decide (s1 = session)) as [->|Hne].
    + rewrite lookup_insert_eq. by intros [= <-].
    + rewrite lookup_insert_ne by congruence. intros [Hs1 Hl1]%Hca. split; [done|].
      by rewrite (ks_load_other _ _ s1 _ _ Hs Hs1 (not_eq_sym Hne) E).
  - split; [apply lookup_insert_eq|]. by eapply GetKeyPair_ok.
Qed.

Lemma reset_error session cursor r s e s' : reset session cursor r s = (Ret (Some e), s') -> s' = s.
Proof.
  unfold reset. destruct (Z.leb_spec (Len r) cursor); [by intros [= _ <-]|].
  unfold mbind, st_bind, save. destruct (ks_Save session r (m_keyStore (manager s))) as [[[e'|]| |] k'] eqn:E; try done.
  - by apply ks_save_no_error in E.
  - unfold get_manager, put_manager, lift. by destruct (GetKeyPair r cursor).
Qed.

(** What a session is set to from a ring that is good if it is not empty. *)
Lemma reset_keeps session cursor r s o s' :
  session_ok session -> (0 < Len r -> ring_ok r) -> manager_ok (manager s) ->
  reset session cursor r s = (Ret o, s') -> manager_ok (manager s').
Proof.
  intros Hs Hr Hm. destruct o as [e|].
  - by intros ->%reset_error.
  - intros Hreset. by apply (reset_ok _ _ _ _ _ Hs Hr Hm) in Hreset as [Hok _].
Qed.

Lemma generated_ring_ok n : ring_ok (NewGeneratedKeyRing [generated n]).
Proof.
  destruct (generated_ok n) as [kp Hkp]. unfold NewGeneratedKeyRing. cbn [fold_left]. unfold GenerateNewKeyPair.
  rewrite Hkp. exists [kp]. split_and!; [done|done| |done]. constructor; [|done].
  assert (PrivateKey kp = generated n) as Hsec.
  { revert Hkp. unfold NewKeyPairFromSec. by intros (? & _ & ->)%fmap_Some. }
  unfold key_ok. rewrite Hsec. split; [done|]. apply secret_len. by rewrite Hkp.
Qed.

Lemma load_ok session s o s' :
  session_ok session -> manager_ok (manager s) -> load session s = (Ret (inr o), s') ->
  s' = s ∧ ∀ r, o = Some r -> ring_ok r.
Proof.
  intros Hs [Hst Hca _]. unfold load, mbind, st_bind, get_manager.
  destruct (m_keyRings (manager s) !! session) as [r|] eqn:E.
  - intros [= <- <-]. split; [done|]. intros r' [= <-]. apply Hca in E as [_ E]. by eapply Hst.
  - unfold lift. intros [= E' <-]. split; [done|]. intros r ->. by eapply Hst.
Qed.

Lemma Init_ok session cursor force s o s' :
  session_ok session -> manager_ok (manager s) -> Init generated session cursor force s = (Ret o, s') ->
  ∃ r s1, ring_ok r ∧ manager s1 = manager s ∧ (drawn s1 = drawn s ∨ drawn s1 = S (drawn s)) ∧
    (reset session cursor r s1 = (Ret o, s') ∨ (is_Some o ∧ s' = s)).
Proof.
  intros Hs Hm. unfold Init. unfold mbind at 1, st_bind at 1.
  assert (∀ o', match o' with None => generate_ring generated | Some r => mret r end s
    = (Ret (default (NewGeneratedKeyRing [generated (drawn s)]) o'),
       if o' then s else mkKeyState (manager s) (S (drawn s)))) as Hgen by by intros [r|].
  pose proof (generated_ring_ok (drawn s)) as Hgr.
  assert (∀ o', (∀ r, o' = Some r -> ring_ok r) ->
    ((keyRing ← match o' with None => generate_ring generated | Some r => mret r end; reset session cursor keyRing) s) = (Ret o, s') ->
    ∃ r s1, ring_ok r ∧ manager s1 = manager s ∧ (drawn s1 = drawn s ∨ drawn s1 = S (drawn s)) ∧
    (reset session cursor r s1 = (Ret o, s') ∨ (is_Some o ∧ s' = s))) as Hgo.
  { intros o' Ho' Hrun. unfold mbind, st_bind in Hrun. rewrite Hgen in Hrun.
    eexists _, _. split; [|split; [|split; [|left; exact Hrun]]].
    - destruct o'; [by apply Ho'|done].
    - by destruct o'.
    - destruct o'; cbn; tauto. }
  destruct force.
  - by apply (Hgo None).
  - destruct (load session s) as [[[e|o']| |] s1] eqn:E; [| |done..].
    2: { apply load_ok in E as [-> Ho]; [|done..]. by apply (Hgo o'). }
    intros [= <- <-]. assert (s1 = s) as ->.
    { unfold load, mbind, st_bind, get_manager, lift in E. destruct (m_keyRings (manager s) !! session); by injection E. }
    exists (NewGeneratedKeyRing [generated (drawn s)]), s. split_and!; [done|done|by left|by right].
Qed.

(** * The manager at work *)

(** The sessions' names and secrets are the user's; a text of secrets is shorter
    than 2^57 bytes. *)
Inductive key_step : relation (KeyState K) :=
| step_Init s session cursor force o s' :
    session_ok session -> Init generated session cursor force s = (Ret o, s') -> key_step s s'
| step_SetCursor s cursor o s' : SetCursor cursor s = (Ret o, s') -> key_step s s'
| step_InitFromString s session cursor secrets o s' :
    session_ok session -> zlen secrets < 2 ^ 57 ->
    InitFromString pubkey_error session cursor secrets s = (Ret o, s') -> key_step s s'
| step_InitFromSecretsFile s session cursor content o s' :
    session_ok session -> (∀ text, content = inr text -> zlen text < 2 ^ 57) ->
    InitFromSecretsFile pubkey_error session cursor content s = (Ret o, s') -> key_step s s'.

(** A manager without a ring, on a store. *)
Definition fresh (store : K) (n : nat) : KeyState K := mkKeyState (mkKeyManager None [] store ∅ None) n.

Definition store_ok (store : K) : Prop :=
  ∀ s r, session_ok s -> ks_Load store s = Ret (inr (Some r)) -> ring_ok r.

Lemma fresh_ok store n : store_ok store -> manager_ok (manager (fresh store n)).
Proof. intros Hs. split; cbn; [exact Hs|intros s r; by rewrite lookup_empty|done]. Qed.

Lemma SetCursor_keeps cursor s o s' :
  manager_ok (manager s) -> SetCursor cursor s = (Ret o, s') -> manager_ok (manager s').
Proof.
  intros Hm. unfold SetCursor, mbind, st_bind, get_manager, lift, put_manager, mret, st_ret.
  destruct (m_keyRing (manager s)) as [r|] eqn:E; [|done]. cbn [deref].
  destruct (Z.leb_spec (Len r) cursor) as [|Hc]; [by intros [= _ <-]|].
  destruct (GetKeyPair r cursor) as [keyPair| |] eqn:Eg; [|done..]. intros [= _ <-].
  destruct Hm as [Hst Hca Hcu]. cbn [manager]. rewrite E in Hcu. destruct Hcu as [Hcached _].
  split; cbn [m_keyRing m_session m_keyStore m_keyRings m_keyPair]; [exact Hst|exact Hca|].
  split; [exact Hcached|]. eapply GetKeyPair_ok; [|exact Hc|exact Eg].
  apply Hca in Hcached as [Hs Hl]. by eapply Hst.
Qed.

Lemma key_step_keeps s s' : manager_ok (manager s) -> key_step s s' -> manager_ok (manager s').
Proof.
  intros Hm Hstep. destruct Hstep as [s session cursor force o s' Hs Hrun|s cursor o s' Hrun
    |s session cursor secrets o s' Hs Hlen Hrun|s session cursor content o s' Hs Hlen Hrun].
  - destruct (Init_ok _ _ _ _ _ _ Hs Hm Hrun) as (r & s1 & Hr & Hm1 & _ & [Hreset|[_ ->]]); [|done].
    rewrite <-Hm1 in Hm. by eapply reset_keeps.
  - by eapply SetCursor_keeps.
  - unfold InitFromString, mbind, st_bind, lift in Hrun.
    destruct (NewKeyRingFromString pubkey_error secrets) as [[e|r]| |] eqn:E; [by injection Hrun as _ <-| |done..].
    eapply reset_keeps; [exact Hs| |exact Hm|exact Hrun]. by eapply ring_from_string.
  - unfold InitFromSecretsFile, mbind, st_bind, lift in Hrun.
    destruct (NewKeyRingFromFile pubkey_error content) as [[e|r]| |] eqn:E; [by injection Hrun as _ <-| |done..].
    eapply reset_keeps; [exact Hs| |exact Hm|exact Hrun].
    destruct content as [e|text]; [done|]. cbn in E. eapply ring_from_string; [done|by apply Hlen|exact E].
Qed.

Lemma reachable_manager_ok store n s :
  store_ok store -> rtc key_step (fresh store n) s -> manager_ok (manager s).
Proof.
  intros Hst. intros Hr. assert (manager_ok (manager (fresh store n))) as Hm by by apply fresh_ok.
  induction Hr as [|s s1 s2 Hstep _ IH]; [done|]. apply IH. by eapply key_step_keeps.
Qed.


(** C28. The keys persist.  Take a store with the laws of [KeyStore] for some sessions
    (for the file store: the empty name, or a plain file name other than [default]; a
    session whose name ends in a slash is lost), in which every ring stored for them
    is made of good keys.  After any sequence of initialisations, imports (of
    fewer than 2^57 bytes) and cursor moves that return, all for such sessions, when
    a manager has been initialised for one of them, by generating a key or by
    loading one, a manager started afresh on the same store, with the same session
    and cursor, comes to the same key, and generates none.  (The curve library
    generates valid keys, and secret keys have 32 bytes.) *)
Theorem key_manager_restart (store : K) (n m : nat) (session : bytes) (cursor : Z) (force : bool) (s s' : KeyState K) :
  store_ok store -> rtc key_step (fresh store n) s -> session_ok session ->
  Init generated session cursor force s = (Ret None, s') ->
  ∃ s'' kp, Init generated session cursor false (fresh (m_keyStore (manager s')) m) = (Ret None, s'') ∧
    m_keyPair (manager s') = Some kp ∧ m_keyPair (manager s'') = Some kp ∧ drawn s'' = m.
Proof.
  intros Hst Hreach Hs Hrun. pose proof (reachable_manager_ok _ _ _ Hst Hreach) as Hm.
  destruct (Init_ok _ _ _ _ _ _ Hs Hm Hrun) as (r & s1 & Hr & Hm1 & _ & [Hreset|[[? ?] _]]); [|done].
  rewrite <-Hm1 in Hm. apply (reset_ok _ _ _ _ _ Hs (λ _, Hr) Hm) in Hreset as (Hok & _ & Hcached & Hget & Hc & _).
  destruct (GetKeyPair_ok _ _ _ Hr Hc Hget) as (kp & Hkp & _ & _).
  pose proof (proj2 (ok_cache _ Hok _ _ Hcached)) as Hload.
  destruct (ks_save_ok (m_keyStore (manager s')) session r Hs Hr) as [k'' Hsave].
  eexists _, kp. split.
  { unfold Init, load, mbind, st_bind, get_manager, lift, fresh. cbn [manager m_keyRings m_keyStore].
    rewrite lookup_empty, Hload. unfold mret, st_ret, reset. rewrite (proj2 (Z.leb_gt _ _)) by done.
    unfold mbind, st_bind, save, get_manager, put_manager, lift. cbn [manager m_keyStore]. rewrite Hsave, Hget. reflexivity. }
  cbn. by rewrite Hkp.
Qed.

End ManagerLaws.

(** A cursor below zero passes the test against the length and panics, after the
    ring has been saved. *)
Lemma negative_cursor_panics `{Crypto} `{Secp256k1} {K : Type} `{KeyStore K} session cursor r (s : KeyState K) k' :
  cursor < 0 -> ks_Save session r (m_keyStore (manager s)) = (Ret None, k') ->
  (reset session cursor r s).1 = Panic ∧ m_keyStore (manager (reset session cursor r s).2) = k'.
Proof.
  intros Hc Hsave. unfold reset. assert (0 <= Len r) by (unfold Len; lenlia).
  destruct (Z.leb_spec (Len r) cursor); [lia|]. unfold mbind, st_bind, save. rewrite Hsave.
  unfold get_manager, put_manager, lift, GetKeyPair. unfold Len in *.
  rewrite (proj2 (Z.ltb_lt _ _)) by lia. unfold index. rewrite (proj2 (Z.leb_gt 0 cursor)) by lia. done.
Qed.

(** * An example: two managers on one database, and on one directory *)

#[local] Existing Instances toy_crypto toy_curve toy_curve_laws.

Definition ex_error (b : bytes) : error := Errorf b.
Definition ex_generated (n : nat) : bytes := be_fixed 32 (1 + Z.of_nat n).

Lemma toy_secret_len sec : is_Some (NewKeyPairFromSec sec) -> zlen sec = 32.
Proof. intros [kp Hkp]. revert Hkp. unfold NewKeyPairFromSec. by intros (pub & [Hl _]%toy_pub & _)%fmap_Some. Qed.

Lemma ex_generated_ok n : is_Some (NewKeyPairFromSec (ex_generated n)).
Proof.
  unfold NewKeyPairFromSec, ex_generated. cbn [secp_GeneratePubKey toy_curve].
  rewrite zlen_be_fixed, (proj2 (Z.eqb_eq _ _)) by done. by eexists.
Qed.

#[local] Instance ex_db_store : KeyStore (DBKeyStore MemDatabase) := DB_KeyStore ex_error.
#[local] Instance ex_db_laws : KeyStoreLaws (DBKeyStore MemDatabase) (λ _, True) ring_ok := DB_KeyStoreLaws ex_error.

Definition ex_store : DBKeyStore MemDatabase := mkDBKeyStore NewMemDatabase.

Lemma ex_store_ok : store_ok (session_ok := λ _, True) ex_store.
Proof.
  intros s r _. cbn [ks_Load ex_db_store DB_KeyStore]. unfold DB_Load. cbn [ks_db ex_store db_Get Mem_Database].
  unfold Mem_Get. cbn [mem_db NewMemDatabase]. rewrite lookup_empty. discriminate.
Qed.

(** One key of two lines of secrets, then the other. *)
Definition two_secrets : bytes :=
  Join [Bytes2Hex (ex_generated 7); ret_or [] (KeyPair_Mnemonic (mkKeyPair (ex_generated 8) []))] [x0a].

Definition imported : KeyState (DBKeyStore MemDatabase) :=
  (InitFromString ex_error (asc "a") 1 two_secrets (fresh ex_store 0)).2.

Lemma imported_reached :
  rtc (key_step (session_ok := λ _, True) ex_error ex_generated) (fresh ex_store 0) imported.
Proof.
  apply rtc_once. eapply (step_InitFromString _ _ _ (asc "a") 1 two_secrets None); [done|vm_compute; reflexivity|].
  vm_compute. reflexivity.
Qed.


(** The file store, in a directory that is still empty. *)
Section FileExample.
#[local] Instance ex_file_store : KeyStore FileKeyStore := File_KeyStore ex_error (λ _, None) (λ _, None) ex_error.
#[local] Instance ex_file_laws : KeyStoreLaws FileKeyStore file_session ring_ok :=
  File_KeyStoreLaws ex_error (λ _, None) (λ _, None) ex_error (λ _, eq_refl) (λ _, eq_refl).

Definition ex_dir : FileKeyStore := mkFileKeyStore (asc "/home/eth/keys/") ∅.

Lemma ex_dir_ok : store_ok (session_ok := file_session) ex_dir.
Proof. intros s r _. cbn [ks_Load ex_file_store File_KeyStore]. unfold File_Load. cbn [files ex_dir]. by rewrite lookup_empty. Qed.

Definition generated_in_file : KeyState FileKeyStore := (Init ex_generated [] 0 false (fresh ex_dir 0)).2.

Lemma key_manager_restart_witness :
  ∃ s'' kp, Init ex_generated [] 0 false (fresh (m_keyStore (manager generated_in_file)) 5) = (Ret None, s'') ∧
    m_keyPair (manager generated_in_file) = Some kp ∧ m_keyPair (manager s'') = Some kp ∧ drawn s'' = 5%nat.
Proof.
  apply (key_manager_restart (session_ok := file_session) ex_error ex_generated ex_generated_ok toy_secret_len
           ex_dir 0 5 [] 0 false (fresh ex_dir 0) generated_in_file ex_dir_ok); [constructor| |].
  - split; [by left|]. vm_compute. discriminate.
  - vm_compute. reflexivity.
Defined.

(** The files it leaves. *)
Lemma generated_files :
  map fst (map_to_list (files (m_keyStore (manager generated_in_file))))
  ⊆ map asc ["/home/eth/keys/default.prv"; "/home/eth/keys/default.pub";
             "/home/eth/keys/default.addr"; "/home/eth/keys/default.mne"]%string.
Proof. apply (bool_decide_unpack _). vm_compute. exact I. Qed.

(** The session without a name and the one called [default] share their files:
    the second load finds the first one's key. *)
Lemma default_session_shared :
  ks_Load (m_keyStore (manager generated_in_file)) (asc "default") = ks_Load (m_keyStore (manager generated_in_file)) [].
Proof. reflexivity. Qed.

(** A session whose name ends in a slash is saved where it is not looked for. *)
Definition saved_slash : FileKeyStore := (ks_Save (asc "a/") (mkKeyRing [NewKeyPairFromSec (ex_generated 0)]) ex_dir).2.

Lemma slash_session_lost :
  ks_Load saved_slash (asc "a/") = Ret (inr None) ∧ is_Some (files saved_slash !! asc "/home/eth/keys/a.prv").
Proof. vm_compute. split; [reflexivity|]. by eexists. Qed.

End FileExample.

Definition two_pairs : list KeyPair := omap NewKeyPairFromSec [ex_generated 7; ex_generated 8].

Lemma two_pairs_ok : Forall key_ok two_pairs.
Proof. repeat constructor; vm_compute; reflexivity. Qed.

Lemma keyring_text_roundtrip_witness :
  NewKeyRingFromString ex_error two_secrets = Ret (inr (mkKeyRing (map Some two_pairs))).
Proof.
  apply (keyring_text_roundtrip ex_error two_pairs
           [Bytes2Hex (ex_generated 7); ret_or [] (KeyPair_Mnemonic (mkKeyPair (ex_generated 8) []))]).
  - exact two_pairs_ok.
  - discriminate.
  - constructor; [left; vm_compute; reflexivity|]. constructor; [right; vm_compute; reflexivity|constructor].
Defined.
