(* ===== verification/Nibbles.v ===== *)
(** [ethtrie/encoding.go] and [ethtrie/slice.go]: trie keys as lists of nibbles
    with an optional terminator (16), their compact ("hex prefix") string form,
    and the slice comparisons of the trie walk.  A nibble is a Go [int], here a
    [Z]. *)

From S2P Require Import Prelude Big Bytes.

(** * The code *)

(** [strings.IndexByte]. *)
Fixpoint IndexByte (s : bytes) (c : byte) : Z :=
  match s with
  | [] => -1
  | x :: r => if decide (x = c) then 0
              else let i := IndexByte r c in if i <? 0 then -1 else i + 1
  end.

Definition hex_base : bytes := asc "0123456789abcdef".

(** ethtrie/encoding.go, CompactHexDecode. *)
Definition CompactHexDecode (str : bytes) : list Z :=
  map (IndexByte hex_base) (Bytes2Hex str) ++ [16].

(** ethtrie/encoding.go 21-24, CompactEncode. The loop over pairs; an odd number
    of elements would index past the end. *)
Fixpoint pack_nibbles (l : list Z) : outcome bytes :=
  match l with
  | [] => Ret []
  | [_] => Panic
  | a :: b :: r => t ← pack_nibbles r; Ret (z2b (16 * a + b) :: t)
  end.

(** ethtrie/encoding.go, CompactEncode. *)
Definition CompactEncode (hexSlice : list Z) : outcome bytes :=
  last ← index hexSlice (zlen hexSlice - 1);
  let terminator := if last =? 16 then 1 else 0 in
  let hexSlice := if terminator =? 1 then take (length hexSlice - 1) hexSlice else hexSlice in
  let oddlen := zlen hexSlice `mod` 2 in
  let flags := 2 * terminator + oddlen in
  pack_nibbles (if negb (oddlen =? 0) then flags :: hexSlice else flags :: 0 :: hexSlice).

(** ethtrie/encoding.go, CompactDecode. *)
Definition CompactDecode (str : bytes) : outcome (list Z) :=
  let base := CompactHexDecode str in
  let base := take (length base - 1) base in
  b0 ← index base 0;
  let base := if 2 <=? b0 then base ++ [16] else base in
  if b0 `mod` 2 =? 1 then slice base 1 (zlen base) else slice base 2 (zlen base).

(** ethtrie/encoding.go, DecodeCompact. *)
Definition DecodeCompact (key : list Z) : outcome bytes :=
  str ← foldr (λ v acc, r ← acc;
                 if v <? 16 then c ← index hex_base v; Ret (c :: r) else Ret r)
              (Ret []) key;
  Ret (Hex2Bytes str).

(** ethtrie/slice.go, CompareIntSlice. *)
Fixpoint CompareIntSlice (a b : list Z) : bool :=
  match a, b with
  | [], [] => true
  | x :: a, y :: b => (x =? y) && CompareIntSlice a b
  | _, _ => false
  end.

(** ethtrie/slice.go, MatchingNibbleLength. *)
Fixpoint MatchingNibbleLength (a b : list Z) : nat :=
  match a, b with
  | x :: a, y :: b => if x =? y then S (MatchingNibbleLength a b) else O
  | _, _ => O
  end.

(** * Nibble lists *)

Definition nibble (z : Z) : Prop := 0 <= z < 16.
Notation nibbles := (Forall nibble).

(** The nibbles of a string. *)
Definition to_nibbles (s : bytes) : list Z := b ← s; [b2z b / 16; b2z b `mod` 16].

Arguments to_nibbles : simpl never.
Arguments Bytes2Hex : simpl never.

(** The terminator of a key, when it has one. *)
Definition term (t : bool) : list Z := if t then [16] else [].

(** The compact form as a function: flag nibble, padding, nibbles in pairs. *)
Fixpoint pairs (l : list Z) : bytes :=
  match l with
  | a :: b :: r => z2b (16 * a + b) :: pairs r
  | _ => []
  end.

Definition compact (t : bool) (k : list Z) : bytes :=
  let f := if t then 2 else 0 in
  if Nat.even (length k) then pairs (f :: 0 :: k) else pairs (f + 1 :: k).

Lemma IndexByte_hexdigit n : nibble n -> IndexByte hex_base (hexdigit n) = n.
Proof.
  unfold nibble. intros H.
  assert (n = 0 ∨ n = 1 ∨ n = 2 ∨ n = 3 ∨ n = 4 ∨ n = 5 ∨ n = 6 ∨ n = 7 ∨ n = 8 ∨ n = 9
    ∨ n = 10 ∨ n = 11 ∨ n = 12 ∨ n = 13 ∨ n = 14 ∨ n = 15) as Hn by lia.
  destruct_or! Hn; subst; vm_compute; reflexivity.
Qed.

Lemma to_nibbles_cons b s : to_nibbles (b :: s) = b2z b / 16 :: b2z b `mod` 16 :: to_nibbles s.
Proof. done. Qed.

Lemma to_nibbles_ok s : nibbles (to_nibbles s).
Proof.
  induction s as [|b s IH]; [constructor|]. rewrite to_nibbles_cons.
  constructor; [apply nibble_hi|]. constructor; [apply nibble_lo|done].
Qed.

Lemma CompactHexDecode_eq s : CompactHexDecode s = to_nibbles s ++ [16].
Proof.
  unfold CompactHexDecode. f_equal.
  induction s as [|b s IH]; [done|].
  rewrite Bytes2Hex_cons, to_nibbles_cons. cbn [map]. rewrite IH.
  rewrite !IndexByte_hexdigit; [done|apply nibble_lo|apply nibble_hi].
Qed.

Lemma to_nibbles_inj s t : to_nibbles s = to_nibbles t -> s = t.
Proof.
  revert t. induction s as [|b s IH]; intros [|c t]; rewrite ?to_nibbles_cons; try done.
  intros [= H1 H2 H3]. f_equal; [|by apply IH].
  by rewrite <-(nibbles_byte b), <-(nibbles_byte c), H1, H2.
Qed.

Lemma nibble_pair a b : nibble a -> nibble b ->
  b2z (z2b (16 * a + b)) / 16 = a ∧ b2z (z2b (16 * a + b)) `mod` 16 = b.
Proof.
  unfold nibble. intros Ha Hb. rewrite b2z_z2b_small by lia.
  replace (16 * a + b) with (a * 16 + b) by lia.
  split; [rewrite Z.div_add_l, Z.div_small by lia; lia|].
  rewrite Z.add_comm, Z_mod_plus_full. apply Z.mod_small. lia.
Qed.

(** Induction two elements at a time. *)
Lemma pair_ind {A} (P : list A -> Prop) :
  P [] -> (∀ a, P [a]) -> (∀ a b l, P l -> P (a :: b :: l)) -> ∀ l, P l.
Proof.
  intros H0 H1 H2. fix IH 1. intros [|a [|b l]]; [done|apply H1|apply H2, IH].
Qed.

Lemma pairs_nibbles l : nibbles l -> Nat.even (length l) = true -> to_nibbles (pairs l) = l.
Proof.
  induction l as [|a|a b l IH] using pair_ind; [done|done|].
  intros Hn He. apply Forall_cons in Hn as [Ha Hn]. apply Forall_cons in Hn as [Hb Hn].
  simpl. rewrite to_nibbles_cons.
  destruct (nibble_pair a b Ha Hb) as [-> ->]. by rewrite IH.
Qed.

Lemma pack_nibbles_pairs l : Nat.even (length l) = true -> pack_nibbles l = Ret (pairs l).
Proof.
  induction l as [|a|a b l IH] using pair_ind; [done|done|].
  intros He. simpl in *. by rewrite IH.
Qed.

Lemma zlen_mod2 {A} (l : list A) : zlen l `mod` 2 = if Nat.even (length l) then 0 else 1.
Proof.
  induction l as [|a|a b l IH] using pair_ind; [done|done|].
  rewrite !zlen_cons. replace (1 + (1 + zlen l)) with (zlen l + 1 * 2) by lia.
  rewrite Z_mod_plus_full, IH. done.
Qed.

Lemma take_app_last {A} (l : list A) x : take (length (l ++ [x]) - 1) (l ++ [x]) = l.
Proof. rewrite length_app. simpl. apply take_app_length'. lia. Qed.

(** * The compact form is what the code computes, and decoding inverts it *)

Lemma CompactEncode_eq t k :
  nibbles k -> (t = false -> k ≠ []) -> CompactEncode (k ++ term t) = Ret (compact t k).
Proof.
  intros Hk Hne. unfold CompactEncode, compact.
  destruct t; simpl term.
  - rewrite (index_middle k 16 []) by lenlia. cbn [mbind outcome_bind].
    change (16 =? 16) with true. cbn iota. change (1 =? 1) with true. cbn iota.
    rewrite take_app_last, zlen_mod2.
    destruct (Nat.even (length k)) eqn:E; simpl negb; cbn iota.
    + by rewrite pack_nibbles_pairs.
    + rewrite pack_nibbles_pairs; [done|]. cbn [length]. by rewrite Nat.even_succ, <-Nat.negb_even, E.
  - rewrite app_nil_r. destruct k as [|x k _] using rev_ind; [by destruct Hne|].
    rewrite (index_middle k x []) by lenlia. cbn [mbind outcome_bind].
    apply Forall_app in Hk as [Hk Hx]. apply (proj1 (Forall_singleton nibble _)) in Hx. unfold nibble in Hx.
    destruct (Z.eqb_spec x 16); [lia|]. change (0 =? 1) with false. cbn iota.
    rewrite zlen_mod2. destruct (Nat.even (length (k ++ [x]))) eqn:E; simpl negb; cbn iota.
    + by rewrite pack_nibbles_pairs.
    + rewrite pack_nibbles_pairs; [done|]. cbn [length]. by rewrite Nat.even_succ, <-Nat.negb_even, E.
Qed.

Lemma compact_nibbles t k : nibbles k ->
  to_nibbles (compact t k) =
  (if Nat.even (length k) then [if t then 2 else 0; 0] else [if t then 3 else 1]) ++ k.
Proof.
  intros Hk. unfold compact. destruct (Nat.even (length k)) eqn:E.
  - rewrite pairs_nibbles; [done| |done].
    constructor; [destruct t; unfold nibble; lia|]. constructor; [unfold nibble; lia|done].
  - rewrite pairs_nibbles; [by destruct t| |].
    + constructor; [destruct t; unfold nibble; lia|done].
    + cbn [length]. by rewrite Nat.even_succ, <-Nat.negb_even, E.
Qed.

Lemma CompactDecode_compact t k : nibbles k -> CompactDecode (compact t k) = Ret (k ++ term t).
Proof.
  intros Hk. unfold CompactDecode. rewrite CompactHexDecode_eq, take_app_last.
  rewrite compact_nibbles by done.
  assert (∀ (x : Z) l, index (x :: l) 0 = Ret x) as Hi
    by (intros x l; by apply (index_middle [] x l)).
  assert (∀ (l m : list Z) a, a = zlen l -> slice (l ++ m) a (zlen (l ++ m)) = Ret m) as Hs.
  { intros l m a ->. rewrite <-(app_nil_r m) at 1. apply slice_middle; [done|].
    by rewrite zlen_app. }
  destruct (Nat.even (length k)); [|]; destruct t; cbn [app]; rewrite Hi;
    cbn [mbind outcome_bind]; simpl Z.leb; simpl Z.eqb; cbn iota; simpl term;
    rewrite ?app_nil_r; cbn [app].
  - by rewrite (Hs [2; 0] (k ++ [16])).
  - by rewrite (Hs [0; 0] k).
  - by rewrite (Hs [3] (k ++ [16])).
  - by rewrite (Hs [1] k).
Qed.

Lemma compact_inj t k t' k' :
  nibbles k -> nibbles k' -> compact t k = compact t' k' -> t = t' ∧ k = k'.
Proof.
  intros Hk Hk' Heq.
  assert (k ++ term t = k' ++ term t') as Ha.
  { pose proof (CompactDecode_compact t k Hk) as H1.
    rewrite Heq, CompactDecode_compact in H1 by done. congruence. }
  destruct t, t'; simpl in Ha; rewrite ?app_nil_r in Ha.
  - by apply app_inj_tail in Ha as [-> _].
  - subst. apply Forall_app in Hk' as [_ H16]. apply (proj1 (Forall_singleton nibble _)) in H16.
    unfold nibble in H16. lia.
  - subst. apply Forall_app in Hk as [_ H16]. apply (proj1 (Forall_singleton nibble _)) in H16.
    unfold nibble in H16. lia.
  - done.
Qed.

(** The compact form is never empty, and is the byte zero only for the empty
    key without terminator. *)
Lemma compact_not_zero t k : nibbles k -> (t = false -> k ≠ []) -> compact t k ≠ [x00].
Proof.
  intros Hk Hne H0. pose proof (compact_nibbles t k Hk) as Hc.
  rewrite H0 in Hc. change (to_nibbles [x00]) with [0; 0] in Hc.
  destruct (Nat.even (length k)) eqn:E.
  - destruct t; [done|]. destruct k; [|done]. by apply Hne.
  - destruct t; done.
Qed.

Lemma compact_nonempty t k : compact t k ≠ [].
Proof. unfold compact. destruct (Nat.even (length k)) eqn:E; [done|]. by destruct k. Qed.

(** * Comparisons *)

Lemma CompareIntSlice_spec a b : CompareIntSlice a b = bool_decide (a = b).
Proof.
  revert b. induction a as [|x a IH]; intros [|y b]; simpl; try done.
  rewrite IH. destruct (Z.eqb_spec x y); simpl; repeat case_bool_decide; naive_solver.
Qed.

Lemma MatchingNibbleLength_spec a b :
  ∃ p a' b', a = p ++ a' ∧ b = p ++ b' ∧ MatchingNibbleLength a b = length p ∧
    (∀ x y r s, a' = x :: r -> b' = y :: s -> x ≠ y).
Proof.
  revert b. induction a as [|x a IH]; intros b.
  { exists [], [], b. naive_solver. }
  destruct b as [|y b]; [exists [], (x :: a), []; naive_solver|].
  simpl. destruct (Z.eqb_spec x y) as [->|Hne].
  - destruct (IH b) as (p & a' & b' & -> & -> & -> & Hd).
    exists (y :: p), a', b'. naive_solver.
  - exists [], (x :: a), (y :: b). naive_solver.
Qed.

(** ** The round trips of the encoding file *)

Lemma CompactDecode_CompactEncode t k :
  nibbles k -> (t = false -> k ≠ []) ->
  (s ← CompactEncode (k ++ term t); CompactDecode s) = Ret (k ++ term t).
Proof.
  intros Hk Hne. rewrite CompactEncode_eq by done. by apply CompactDecode_compact.
Qed.

Lemma hex_base_index v : nibble v -> index hex_base v = Ret (hexdigit v).
Proof.
  unfold nibble. intros H.
  assert (v = 0 ∨ v = 1 ∨ v = 2 ∨ v = 3 ∨ v = 4 ∨ v = 5 ∨ v = 6 ∨ v = 7 ∨ v = 8 ∨ v = 9
    ∨ v = 10 ∨ v = 11 ∨ v = 12 ∨ v = 13 ∨ v = 14 ∨ v = 15) as Hn by lia.
  destruct_or! Hn; subst; vm_compute; reflexivity.
Qed.

Lemma DecodeCompact_HexDecode s : DecodeCompact (CompactHexDecode s) = Ret s.
Proof.
  unfold DecodeCompact. rewrite CompactHexDecode_eq.
  assert (foldr (λ v acc, r ← acc;
                 if v <? 16 then c ← index hex_base v; Ret (c :: r) else Ret r)
              (Ret []) (to_nibbles s ++ [16]) = Ret (Bytes2Hex s)) as ->.
  { set (f := λ v acc, _). induction s as [|b s IH]; [done|].
    assert (∀ v r, nibble v -> f v (Ret r) = Ret (hexdigit v :: r)) as Hf.
    { intros v r Hv. unfold f. cbn [mbind outcome_bind].
      destruct (Z.ltb_spec v 16); [|unfold nibble in Hv; lia]. by rewrite hex_base_index. }
    rewrite to_nibbles_cons, Bytes2Hex_cons. cbn [app foldr]. rewrite IH.
    by rewrite !Hf by first [apply nibble_hi | apply nibble_lo]. }
  cbn [mbind outcome_bind]. by rewrite Hex2Bytes_Bytes2Hex.
Qed.
