(* ===== verification/Trie.v ===== *)
(** [ethtrie/trie.go]: the Merkle-Patricia trie with its node cache.

    A trie is a root value and a [Cache] in front of the shared database.  The
    operations run in the monad [TM] over a [Store]: the cache, the database,
    and [e_hashed], a ghost list of the encodings handed to the external hash
    function so far, which no operation reads; theorems that need the hash to
    be collision free ask for it on that list only.

    The recursive walks follow references found in the database, so they carry
    fuel; the theorems of [TrieSpec] show that the length of the key is enough.
    Locks and log output are left out; node values are interface values whose
    slices have no spare capacity. *)

From S2P Require Import Prelude GoVal Big Bytes Rlp Value Db Crypto Nibbles.

(** ethtrie/trie.go 41-49, Node. The record constructor is [NewNode]. *)
Record Node := NewNode { nd_Key : bytes; nd_Value : goval; nd_Dirty : bool }.

(** ethtrie/trie.go, Node.Copy. *)
Definition Node_Copy (n : Node) : Node := NewNode (nd_Key n) (nd_Value n) (nd_Dirty n).

(** ethtrie/trie.go, Cache. The database handle is in the environment. *)
Record Cache := mkCache { nodes : gmap bytes Node; IsDirty : bool }.

(** ethtrie/trie.go, NewCache. *)
Definition NewCache : Cache := mkCache ∅ false.

(** ethtrie/trie.go, Cache.Len. *)
Definition Cache_Len (s : Cache) : Z := Z.of_nat (size (nodes s)).

(** The shared database and the ghost list of hashed encodings. *)
Record Env (D : Type) := mkEnv { e_db : D; e_hashed : list bytes }.
Arguments mkEnv {D}.
Arguments e_db {D}.
Arguments e_hashed {D}.

Record Store (D : Type) := mkStore { st_cache : Cache; st_env : Env D }.
Arguments mkStore {D}.
Arguments st_cache {D}.
Arguments st_env {D}.

(** The walks are computations on the store. *)
Definition TM (D : Type) : Type -> Type := st (Store D).

Section Trie.
Context `{Crypto} {D : Type} `{Database D}.

(** * The cache *)

(** ethtrie/trie.go, Cache.PutValue. *)
Definition PutValue (v : goval) (force : bool) : TM D goval := λ s,
  let value := NewValue v in
  let enc := Value_Encode value in
  if (32 <=? zlen enc) || force then
    let sha := Sha3Bin enc in
    (Ret (VBytes sha),
     mkStore (mkCache (<[sha := NewNode sha value true]> (nodes (st_cache s))) true)
             (mkEnv (e_db (st_env s)) (enc :: e_hashed (st_env s))))
  else (Ret v, s).

(** ethtrie/trie.go, Cache.Put. *)
Definition Cache_Put (v : goval) : TM D goval := PutValue v false.

(** ethtrie/trie.go, Cache.Get. *)
Definition Cache_Get (key : bytes) : TM D goval := λ s,
  match nodes (st_cache s) !! key with
  | Some n => (Ret (nd_Value n), s)
  | None =>
      (value ← lift (NewValueFromBytes (db_data (e_db (st_env s)) key));
       _ ← st_modify (λ s, mkStore (mkCache (<[key := NewNode key value false]>
                                               (nodes (st_cache s))) (IsDirty (st_cache s)))
                                   (st_env s));
       mret value) s
  end.

(** ethtrie/trie.go, Cache.Delete. *)
Definition Cache_Delete (key : bytes) : TM D unit := st_modify (λ s,
  mkStore (mkCache (delete key (nodes (st_cache s))) (IsDirty (st_cache s)))
          (mkEnv (db_Delete (e_db (st_env s)) key) (e_hashed (st_env s)))).

(** ethtrie/trie.go 113-118, Cache.Commit. The loop body's write; the order
    of the map iteration does not matter as the keys differ. *)
Definition commit_node (key : bytes) (node : Node) (db : D) : D :=
  if nd_Dirty node then db_Put db key (Value_Encode (nd_Value node)) else db.

(** ethtrie/trie.go, Cache.Commit. *)
Definition Commit (s : Store D) : Store D :=
  if negb (IsDirty (st_cache s)) then s
  else
    let ns := nodes (st_cache s) in
    let db := map_fold commit_node (e_db (st_env s)) ns in
    let ns' := (λ n, NewNode (nd_Key n) (nd_Value n) false) <$> ns in
    let ns'' := if 200 <? Z.of_nat (size ns') then ∅ else ns' in
    mkStore (mkCache ns'' false) (mkEnv db (e_hashed (st_env s))).

(** ethtrie/trie.go, Cache.Undo. *)
Definition Cache_Undo (c : Cache) : Cache :=
  mkCache (filter (λ kn, nd_Dirty kn.2 = false) (nodes c)) false.

(** * Node access *)

(** ethtrie/trie.go, Trie.getNode. *)
Definition getNode (node : goval) : TM D goval :=
  let n := NewValue node in
  if negb (IsNil (Get n 0)) then mret n
  else
    let str := Value_Str n in
    if zlen str =? 0 then mret n
    else if zlen str <? 32 then lift (NewValueFromBytes str)
    else Cache_Get (Value_Bytes n).

(** ethtrie/trie.go, Trie.getState. *)
Fixpoint getState (fuel : nat) (node : goval) (key : list Z) : TM D goval :=
  match fuel with
  | O => st_nofuel
  | S f =>
      let n := NewValue node in
      if (zlen key =? 0) || IsNil n || (Value_Len n =? 0) then mret node
      else
        currentNode ← getNode node;
        let len := Value_Len currentNode in
        if len =? 0 then mret (VStr [])
        else if len =? 2 then
          k ← lift (CompactDecode (Value_Str (Get currentNode 0)));
          let v := Value_Raw (Get currentNode 1) in
          if (zlen k <=? zlen key) && CompareIntSlice k (take (length k) key)
          then getState f v (drop (length k) key)
          else mret (VStr [])
        else if len =? 17 then
          k0 ← lift (index key 0);
          getState f (Value_Raw (Get currentNode k0)) (drop 1 key)
        else st_panic
  end.

(** ethtrie/trie.go, EmptyStringSlice. *)
Definition EmptyStringSlice (l : nat) : list goval := replicate l (VStr []).

(** ethtrie/trie.go, Trie.Put. *)
Definition Trie_Put (node : goval) : TM D goval := Cache_Put node.

(** ethtrie/trie.go 379-386, Trie.InsertState. The copy of a 17-element node;
    [deleteState] has the same loop. *)
Definition copy_branch (currentNode : goval) : list goval :=
  map (λ i : nat, let cpy := Value_Raw (Get currentNode (Z.of_nat i)) in
           if IsNil cpy then VStr [] else cpy) (seq 0 17).

(** ethtrie/trie.go 357-366, Trie.InsertState. Expand a two-element node to a branch
    at the position [ml] where its path [k] and the key differ. *)
Definition expand_slice (insert : goval -> list Z -> goval -> TM D goval)
    (k : list Z) (v : goval) (key : list Z) (value : goval) (ml : Z) : TM D goval :=
  restk ← lift (slice k (ml + 1) (zlen k));
  oldNode ← insert (VStr []) restk v;
  rest ← lift (slice key (ml + 1) (zlen key));
  newNode ← insert (VStr []) rest value;
  ki ← lift (index k ml);
  scaled ← lift (assign (EmptyStringSlice 17) ki oldNode);
  kj ← lift (index key ml);
  scaledSlice ← lift (assign scaled kj newNode);
  Trie_Put (VList scaledSlice).

(** ethtrie/trie.go, Trie.InsertState. *)
Fixpoint InsertState (fuel : nat) (node : goval) (key : list Z) (value : goval) : TM D goval :=
  match fuel with
  | O => st_nofuel
  | S f =>
      if zlen key =? 0 then mret value
      else
        let n := NewValue node in
        if IsNil node || (Value_Len n =? 0) then
          ck ← lift (CompactEncode key);
          Trie_Put (VList [VStr ck; value])
        else
          currentNode ← getNode node;
          if Value_Len currentNode =? 2 then
            k ← lift (CompactDecode (Value_Str (Get currentNode 0)));
            let v := Value_Raw (Get currentNode 1) in
            if CompareIntSlice k key then
              ck ← lift (CompactEncode key);
              Trie_Put (VList [VStr ck; value])
            else
              let matchingLength := MatchingNibbleLength key k in
              let ml := Z.of_nat matchingLength in
              newHash ← (if ml =? zlen k then
                           rest ← lift (slice key ml (zlen key));
                           InsertState f v rest value
                         else
                           expand_slice (InsertState f) k v key value ml);
              if ml =? 0 then mret newHash
              else
                ck ← lift (CompactEncode (take matchingLength key));
                Trie_Put (VList [VStr ck; newHash])
          else
            let newNode := copy_branch currentNode in
            k0 ← lift (index key 0);
            child ← InsertState f (Value_Raw (Get currentNode k0)) (drop 1 key) value;
            newNode' ← lift (assign newNode k0 child);
            Trie_Put (VList newNode')
  end.

(** ethtrie/trie.go, Trie.UpdateState. *)
Definition UpdateState (fuel : nat) (node : goval) (key : list Z) (value : bytes) : TM D goval :=
  InsertState fuel node key (VStr value).

(** ethtrie/trie.go 460-469, Trie.deleteState. How many slots are in use: -1
    none, [i] exactly slot [i], -2 several.  The test [n[i] != ""] compares
    interfaces: only a [string] is equal to the empty string. *)
Definition branch_amount (n : list goval) : Z :=
  fst (fold_left (λ '(amount, i) x,
    (if bool_decide (x = VStr []) then amount
     else if amount =? -1 then i else -2, i + 1)) n (-1, 0)).

(** ethtrie/trie.go, Trie.deleteState. [spare] is what the backing array of the
    key holds beyond its end: [key[:len(k)]] reslices up to the capacity. *)
Fixpoint deleteState (fuel : nat) (spare : list Z) (node : goval) (key : list Z) : TM D goval :=
  match fuel with
  | O => st_nofuel
  | S f =>
      if zlen key =? 0 then mret (VStr [])
      else
        let n := NewValue node in
        if IsNil node || (Value_Len n =? 0) then mret (VStr [])
        else
          currentNode ← getNode node;
          if Value_Len currentNode =? 2 then
            k ← lift (CompactDecode (Value_Str (Get currentNode 0)));
            let v := Value_Raw (Get currentNode 1) in
            if CompareIntSlice k key then mret (VStr [])
            else
              pre ← lift (slice (key ++ spare) 0 (zlen k));
              if CompareIntSlice pre k then
                rest ← lift (slice key (zlen k) (zlen key));
                hash ← deleteState f spare v rest;
                child ← getNode hash;
                newNode ← (if Value_Len child =? 2 then
                             k' ← lift (CompactDecode (Value_Str (Get child 0)));
                             nk ← lift (CompactEncode (k ++ k'));
                             mret [VStr nk; Value_Raw (Get child 1)]
                           else mret [VStr (Value_Str (Get currentNode 0)); hash]);
                Trie_Put (VList newNode)
              else mret node
          else
            let n := copy_branch currentNode in
            k0 ← lift (index key 0);
            nk0 ← lift (index n k0);
            c ← deleteState f spare nk0 (drop 1 key);
            n' ← lift (assign n k0 c);
            let amount := branch_amount n' in
            newNode ← (if amount =? 16 then
                         ck ← lift (CompactEncode [16]);
                         na ← lift (index n' amount);
                         mret [VStr ck; na]
                       else if 0 <=? amount then
                         na ← lift (index n' amount);
                         child ← getNode na;
                         if Value_Len child =? 17 then
                           ck ← lift (CompactEncode [amount]); mret [VStr ck; na]
                         else if Value_Len child =? 2 then
                           k' ← lift (CompactDecode (Value_Str (Get child 0)));
                           ck ← lift (CompactEncode (amount :: k'));
                           mret [VStr ck; VStr (Value_Str (Get child 1))]
                         else mret []
                       else mret n');
            Trie_Put (VList newNode)
  end.

(** * The trie *)

(** ethtrie/trie.go, Trie. *)
Record Trie := mkTrie { tr_prevRoot : goval; tr_Root : goval; tr_cache : Cache }.

(** ethtrie/trie.go, copyRoot. *)
Definition copyRoot (root : goval) : goval :=
  match root with VBytes b => VBytes (CopyBytes b) | _ => root end.

(** ethtrie/trie.go, New. *)
Definition Trie_New (Root : goval) : Trie := mkTrie (copyRoot Root) (copyRoot Root) NewCache.

(** The operations of a trie run on the trie and the shared environment. *)
Definition TrieM : Type -> Type := st (Trie * Env D).

(** Run a walk on the trie's cache and the environment. *)
Definition run {A} (m : TM D A) : TrieM A := λ '(t, e),
  let '(o, s) := m (mkStore (tr_cache t) e) in
  (o, (mkTrie (tr_prevRoot t) (tr_Root t) (st_cache s), st_env s)).

Definition get_Root : TrieM goval := λ te, (Ret (tr_Root te.1), te).
Definition set_Root (root : goval) : TrieM unit := λ '(t, e),
  (Ret tt, (mkTrie (tr_prevRoot t) root (tr_cache t), e)).

(** ethtrie/trie.go 181-188, Trie.Update. The root is hashed whatever its size;
    [Trie.Delete] ends the same way. *)
Definition root_type (root : goval) : TM D goval :=
  match root with
  | VStr _ => mret root
  | VBytes _ => mret root
  | _ => PutValue root true
  end.

(** ethtrie/trie.go, Trie.Update. *)
Definition Update (key value : bytes) : TrieM unit :=
  let k := CompactHexDecode key in
  r ← get_Root;
  root ← run (UpdateState (S (length k)) r k value);
  root' ← run (root_type root);
  set_Root root'.

(** ethtrie/trie.go, Trie.Get. *)
Definition Trie_Get (key : bytes) : TrieM bytes :=
  let k := CompactHexDecode key in
  r ← get_Root;
  v ← run (getState (S (length k)) r k);
  mret (Value_Str (NewValue v)).

(** ethtrie/trie.go, Trie.Delete. *)
Definition Trie_Delete (spare : list Z) (key : bytes) : TrieM unit :=
  let k := CompactHexDecode key in
  r ← get_Root;
  root ← run (deleteState (S (length k)) spare r k);
  root' ← run (root_type root);
  set_Root root'.

(** ethtrie/trie.go, Trie.Cmp. *)
Definition Trie_Cmp (t trie : Trie) : bool :=
  Value_Cmp (NewValue (tr_Root t)) (NewValue (tr_Root trie)).

(** ethtrie/trie.go, Trie.Copy. The cached nodes are copied. *)
Definition Trie_Copy (t : Trie) : Trie :=
  let n := Trie_New (tr_Root t) in
  mkTrie (tr_prevRoot n) (tr_Root n)
    (mkCache (Node_Copy <$> nodes (tr_cache t)) (IsDirty (tr_cache n))).

(** ethtrie/trie.go, Trie.Sync. *)
Definition Trie_Sync (t : Trie) (e : Env D) : Trie * Env D :=
  let s := Commit (mkStore (tr_cache t) e) in
  (mkTrie (copyRoot (tr_Root t)) (tr_Root t) (st_cache s), st_env s).

(** ethtrie/trie.go, Trie.Undo. *)
Definition Trie_Undo (t : Trie) : Trie :=
  mkTrie (tr_prevRoot t) (tr_prevRoot t) (Cache_Undo (tr_cache t)).

(** * The iterator *)

(** ethtrie/trie.go, TrieIterator.iterateNode. The callbacks of [Each] in the
    order they are made. *)
Fixpoint iterateNode (fuel : nat) (key : list Z) (currentNode : goval)
    : TM D (list (bytes * goval)) :=
  match fuel with
  | O => st_nofuel
  | S f =>
      let fetchNode := λ key node, n ← Cache_Get node; iterateNode f key n in
      if Value_Len currentNode =? 2 then
        k ← lift (CompactDecode (Value_Str (Get currentNode 0)));
        let pk := key ++ k in
        let v := Get currentNode 1 in
        if negb (Value_Len v =? 0) && (zlen (Value_Str v) =? 0) then iterateNode f pk v
        else
          last ← lift (index k (zlen k - 1));
          if last =? 16 then s ← lift (DecodeCompact pk); mret [(s, v)]
          else fetchNode pk (Value_Bytes v)
      else
        for_collect (λ i : nat,
          let pk := key ++ [Z.of_nat i] in
          let v := Get currentNode (Z.of_nat i) in
          if (Z.of_nat i =? 16) && negb (Value_Len v =? 0)
          then s ← lift (DecodeCompact pk); mret [(s, v)]
          else if negb (Value_Len v =? 0) && (zlen (Value_Str v) =? 0) then iterateNode f pk v
          else
            let val := Value_Str v in
            if negb (zlen val =? 0) then fetchNode pk val else mret [])
          (seq 0 (Z.to_nat (Value_Len currentNode)))
  end.

(** ethtrie/trie.go, TrieIterator.fetchNode. *)
Definition fetchNode (fuel : nat) (key : list Z) (node : bytes) : TM D (list (bytes * goval)) :=
  n ← Cache_Get node; iterateNode fuel key n.

(** ethtrie/trie.go, TrieIterator.Each. *)
Definition Each (fuel : nat) : TrieM (list (bytes * goval)) :=
  r ← get_Root;
  run (fetchNode fuel [] (Value_Bytes (NewValue r))).

(** What the collecting iterator appends: hashes and values. *)
Definition collected : Type := list bytes * list bytes.
Definition cat_collected (a b : collected) : collected := (a.1 ++ b.1, a.2 ++ b.2).

(** ethtrie/trie.go, TrieIterator.workNode. In a 17-element node the hash that
    is recorded is that of slot 1, whatever slot is visited. *)
Fixpoint workNode (fuel : nat) (currentNode : goval) : TM D collected :=
  match fuel with
  | O => st_nofuel
  | S f =>
      let getNode := λ node, n ← Cache_Get node; workNode f n in
      if Value_Len currentNode =? 2 then
        k ← lift (CompactDecode (Value_Str (Get currentNode 0)));
        let v := Get currentNode 1 in
        if zlen (Value_Str v) =? 0 then workNode f v
        else
          last ← lift (index k (zlen k - 1));
          if last =? 16 then mret ([], [Value_Str v])
          else c ← getNode (Value_Bytes v); mret (cat_collected ([Value_Bytes v], []) c)
      else
        cs ← for_collect (λ i : nat,
          let v := Get currentNode (Z.of_nat i) in
          if (Z.of_nat i =? 16) && negb (Value_Len v =? 0) then mret [([], [Value_Str v])]
          else if zlen (Value_Str v) =? 0 then c ← workNode f v; mret [c]
          else
            let val := Value_Str v in
            if negb (zlen val =? 0) then
              c ← getNode val;
              mret [cat_collected ([Value_Bytes (Get currentNode 1)], []) c]
            else mret [])
          (seq 0 (Z.to_nat (Value_Len currentNode)));
        mret (foldr cat_collected ([], []) cs)
  end.

(** ethtrie/trie.go, TrieIterator.Collect. *)
Definition Collect (fuel : nat) : TrieM collected :=
  r ← get_Root;
  if bool_decide (r = VStr []) then mret ([], [])
  else run (n ← Cache_Get (Value_Bytes (NewValue r)); workNode fuel n).

(** ethtrie/trie.go, TrieIterator.Purge. *)
Definition Purge (fuel : nat) : TrieM Z :=
  c ← Collect fuel;
  _ ← run (for_each Cache_Delete c.1);
  mret (zlen c.2).

(** ethtrie/trie.go, ParanoiaCheck. Rebuild the trie from its own contents and
    compare the roots; the result is the verdict and the new trie. *)
Definition ParanoiaCheck (fuel : nat) : TrieM (bool * Trie) := λ '(t1, e),
  match Each fuel (t1, e) with
  | (Ret l, (t1', e1)) =>
      match for_each (λ '(key, v), Update key (Value_Str v)) l (Trie_New (VStr []), e1) with
      | (Ret _, (t2, e2)) =>
          let a := Value_Bytes (NewValue (tr_Root t2)) in
          let b := Value_Bytes (NewValue (tr_Root t1')) in
          (Ret (bool_decide (a = b), t2), (t1', e2))
      | (Panic, (_, e2)) => (Panic, (t1', e2))
      | (NoFuel, (_, e2)) => (NoFuel, (t1', e2))
      end
  | (Panic, te) => (Panic, te)
  | (NoFuel, te) => (NoFuel, te)
  end.

End Trie.
