(* ===== verification/TrieSpec.v ===== *)
(** What the trie of [Trie] promises: a trie over a store represents a map from
    keys to values, and the operations act on that map.

    [tref S it m] says that the reference [it] (empty, a hash, or an inline
    node) stands for the map [m] from nibble keys to values, where [S] is the
    ghost map of the hashes in use to the nodes they stand for; [store_ok]
    ties [S] to the cache and the database.  The conclusions hold when the
    hash function has no collision among the encodings hashed so far. *)

From S2P Require Import Prelude GoVal Big Bytes Rlp Value Db Crypto Nibbles Trie.

(** * Values that stand for items *)

Inductive vrep : goval -> item -> Prop :=
| vrep_str b : vrep (VStr b) (RStr b)
| vrep_bytes b : vrep (VBytes b) (RStr b)
| vrep_byte x : b2z x <= 0x7f -> vrep (VByte x) (RStr [x])
| vrep_list l its : Forall2 vrep l its -> vrep (VList l) (RList its).

Lemma vrep_of_item it : vrep (of_item it) it.
Proof.
  induction it as [b|l IH] using item_ind'; simpl.
  - unfold of_str. repeat case_match; try constructor.
    by apply Z.leb_le.
  - constructor. induction IH; simpl; by constructor.
Qed.

Lemma vrep_to_item v : ∀ it, vrep v it -> no_zero it = true -> to_item v = Some it.
Proof.
  induction v as [| | | | | |l IH| | | |] using goval_ind'; intros it Hv Hz;
    inversion Hv; subst; try done.
  - simpl. pose proof (b2z_range x). rewrite s64_small by lia. rewrite Bytes_single; [done|].
    intros Hx. simpl in Hz. apply bool_decide_eq_true in Hz. apply Hz. f_equal. by apply b2z_inj.
  - rewrite to_item_list, fmap_Some. exists its. split; [|done].
    clear Hv. revert IH Hz. induction H0 as [|v i l its Hvi _ IHl]; intros IH Hz; [done|].
    apply Forall_cons in IH as [IHv IH]. simpl in Hz. apply andb_true_iff in Hz as [Hi Hz].
    simpl. rewrite (IHv i Hvi Hi). simpl. by rewrite IHl.
Qed.

Lemma vrep_Encode v it : vrep v it -> no_zero it = true -> Value_Encode v = enc it.
Proof. intros Hv Hz. by apply Encode_item, vrep_to_item. Qed.

(** A representative answers the questions of the trie walk like its item. *)
Lemma vrep_string v b : vrep v (RStr b) ->
  Value_Str v = b ∧ Value_Bytes v = b ∧ Value_Len v = zlen b ∧ IsNil v = false ∧
  NewValue v = v ∧ Get v 0 = VNil.
Proof.
  inversion 1; subst; try done. pose proof (b2z_range x).
  unfold Value_Str, rune_string. rewrite (proj2 (Z.ltb_lt (b2z x) 128)) by lia.
  simpl. by rewrite z2b_b2z.
Qed.

Lemma vrep_NewValue v it : vrep v it -> NewValue v = v ∧ IsNil v = false.
Proof. by inversion 1. Qed.

Lemma vrep_list_inv v its : vrep v (RList its) -> ∃ l, v = VList l ∧ Forall2 vrep l its.
Proof. inversion 1; subst. eauto. Qed.

Lemma Get_vrep l its i it :
  Forall2 vrep l its -> its !! i = Some it ->
  ∃ v, l !! i = Some v ∧ Get (VList l) (Z.of_nat i) = v ∧ vrep v it.
Proof.
  intros Hl Hi. destruct (Forall2_lookup_r _ _ _ _ _ Hl Hi) as (v & Hv & Hr).
  exists v. split; [done|]. split; [|done]. rewrite (Get_nat l i v Hv). by eapply vrep_NewValue.
Qed.

Lemma Len_vrep l its : Forall2 vrep l its -> Value_Len (VList l) = zlen its.
Proof. intros H. unfold Value_Len, zlen. by rewrite (Forall2_length _ _ _ H). Qed.

(** * Keys *)

(** What the walk carries: nibbles up to the terminator. *)
Definition valid (r : list Z) : Prop := ∃ k, nibbles k ∧ r = k ++ [16].

Lemma valid_key s : valid (CompactHexDecode s).
Proof. exists (to_nibbles s). split; [apply to_nibbles_ok|apply CompactHexDecode_eq]. Qed.

Lemma key_inj a b : CompactHexDecode a = CompactHexDecode b -> a = b.
Proof. rewrite !CompactHexDecode_eq. intros [H _]%app_inj_tail. by apply to_nibbles_inj. Qed.

Lemma not_nibble_16 : ¬ nibble 16.
Proof. unfold nibble. lia. Qed.

Lemma valid_nonempty r : valid r -> r ≠ [].
Proof. intros (k & _ & ->). by destruct k. Qed.

Lemma valid_app k r : nibbles k -> valid r -> valid (k ++ r).
Proof.
  intros Hk (k' & Hk' & ->). exists (k ++ k'). split; [by apply Forall_app|by rewrite app_assoc].
Qed.

Lemma valid_cons i r : valid (i :: r) -> i = 16 ∧ r = [] ∨ nibble i ∧ valid r.
Proof.
  intros ([|x k] & Hk & Heq); simplify_eq/=; [by left|right].
  apply Forall_cons in Hk as [Hx Hk]. split; [done|by exists k].
Qed.

Lemma valid_16 : valid [16].
Proof. exists []. split; [constructor|done]. Qed.

Lemma valid_prefix k r : nibbles k -> valid (k ++ r) -> valid r.
Proof.
  induction 1 as [|x k Hx _ IH]; [done|]. intros [[-> _]|[_ H]]%valid_cons; [|by apply IH].
  by apply not_nibble_16 in Hx.
Qed.

Lemma valid_split p r : valid (p ++ r) -> r ≠ [] -> nibbles p ∧ valid r.
Proof.
  induction p as [|x p IH]; [done|]. intros Hv Hr.
  apply valid_cons in Hv as [[_ Heq]|[Hx Hv]]; [by destruct p|].
  destruct (IH Hv Hr) as [? ?]. split; [by constructor|done].
Qed.

(** No key is a proper prefix of another one. *)
Lemma valid_unique k r : valid k -> valid (k ++ r) -> r = [].
Proof.
  intros (k' & Hk & ->). rewrite <-app_assoc. intros H%valid_prefix; [|done].
  apply valid_cons in H as [[_ ?]|[H _]]; [done|by apply not_nibble_16 in H].
Qed.

(** * Tries as maps *)

Notation tmap := (list Z -> option bytes).

(** What is read: the empty string where there is nothing. *)
Definition read (m : tmap) (r : list Z) : bytes := default [] (m r).

Definition upd (m : tmap) (k : list Z) (v : bytes) : tmap :=
  λ r, if bool_decide (r = k) then Some v else m r.

Lemma upd_eq m k v : upd m k v k = Some v.
Proof. unfold upd. by rewrite bool_decide_eq_true_2. Qed.

Lemma upd_ne m k v r : r ≠ k -> upd m k v r = m r.
Proof. intros. unfold upd. by rewrite bool_decide_eq_false_2. Qed.

Inductive tref (S : gmap bytes item) : item -> tmap -> Prop :=
| tref_empty m : (∀ r, valid r -> m r = None) -> tref S (RStr []) m
| tref_hash h n m : S !! h = Some n -> zlen h = 32 -> tnode S n m -> tref S (RStr h) m
| tref_inline l m : tnode S (RList l) m -> tref S (RList l) m
with tnode (S : gmap bytes item) : item -> tmap -> Prop :=
| tn_leaf k v m : nibbles k ->
    (∀ r, valid r -> m r = if bool_decide (r = k ++ [16]) then Some v else None) ->
    tnode S (RList [RStr (compact true k); RStr v]) m
| tn_ext k c mc m : nibbles k -> k ≠ [] -> tref S c mc ->
    (∀ r, valid r -> m (k ++ r) = mc r) ->
    (∀ r, valid r -> (∀ r', r ≠ k ++ r') -> m r = None) -> c ≠ RStr [] ->
    tnode S (RList [RStr (compact false k); c]) m
| tn_branch cs v ms m : length cs = 16%nat ->
    (∀ i c, cs !! i = Some c -> tref S c (ms i)) ->
    (∀ i r, (i < 16)%nat -> valid r -> m (Z.of_nat i :: r) = ms i r) ->
    read m [16] = v ->
    tnode S (RList (cs ++ [RStr v])) m.

Scheme tref_mut := Induction for tref Sort Prop
  with tnode_mut := Induction for tnode Sort Prop.

Lemma tref_mono S S' it m : S ⊆ S' -> tref S it m -> tref S' it m.
Proof.
  intros Hsub H. induction H using tref_mut with
    (P0 := λ it m _, tnode S' it m); econstructor; eauto.
  by eapply lookup_weaken.
Qed.

Lemma tnode_mono S S' it m : S ⊆ S' -> tnode S it m -> tnode S' it m.
Proof.
  intros Hsub H. inversion H; subst; econstructor; eauto using tref_mono.
Qed.

Lemma tnode_list S it m : tnode S it m -> ∃ l, it = RList l ∧ l ≠ [].
Proof. inversion 1; subst; eexists; split; try done. by destruct cs. Qed.

Lemma tref_ext S it m m' : (∀ r, valid r -> m r = m' r) -> tref S it m -> tref S it m'.
Proof.
  intros Hm. assert (∀ n, tnode S n m -> tnode S n m') as Hn.
  { intros n Hn. inversion Hn; subst.
    - apply tn_leaf; [done|]. intros. rewrite <-Hm; auto.
    - eapply tn_ext; eauto; intros; rewrite <-Hm; auto using valid_app.
    - unfold read. rewrite Hm by apply valid_16. eapply tn_branch; eauto. intros i r Hi Hr.
      rewrite <-Hm; [by auto|]. apply (valid_app [Z.of_nat i]); [|done].
      repeat constructor; lia. }
  inversion 1; subst.
  - apply tref_empty. intros. rewrite <-Hm; auto.
  - eapply tref_hash; eauto.
  - apply tref_inline; eauto.
Qed.

#[export] Instance store_hashing D : Hashing (Store D) := λ s, e_hashed (st_env s).
#[export] Instance trie_hashing D : Hashing (Trie * Env D) := λ te, e_hashed te.2.

Section Spec.
Context `{HC : Crypto} {D : Type} `{HD : Database D} `{HL : !DatabaseLaws D}.

(** * The store invariant *)

Definition hashed (s : Store D) : list bytes := e_hashed (st_env s).
Definition cached (s : Store D) : gmap bytes Node := nodes (st_cache s).
Definition disk (s : Store D) (h : bytes) : bytes := db_data (e_db (st_env s)) h.

(** Where the node of hash [h] is found. *)
Definition stored (s : Store D) (h : bytes) (it : item) : Prop :=
  match cached s !! h with
  | Some n => vrep (nd_Value n) it ∧ (nd_Dirty n = false -> disk s h = enc it)
  | None => disk s h = enc it
  end.

Record store_ok (s : Store D) (S : gmap bytes item) : Prop := {
  ok_hash : ∀ h it, S !! h = Some it ->
    h = Sha3Bin (enc it) ∧ no_zero it = true ∧ enc it ∈ hashed s;
  ok_stored : ∀ h it, S !! h = Some it -> stored s h it;
  ok_dirty : ∀ h n, cached s !! h = Some n -> nd_Dirty n = true ->
    h = Sha3Bin (Encode (nd_Value n)) ∧ Encode (nd_Value n) ∈ hashed s ∧
    IsDirty (st_cache s) = true;
}.

(** The value [v] refers to a trie with the content [m]. *)
Definition rep (S : gmap bytes item) (v : goval) (m : tmap) : Prop :=
  ∃ it, vrep v it ∧ no_zero it = true ∧ tref S it m.

Lemma rep_mono S S' v m : S ⊆ S' -> rep S v m -> rep S' v m.
Proof. intros Hsub (it & ? & ? & ?). exists it. eauto using tref_mono. Qed.

(** The same for a trie that is not empty. *)
Definition rep1 (S : gmap bytes item) (v : goval) (m : tmap) : Prop :=
  ∃ it, it ≠ RStr [] ∧ vrep v it ∧ no_zero it = true ∧ tref S it m.

Lemma rep1_rep S v m : rep1 S v m -> rep S v m.
Proof. intros (it & _ & ? & ? & ?). by exists it. Qed.

Lemma rep1_mono S S' v m : S ⊆ S' -> rep1 S v m -> rep1 S' v m.
Proof. intros Hsub (it & ? & ? & ? & ?). exists it. eauto using tref_mono. Qed.

Lemma rep1_ext S v m m' : (∀ r, valid r -> m r = m' r) -> rep1 S v m -> rep1 S v m'.
Proof. intros Hm (it & ? & ? & ? & ?). exists it. eauto using tref_ext. Qed.

(** * Runs

    A walk only adds to what is hashed and leaves the database alone. *)

Definition tame {A} (m : TM D A) : Prop :=
  grows m ∧ ∀ s, e_db (st_env (m s).2) = e_db (st_env s).

Lemma tame_ret {A} (a : A) : tame (mret a).
Proof. split; [by intros s x|done]. Qed.

Lemma tame_lift {A} (o : outcome A) : tame (lift o).
Proof. split; [by intros s x|done]. Qed.

Lemma tame_bind {A B} (m : TM D A) (f : A -> TM D B) :
  tame m -> (∀ a, tame (f a)) -> tame (m ≫= f).
Proof.
  intros [Hm1 Hm2] Hf. split; [apply grows_bind; [done|apply Hf]|].
  intros s. unfold mbind, st_bind. specialize (Hm2 s).
  destruct (m s) as [[a| |] s'] eqn:E; simpl in *; [|done|done].
  rewrite <-Hm2. apply Hf.
Qed.

Lemma tame_PutValue v force : tame (PutValue v force).
Proof.
  split; intros s; unfold PutValue; case_match; simpl; try done; try by intros x.
  unfold st_hashed, store_hashing, hashed. simpl. set_solver.
Qed.

Lemma tame_Cache_Get k : tame (Cache_Get k).
Proof.
  split; intros s; unfold Cache_Get; case_match; try done; try by intros x.
  all: unfold mbind, st_bind, lift; case_match; try done; by intros x.
Qed.

Lemma tame_getNode v : tame (getNode v).
Proof.
  unfold getNode. repeat case_match; auto using tame_ret, tame_lift, tame_Cache_Get.
Qed.

Lemma tame_stop {A} : tame (@st_panic (Store D) A) ∧ tame (@st_nofuel (Store D) A).
Proof. repeat split; by intros s x. Qed.

Ltac tame := repeat first
  [ apply tame_ret | apply tame_lift | apply tame_PutValue | apply tame_getNode
  | apply (proj1 tame_stop) | apply (proj2 tame_stop)
  | apply tame_bind; [|intros ?] | case_match | solve [auto] ].

Lemma tame_getState f : ∀ v k, tame (getState f v k).
Proof. induction f as [|f IH]; intros v k; cbn [getState]; tame. Qed.

Lemma tame_InsertState f : ∀ v k w, tame (InsertState f v k w).
Proof.
  induction f as [|f IH]; intros v k w; cbn [InsertState];
    unfold expand_slice, Trie_Put, Cache_Put; tame.
Qed.

Notation wp := hwp.
Notation wp_ret := hwp_ret.
Notation wp_mono := hwp_mono.
Notation wp_bind_lift := hwp_bind_lift.

Lemma wp_bind {A B} (m : TM D A) (f : A -> TM D B) Q s :
  (∀ a, tame (f a)) -> wp m (λ a s', wp (f a) Q s') s -> wp (m ≫= f) Q s.
Proof. intros Hf. apply hwp_bind. intros a. apply Hf. Qed.

(** * The cache *)

(** Adding a node that is not dirty and holds what the database holds. *)
Lemma store_ok_load s S h n :
  store_ok s S -> cached s !! h = None -> nd_Dirty n = false ->
  (∀ it, S !! h = Some it -> vrep (nd_Value n) it) ->
  store_ok (mkStore (mkCache (<[h := n]> (cached s)) (IsDirty (st_cache s))) (st_env s)) S.
Proof.
  intros [Hh Hs Hd] Hnone Hn Hv. split; [done| |].
  - intros h' it Hit. specialize (Hs h' it Hit). unfold stored, cached in *. simpl.
    destruct (decide (h = h')) as [<-|Hne].
    + rewrite Hnone in Hs. rewrite lookup_insert_eq. auto.
    + by rewrite lookup_insert_ne.
  - intros h' n'. unfold cached. simpl. intros [[<- <-]|[_ Hl]]%lookup_insert_Some; [congruence|].
    by apply Hd.
Qed.

Lemma Cache_Get_wp s S h it :
  store_ok s S -> S !! h = Some it ->
  wp (Cache_Get h) (λ v s', store_ok s' S ∧ vrep v it) s.
Proof.
  intros Hok Hit Hc. destruct (ok_hash _ _ Hok h it Hit) as (-> & _ & Hin).
  pose proof (ok_stored _ _ Hok _ it Hit) as Hst. unfold stored in Hst.
  unfold Cache_Get in *. fold (cached s) in *.
  destruct (cached s !! _) as [n|] eqn:E; [naive_solver|].
  unfold disk in Hst. rewrite Hst in *.
  assert (zlen (enc it) < 2 ^ 64) as Hlen.
  { apply Hc. unfold mbind, st_bind, lift. by destruct (NewValueFromBytes _). }
  rewrite (NewValueFromBytes_enc it Hlen). simpl. eexists. split; [done|].
  split; [|apply vrep_of_item]. apply store_ok_load; auto.
  intros it' Hit'. simplify_eq. apply vrep_of_item.
Qed.

(** Storing a node under its hash. *)
Lemma store_ok_put s S v it :
  store_ok s S -> vrep v it -> no_zero it = true ->
  let s' := mkStore (mkCache (<[Sha3Bin (enc it) := NewNode (Sha3Bin (enc it)) v true]>
                                (cached s)) true)
                    (mkEnv (e_db (st_env s)) (enc it :: hashed s)) in
  collision_free (hashed s') ->
  S ⊆ <[Sha3Bin (enc it) := it]> S ∧ store_ok s' (<[Sha3Bin (enc it) := it]> S).
Proof.
  intros [Hh Hs Hd] Hv Hz s' [Hcf Hlen].
  assert (∀ it', S !! Sha3Bin (enc it) = Some it' -> it' = it) as Hsame.
  { intros it' Hit'. destruct (Hh _ _ Hit') as (Heq & _ & Hin). symmetry.
    apply enc_inj; [apply Hlen; set_solver|]. apply Hcf; [set_solver|set_solver|done]. }
  split.
  { apply map_subseteq_spec. intros h it' Hit'. destruct (decide (Sha3Bin (enc it) = h)) as [<-|].
    - rewrite lookup_insert_eq. f_equal. symmetry. auto.
    - by rewrite lookup_insert_ne. }
  split.
  - intros h it' [[<- <-]|[_ Hl]]%lookup_insert_Some; [split; [done|split; [done|set_solver]]|].
    destruct (Hh _ _ Hl) as (-> & ? & ?). split; [done|split; [done|set_solver]].
  - intros h it' [[<- <-]|[Hne Hl]]%lookup_insert_Some; unfold stored, cached, disk; simpl.
    + rewrite lookup_insert_eq. by simpl.
    + rewrite lookup_insert_ne by done. by apply Hs.
  - intros h n. unfold cached. simpl. intros [[<- <-]|[_ Hl]]%lookup_insert_Some Hdirty; simpl.
    + change (Encode v) with (Value_Encode v). rewrite (vrep_Encode v it Hv Hz). set_solver.
    + destruct (Hd h n Hl Hdirty) as (-> & ? & _). split; [done|]. split; [set_solver|done].
Qed.

(** The result of an operation that stores nodes: a larger store in which the
    returned reference stands for [m]. *)
Definition grown (S : gmap bytes item) (m : tmap) (v : goval) (s' : Store D) : Prop :=
  ∃ S', S ⊆ S' ∧ store_ok s' S' ∧ rep1 S' v m.

Lemma grown_mono S0 S m v s : S0 ⊆ S -> grown S m v s -> grown S0 m v s.
Proof. intros Hsub (S' & ? & ? & ?). exists S'. split; [by etrans|done]. Qed.

Lemma sha_not_zero b : Sha3Bin b ≠ [x00].
Proof. intros Heq. pose proof (Sha3Bin_len b) as Hl. rewrite Heq in Hl. done. Qed.

Lemma PutValue_wp s S v it m force :
  store_ok s S -> vrep v it -> no_zero it = true -> tnode S it m ->
  wp (PutValue v force) (grown S m) s.
Proof.
  intros Hok Hv Hz Ht Hc. unfold PutValue in *.
  destruct (vrep_NewValue v it Hv) as [Hnv _]. rewrite Hnv in *.
  rewrite (vrep_Encode v it Hv Hz) in *. case_match; simpl in *.
  - eexists. split; [done|].
    destruct (store_ok_put s S v it Hok Hv Hz Hc) as [Hsub Hok'].
    eexists. split; [done|]. split; [done|].
    exists (RStr (Sha3Bin (enc it))).
    split; [intros [= E]; pose proof (Sha3Bin_len (enc it)) as Hl; by rewrite E in Hl|].
    split; [constructor|].
    split; [apply bool_decide_eq_true, sha_not_zero|].
    eapply tref_hash; [apply lookup_insert_eq|apply Sha3Bin_len|by eapply tnode_mono].
  - eexists. split; [done|]. exists S. split; [done|]. split; [done|].
    exists it. destruct (tnode_list _ _ _ Ht) as (l & -> & _).
    do 3 (split; [done|]). by apply tref_inline.
Qed.

(** * Node access *)

Lemma getNode_wp s S v it m :
  store_ok s S -> vrep v it -> no_zero it = true -> tref S it m -> it ≠ RStr [] ->
  wp (getNode v) (λ r s', store_ok s' S ∧
    ∃ n, vrep r n ∧ no_zero n = true ∧ tnode S n m) s.
Proof.
  intros Hok Hv Hz Ht Hne. unfold getNode.
  destruct (vrep_NewValue v it Hv) as [-> _]. inversion Ht as [|h n ? Hn Hlen Htn|]; subst.
  - done.
  - destruct (vrep_string v h Hv) as (-> & -> & _ & _ & _ & ->). simpl negb. cbn iota.
    rewrite Hlen. simpl. eapply wp_mono; [|by apply Cache_Get_wp].
    intros r s' [Hok' Hr]. split; [done|]. exists n. split; [done|]. split; [|done].
    by apply (ok_hash _ _ Hok h n Hn).
  - destruct (tnode_list _ _ _ H) as (l' & [= <-] & Hl).
    destruct (vrep_list_inv v l Hv) as (vs & -> & Hvs).
    destruct l as [|it0 l]; [done|].
    destruct (Get_vrep vs (it0 :: l) 0 it0 Hvs eq_refl) as (v0 & _ & Hg & Hv0).
    change (Z.of_nat 0) with 0 in Hg. rewrite Hg. destruct (vrep_NewValue v0 it0 Hv0) as [_ ->]. simpl.
    apply wp_ret. split; [done|]. exists (RList (it0 :: l)). split; [done|]. done.
Qed.

(** The two node shapes, as the walk reads them. *)
Lemma pair_shape r a c : vrep r (RList [RStr a; c]) ->
  Value_Len r = 2 ∧ Value_Str (Get r 0) = a ∧ vrep (Value_Raw (Get r 1)) c.
Proof.
  intros (vs & -> & Hvs)%vrep_list_inv. rewrite (Len_vrep vs _ Hvs).
  destruct (Get_vrep vs _ 0 _ Hvs eq_refl) as (v0 & _ & Hg0 & Hv0).
  destruct (Get_vrep vs _ 1 _ Hvs eq_refl) as (v1 & _ & Hg1 & Hv1).
  change (Z.of_nat 0) with 0 in Hg0. change (Z.of_nat 1) with 1 in Hg1.
  rewrite Hg0, Hg1. split; [done|]. split; [by apply (vrep_string v0)|done].
Qed.

Lemma branch_shape r cs v : vrep r (RList (cs ++ [RStr v])) -> length cs = 16%nat ->
  Value_Len r = 17 ∧
  (∀ i it, (cs ++ [RStr v]) !! i = Some it -> vrep (Value_Raw (Get r (Z.of_nat i))) it).
Proof.
  intros (vs & -> & Hvs)%vrep_list_inv Hlen. rewrite (Len_vrep vs _ Hvs).
  split; [unfold zlen; rewrite length_app, Hlen; done|].
  intros i it Hi. destruct (Get_vrep vs _ i it Hvs Hi) as (v0 & _ & -> & Hv0). done.
Qed.

Lemma no_zero_elem l i it : no_zero (RList l) = true -> l !! i = Some it -> no_zero it = true.
Proof.
  simpl. rewrite forallb_forall. intros Hl Hi. apply Hl. apply list_elem_of_In.
  by eapply list_elem_of_lookup_2.
Qed.

Lemma last_slot (cs : list item) v : length cs = 16%nat -> (cs ++ [RStr v]) !! 16%nat = Some (RStr v).
Proof. intros Hl. rewrite <-Hl. by rewrite list_lookup_middle. Qed.

Lemma child_slot (cs : list item) v (i : Z) : length cs = 16%nat -> nibble i ->
  ∃ c, cs !! Z.to_nat i = Some c ∧ (cs ++ [RStr v]) !! Z.to_nat i = Some c.
Proof.
  unfold nibble. intros Hl Hi.
  destruct (lookup_lt_is_Some_2 cs (Z.to_nat i) ltac:(lia)) as [c Hc].
  exists c. split; [done|]. by apply lookup_app_l_Some.
Qed.

Lemma take_prefix (k key : list Z) :
  (zlen k <=? zlen key) && CompareIntSlice k (take (length k) key) = true <->
  ∃ r, key = k ++ r.
Proof.
  rewrite CompareIntSlice_spec, andb_true_iff, bool_decide_eq_true, Z.leb_le. unfold zlen. split.
  - intros [_ Hk]. exists (drop (length k) key). by rewrite Hk at 1; rewrite take_drop.
  - intros (r & ->). rewrite length_app, take_app_length. split; [lia|done].
Qed.

(** * Reading *)

Lemma getState_nil f v : getState (S f) v [] = mret v.
Proof. done. Qed.

(** A reference is empty, or it has a node. *)
Lemma rep_inv S v m : rep S v m ->
  NewValue v = v ∧ IsNil v = false ∧
  ((Value_Len v =? 0) = true ∧ vrep v (RStr []) ∧ (∀ r, valid r -> m r = None) ∨
   (Value_Len v =? 0) = false ∧ rep1 S v m).
Proof.
  intros (it & Hv & Hz & Ht). destruct (vrep_NewValue v it Hv) as [-> ->].
  split; [done|]. split; [done|]. inversion Ht as [|h|l ? Hl]; subst.
  - left. destruct (vrep_string v [] Hv) as (_ & _ & -> & _). done.
  - right. destruct (vrep_string v h Hv) as (_ & _ & -> & _).
    split; [apply Z.eqb_neq; lia|]. exists (RStr h). split; [|done]. intros [= ->]. done.
  - right. destruct (tnode_list _ _ _ Hl) as (l' & [= <-] & Hne).
    split; [|exists (RList l); done]. apply Z.eqb_neq.
    destruct (vrep_list_inv v l Hv) as (vs & -> & Hvs). rewrite (Len_vrep vs l Hvs).
    intros Hl0. by apply zlen_0 in Hl0.
Qed.

Lemma getState_wp f : ∀ key s S v m,
  (length key < f)%nat -> store_ok s S -> rep S v m -> valid key ->
  wp (getState f v key) (λ r s', store_ok s' S ∧ vrep r (RStr (read m key))) s.
Proof.
  induction f as [|f IH]; intros key s S v m Hf Hok Hrep Hkey; [lia|].
  cbn [getState]. destruct (rep_inv _ _ _ Hrep) as (-> & -> & Hcase).
  destruct (Z.eqb_spec (zlen key) 0) as [Hk|_]; [by apply zlen_0, valid_nonempty in Hk|].
  cbn [orb]. destruct Hcase as [(-> & Hv & Hm)|(-> & it & Hne & Hv & Hz & Ht)].
  { apply wp_ret. unfold read. by rewrite Hm. }
  apply wp_bind; [intros a; tame; apply tame_getState|].
  eapply wp_mono; [|by eapply getNode_wp]. clear Hv Hz Ht Hne s Hok it v Hrep.
  intros r s (Hok & n & Hr & Hz & Hn). inversion Hn as [k w ? Hkn Hm|k c mc ? Hkn Hk0 Hc Hm Hm'|cs w ms ? Hl Hcs Hm Hm16]; subst n.
  - destruct (pair_shape r _ _ Hr) as (-> & -> & Hw). simpl Z.eqb. cbn iota.
    eapply wp_bind_lift; [by apply CompactDecode_compact|]. simpl term.
    destruct (_ && _) eqn:Ep.
    + apply take_prefix in Ep as [rest ->].
      pose proof (valid_unique (k ++ [16]) rest ltac:(by exists k) Hkey) as ->.
      rewrite app_nil_r in *. rewrite drop_all. destruct f as [|f]; [simpl in Hf; rewrite length_app in Hf; simpl in Hf; lia|].
      rewrite getState_nil. apply wp_ret. split; [done|].
      unfold read. rewrite Hm by done. by rewrite bool_decide_eq_true_2.
    + apply wp_ret. split; [done|]. unfold read. rewrite Hm by done.
      rewrite bool_decide_eq_false_2; [constructor|]. intros ->.
      rewrite (proj2 (take_prefix (k ++ [16]) (k ++ [16]))) in Ep; [done|]. exists []. by rewrite app_nil_r.
  - destruct (pair_shape r _ _ Hr) as (-> & -> & Hw). simpl Z.eqb. cbn iota.
    eapply wp_bind_lift; [by apply CompactDecode_compact|]. simpl term. rewrite app_nil_r.
    destruct (_ && _) eqn:Ep.
    + apply take_prefix in Ep as [rest ->]. rewrite drop_app_length.
      pose proof (valid_prefix k rest Hkn Hkey) as Hrest. unfold read. rewrite Hm by done.
      apply IH; [|done| |done].
      * rewrite length_app in Hf. destruct k; [done|simpl in Hf; lia].
      * exists c. split; [done|]. split; [by apply (no_zero_elem _ 1 c Hz)|done].
    + apply wp_ret. split; [done|]. unfold read. rewrite Hm'; [constructor|done|].
      intros r' ->. rewrite (proj2 (take_prefix k (k ++ r'))) in Ep; [done|by exists r'].
  - destruct (branch_shape r _ _ Hr Hl) as [-> Hget]. simpl Z.eqb. cbn iota.
    destruct key as [|i rest]; [by apply valid_nonempty in Hkey|].
    eapply wp_bind_lift; [apply index_head|]. simpl drop.
    apply valid_cons in Hkey as [[-> ->]|[Hi Hrest]].
    + destruct f as [|f]; [simpl in Hf; lia|]. rewrite getState_nil. apply wp_ret.
      split; [done|]. rewrite Hm16. by apply (Hget 16%nat), last_slot.
    + destruct (child_slot cs w i Hl Hi) as (c & Hc & Hc').
      unfold nibble in Hi. specialize (Hget _ _ Hc'). rewrite Z2Nat.id in Hget by lia.
      pose proof (Hm (Z.to_nat i) rest ltac:(lia) Hrest) as Hmi. rewrite Z2Nat.id in Hmi by lia.
      unfold read. rewrite Hmi. apply IH; [simpl in Hf; lia|done| |done].
      exists c. split; [done|]. split; [by eapply no_zero_elem|by apply Hcs].
Qed.

(** * Building nodes *)

Lemma rep_ext S v m m' : (∀ r, valid r -> m r = m' r) -> rep S v m -> rep S v m'.
Proof. intros Hm (it & ? & ? & ?). exists it. eauto using tref_ext. Qed.

Lemma no_zero_str b : b ≠ [x00] -> no_zero (RStr b) = true.
Proof. intros Hb. by apply bool_decide_eq_true. Qed.

Lemma str_no_zero b : no_zero (RStr b) = true -> b ≠ [x00].
Proof. apply bool_decide_eq_true. Qed.

Lemma Put_leaf_wp s S k w v m :
  store_ok s S -> nibbles k -> vrep v (RStr w) -> w ≠ [x00] ->
  (∀ r, valid r -> m r = if bool_decide (r = k ++ [16]) then Some w else None) ->
  wp (Trie_Put (VList [VStr (compact true k); v])) (grown S m) s.
Proof.
  intros Hok Hk Hv Hw Hm. eapply PutValue_wp; [done| | |by eapply tn_leaf].
  - constructor. repeat constructor. done.
  - simpl no_zero. rewrite !bool_decide_eq_true_2; [done|done|by apply compact_not_zero].
Qed.

Lemma Put_ext_wp s S k v mc m :
  store_ok s S -> nibbles k -> k ≠ [] -> rep1 S v mc ->
  (∀ r, valid r -> m (k ++ r) = mc r) ->
  (∀ r, valid r -> (∀ r', r ≠ k ++ r') -> m r = None) ->
  wp (Trie_Put (VList [VStr (compact false k); v])) (grown S m) s.
Proof.
  intros Hok Hk Hk0 (c & Hc0 & Hv & Hz & Hc) Hm Hm'.
  eapply PutValue_wp; [done| | |by eapply tn_ext].
  - constructor. repeat constructor. done.
  - change (no_zero (RList ?l)) with (forallb no_zero l). cbn [forallb]. rewrite Hz.
    rewrite no_zero_str; [done|by apply compact_not_zero].
Qed.

(** What a slot of a branch holds. *)
Definition slot (S : gmap bytes item) (i : Z) (v : goval) (m : tmap) : Prop :=
  if i =? 16 then vrep v (RStr (read m [16])) ∧ read m [16] ≠ [x00] else rep S v (λ r, m (i :: r)).

Definition branch_rep (S : gmap bytes item) (vs : list goval) (m : tmap) : Prop :=
  length vs = 17%nat ∧ ∀ i v, vs !! i = Some v -> slot S (Z.of_nat i) v m.

Lemma slot_vrep S i v m : slot S i v m -> ∃ it, vrep v it ∧ no_zero it = true ∧
  if i =? 16 then it = RStr (read m [16]) else tref S it (λ r, m (i :: r)).
Proof.
  unfold slot. case_match; [|by intros (it & ? & ? & ?); exists it].
  intros [? ?]. eexists. split; [done|]. by rewrite no_zero_str.
Qed.

Lemma Put_branch_wp s S vs m :
  store_ok s S -> branch_rep S vs m -> wp (Trie_Put (VList vs)) (grown S m) s.
Proof.
  intros Hok [Hlen Hvs].
  destruct (list_choose (λ i v it, vrep v it ∧ no_zero it = true ∧
    if Z.of_nat i =? 16 then it = RStr (read m [16]) else tref S it (λ r, m (Z.of_nat i :: r))) vs)
    as (its & Hl & Hits).
  { intros i v Hv. by apply slot_vrep, Hvs. }
  rewrite Hlen in Hl.
  destruct its as [|c cs _] using rev_ind; [done|]. rewrite length_app in Hl. simpl in Hl.
  assert (∀ i it, (cs ++ [c]) !! i = Some it -> ∃ v, vs !! i = Some v ∧ vrep v it ∧ no_zero it = true ∧
    if Z.of_nat i =? 16 then it = RStr (read m [16]) else tref S it (λ r, m (Z.of_nat i :: r))) as Hit.
  { intros i it Hi. pose proof (lookup_lt_Some _ _ _ Hi) as Hlt. rewrite length_app in Hlt. simpl in Hlt.
    destruct (lookup_lt_is_Some_2 vs i ltac:(lia)) as [v Hv]. eauto. }
  assert (c = RStr (read m [16])) as ->.
  { destruct (Hit 16%nat c) as (_ & _ & _ & _ & Hc); [|done].
    replace 16%nat with (length cs) by lia. by rewrite list_lookup_middle. }
  eapply (PutValue_wp s S _ (RList (cs ++ [RStr (read m [16])]))); [done| | |].
  - constructor. apply Forall2_same_length_lookup. split; [rewrite length_app; simpl; lia|].
    intros i v it Hv Hi. by apply (Hits i v it).
  - change (no_zero (RList ?l)) with (forallb no_zero l). apply forallb_forall. intros it Hin.
    apply list_elem_of_In, list_elem_of_lookup in Hin as [i Hi]. by destruct (Hit i it Hi) as (? & ? & ? & ? & ?).
  - apply (tn_branch S cs _ (λ i r, m (Z.of_nat i :: r))); [lia| |done|done].
    intros i c Hc. pose proof (lookup_lt_Some _ _ _ Hc) as Hlt.
    destruct (Hit i c) as (v & _ & _ & _ & Hr); [by apply lookup_app_l_Some|].
    destruct (Z.eqb_spec (Z.of_nat i) 16); [lia|done].
Qed.

Lemma slot_mono S S' i v m : S ⊆ S' -> slot S i v m -> slot S' i v m.
Proof. intros Hsub. unfold slot. case_match; [done|by apply rep_mono]. Qed.

(** Only the keys that begin with [i] matter to slot [i]. *)
Lemma slot_ext S i v m m' : 0 <= i <= 16 ->
  (∀ r, valid (i :: r) -> m (i :: r) = m' (i :: r)) -> slot S i v m -> slot S i v m'.
Proof.
  intros Hi Hm. unfold slot, read. destruct (Z.eqb_spec i 16) as [->|Hne].
  - rewrite Hm; [done|apply valid_16].
  - apply rep_ext. intros r Hr. apply Hm. apply (valid_app [i]); [|done].
    repeat constructor; lia.
Qed.

(** Assigning a slot. *)
Lemma branch_assign S S' vs m m' i v :
  branch_rep S vs m -> S ⊆ S' -> 0 <= i <= 16 -> slot S' i v m' ->
  (∀ j r, j ≠ i -> valid (j :: r) -> m' (j :: r) = m (j :: r)) ->
  ∃ vs', assign vs i v = Ret vs' ∧ branch_rep S' vs' m'.
Proof.
  intros [Hlen Hvs] Hsub Hi Hv Hm. exists (<[Z.to_nat i := v]> vs). split.
  { rewrite <-(Z2Nat.id i) at 1 by lia. apply assign_Ret. lia. }
  split; [by rewrite length_insert|]. intros j u Hj.
  apply list_lookup_insert_Some in Hj as [(<- & <- & _)|[Hne Hj]].
  - by rewrite Z2Nat.id by lia.
  - apply (slot_mono S S' _ _ _ Hsub). pose proof (lookup_lt_Some _ _ _ Hj).
    eapply slot_ext; [lia| |by apply Hvs]. intros r Hr. symmetry. apply Hm; [lia|done].
Qed.

Lemma branch_empty S m : (∀ r, valid r -> m r = None) -> branch_rep S (EmptyStringSlice 17) m.
Proof.
  intros Hm. split; [apply length_replicate|]. intros i v [-> Hi]%lookup_replicate.
  unfold slot, read. case_match.
  - rewrite Hm by apply valid_16. split; [constructor|done].
  - exists (RStr []). split; [constructor|]. split; [done|]. apply tref_empty. intros r Hr.
    apply Hm. apply (valid_app [Z.of_nat i]); [|done].
    apply Z.eqb_neq in H. repeat constructor; lia.
Qed.

(** Copying a branch keeps it. *)
Lemma copy_branch_rep S r cs w ms m :
  vrep r (RList (cs ++ [RStr w])) -> no_zero (RList (cs ++ [RStr w])) = true ->
  length cs = 16%nat -> (∀ i c, cs !! i = Some c -> tref S c (ms i)) ->
  (∀ i r, (i < 16)%nat -> valid r -> m (Z.of_nat i :: r) = ms i r) -> read m [16] = w ->
  branch_rep S (copy_branch r) m.
Proof.
  intros Hr Hz Hl Hcs Hm Hm16. destruct (branch_shape r cs w Hr Hl) as [_ Hget].
  split; [done|]. intros i v Hv. unfold copy_branch in Hv.
  apply list_lookup_fmap_Some in Hv as (j & -> & [-> Hj]%lookup_seq). simpl.
  destruct (lookup_lt_is_Some_2 (cs ++ [RStr w]) i) as [it Hit]; [rewrite length_app; simpl; lia|].
  pose proof (Hget i it Hit) as Hv. pose proof (no_zero_elem _ _ _ Hz Hit) as Hiz.
  destruct (vrep_NewValue _ _ Hv) as [_ ->].
  unfold slot. destruct (Z.eqb_spec (Z.of_nat i) 16).
  - replace i with 16%nat in * by lia. rewrite (last_slot cs w Hl) in Hit. simplify_eq.
    split; [done|by apply str_no_zero].
  - exists it. split; [done|]. split; [done|].
    rewrite lookup_app_l in Hit by lia. eapply tref_ext; [|by eapply Hcs].
    intros. symmetry. apply Hm; [lia|done].
Qed.

(** * Inserting

    An entry is what a two-element node holds, before it is packed: under the
    path [l], a value (the path ends with the terminator) or a reference. *)
Inductive entry (S : gmap bytes item) : list Z -> goval -> tmap -> Prop :=
| entry_leaf k w v m : nibbles k -> vrep v (RStr w) -> w ≠ [x00] ->
    (∀ r, valid r -> m r = if bool_decide (r = k ++ [16]) then Some w else None) ->
    entry S (k ++ [16]) v m
| entry_ext k v mc m : nibbles k -> rep1 S v mc ->
    (∀ r, valid r -> m (k ++ r) = mc r) ->
    (∀ r, valid r -> (∀ r', r ≠ k ++ r') -> m r = None) ->
    entry S k v m.

Lemma entry_mono S S' l v m : S ⊆ S' -> entry S l v m -> entry S' l v m.
Proof. intros Hsub. inversion 1; subst; econstructor; eauto using rep1_mono. Qed.

Lemma entry_nil S v m : entry S [] v m -> rep1 S v m.
Proof.
  intros He. inversion He as [k w ? ? Hk Hv Hw Hm Heq|k ? mc ? Hk Hrep Hm Hm']; subst;
    [by destruct k|].
  eapply rep1_ext; [|done]. intros r Hr'. symmetry. by apply Hm.
Qed.

(** The entry below a prefix of the path. *)
Lemma entry_app S p l v m :
  nibbles p -> entry S (p ++ l) v m -> l ≠ [] -> entry S l v (λ r, m (p ++ r)).
Proof.
  intros Hp He Hl. inversion He as [k w ? ? Hk Hv Hw Hm Heq|k ? mc ? Hk Hrep Hm Hm']; subst.
  - destruct l as [|y l _] using rev_ind; [done|].
    rewrite app_assoc in Heq. apply app_inj_tail in Heq as [-> <-].
    apply Forall_app in Hk as [_ Hk].
    apply entry_leaf with w; [done..|]. intros r Hr. rewrite Hm by by apply valid_app.
    rewrite <-app_assoc. repeat case_bool_decide; simplify_list_eq; done.
  - apply Forall_app in Hk as [_ Hk]. apply entry_ext with mc; [done..| |].
    + intros r Hr. rewrite app_assoc. by apply Hm.
    + intros r Hr Hne. apply Hm'; [by apply valid_app|]. intros r' Heq.
      rewrite <-app_assoc in Heq. by apply app_inv_head, Hne in Heq.
Qed.

(** Keys elsewhere are not in the entry. *)
Lemma entry_other S y l v m j r :
  entry S (y :: l) v m -> j ≠ y -> valid (j :: r) -> m (j :: r) = None.
Proof.
  intros He Hne Hr. inversion He as [k w ? ? Hk Hv Hw Hm Heq|k ? mc ? Hk Hrep Hm Hm']; subst.
  - rewrite Hm by done. case_bool_decide as Hjr; [|done].
    rewrite <-Hjr in Heq. by injection Heq as ->.
  - apply Hm'; [done|]. by intros r' [= -> _].
Qed.

Lemma entry_head S y x l v m : entry S (y :: x :: l) v m -> nibble y.
Proof.
  intros He. inversion He as [k w ? ? Hk Hv Hw Hm Heq|k ? mc ? Hk Hrep Hm Hm']; subst.
  - destruct k as [|z k]; [done|]. injection Heq as -> _. by apply Forall_cons in Hk as [? _].
  - by apply Forall_cons in Hk as [? _].
Qed.

Lemma InsertState_empty f x l w :
  InsertState (S f) (VStr []) (x :: l) w =
  (ck ← lift (CompactEncode (x :: l)); Trie_Put (VList [VStr ck; w])) :> TM D goval.
Proof. cbn [InsertState]. rewrite zlen_cons. by destruct (Z.eqb_spec (1 + zlen l) 0); [lenlia|]. Qed.

(** Packing an entry gives a node, or the bare value when nothing is left of
    the path; either goes into the slot of the path's first nibble. *)
Lemma entry_Put_wp f s S y l v m :
  store_ok s S -> entry S (y :: l) v m ->
  wp (InsertState (Datatypes.S f) (VStr []) l v)
     (λ r s', ∃ S', S ⊆ S' ∧ store_ok s' S' ∧ slot S' y r m) s.
Proof.
  intros Hok He. destruct l as [|x l].
  - apply wp_ret. exists S. split; [done|]. split; [done|]. unfold slot.
    inversion He as [k w ? ? Hk Hv Hw Hm Heq|k ? mc ? Hk Hrep Hm Hm']; subst.
    + destruct k as [|z [|]]; simplify_eq/=. unfold read. rewrite Hm by apply valid_16.
      by rewrite bool_decide_eq_true_2.
    + apply Forall_cons in Hk as [Hy _]. destruct (Z.eqb_spec y 16) as [->|_].
      { by apply not_nibble_16 in Hy. }
      apply rep1_rep. eapply rep1_ext; [|done]. intros r Hr. symmetry. by apply (Hm r).
  - rewrite InsertState_empty.
    pose proof (entry_head _ _ _ _ _ _ He) as Hy.
    assert (y =? 16 = false) as Hy16.
    { apply Z.eqb_neq. intros ->. by apply not_nibble_16 in Hy. }
    apply (entry_app S [y] (x :: l)) in He; [|by constructor; [|constructor]|done].
    assert (∀ r s', grown S (λ r, m (y :: r)) r s' ->
      ∃ S', S ⊆ S' ∧ store_ok s' S' ∧ slot S' y r m) as Hgrown.
    { intros r s' (S' & ? & ? & ?). exists S'. unfold slot. rewrite Hy16. auto using rep1_rep. }
    inversion He as [k w ? ? Hk Hv Hw Hm Heq|k ? mc ? Hk Hrep Hm Hm']; subst.
    + eapply wp_bind_lift; [by apply (CompactEncode_eq true)|].
      eapply wp_mono; [apply Hgrown|]. by eapply Put_leaf_wp.
    + rewrite <-(app_nil_r (x :: l)).
      eapply wp_bind_lift; [by apply (CompactEncode_eq false)|].
      eapply wp_mono; [apply Hgrown|]. by eapply Put_ext_wp.
Qed.

(** [slice] of a tail, as the insertion uses it. *)
Lemma slice_tail (p : list Z) x r : slice (p ++ x :: r) (zlen p + 1) (zlen (p ++ x :: r)) = Ret r.
Proof.
  apply (slice_of (p ++ [x]) r []); [by rewrite app_nil_r, <-app_assoc|lenlia|lenlia].
Qed.

(** Two entries that differ in their first nibble make a branch. *)
Lemma expand_wp f s S p x ra nv m1 y rb ov m2 m :
  store_ok s S -> entry S (x :: ra) nv m1 -> entry S (y :: rb) ov m2 ->
  x ≠ y -> 0 <= x <= 16 -> 0 <= y <= 16 ->
  (∀ j r, valid (j :: r) -> m (j :: r) = if j =? x then m1 (j :: r) else m2 (j :: r)) ->
  wp (expand_slice (InsertState (Datatypes.S f)) (p ++ y :: rb) ov (p ++ x :: ra) nv (zlen p))
     (grown S m) s.
Proof.
  intros Hok H1 H2 Hxy Hx Hy Hm. unfold expand_slice.
  eapply wp_bind_lift; [apply slice_tail|].
  apply wp_bind; [intros a; unfold Trie_Put, Cache_Put; tame; apply tame_InsertState|].
  eapply wp_mono; [|by eapply entry_Put_wp]. intros old s1 (S1 & Hs1 & Hok1 & Hold).
  eapply wp_bind_lift; [apply slice_tail|].
  apply wp_bind; [intros a; unfold Trie_Put, Cache_Put; tame|].
  eapply wp_mono; [|eapply entry_Put_wp; [done|by eapply entry_mono]].
  intros new s2 (S2 & Hs2 & Hok2 & Hnew).
  eapply wp_bind_lift; [by apply index_middle|].
  destruct (branch_assign S1 S1 (EmptyStringSlice 17) (λ _, None) m2 y old)
    as (vs1 & Hvs1 & Hb1); [by apply branch_empty|done|done|done| |].
  { intros j r Hj Hr. by eapply entry_other. }
  eapply wp_bind_lift; [done|]. eapply wp_bind_lift; [by apply index_middle|].
  destruct (branch_assign S1 S2 vs1 m2 m x new) as (vs2 & Hvs2 & Hb2); [done|done|done| | |].
  { eapply slot_ext; [done| |done]. intros r Hr. rewrite Hm by done. by rewrite Z.eqb_refl. }
  { intros j r Hj Hr. rewrite Hm by done. by rewrite (proj2 (Z.eqb_neq j x)). }
  eapply wp_bind_lift; [done|].
  eapply wp_mono; [|by eapply Put_branch_wp].
  intros r s3. apply grown_mono. by etrans.
Qed.

Lemma entry_outside S p l v m r :
  entry S (p ++ l) v m -> valid r -> (∀ r', r ≠ p ++ r') -> m r = None.
Proof.
  intros He Hr Hne. inversion He as [k w ? ? Hk Hv Hw Hm Heq|k ? mc ? Hk Hrep Hm Hm']; subst.
  - rewrite Hm by done. case_bool_decide as Hrk; [|done].
    destruct (Hne l). congruence.
  - apply Hm'; [done|]. intros r' ->. destruct (Hne (l ++ r')). by rewrite app_assoc.
Qed.

Lemma tnode_entry S r n m :
  vrep r n -> no_zero n = true -> tnode S n m -> Value_Len r ≠ 17 ->
  ∃ k, entry S k (Value_Raw (Get r 1)) m ∧ Value_Len r = 2 ∧
       CompactDecode (Value_Str (Get r 0)) = Ret k ∧ k ≠ [].
Proof.
  intros Hr Hz Hn Hlen. inversion Hn as [k w ? Hkn Hm|k c mc ? Hkn Hk0 Hc Hm Hm'|cs w ms ? Hl]; subst n.
  - destruct (pair_shape r _ _ Hr) as (? & -> & Hw). exists (k ++ [16]).
    split; [|by rewrite (CompactDecode_compact true) by done; destruct k].
    apply entry_leaf with w; [done|done| |done]. apply str_no_zero. by apply (no_zero_elem _ 1 _ Hz).
  - destruct (pair_shape r _ _ Hr) as (? & -> & Hw). exists k.
    split; [|by rewrite (CompactDecode_compact false), app_nil_r by done].
    apply entry_ext with mc; [done| |done|done]. exists c. do 2 (split; [done|]).
    split; [by apply (no_zero_elem _ 1 _ Hz)|done].
  - by destruct (branch_shape r cs w Hr Hl) as [? _].
Qed.

(** The end of the walk over a two-element node: put the common prefix back. *)
Lemma prefix_wp s S p l h M :
  nibbles p -> grown S (λ r, M (p ++ r)) h s ->
  (∀ r, valid r -> (∀ r', r ≠ p ++ r') -> M r = None) ->
  wp (if Z.of_nat (length p) =? 0 then mret h
      else ck ← lift (CompactEncode (take (length p) (p ++ l)));
           Trie_Put (VList [VStr ck; h])) (grown S M) s.
Proof.
  intros Hp (S' & Hsub & Hok & Hrep) HM. destruct (Z.eqb_spec (Z.of_nat (length p)) 0) as [H0|H0].
  - destruct p; [|simpl in H0; lia]. apply wp_ret. exists S'. done.
  - rewrite take_app_length. rewrite <-(app_nil_r p) at 1.
    assert (p ≠ []) by (intros ->; done).
    eapply wp_bind_lift; [by apply (CompactEncode_eq false)|].
    eapply wp_mono; [intros r s'; by apply grown_mono|]. by eapply Put_ext_wp.
Qed.

Lemma InsertState_pair_wp f s S k v m key w :
  (∀ key s S v m, (length key < f)%nat -> store_ok s S -> rep S v m -> valid key ->
     wp (InsertState f v key (VStr w)) (grown S (upd m key w)) s) ->
  (0 < f)%nat -> (length key < Datatypes.S f)%nat ->
  store_ok s S -> entry S k v m -> k ≠ [] -> k ≠ key -> valid key -> w ≠ [x00] ->
  let matchingLength := MatchingNibbleLength key k in
  let ml := Z.of_nat matchingLength in
  wp (newHash ← (if ml =? zlen k then
                   rest ← lift (slice key ml (zlen key));
                   InsertState f v rest (VStr w)
                 else expand_slice (InsertState f) k v key (VStr w) ml);
      if ml =? 0 then mret newHash
      else ck ← lift (CompactEncode (take matchingLength key));
           Trie_Put (VList [VStr ck; newHash])) (grown S (upd m key w)) s.
Proof.
  intros IH Hf0 Hf Hok He Hk0 Hne Hkey Hw. cbn zeta.
  destruct (MatchingNibbleLength_spec key k) as (p & a & b & Hkeyp & Hkp & -> & Hdiff).
  assert (a ≠ []) as Ha.
  { intros ->. rewrite app_nil_r in Hkeyp. subst.
    inversion He as [k' w' ? ? Hk' _ _ _ Heq|k' ? mc ? Hk' _ _ _]; subst.
    - assert (b = []) as -> by (apply (valid_unique p b Hkey); rewrite <-Heq; by exists k').
      apply Hne. by rewrite Heq, app_nil_r.
    - apply Forall_app in Hk' as [Hp _]. destruct Hkey as (k' & _ & ->).
      apply Forall_app in Hp as [_ [H16 _]%Forall_cons]. by apply not_nibble_16 in H16. }
  subst key k. destruct (valid_split p a Hkey Ha) as [Hp Hva].
  apply wp_bind; [intros h; unfold Trie_Put, Cache_Put; tame|].
  eapply wp_mono with (Q := grown S (λ r, upd m (p ++ a) w (p ++ r))).
  { intros h s' Hh. apply prefix_wp; [done|done|]. intros r Hr Hrp.
    rewrite upd_ne by done. by eapply entry_outside. }
  destruct b as [|y rb].
  - rewrite app_nil_r in *. unfold zlen at 1. rewrite Z.eqb_refl.
    eapply wp_bind_lift; [apply (slice_of p a []); [by rewrite app_nil_r|done|lenlia]|].
    eapply wp_mono; [intros h s' Hh; apply Hh|].
    assert (rep S v (λ r, m (p ++ r))) as Hv.
    { inversion He as [k' w' ? ? Hk' _ _ _ Heq|k' ? mc ? Hk' Hrep Hm _]; subst.
      - by apply valid_unique in Hkey; [|exists k'].
      - apply rep1_rep. eapply rep1_ext; [|done]. intros r Hr. symmetry. by apply Hm. }
    eapply wp_mono; [|eapply (IH a s S v); [|done|done|done]].
    + intros h s' (S' & ? & ? & Hr). exists S'. split; [done|]. split; [done|].
      eapply rep1_ext; [|done]. intros r Hr'. unfold upd.
      repeat case_bool_decide; simplify_eq; done.
    + rewrite length_app in Hf. destruct p; [done|]. simpl in Hf. lia.
  - destruct a as [|x ra]; [done|]. specialize (Hdiff x y ra rb eq_refl eq_refl).
    destruct (Z.eqb_spec (Z.of_nat (length p)) (zlen (p ++ y :: rb))) as [Hl|_]; [unfold zlen in Hl; rewrite length_app in Hl; simpl in Hl; lia|].
    destruct f as [|f]; [lia|].
    apply (entry_app S p) in He; [|done|done].
    apply (expand_wp f s S p x ra (VStr w) (λ r, if bool_decide (r = x :: ra) then Some w else None)
      y rb v (λ r, m (p ++ r))); [done| |done|done| | |].
    + destruct Hva as (k' & Hk' & Heq). rewrite Heq. by eapply entry_leaf; [|constructor|..].
    + apply valid_cons in Hva as [[-> _]|[Hx _]]; [lia|unfold nibble in Hx; lia].
    + inversion He as [k' w' ? ? Hk' _ _ _ Heq|k' ? mc ? Hk' _ _ _]; subst.
      * destruct k' as [|z k']; simplify_eq/=; [lia|]. apply Forall_cons in Hk' as [Hz _].
        unfold nibble in Hz. lia.
      * apply Forall_cons in Hk' as [Hz _]. unfold nibble in Hz. lia.
    + intros j r Hj. unfold upd. destruct (Z.eqb_spec j x) as [->|Hjx].
      * repeat case_bool_decide; simplify_eq; try done.
        by apply (entry_other S y rb v (λ r, m (p ++ r)) x r).
      * rewrite bool_decide_eq_false_2; [done|]. intros Heq. simplify_eq.
Qed.

(** The branch case: replace one slot of a copy of the node. *)
Lemma InsertState_branch_wp f s S r i rest m w :
  (∀ key s S v m, (length key < f)%nat -> store_ok s S -> rep S v m -> valid key ->
     wp (InsertState f v key (VStr w)) (grown S (upd m key w)) s) ->
  (length (i :: rest) < Datatypes.S f)%nat -> (0 < f)%nat ->
  store_ok s S -> branch_rep S (copy_branch r) m ->
  (∀ j v, slot S j v m -> 0 <= j <= 16 -> copy_branch r !! Z.to_nat j = Some v ->
     Value_Raw (Get r j) = v) ->
  valid (i :: rest) -> w ≠ [x00] ->
  wp (child ← InsertState f (Value_Raw (Get r i)) rest (VStr w);
      newNode ← lift (assign (copy_branch r) i child);
      Trie_Put (VList newNode)) (grown S (upd m (i :: rest) w)) s.
Proof.
  intros IH Hf Hf0 Hok Hb Hget Hkey Hw.
  assert (0 <= i <= 16) as Hi.
  { apply valid_cons in Hkey as [[-> _]|[Hi _]]; [lia|unfold nibble in Hi; lia]. }
  destruct (lookup_lt_is_Some_2 (copy_branch r) (Z.to_nat i)) as [v Hv].
  { destruct Hb as [-> _]. lia. }
  assert (slot S i v m) as Hslot.
  { rewrite <-(Z2Nat.id i) by lia. by apply Hb. }
  rewrite (Hget i v Hslot Hi Hv).
  apply wp_bind; [intros a; unfold Trie_Put, Cache_Put; tame|].
  eapply wp_mono with (Q := λ c s', ∃ S', S ⊆ S' ∧ store_ok s' S' ∧ slot S' i c (upd m (i :: rest) w)).
  - intros c s' (S' & Hsub & Hok' & Hc).
    destruct (branch_assign S S' (copy_branch r) m (upd m (i :: rest) w) i c)
      as (vs & -> & Hvs); [done|done|done|done| |].
    { intros j q Hj _. apply upd_ne. congruence. }
    eapply wp_bind_lift; [done|]. eapply wp_mono; [intros ??; by apply grown_mono|].
    by apply Put_branch_wp.
  - unfold slot in *. apply valid_cons in Hkey as [[-> ->]|[Hn Hrest]].
    + destruct f as [|f]; [lia|]. apply wp_ret. exists S. unfold read. rewrite upd_eq. split; [done|].
      split; [done|]. split; [constructor|done].
    + destruct (Z.eqb_spec i 16) as [->|_]; [by apply not_nibble_16 in Hn|].
      eapply wp_mono; [|eapply IH; [simpl in Hf; lia|done|done|done]].
      intros c s' (S' & ? & ? & Hc). exists S'. split; [done|]. split; [done|].
      apply rep1_rep. eapply rep1_ext; [|done]. intros q Hq. unfold upd.
      repeat case_bool_decide; simplify_eq; done.
Qed.

Lemma copy_branch_get r j v : 0 <= j <= 16 -> IsNil v = false ->
  IsNil (Value_Raw (Get r j)) = false ->
  copy_branch r !! Z.to_nat j = Some v -> Value_Raw (Get r j) = v.
Proof.
  intros Hj Hv Hn Hl. unfold copy_branch in Hl.
  apply list_lookup_fmap_Some in Hl as (i & -> & [-> Hi]%lookup_seq). simpl in *.
  rewrite Z2Nat.id in * by lia. by rewrite Hn.
Qed.

Lemma InsertState_wp f : ∀ key s S v m w,
  (length key < f)%nat -> store_ok s S -> rep S v m -> valid key -> w ≠ [x00] ->
  wp (InsertState f v key (VStr w)) (grown S (upd m key w)) s.
Proof.
  induction f as [|f IH]; intros key s S v m w Hf Hok Hrep Hkey Hw; [lia|].
  assert (0 < f)%nat as Hf0.
  { apply valid_nonempty in Hkey. destruct key; [done|simpl in Hf; lia]. }
  cbn [InsertState]. destruct (rep_inv _ _ _ Hrep) as (_ & -> & Hcase).
  destruct (Z.eqb_spec (zlen key) 0) as [Hk|_]; [by apply zlen_0, valid_nonempty in Hk|].
  destruct (rep_inv _ _ _ Hrep) as (-> & _ & _).
  cbn [orb]. destruct Hcase as [(-> & Hv & Hm)|(-> & it & Hne & Hv & Hz & Ht)].
  { destruct Hkey as (k & Hk & ->). eapply wp_bind_lift; [by apply (CompactEncode_eq true)|].
    eapply Put_leaf_wp; [done|done|constructor|done|]. intros r Hr. unfold upd.
    case_bool_decide; [done|by apply Hm]. }
  apply wp_bind; [intros a; unfold expand_slice, Trie_Put, Cache_Put; tame; apply tame_InsertState|].
  eapply wp_mono; [|by eapply getNode_wp]. clear Hv Hz Ht Hne s Hok it v Hrep.
  intros r s (Hok & n & Hr & Hz & Hn).
  destruct (Z.eqb_spec (Value_Len r) 2) as [H2|H2].
  - destruct (tnode_entry S r n m Hr Hz Hn ltac:(lia)) as (k & He & _ & -> & Hk0).
    eapply wp_bind_lift; [done|]. rewrite CompareIntSlice_spec. case_bool_decide as Hkk.
    + subst k. destruct Hkey as (k & Hk & ->). eapply wp_bind_lift; [by apply (CompactEncode_eq true)|].
      eapply Put_leaf_wp; [done|done|constructor|done|]. intros q Hq. unfold upd.
      case_bool_decide; [done|].
      inversion He as [k' w' ? ? Hk' _ _ Hm Heq|k' ? mc ? Hk' _ _ _]; subst.
      * apply app_inj_tail in Heq as [-> _]. rewrite Hm by done. by rewrite bool_decide_eq_false_2.
      * apply Forall_app in Hk' as [_ [H16 _]%Forall_cons]. by apply not_nibble_16 in H16.
    + eapply InsertState_pair_wp; eauto.
  - inversion Hn as [k w' ? Hkn Hm|k c mc ? Hkn Hk0 Hc Hm Hm'|cs w' ms ? Hl Hcs Hm Hm16]; subst n;
      [by destruct (pair_shape r _ _ Hr)..|].
    destruct key as [|i rest]; [by apply valid_nonempty in Hkey|].
    eapply wp_bind_lift; [apply index_head|]. simpl drop.
    pose proof (copy_branch_rep S r cs w' ms m Hr Hz Hl Hcs Hm Hm16) as Hb.
    eapply InsertState_branch_wp; eauto. intros j v Hslot Hj Hv.
    destruct (slot_vrep _ _ _ _ Hslot) as (it & Hvr & _).
    apply copy_branch_get; [done|by eapply vrep_NewValue| |done].
    destruct (branch_shape r cs w' Hr Hl) as [_ Hget].
    destruct (lookup_lt_is_Some_2 (cs ++ [RStr w']) (Z.to_nat j)) as [it' Hit'].
    { rewrite length_app. simpl. lia. }
    specialize (Hget _ _ Hit'). rewrite Z2Nat.id in Hget by lia. by eapply vrep_NewValue.
Qed.

(** * Writing the cache to the database *)

(** Every node of [S] is in the database. *)
Definition durable (db : D) (S : gmap bytes item) : Prop :=
  ∀ h it, S !! h = Some it -> db_data db h = enc it.

Lemma commit_fold (ns : gmap bytes Node) (db : D) h :
  db_data (map_fold commit_node db ns) h =
  match ns !! h with
  | Some n => if nd_Dirty n then Encode (nd_Value n) else db_data db h
  | None => db_data db h
  end.
Proof.
  revert ns. refine (map_fold_weak_ind (λ b ns, db_data b h = _) _ _ _ _); [done|].
  intros k n ns b Hk IH. unfold commit_node. destruct (decide (k = h)) as [<-|Hne].
  - rewrite lookup_insert_eq. rewrite Hk in IH. case_match; [by rewrite db_get_put_eq|done].
  - rewrite lookup_insert_ne by done. destruct (nd_Dirty n); [by rewrite db_get_put_ne|done].
Qed.

(** Committing keeps the content and makes it durable; what was durable stays. *)
Lemma Commit_ok s S :
  store_ok s S ->
  store_ok (Commit s) S ∧ durable (e_db (st_env (Commit s))) S.
Proof.
  intros Hok. pose proof Hok as [Hh Hs Hd].
  assert (∀ h n, cached s !! h = Some n -> nd_Dirty n = false ∨ IsDirty (st_cache s) = true) as Hdirty.
  { intros h n Hn. destruct (nd_Dirty n) eqn:E; [right|by left]. by apply (Hd h n). }
  unfold Commit. destruct (IsDirty (st_cache s)) eqn:Edirty; simpl.
  - assert (∀ h it, S !! h = Some it ->
      db_data (map_fold commit_node (e_db (st_env s)) (nodes (st_cache s))) h = enc it) as Hdb.
    { intros h it Hit. rewrite commit_fold. specialize (Hs h it Hit). unfold stored, cached, disk in Hs.
      destruct (nodes (st_cache s) !! h) as [n|] eqn:E; [|done]. destruct Hs as [Hv Hnd].
      destruct (nd_Dirty n); [|by apply Hnd]. apply vrep_Encode; [done|]. by apply (Hh h). }
    split; [|done]. split; simpl.
    + intros h it Hit. by apply Hh.
    + intros h it Hit. unfold stored, cached, disk. simpl. destruct (200 <? _).
      * rewrite lookup_empty. by apply Hdb.
      * rewrite lookup_fmap. specialize (Hs h it Hit). unfold stored, cached in Hs.
        destruct (nodes (st_cache s) !! h) as [n|] eqn:E; simpl; [|by apply Hdb].
        split; [by apply Hs|]. intros _. by apply Hdb.
    + intros h n. unfold cached. simpl. destruct (200 <? _); [by rewrite lookup_empty|].
      rewrite lookup_fmap, fmap_Some. by intros (n' & _ & ->).
  - split; [done|]. intros h it Hit. specialize (Hs h it Hit). unfold stored in Hs.
    destruct (cached s !! h) as [n|] eqn:E; [|done]. destruct Hs as [_ Hn]. apply Hn.
    by destruct (Hdirty h n E).
Qed.

(** * The trie operations *)

(** The abstract trie: the current content and the last synced one. *)
Definition content (k : gmap bytes bytes) (key : bytes) : bytes := default [] (k !! key).

Definition store_of (te : Trie * Env D) : Store D := mkStore (tr_cache te.1) te.2.

(** A root is a string or a byte slice; it is hashed whatever its size. *)
Definition is_string (v : goval) : Prop := ∃ b, v = VStr b ∨ v = VBytes b.

(** Something is stored under the paths of keys only, not under paths of an odd
    number of nibbles. *)
Definition at_keys (m : tmap) : Prop :=
  ∀ r, valid r -> m r ≠ None -> ∃ key, r = CompactHexDecode key.

(** The root [v] refers to a trie with the content [M]. *)
Definition holds (S : gmap bytes item) (v : goval) (M : gmap bytes bytes) : Prop :=
  is_string v ∧ ∃ m, rep S v m ∧ at_keys m ∧ ∀ key, m (CompactHexDecode key) = M !! key.

Lemma at_keys_upd m key w : at_keys m -> at_keys (upd m (CompactHexDecode key) w).
Proof.
  intros Hm r Hr. unfold upd. case_bool_decide as E; [by exists key|by apply Hm].
Qed.

(** The trie represents the content [M], and its last synced root [M0]. *)
Definition trie_ok (te : Trie * Env D) (M M0 : gmap bytes bytes) : Prop :=
  ∃ S S0, store_ok (store_of te) S ∧ holds S (tr_Root te.1) M ∧
          S0 ⊆ S ∧ durable (e_db te.2) S0 ∧ holds S0 (tr_prevRoot te.1) M0.

Lemma holds_mono S S' v M : S ⊆ S' -> holds S v M -> holds S' v M.
Proof. intros Hsub (? & m & ? & ? & ?). split; [done|]. exists m. split; [by eapply rep_mono|done]. Qed.

Lemma holds_upd S v m M key w :
  is_string v -> rep S v (upd m (CompactHexDecode key) w) -> at_keys m ->
  (∀ key, m (CompactHexDecode key) = M !! key) ->
  holds S v (<[key := w]> M).
Proof.
  intros Hs Hr Hk Hm. split; [done|]. eexists. split; [done|].
  split; [by apply at_keys_upd|]. intros key'.
  destruct (decide (key = key')) as [<-|Hne].
  - by rewrite upd_eq, lookup_insert_eq.
  - rewrite upd_ne by (intros Heq; by apply key_inj in Heq).
    rewrite lookup_insert_ne by done. apply Hm.
Qed.

Lemma holds_empty S : holds S (VStr []) ∅.
Proof.
  split; [exists []; by left|]. exists (λ _, None). split; [|split; [by intros r _|done]]. exists (RStr []).
  split; [constructor|]. split; [done|]. by apply tref_empty.
Qed.

Lemma grows_run {A} (m : TM D A) : grows m -> grows (run m).
Proof.
  intros Hm [t e]. unfold run. specialize (Hm (mkStore (tr_cache t) e)).
  by destruct (m _) as [o s].
Qed.

Lemma run_wp {A} (m : TM D A) Q t e :
  wp m (λ a s, Q a (mkTrie (tr_prevRoot t) (tr_Root t) (st_cache s), st_env s))
     (mkStore (tr_cache t) e) ->
  hwp (run m) Q (t, e).
Proof.
  intros Hm Hc. unfold run in *. unfold hwp in Hm. destruct (m _) as [o s]. by apply Hm.
Qed.

(** The database is the same after a walk. *)
Lemma wp_db {A} (m : TM D A) Q s :
  tame m -> wp m (λ a s', e_db (st_env s') = e_db (st_env s) -> Q a s') s -> wp m Q s.
Proof. intros [_ Hdb] Hm Hc. destruct (Hm Hc) as (a & Ha & Hq). eauto. Qed.

(** ** One step of each operation *)

Lemma root_type_wp s S v m :
  store_ok s S -> rep1 S v m ->
  wp (root_type v) (λ r s', is_string r ∧ grown S m r s') s.
Proof.
  intros Hok Hrep. destruct (Hrep) as (it & Hne & Hv & Hz & Ht). unfold root_type.
  assert (is_string v -> wp (mret v) (λ r s', is_string r ∧ grown S m r s') s) as Hret.
  { intros Hs. apply wp_ret. split; [done|]. by exists S. }
  inversion Hv as [b|b|x Hx|l its Hl]; subst.
  - apply Hret. exists b. by left.
  - apply Hret. exists b. by right.
  - exfalso. inversion Ht as [|h n ? _ Hlen|]; subst; done.
  - intros Hc. destruct (PutValue_wp s S (VList l) (RList its) m true) as (r & Hr & Hg);
      [done..|by inversion Ht|done|].
    exists r. split; [done|]. split; [|done]. unfold PutValue in Hr.
    rewrite orb_true_r in Hr. injection Hr as <-. eexists. by right.
Qed.

Lemma Update_ok te M M0 key w :
  trie_ok te M M0 -> w ≠ [x00] ->
  hwp (Update key w) (λ _ te', trie_ok te' (<[key := w]> M) M0) te.
Proof.
  destruct te as [t e]. intros (S & S0 & Hok & (_ & m & Hm & Hkeys & HM) & Hsub & Hdur & H0) Hw.
  unfold Update. change (get_Root (t, e)) with (Ret (tr_Root t), (t, e)).
  apply hwp_bind; [intros r; apply grows_bind; [apply grows_run, tame_InsertState|];
    intros v; apply grows_bind; [apply grows_run; unfold root_type; case_match; apply tame_PutValue || by intros ? ?|];
    by intros ? [??] ?|].
  apply (hwp_ret (tr_Root t) _ (t, e)).
  apply hwp_bind; [intros v; apply grows_bind; [apply grows_run; unfold root_type; case_match; apply tame_PutValue || by intros ? ?|];
    by intros ? [??] ?|].
  apply run_wp. apply wp_db; [apply tame_InsertState|].
  eapply wp_mono; [|eapply InsertState_wp; [|done|done|apply valid_key|done]; lia].
  intros v s1 (S1 & Hs1 & Hok1 & Hr1) Hdb1.
  apply hwp_bind; [by intros ? [??] ?|].
  apply run_wp. apply wp_db; [unfold root_type; case_match; apply tame_PutValue || apply tame_ret|].
  eapply wp_mono; [|eapply root_type_wp; [by destruct s1|done]].
  intros root s2 (Hroot & S2 & Hs2 & Hok2 & Hr2) Hdb2 Hc. apply rep1_rep in Hr2.
  eexists. split; [done|]. simpl in *. exists S2, S0.
  split; [by destruct s2|]. split; [by eapply holds_upd|]. split; [by do 2 (etrans; [done|])|].
  split; [|done]. by simpl; rewrite Hdb2, Hdb1.
Qed.

Lemma Get_ok te M M0 key :
  trie_ok te M M0 -> hwp (Trie_Get key) (λ v te', v = content M key ∧ trie_ok te' M M0) te.
Proof.
  destruct te as [t e]. intros (S & S0 & Hok & (Hstr & m & Hm & Hkeys & HM) & Hsub & Hdur & H0).
  unfold Trie_Get.
  apply hwp_bind; [intros r; apply grows_bind; [apply grows_run, tame_getState|by intros ? ? ?]|].
  apply (hwp_ret (tr_Root t) _ (t, e)).
  apply hwp_bind; [by intros ? ? ?|].
  apply run_wp. apply wp_db; [apply tame_getState|].
  eapply wp_mono; [|eapply getState_wp; [|done|done|apply valid_key]; lia].
  intros v s' [Hok' Hv] Hdb. apply hwp_ret. simpl.
  destruct (vrep_string _ _ Hv) as (Hs & _ & _ & _ & -> & _). split; [rewrite Hs; unfold read, content; by rewrite HM|].
  exists S, S0. split; [by destruct s'|]. split; [split; [done|by exists m]|]. split; [done|].
  simpl. by rewrite Hdb.
Qed.

Lemma copyRoot_eq v : copyRoot v = v.
Proof. by destruct v. Qed.

Lemma Sync_ok t e M M0 :
  trie_ok (t, e) M M0 -> trie_ok (Trie_Sync t e) M M.
Proof.
  intros (S & S0 & Hok & HM & Hsub & Hdur & H0).
  destruct (Commit_ok _ _ Hok) as [Hok' Hdur'].
  exists S, S. unfold Trie_Sync. simpl. rewrite copyRoot_eq.
  split; [by destruct (Commit _)|done].
Qed.

(** Without dirty nodes, what is durable is there. *)
Lemma durable_store_ok s S ns :
  store_ok s S -> durable (e_db (st_env s)) S ->
  (∀ h n, ns !! h = Some n -> nd_Dirty n = false ∧ cached s !! h = Some n) ->
  store_ok (mkStore (mkCache ns false) (st_env s)) S.
Proof.
  intros [Hh Hs Hd] Hdur Hns. split; [done| |].
  - intros h it Hit. unfold stored, cached, disk. simpl.
    destruct (ns !! h) as [n|] eqn:E; [|by apply Hdur].
    destruct (Hns h n E) as [_ Hc]. specialize (Hs h it Hit). unfold stored in Hs.
    rewrite Hc in Hs. split; [by apply Hs|]. intros _. by apply Hdur.
  - intros h n Hn Hdirty. destruct (Hns h n Hn) as [Hf _]. congruence.
Qed.

Lemma store_ok_sub s S0 S : S0 ⊆ S -> store_ok s S -> store_ok s S0.
Proof.
  intros Hsub [Hh Hs Hd]. split; [| |done].
  - intros h it Hit. apply Hh. by eapply lookup_weaken.
  - intros h it Hit. apply Hs. by eapply lookup_weaken.
Qed.

Lemma restored_ok t e M M0 t' ns :
  trie_ok (t, e) M M0 ->
  (∀ h n, ns !! h = Some n -> nd_Dirty n = false ∧ nodes (tr_cache t) !! h = Some n) ->
  t' = mkTrie (tr_prevRoot t) (tr_prevRoot t) (mkCache ns false) ->
  trie_ok (t', e) M0 M0.
Proof.
  intros (S & S0 & Hok & HM & Hsub & Hdur & H0) Hns ->.
  exists S0, S0. simpl in *. split; [|done].
  apply (durable_store_ok (store_of (t, e)) S0 ns); [by eapply store_ok_sub|done|done].
Qed.

Lemma Undo_ok t e M M0 : trie_ok (t, e) M M0 -> trie_ok (Trie_Undo t, e) M0 M0.
Proof.
  intros Hok. eapply (restored_ok t e M M0 _ (nodes (Cache_Undo (tr_cache t)))); [done| |done].
  intros h n Hn. simpl in Hn. by apply map_lookup_filter_Some in Hn as [? ?].
Qed.

Lemma Reopen_ok t e M M0 : trie_ok (t, e) M M0 -> trie_ok (Trie_New (tr_prevRoot t), e) M0 M0.
Proof.
  intros Hok. eapply (restored_ok t e M M0 _ ∅); [done| |].
  - intros h n. by rewrite lookup_empty.
  - unfold Trie_New. by rewrite copyRoot_eq.
Qed.

Lemma New_ok e : trie_ok (Trie_New (VStr []), e) ∅ ∅.
Proof.
  exists ∅, ∅. simpl. split.
  - split; [by intros h it; rewrite lookup_empty..|]. unfold cached. simpl.
    intros h n. by rewrite lookup_empty.
  - split; [apply holds_empty|]. split; [done|]. split; [|apply holds_empty].
    intros h it. by rewrite lookup_empty.
Qed.

End Spec.

(** * The trie as a machine *)

(** [OpReopen] is a restart: a new trie object, with an empty cache, over the
    last synced root. *)
Inductive trie_op :=
| OpUpdate (key value : bytes)
| OpGet (key : bytes)
| OpSync
| OpUndo
| OpReopen.

(** The one-byte string zero is the value that does not survive storage. *)
Definition storable (op : trie_op) : Prop :=
  match op with OpUpdate _ v => v ≠ [x00] | _ => True end.

Definition trie_step `{Crypto} {D} `{Database D} (op : trie_op) : TrieM (list bytes) :=
  match op with
  | OpUpdate key value => _ ← Update key value; mret []
  | OpGet key => v ← Trie_Get key; mret [v]
  | OpSync => _ ← st_modify (λ '(t, e), Trie_Sync t e); mret []
  | OpUndo => _ ← st_modify (λ '(t, e), (Trie_Undo t, e)); mret []
  | OpReopen => _ ← st_modify (λ '(t, e), (Trie_New (tr_prevRoot t), e)); mret []
  end.

(** The specification: two finite maps, the current and the synced content. *)
Notation maps := (gmap bytes bytes * gmap bytes bytes)%type.

Definition map_step (op : trie_op) (k : maps) : list bytes * maps :=
  match op with
  | OpUpdate key value => ([], (<[key := value]> k.1, k.2))
  | OpGet key => ([content k.1 key], k)
  | OpSync => ([], (k.1, k.1))
  | OpUndo | OpReopen => ([], (k.2, k.2))
  end.

Fixpoint map_run (ops : list trie_op) (k : maps) : list bytes :=
  match ops with
  | [] => []
  | op :: r => let '(out, k') := map_step op k in out ++ map_run r k'
  end.

(** The contents after a run. *)
Definition maps_after (ops : list trie_op) (k : maps) : maps :=
  foldl (λ k op, (map_step op k).2) k ops.

Section Machine.
Context `{HC : Crypto} {D : Type} `{HD : Database D} `{HL : !DatabaseLaws D}.

Lemma Sync_hashed (t : Trie) (e : Env D) : e_hashed (Trie_Sync t e).2 = e_hashed e.
Proof. unfold Trie_Sync, Commit. by destruct (negb _). Qed.

Lemma grows_Update key w : grows (Update (D := D) key w).
Proof.
  unfold Update. apply grows_bind; [by intros ? ?|]. intros r.
  apply grows_bind; [apply grows_run, tame_InsertState|]. intros v.
  apply grows_bind; [|by intros ? [??] ?].
  apply grows_run. unfold root_type. case_match; first [apply tame_PutValue|by intros ? ?].
Qed.

Lemma grows_Trie_Get key : grows (Trie_Get (D := D) key).
Proof.
  unfold Trie_Get. apply grows_bind; [by intros ? ?|]. intros r.
  apply grows_bind; [apply grows_run, tame_getState|by intros ? ? ?].
Qed.

Lemma grows_step op : grows (trie_step (D := D) op).
Proof.
  destruct op; simpl; (apply grows_bind; [|by intros ? ? ?]);
    try (intros [t e]; by intros ? ?).
  - apply grows_Update.
  - apply grows_Trie_Get.
  - intros [t e]. unfold st_modify. simpl.
    change (e_hashed e ⊆ e_hashed (Trie_Sync t e).2). by rewrite Sync_hashed.
Qed.

Lemma grows_steps ops : grows (for_collect (trie_step (D := D)) ops).
Proof.
  induction ops as [|op ops IH]; simpl; [by intros ? ?|].
  apply grows_bind; [apply grows_step|]. intros a. apply grows_bind; [done|by intros ? ? ?].
Qed.

Lemma step_ok op te k :
  storable op -> trie_ok te k.1 k.2 ->
  hwp (trie_step (D := D) op)
    (λ out te', out = (map_step op k).1 ∧
                trie_ok te' (map_step op k).2.1 (map_step op k).2.2) te.
Proof.
  intros Hop Hok. destruct te as [t e]. destruct op as [key w|key| | |]; simpl.
  - apply hwp_bind; [by intros ? ? ?|]. eapply hwp_mono; [|by apply Update_ok].
    intros u te' Hte'. by apply hwp_ret.
  - apply hwp_bind; [by intros ? ? ?|]. eapply hwp_mono; [|by apply Get_ok].
    intros v te' [-> Hte']. by apply hwp_ret.
  - intros _. eexists. split; [done|]. split; [done|]. by eapply Sync_ok.
  - intros _. eexists. split; [done|]. split; [done|]. by eapply Undo_ok.
  - intros _. eexists. split; [done|]. split; [done|]. by eapply Reopen_ok.
Qed.

Lemma steps_ok ops : ∀ te k,
  Forall storable ops -> trie_ok te k.1 k.2 ->
  hwp (for_collect (trie_step (D := D)) ops)
    (λ outs te', outs = map_run ops k ∧
                 trie_ok te' (maps_after ops k).1 (maps_after ops k).2) te.
Proof.
  induction ops as [|op ops IH]; intros te k Hops Hok; simpl; [by apply hwp_ret|].
  apply Forall_cons in Hops as [Hop Hops].
  apply hwp_bind; [intros a; apply grows_bind; [apply grows_steps|by intros ? ? ?]|].
  eapply hwp_mono; [|by apply step_ok]. intros out te' [-> Hok'].
  apply hwp_bind; [by intros ? ? ?|].
  eapply hwp_mono; [|by apply IH]. intros outs te'' [-> Hok'']. apply hwp_ret.
  split; [by destruct (map_step op k)|done].
Qed.

(** C2. The trie implements a finite map with commit and rollback: any sequence
    of updates, reads, syncs, undos and restarts on a new trie, over any
    database and in any order, returns without a panic and reads exactly what
    the map would, the last value written to the key or nothing; a restart or
    an undo goes back to the last synced content, read from the database.  (The hash function
    must be free of collisions on the nodes of this run, and the one value
    excluded is the single byte zero.) *)
Theorem trie_refines_map (ops : list trie_op) (e : Env D) :
  Forall storable ops ->
  let r := for_collect trie_step ops (Trie_New (VStr []), e) in
  collision_free (e_hashed r.2.2) -> r.1 = Ret (map_run ops (∅, ∅)).
Proof.
  intros Hops r Hc. destruct (steps_ok ops (Trie_New (VStr []), e) (∅, ∅)) as (outs & Ho & -> & _);
    [done|apply New_ok|done|done].
Qed.

End Machine.

Lemma trie_refines_map_witness :
  let ops := [OpUpdate (asc "do") (asc "verb"); OpUpdate (asc "dog") (asc "puppy"); OpSync;
              OpUpdate (asc "doge") (asc "a coin with a rather long description"); OpUpdate (asc "dog") (asc "cat");
              OpGet (asc "dog"); OpGet (asc "doge"); OpReopen; OpGet (asc "dog"); OpGet (asc "doge")] in
  (for_collect (trie_step (H := toy_crypto)) ops
     (Trie_New (VStr []), mkEnv NewMemDatabase [])).1
  = Ret [asc "cat"; asc "a coin with a rather long description"; asc "puppy"; []].
Proof.
  cbn zeta. apply (trie_refines_map (HC := toy_crypto)).
  - repeat constructor; discriminate.
  - apply cf_check_ok. vm_compute. reflexivity.
Defined.

(** * Deletion

    Two runs on a trie over the in-memory database, with [toy_crypto]. *)

#[local] Existing Instance toy_crypto.

Definition new_trie : Trie * Env MemDatabase := (Trie_New (VStr []), mkEnv NewMemDatabase []).

Definition reads_around_delete : TrieM (D := MemDatabase) (list bytes) :=
  _ ← Update [x10; x00] (asc "cat");
  _ ← Update [x10; x01] (asc "dog");
  _ ← Update [x20] (asc "fox");
  a ← Trie_Get [x10; x00];
  _ ← Trie_Delete [] [x20];
  b ← Trie_Get [x10; x00];
  c ← Trie_Get [x10; x01];
  mret [a; b; c].

(** Deleting a key can lose other keys: when the deletion leaves a branch
    with a single child that is an extension whose own child is stored inline
    (its encoding is shorter than 32 bytes), [deleteState] joins the paths but
    keeps the child's child as [Str()], which is empty for an inline node.
    Here "\x10\x00" and "\x10\x01" read back before "\x20" is deleted, and
    read as absent afterwards. *)
Theorem trie_delete_loses_keys :
  (reads_around_delete new_trie).1 = Ret [asc "cat"; []; []].
Proof. vm_compute. reflexivity. Qed.

(** The root after inserting two keys and deleting the second, with the trie
    reloaded from the database before the deletion or not. *)
Definition root_after_delete (reload : bool) : TrieM (D := MemDatabase) (bytes * bytes) :=
  _ ← Update [x10] (asc "cat");
  r1 ← get_Root;
  _ ← Update [x20] (asc "dog");
  _ ← st_modify (λ '(t, e), Trie_Sync t e);
  _ ← (if reload then st_modify (λ '(t, e), (Trie_New (tr_prevRoot t), e)) else mret tt);
  _ ← Trie_Delete [] [x20];
  r2 ← get_Root;
  mret (Value_Str r1, Value_Str r2).

(** The root hash depends on whether the nodes were still in the cache:
    deleting the last inserted key gives back the root from before the insertion when the
    nodes are the ones just built, but not when they were loaded from the
    database, because the test [n[i] != ""] that counts the used slots holds of
    the empty byte slices of a decoded node, so the branch is never collapsed. *)
Theorem trie_delete_depends_on_cache :
  (∃ r, (root_after_delete false new_trie).1 = Ret (r, r)) ∧
  (∃ r r', (root_after_delete true new_trie).1 = Ret (r, r') ∧ r ≠ r').
Proof.
  split; [eexists; vm_compute; reflexivity|].
  do 2 eexists. split; [vm_compute; reflexivity|discriminate].
Qed.
