(* ===== verification/Bloom.v ===== *)
(** [ethchain/bloom.go]: the bloom filter, 256 cells indexed by the last eight
    bytes of an address. *)

From S2P Require Import Prelude Bytes.

(** ethchain/bloom.go, BloomFilter. *)
Record BloomFilter := mkBloom { bin : bytes }.

(** ethchain/bloom.go, NewBloomFilter. [None] is the nil slice. *)
Definition NewBloomFilter (bin : option bytes) : BloomFilter :=
  mkBloom (match bin with None => zeros 256 | Some b => b end).

(** The bytes that an address is filed under. *)
Definition last8 (addr : bytes) : bytes := drop (Z.to_nat (zlen addr - 8)) addr.

(** ethchain/bloom.go 24-26, BloomFilter.Set. *)
Fixpoint set_cells (cells : bytes) (bin : bytes) : outcome bytes :=
  match cells with
  | [] => Ret bin
  | i :: rest => bin' ← assign bin (b2z i) x01; set_cells rest bin'
  end.

(** ethchain/bloom.go, BloomFilter.Set. Too short an address is skipped. *)
Definition Bloom_Set (addr : bytes) (self : BloomFilter) : outcome BloomFilter :=
  if zlen addr <? 8 then Ret self
  else mkBloom <$> set_cells (last8 addr) (bin self).

(** ethchain/bloom.go 36-40, BloomFilter.Search. *)
Fixpoint all_set (cells : bytes) (bin : bytes) : outcome bool :=
  match cells with
  | [] => Ret true
  | i :: rest => x ← index bin (b2z i); if b2z x =? 0 then Ret false else all_set rest bin
  end.

(** ethchain/bloom.go, BloomFilter.Search. *)
Definition Bloom_Search (addr : bytes) (self : BloomFilter) : outcome bool :=
  if zlen addr <? 8 then Ret false else all_set (last8 addr) (bin self).

(** ethchain/bloom.go, BloomFilter.Bin. *)
Definition Bloom_Bin (self : BloomFilter) : bytes := bin self.

(** Entering addresses one after the other. *)
Definition enter_all (addrs : list bytes) (b : BloomFilter) : outcome BloomFilter :=
  foldl (λ acc a, acc ≫= Bloom_Set a) (Ret b) addrs.

(** * What a filter holds *)

(** The cells of [S] are set, the others are not. *)
Definition marks (b : BloomFilter) (S : gset byte) : Prop :=
  length (bin b) = 256%nat ∧
  ∀ i, bin b !! Z.to_nat (b2z i) = Some (if decide (i ∈ S) then x01 else x00).

Lemma marks_new : marks (NewBloomFilter None) ∅.
Proof.
  split; [done|]. intros i. cbn. pose proof (b2z_range i). unfold zeros.
  rewrite lookup_replicate_2 by lia. by destruct (decide _) as [?%elem_of_empty|].
Qed.

Lemma set_cells_marks cs : ∀ l S,
  marks (mkBloom l) S ->
  ∃ l', set_cells cs l = Ret l' ∧ marks (mkBloom l') (list_to_set cs ∪ S).
Proof.
  induction cs as [|i cs IH]; intros l S [Hl Hm].
  - exists l. split; [done|]. split; [done|]. intros j. rewrite Hm. do 2 f_equal.
    destruct (decide (j ∈ S)), (decide (j ∈ list_to_set [] ∪ S)); set_solver.
  - pose proof (b2z_range i). cbn [set_cells]. cbn in Hl.
    rewrite <-(Z2Nat.id (b2z i)), assign_Ret by lia. cbn [mbind outcome_bind].
    destruct (IH (<[Z.to_nat (b2z i):=x01]> l) ({[i]} ∪ S)) as (l' & Hs & Hm').
    + split; [cbn; by rewrite length_insert|]. intros j. cbn. pose proof (b2z_range j).
      destruct (decide (j = i)) as [->|Hne].
      * rewrite list_lookup_insert_eq by lia. by rewrite decide_True by set_solver.
      * rewrite list_lookup_insert_ne.
        -- rewrite Hm. destruct (decide (j ∈ S)), (decide (j ∈ {[i]} ∪ S)); set_solver.
        -- intros E. apply Hne, b2z_inj. lia.
    + exists l'. split; [done|].
      replace (list_to_set (i :: cs) ∪ S) with (list_to_set cs ∪ ({[i]} ∪ S)) by set_solver. done.
Qed.

(** The bytes of the addresses that are long enough. *)
Definition entered (addrs : list bytes) : gset byte :=
  list_to_set (a ← filter (λ a, 8 <= zlen a) addrs; last8 a).

Lemma Set_marks a b S :
  marks b S -> ∃ b', Bloom_Set a b = Ret b' ∧ marks b' (entered [a] ∪ S).
Proof.
  intros Hm. unfold Bloom_Set, entered. destruct (Z.ltb_spec (zlen a) 8).
  - exists b. split; [done|]. rewrite filter_cons_False by lia. cbn.
    by replace (∅ ∪ S) with S by set_solver.
  - destruct b as [l]. destruct (set_cells_marks (last8 a) l S Hm) as (l' & Hs & Hm').
    exists (mkBloom l'). cbn [bin]. rewrite Hs. split; [done|].
    rewrite filter_cons_True by lia. cbn. by rewrite app_nil_r.
Qed.

Lemma entered_cons a addrs : entered (a :: addrs) = entered [a] ∪ entered addrs.
Proof.
  unfold entered. rewrite !filter_cons. case_decide; cbn; [|set_solver].
  rewrite app_nil_r, list_to_set_app_L. done.
Qed.

Lemma enter_all_marks addrs : ∀ b S,
  marks b S -> ∃ b', enter_all addrs b = Ret b' ∧ marks b' (entered addrs ∪ S).
Proof.
  induction addrs as [|a addrs IH]; intros b S Hm.
  - exists b. split; [done|]. by replace (entered [] ∪ S) with S by set_solver.
  - destruct (Set_marks a b S Hm) as (b1 & Hs & Hm1).
    destruct (IH b1 _ Hm1) as (b2 & Ha & Hm2). exists b2. unfold enter_all in *. cbn [foldl mbind outcome_bind].
    rewrite Hs. split; [done|]. rewrite entered_cons.
    by replace (entered [a] ∪ entered addrs ∪ S) with (entered addrs ∪ (entered [a] ∪ S)) by set_solver.
Qed.

Lemma all_set_marks cs b S :
  marks b S -> all_set cs (bin b) = Ret (bool_decide (Forall (λ i, i ∈ S) cs)).
Proof.
  intros [Hl Hm]. induction cs as [|i cs IH]; cbn [all_set].
  - done.
  - pose proof (b2z_range i) as H. rewrite (proj2 (index_Ret _ _ _) (conj (proj1 H) (Hm i))).
    cbn [mbind outcome_bind]. case_decide.
    + change (b2z x01 =? 0) with false. rewrite IH. f_equal. apply bool_decide_ext.
      rewrite Forall_cons. tauto.
    + change (b2z x00 =? 0) with true. rewrite bool_decide_eq_false_2; [done|].
      rewrite Forall_cons. tauto.
Qed.

(** The filter has no false negatives, and its answers are exactly known:
    after any addresses have been entered in a new filter (which never panics),
    a search succeeds for exactly the addresses of at least eight bytes whose
    last eight bytes all occur among the last eight bytes of the addresses
    entered that were long enough; in particular for each of those. *)
Theorem bloom_answers (addrs : list bytes) (addr : bytes) :
  ∃ b, enter_all addrs (NewBloomFilter None) = Ret b ∧
    Bloom_Search addr b
    = Ret (bool_decide (8 <= zlen addr ∧ Forall (λ i, i ∈ entered addrs) (last8 addr))) ∧
    (addr ∈ addrs -> 8 <= zlen addr -> Bloom_Search addr b = Ret true).
Proof.
  destruct (enter_all_marks addrs _ _ marks_new) as (b & Hb & Hm).
  replace (entered addrs ∪ ∅) with (entered addrs) in Hm by set_solver.
  exists b. split; [done|].
  assert (Bloom_Search addr b
    = Ret (bool_decide (8 <= zlen addr ∧ Forall (λ i, i ∈ entered addrs) (last8 addr)))) as Hs.
  { unfold Bloom_Search. destruct (Z.ltb_spec (zlen addr) 8).
    - rewrite bool_decide_eq_false_2; [done|]. lia.
    - rewrite (all_set_marks _ _ _ Hm). f_equal. apply bool_decide_ext. intuition. }
  split; [done|]. intros Ha H8. rewrite Hs, bool_decide_eq_true_2; [done|].
  split; [done|]. apply Forall_forall. intros i Hi. unfold entered. apply elem_of_list_to_set, list_elem_of_bind.
  exists addr. split; [done|]. by apply list_elem_of_filter.
Qed.
