(* ===== verification/Pow.v ===== *)
(** [ethchain/dagger.go]: proof of work.  [EasyPow] is the one the chain uses;
    [Dagger] is the older memory-hard function.

    The code hashes with another package's Keccak-256, the same function as
    [Sha3Bin]; several writes to a hash are the hash of their concatenation.
    Random numbers are an argument: the sequence that the generator draws until
    the search is interrupted.  Hash rate and sleeping are left out. *)

From S2P Require Import Prelude GoVal Big Bytes Rlp Value Crypto.

Section Pow.
Context `{Crypto}.

(** * EasyPow *)

(** ethchain/dagger.go, EasyPow.Verify. *)
Definition Pow_Verify (hash : bytes) (diff : Z) (nonce : bytes) : outcome bool :=
  let sha := Sha3Bin (hash ++ nonce) in
  let v := BigPow 2 256 in
  ret ← big_Div v diff;
  let res := big_SetBytes sha in
  Ret (res <? ret).

(** ethchain/dagger.go, EasyPow.Search. [None] is the nil of an interrupted
    search. *)
Fixpoint Pow_Search (hash : bytes) (diff : Z) (rnds : list Z) : outcome (option bytes) :=
  match rnds with
  | [] => Ret None
  | r :: rest =>
      let sha := Sha3Bin (big_Bytes r) in
      ok ← Pow_Verify hash diff sha;
      if (ok : bool) then Ret (Some sha) else Pow_Search hash diff rest
  end.

(** * Dagger *)

(** ethchain/dagger.go, Dagger. *)
Record Dagger := mkDagger { dag_hash : Z; dag_xn : Z }.

(** ethchain/dagger.go 193-201, Dagger.Node. The index of the [k]th parent: 3 bits
    for every level below. *)
Definition parent_index (dag : Dagger) (L i k : Z) : Z :=
  let b := big_SetBytes (Sha3Bin (big_Bytes (dag_hash dag) ++ big_Bytes (dag_xn dag) ++
             big_Bytes (s64 L) ++ big_Bytes (s64 i) ++ big_Bytes (s64 k))) in
  let s := u64 (u64 (L - 1) * 3) in
  let one := if s <? 64 then Z.shiftl 1 s else 0 in
  Z.land (big_Uint64 b) (u64 (one - 1)).

(** The bytes of the parents' nodes, from the [k]th on, [n] of them. *)
Fixpoint parents (node : Z -> outcome Z) (index : Z -> Z) (k : Z) (n : nat) : outcome bytes :=
  match n with
  | O => Ret []
  | S n => x ← node (index k); rest ← parents node index (k + 1) n; Ret (big_Bytes x ++ rest)
  end.

(** ethchain/dagger.go, Dagger.Node. *)
Fixpoint Dagger_Node (fuel : nat) (dag : Dagger) (L i : Z) : outcome Z :=
  match fuel with
  | O => NoFuel
  | S f =>
      if L =? i then Ret (dag_hash dag)
      else
        let m := if L =? 9 then 16%nat else 3%nat in
        sha ← parents (Dagger_Node f dag (u64 (L - 1))) (parent_index dag L i) 0 m;
        Ret (big_SetBytes (Sha3Bin sha))
  end.

(** ethchain/dagger.go, Dagger.Eval. The new dagger has the [xn] of the nonce. *)
Definition Dagger_Eval (fuel : nat) (dag : Dagger) (N : Z) : outcome Z * Dagger :=
  match big_Div N (BigPow 2 26) with
  | Ret xn =>
      let dag := mkDagger (dag_hash dag) xn in
      let pk k := Z.land (big_Uint64 (big_SetBytes (Sha3Bin (big_Bytes (dag_hash dag) ++
                    big_Bytes (dag_xn dag) ++ big_Bytes N ++ big_Bytes (s64 k))))) 0x1ffffff in
      (sha ← parents (Dagger_Node fuel dag 9) pk 0 4; Ret (big_SetBytes (Sha3Bin sha)), dag)
  | Panic => (Panic, dag)
  | NoFuel => (NoFuel, dag)
  end.

(** The recursion goes down ten levels. *)
Definition dagger_fuel : nat := 10.

(** ethchain/dagger.go, Dagger.Verify. *)
Definition Dagger_Verify (dag : Dagger) (hash diff nonce : Z) : outcome bool :=
  obj ← big_Div (BigPow 2 256) diff;
  e ← (Dagger_Eval dagger_fuel (mkDagger hash (dag_xn dag)) nonce).1;
  Ret (e <? obj).

(** ethchain/dagger.go, DaggerVerify. *)
Definition DaggerVerify (hash diff nonce : Z) : outcome bool :=
  obj ← big_Div (BigPow 2 256) diff;
  e ← (Dagger_Eval dagger_fuel (mkDagger hash 0) nonce).1;
  Ret (e <? obj).

(** ethchain/dagger.go, Dagger.Find. What it sends on the channel, for the
    first 1000 numbers drawn. *)
Fixpoint Dagger_Find (n : nat) (dag : Dagger) (obj : Z) (rnds : list Z) : outcome (list Z) :=
  match n, rnds with
  | S n, rnd :: rest =>
      let '(r, dag') := Dagger_Eval dagger_fuel dag rnd in
      res ← r;
      if res <? obj then Ret [rnd; 0] else Dagger_Find n dag' obj rest
  | _, _ => Ret [0]
  end.

(** ethchain/dagger.go, Dagger.Search. One routine: the first number it sends. *)
Definition Dagger_Search (dag : Dagger) (hash diff : Z) (rnds : list Z) : outcome Z :=
  obj ← big_Div (BigPow 2 256) diff;
  sent ← Dagger_Find 1000 (mkDagger hash (dag_xn dag)) obj rnds;
  index sent 0.

(** * EasyPow: what is accepted *)

Lemma pow_target : BigPow 2 256 = 2 ^ 256.
Proof. apply BigPow_pow. lia. Qed.

(** What the proof of work accepts: a nonce is valid for a difficulty
    exactly when the digest of the hash and the nonce, as a number plus one,
    times the difficulty is at most 2^256 (so a harder difficulty accepts fewer
    nonces); a negative difficulty accepts none, and the difficulty zero panics. *)
Theorem Pow_Verify_spec (hash nonce : bytes) (diff : Z) :
  Pow_Verify hash diff nonce =
  if diff =? 0 then Panic
  else Ret (bool_decide (0 < diff ∧ (big_SetBytes (Sha3Bin (hash ++ nonce)) + 1) * diff <= 2 ^ 256)).
Proof.
  unfold Pow_Verify, big_Div. rewrite pow_target. destruct (Z.eqb_spec diff 0) as [|Hd]; [done|].
  cbn [mbind outcome_bind]. f_equal.
  pose proof (SetBytes_range (Sha3Bin (hash ++ nonce))) as [Hv _].
  set (v := big_SetBytes _) in *. clearbody v.
  destruct (Z.ltb_spec v (Z.sgn diff * (2 ^ 256 / Z.abs diff))) as [Hlt|Hge]; symmetry.
  - apply bool_decide_eq_true_2. assert (0 < diff) as Hpos.
    { destruct (Z.sgn_spec diff) as [[? _]|[[? _]|[? Hs]]]; [done|lia|]. rewrite Hs in Hlt.
      assert (0 <= 2 ^ 256 / Z.abs diff) by (apply Z.div_pos; lia). lia. }
    split; [done|]. rewrite Z.sgn_pos, Z.abs_eq in Hlt by lia.
    pose proof (Z.mul_div_le (2 ^ 256) diff Hpos). nia.
  - apply bool_decide_eq_false_2. intros [Hpos Hle]. rewrite Z.sgn_pos, Z.abs_eq in Hge by lia.
    assert (v + 1 <= 2 ^ 256 / diff); [|lia]. apply Z.div_le_lower_bound; lia.
Qed.

(** A search stops at the first nonce that verifies: its result, if any, is
    accepted by [Verify] and comes from the first drawn number that is
    accepted; it is interrupted without a result only if none is. *)
Theorem Pow_Search_spec (hash : bytes) (diff : Z) (rnds : list Z) :
  diff ≠ 0 ->
  match Pow_Search hash diff rnds with
  | Ret (Some nonce) =>
      Pow_Verify hash diff nonce = Ret true ∧
      ∃ l r rest, rnds = l ++ r :: rest ∧ nonce = Sha3Bin (big_Bytes r) ∧
        Forall (λ r, Pow_Verify hash diff (Sha3Bin (big_Bytes r)) = Ret false) l
  | Ret None => Forall (λ r, Pow_Verify hash diff (Sha3Bin (big_Bytes r)) = Ret false) rnds
  | _ => False
  end.
Proof.
  intros Hd. induction rnds as [|r rnds IH]; [by constructor|]. cbn [Pow_Search].
  assert (∃ ok, Pow_Verify hash diff (Sha3Bin (big_Bytes r)) = Ret ok) as [ok Hok].
  { rewrite Pow_Verify_spec. destruct (Z.eqb_spec diff 0); [done|]. by eexists. }
  rewrite Hok. cbn [mbind outcome_bind]. destruct ok.
  - split; [done|]. exists [], r, rnds. repeat split. constructor.
  - destruct (Pow_Search hash diff rnds) as [[nonce|]| |]; [|by constructor|done|done].
    destruct IH as (HV & l & r' & rest & -> & -> & Hl). split; [done|].
    exists (r :: l), r', rest. repeat split. by constructor.
Qed.

(** * Dagger: termination *)

Lemma parents_ok (node : Z -> outcome Z) (index : Z -> Z) n : ∀ k,
  (∀ k, ∃ x, node (index k) = Ret x) -> ∃ b, parents node index k n = Ret b.
Proof.
  induction n as [|n IH]; intros k Hn; [by eexists|]. cbn [parents].
  destruct (Hn k) as [x ->], (IH (k + 1) Hn) as [b ->]. by eexists.
Qed.

(** On level 1 the only parent is node 0 of level 0, where the walk stops. *)
Lemma Dagger_Node_ok dag L : ∀ i, 0 <= i < 2 ^ 64 -> (L <= 9)%nat -> (L = 0%nat -> i = 0) ->
  ∃ x, Dagger_Node (S L) dag (Z.of_nat L) i = Ret x.
Proof.
  induction L as [|L IH]; intros i Hi HL H0.
  - cbn [Dagger_Node]. rewrite H0 by done. by eexists.
  - remember (S L) as fuel. cbn [Dagger_Node]. subst fuel.
    destruct (Z.eqb_spec (Z.of_nat (S L)) i); [by eexists|].
    replace (u64 (Z.of_nat (S L) - 1)) with (Z.of_nat L) by (rewrite u64_small; lia).
    destruct (parents_ok (Dagger_Node (S L) dag (Z.of_nat L)) (parent_index dag (Z.of_nat (S L)) i)
                (if Z.of_nat (S L) =? 9 then 16%nat else 3%nat) 0) as [b Hb].
    + intros k. apply IH; [|lia|].
      * unfold parent_index. set (a := big_Uint64 _). set (m := u64 (_ - 1)).
        pose proof (u64_range (Z.abs (big_SetBytes (Sha3Bin (big_Bytes (dag_hash dag) ++
          big_Bytes (dag_xn dag) ++ big_Bytes (s64 (Z.of_nat (S L))) ++ big_Bytes (s64 i) ++
          big_Bytes (s64 k)))))) as Ha. fold a in Ha.
        assert (0 <= a < 2 ^ 64) as Ha' by exact Ha.
        pose proof (u64_range ((if u64 (u64 (Z.of_nat (S L) - 1) * 3) <? 64
          then Z.shiftl 1 (u64 (u64 (Z.of_nat (S L) - 1) * 3)) else 0) - 1)) as Hm. fold m in Hm.
        assert (0 <= Z.land a m) by (apply Z.land_nonneg; lia).
        split; [done|]. destruct (Z.eq_dec (Z.land a m) 0); [lia|].
        apply Z.log2_lt_pow2; [lia|]. eapply Z.le_lt_trans; [apply Z.log2_land; lia|].
        apply Z.min_lt_iff. left. destruct (Z.eq_dec a 0) as [->|]; [done|].
        apply Z.log2_lt_pow2; lia.
      * intros ->. unfold parent_index. cbn -[Z.land]. by rewrite Z.land_0_r.
    + rewrite Hb. by eexists.
Qed.

(** The dagger function is total: ten levels of recursion are always
    enough, whatever the hash and the nonce, although the recursion stops only
    where a level's number equals an index: on the last level the mask leaves
    the index 0 only. Its value is below 2^256. *)
Theorem Dagger_Eval_total (dag : Dagger) (N : Z) :
  ∃ v, (Dagger_Eval dagger_fuel dag N).1 = Ret v ∧ 0 <= v < 2 ^ 256.
Proof.
  unfold Dagger_Eval, big_Div. rewrite BigPow_pow by lia. change (2 ^ 26 =? 0) with false.
  cbn [fst]. set (xn := Z.sgn (2 ^ 26) * _). set (dag' := mkDagger _ _).
  destruct (parents_ok (Dagger_Node dagger_fuel dag' 9)
    (λ k, Z.land (big_Uint64 (big_SetBytes (Sha3Bin (big_Bytes (dag_hash dag') ++
            big_Bytes (dag_xn dag') ++ big_Bytes N ++ big_Bytes (s64 k))))) 0x1ffffff) 4 0) as [b Hb].
  - intros k. apply (Dagger_Node_ok dag' 9); [|lia|done].
    change 0x1ffffff with (Z.ones 25). rewrite Z.land_ones by lia.
    pose proof (Z.mod_pos_bound (big_Uint64 (big_SetBytes (Sha3Bin (big_Bytes (dag_hash dag') ++
            big_Bytes (dag_xn dag') ++ big_Bytes N ++ big_Bytes (s64 k))))) (2 ^ 25) ltac:(lia)). lia.
  - rewrite Hb. eexists. split; [done|]. pose proof (SetBytes_range (Sha3Bin b)) as Hr.
    by rewrite Sha3Bin_len in Hr.
Qed.

End Pow.

Lemma Pow_Search_spec_witness :
  match @Pow_Search toy_crypto [x01] 2 [5; 6; 7] with
  | Ret (Some nonce) =>
      @Pow_Verify toy_crypto [x01] 2 nonce = Ret true ∧
      ∃ l r rest, [5; 6; 7] = l ++ r :: rest ∧ nonce = @Sha3Bin toy_crypto (big_Bytes r) ∧
        Forall (λ r, @Pow_Verify toy_crypto [x01] 2 (@Sha3Bin toy_crypto (big_Bytes r)) = Ret false) l
  | Ret None =>
      Forall (λ r, @Pow_Verify toy_crypto [x01] 2 (@Sha3Bin toy_crypto (big_Bytes r)) = Ret false) [5; 6; 7]
  | _ => False
  end.
Proof. apply (@Pow_Search_spec toy_crypto [x01] 2 [5; 6; 7]). discriminate. Defined.
