(* ===== verification/Opcodes.v ===== *)
(** [ethvm/types.go], [ethvm/asm.go] and their older copies in [ethchain]: the
    instruction set, its names, the table for assembling, and the
    disassembler. *)

From S2P Require Import Prelude Bytes.

(** * The instruction set *)

(** ethvm/types.go 10-152, OpCode. The constants; the 32 pushes, 16 dups and 16
    swaps are families, and [Unknown] is every other code. *)
Inductive opcode :=
| STOP | ADD | MUL | SUB | DIV | SDIV | MOD | SMOD
| EXP | NEG | LT | GT | SLT | SGT | EQ | NOT
| AND | OR | XOR | BYTE | ADDMOD | MULMOD | SHA3 | ADDRESS
| BALANCE | ORIGIN | CALLER | CALLVALUE | CALLDATALOAD | CALLDATASIZE | CALLDATACOPY | CODESIZE
| CODECOPY | GASPRICE | PREVHASH | COINBASE | TIMESTAMP | NUMBER | DIFFICULTY | GASLIMIT
| POP | MLOAD | MSTORE | MSTORE8 | SLOAD | SSTORE | JUMP | JUMPI
| PC | MSIZE | GAS | CREATE | CALL | RETURN | LOG | SUICIDE
| PUSH (n : Z) | DUP (n : Z) | SWAP (n : Z)
| Unknown (code : Z).

#[export] Instance opcode_eq_dec : EqDecision opcode.
Proof. solve_decision. Defined.

(** ethvm/types.go 10-152, OpCode. The conversion [OpCode(z)]. *)
Definition OpCode (z : Z) : opcode :=
  match z with
  | 0x00 => STOP | 0x01 => ADD | 0x02 => MUL | 0x03 => SUB
  | 0x04 => DIV | 0x05 => SDIV | 0x06 => MOD | 0x07 => SMOD
  | 0x08 => EXP | 0x09 => NEG | 0x0a => LT | 0x0b => GT
  | 0x0c => SLT | 0x0d => SGT | 0x0e => EQ | 0x0f => NOT
  | 0x10 => AND | 0x11 => OR | 0x12 => XOR | 0x13 => BYTE
  | 0x14 => ADDMOD | 0x15 => MULMOD | 0x20 => SHA3 | 0x30 => ADDRESS
  | 0x31 => BALANCE | 0x32 => ORIGIN | 0x33 => CALLER | 0x34 => CALLVALUE
  | 0x35 => CALLDATALOAD | 0x36 => CALLDATASIZE | 0x37 => CALLDATACOPY | 0x38 => CODESIZE
  | 0x39 => CODECOPY | 0x3a => GASPRICE | 0x40 => PREVHASH | 0x41 => COINBASE
  | 0x42 => TIMESTAMP | 0x43 => NUMBER | 0x44 => DIFFICULTY | 0x45 => GASLIMIT
  | 0x50 => POP | 0x53 => MLOAD | 0x54 => MSTORE | 0x55 => MSTORE8
  | 0x56 => SLOAD | 0x57 => SSTORE | 0x58 => JUMP | 0x59 => JUMPI
  | 0x5a => PC | 0x5b => MSIZE | 0x5c => GAS | 0xf0 => CREATE
  | 0xf1 => CALL | 0xf2 => RETURN | 0xfe => LOG | 0xff => SUICIDE
  | _ =>
      if (0x60 <=? z) && (z <=? 0x7f) then PUSH (z - 0x60 + 1)
      else if (0x80 <=? z) && (z <=? 0x8f) then DUP (z - 0x80 + 1)
      else if (0x90 <=? z) && (z <=? 0x9f) then SWAP (z - 0x90 + 1)
      else Unknown z
  end.

(** ethvm/types.go 10-152, OpCode. The value of a constant. *)
Definition op_code (op : opcode) : Z :=
  match op with
  | STOP => 0x00 | ADD => 0x01 | MUL => 0x02 | SUB => 0x03
  | DIV => 0x04 | SDIV => 0x05 | MOD => 0x06 | SMOD => 0x07
  | EXP => 0x08 | NEG => 0x09 | LT => 0x0a | GT => 0x0b
  | SLT => 0x0c | SGT => 0x0d | EQ => 0x0e | NOT => 0x0f
  | AND => 0x10 | OR => 0x11 | XOR => 0x12 | BYTE => 0x13
  | ADDMOD => 0x14 | MULMOD => 0x15 | SHA3 => 0x20 | ADDRESS => 0x30
  | BALANCE => 0x31 | ORIGIN => 0x32 | CALLER => 0x33 | CALLVALUE => 0x34
  | CALLDATALOAD => 0x35 | CALLDATASIZE => 0x36 | CALLDATACOPY => 0x37 | CODESIZE => 0x38
  | CODECOPY => 0x39 | GASPRICE => 0x3a | PREVHASH => 0x40 | COINBASE => 0x41
  | TIMESTAMP => 0x42 | NUMBER => 0x43 | DIFFICULTY => 0x44 | GASLIMIT => 0x45
  | POP => 0x50 | MLOAD => 0x53 | MSTORE => 0x54 | MSTORE8 => 0x55
  | SLOAD => 0x56 | SSTORE => 0x57 | JUMP => 0x58 | JUMPI => 0x59
  | PC => 0x5a | MSIZE => 0x5b | GAS => 0x5c | CREATE => 0xf0
  | CALL => 0xf1 | RETURN => 0xf2 | LOG => 0xfe | SUICIDE => 0xff
  | PUSH n => 0x60 + n - 1
  | DUP n => 0x80 + n - 1
  | SWAP n => 0x90 + n - 1
  | Unknown z => z
  end.

(** * Names *)

(** ethvm/types.go 155-297, opCodeToString. *)
Definition opCodeToString (op : opcode) : bytes :=
  match op with
  | STOP => asc "STOP" | ADD => asc "ADD" | MUL => asc "MUL"
  | SUB => asc "SUB" | DIV => asc "DIV" | SDIV => asc "SDIV"
  | MOD => asc "MOD" | SMOD => asc "SMOD" | EXP => asc "EXP"
  | NEG => asc "NEG" | LT => asc "LT" | GT => asc "GT"
  | SLT => asc "SLT" | SGT => asc "SGT" | EQ => asc "EQ"
  | NOT => asc "NOT" | AND => asc "AND" | OR => asc "OR"
  | XOR => asc "XOR" | BYTE => asc "BYTE" | ADDMOD => asc "ADDMOD"
  | MULMOD => asc "MULMOD" | SHA3 => asc "SHA3" | ADDRESS => asc "ADDRESS"
  | BALANCE => asc "BALANCE" | ORIGIN => asc "ORIGIN" | CALLER => asc "CALLER"
  | CALLVALUE => asc "CALLVALUE" | CALLDATALOAD => asc "CALLDATALOAD" | CALLDATASIZE => asc "CALLDATASIZE"
  | CALLDATACOPY => asc "CALLDATACOPY" | CODESIZE => asc "CODESIZE" | CODECOPY => asc "CODECOPY"
  | GASPRICE => asc "TXGASPRICE" | PREVHASH => asc "PREVHASH" | COINBASE => asc "COINBASE"
  | TIMESTAMP => asc "TIMESTAMP" | NUMBER => asc "NUMBER" | DIFFICULTY => asc "DIFFICULTY"
  | GASLIMIT => asc "GASLIMIT" | POP => asc "POP" | MLOAD => asc "MLOAD"
  | MSTORE => asc "MSTORE" | MSTORE8 => asc "MSTORE8" | SLOAD => asc "SLOAD"
  | SSTORE => asc "SSTORE" | JUMP => asc "JUMP" | JUMPI => asc "JUMPI"
  | PC => asc "PC" | MSIZE => asc "MSIZE" | GAS => asc "GAS"
  | CREATE => asc "CREATE" | CALL => asc "CALL" | RETURN => asc "RETURN"
  | LOG => asc "LOG" | SUICIDE => asc "SUICIDE"
  | PUSH n => asc "PUSH" ++ decimal n
  | DUP n => asc "DUP" ++ decimal n
  | SWAP n => asc "SWAP" ++ decimal n
  | Unknown _ => []
  end.

(** ethvm/types.go, OpCode.String. *)
Definition OpCode_String (o : opcode) : bytes :=
  let str := opCodeToString o in
  if zlen str =? 0 then asc "Missing opcode 0x" ++ hexadecimal (op_code o) else str.

(** ethvm/types.go 309-445, OpCodes. The table for assembling, a Go map. *)
Definition OpCodes : list (bytes * Z) :=
  [
    (asc "STOP", 0x00); (asc "ADD", 0x01); (asc "MUL", 0x02); (asc "SUB", 0x03);
    (asc "DIV", 0x04); (asc "SDIV", 0x05); (asc "MOD", 0x06); (asc "SMOD", 0x07);
    (asc "EXP", 0x08); (asc "NEG", 0x09); (asc "LT", 0x0a); (asc "GT", 0x0b); (asc "EQ", 0x0c);
    (asc "NOT", 0x0d); (asc "AND", 0x10); (asc "OR", 0x11); (asc "XOR", 0x12);
    (asc "BYTE", 0x13); (asc "ADDMOD", 0x14); (asc "MULMOD", 0x15); (asc "SHA3", 0x20);
    (asc "ADDRESS", 0x30); (asc "BALANCE", 0x31); (asc "ORIGIN", 0x32); (asc "CALLER", 0x33);
    (asc "CALLVALUE", 0x34); (asc "CALLDATALOAD", 0x35); (asc "CALLDATASIZE", 0x36);
    (asc "GASPRICE", 0x38); (asc "PREVHASH", 0x40); (asc "COINBASE", 0x41);
    (asc "TIMESTAMP", 0x42); (asc "NUMBER", 0x43); (asc "DIFFICULTY", 0x44);
    (asc "GASLIMIT", 0x45); (asc "POP", 0x51); (asc "DUP", 0x52); (asc "SWAP", 0x53);
    (asc "MLOAD", 0x54); (asc "MSTORE", 0x55); (asc "MSTORE8", 0x56); (asc "SLOAD", 0x57);
    (asc "SSTORE", 0x58); (asc "JUMP", 0x59); (asc "JUMPI", 0x5a); (asc "PC", 0x5b);
    (asc "MSIZE", 0x5c); (asc "PUSH1", 0x60); (asc "PUSH2", 0x61); (asc "PUSH3", 0x62);
    (asc "PUSH4", 0x63); (asc "PUSH5", 0x64); (asc "PUSH6", 0x65); (asc "PUSH7", 0x66);
    (asc "PUSH8", 0x67); (asc "PUSH9", 0x68); (asc "PUSH10", 0x69); (asc "PUSH11", 0x6a);
    (asc "PUSH12", 0x6b); (asc "PUSH13", 0x6c); (asc "PUSH14", 0x6d); (asc "PUSH15", 0x6e);
    (asc "PUSH16", 0x6f); (asc "PUSH17", 0x70); (asc "PUSH18", 0x71); (asc "PUSH19", 0x72);
    (asc "PUSH20", 0x73); (asc "PUSH21", 0x74); (asc "PUSH22", 0x75); (asc "PUSH23", 0x76);
    (asc "PUSH24", 0x77); (asc "PUSH25", 0x78); (asc "PUSH26", 0x70); (asc "PUSH27", 0x7a);
    (asc "PUSH28", 0x7b); (asc "PUSH29", 0x7c); (asc "PUSH30", 0x7d); (asc "PUSH31", 0x7e);
    (asc "PUSH32", 0x7f); (asc "DUP1", 0x80); (asc "DUP2", 0x81); (asc "DUP3", 0x82);
    (asc "DUP4", 0x83); (asc "DUP5", 0x84); (asc "DUP6", 0x85); (asc "DUP7", 0x86);
    (asc "DUP8", 0x87); (asc "DUP9", 0x88); (asc "DUP10", 0x89); (asc "DUP11", 0x8a);
    (asc "DUP12", 0x8b); (asc "DUP13", 0x8c); (asc "DUP14", 0x8d); (asc "DUP15", 0x8e);
    (asc "DUP16", 0x8f); (asc "SWAP1", 0x90); (asc "SWAP2", 0x91); (asc "SWAP3", 0x92);
    (asc "SWAP4", 0x93); (asc "SWAP5", 0x94); (asc "SWAP6", 0x95); (asc "SWAP7", 0x96);
    (asc "SWAP8", 0x97); (asc "SWAP9", 0x98); (asc "SWAP10", 0x99); (asc "SWAP11", 0x9a);
    (asc "SWAP12", 0x9b); (asc "SWAP13", 0x9c); (asc "SWAP14", 0x9d); (asc "SWAP15", 0x9e);
    (asc "SWAP16", 0x9f); (asc "CREATE", 0xf0); (asc "CALL", 0xf1); (asc "RETURN", 0xf2);
    (asc "LOG", 0xfe); (asc "SUICIDE", 0x7f)
  ].

(** ethvm/types.go, IsOpCode. *)
Definition IsOpCode (s : bytes) : bool := existsb (λ kv, bool_decide (kv.1 = s)) OpCodes.

(** The lookup [OpCodes[s]]. *)
Definition assemble (table : list (bytes * Z)) (s : bytes) : option Z :=
  snd <$> List.find (λ kv, bool_decide (kv.1 = s)) table.

(** * The disassembler *)

(** ethvm/asm.go, Disassemble. [None] is the nil result for a truncated push;
    the code is read at [pc], and the fuel is its length. *)
Fixpoint disassemble (fuel : nat) (script : bytes) (pc : Z) : outcome (option (list bytes)) :=
  if zlen script <=? pc then Ret (Some [])
  else
    match fuel with
    | O => NoFuel
    | S f =>
        val ← index script pc;
        let op := OpCode (b2z val) in
        let asm := [OpCode_String op] in
        match op with
        | PUSH a =>
            let pc := pc + 1 in
            if zlen script <? pc + a then Ret None
            else
              data ← slice script pc (pc + a);
              let data := if zlen data =? 0 then [x00] else data in
              let asm := asm ++ [asc "0x" ++ Bytes2Hex data] in
              rest ← disassemble f script (pc + (a - 1) + 1);
              Ret (option_map (app asm) rest)
        | _ => rest ← disassemble f script (pc + 1); Ret (option_map (app asm) rest)
        end
    end.

Definition Disassemble (script : bytes) : outcome (option (list bytes)) :=
  disassemble (length script) script 0.

(** * The older copy in [ethchain] *)

(** ethchain/types.go 10-116, OpCode. *)
Definition chain_consts : list (bytes * Z) :=
  [
    (asc "STOP", 0x00); (asc "ADD", 0x01); (asc "MUL", 0x02); (asc "SUB", 0x03);
    (asc "DIV", 0x04); (asc "SDIV", 0x05); (asc "MOD", 0x06); (asc "SMOD", 0x07);
    (asc "EXP", 0x08); (asc "NEG", 0x09); (asc "LT", 0x0a); (asc "GT", 0x0b); (asc "SLT", 0x0c);
    (asc "SGT", 0x0d); (asc "EQ", 0x0e); (asc "NOT", 0x0f); (asc "AND", 0x10); (asc "OR", 0x11);
    (asc "XOR", 0x12); (asc "BYTE", 0x13); (asc "SHA3", 0x20); (asc "ADDRESS", 0x30);
    (asc "BALANCE", 0x31); (asc "ORIGIN", 0x32); (asc "CALLER", 0x33); (asc "CALLVALUE", 0x34);
    (asc "CALLDATALOAD", 0x35); (asc "CALLDATASIZE", 0x36); (asc "CALLDATACOPY", 0x37);
    (asc "CODESIZE", 0x38); (asc "CODECOPY", 0x39); (asc "GASPRICE", 0x3a);
    (asc "PREVHASH", 0x40); (asc "COINBASE", 0x41); (asc "TIMESTAMP", 0x42);
    (asc "NUMBER", 0x43); (asc "DIFFICULTY", 0x44); (asc "GASLIMIT", 0x45); (asc "POP", 0x50);
    (asc "DUP", 0x51); (asc "SWAP", 0x52); (asc "MLOAD", 0x53); (asc "MSTORE", 0x54);
    (asc "MSTORE8", 0x55); (asc "SLOAD", 0x56); (asc "SSTORE", 0x57); (asc "JUMP", 0x58);
    (asc "JUMPI", 0x59); (asc "PC", 0x5a); (asc "MSIZE", 0x5b); (asc "GAS", 0x5c);
    (asc "PUSH1", 0x60); (asc "PUSH2", 0x61); (asc "PUSH3", 0x62); (asc "PUSH4", 0x63);
    (asc "PUSH5", 0x64); (asc "PUSH6", 0x65); (asc "PUSH7", 0x66); (asc "PUSH8", 0x67);
    (asc "PUSH9", 0x68); (asc "PUSH10", 0x69); (asc "PUSH11", 0x6a); (asc "PUSH12", 0x6b);
    (asc "PUSH13", 0x6c); (asc "PUSH14", 0x6d); (asc "PUSH15", 0x6e); (asc "PUSH16", 0x6f);
    (asc "PUSH17", 0x70); (asc "PUSH18", 0x71); (asc "PUSH19", 0x72); (asc "PUSH20", 0x73);
    (asc "PUSH21", 0x74); (asc "PUSH22", 0x75); (asc "PUSH23", 0x76); (asc "PUSH24", 0x77);
    (asc "PUSH25", 0x78); (asc "PUSH26", 0x79); (asc "PUSH27", 0x7a); (asc "PUSH28", 0x7b);
    (asc "PUSH29", 0x7c); (asc "PUSH30", 0x7d); (asc "PUSH31", 0x7e); (asc "PUSH32", 0x7f);
    (asc "CREATE", 0xf0); (asc "CALL", 0xf1); (asc "RETURN", 0xf2); (asc "LOG", 0xfe);
    (asc "SUICIDE", 0xff)
  ].

(** ethchain/types.go 237-337, OpCodes. *)
Definition chain_OpCodes : list (bytes * Z) :=
  [
    (asc "STOP", 0x00); (asc "ADD", 0x01); (asc "MUL", 0x02); (asc "SUB", 0x03);
    (asc "DIV", 0x04); (asc "SDIV", 0x05); (asc "MOD", 0x06); (asc "SMOD", 0x07);
    (asc "EXP", 0x08); (asc "NEG", 0x09); (asc "LT", 0x0a); (asc "GT", 0x0b); (asc "EQ", 0x0c);
    (asc "NOT", 0x0d); (asc "AND", 0x10); (asc "OR", 0x11); (asc "XOR", 0x12);
    (asc "BYTE", 0x13); (asc "SHA3", 0x20); (asc "ADDRESS", 0x30); (asc "BALANCE", 0x31);
    (asc "ORIGIN", 0x32); (asc "CALLER", 0x33); (asc "CALLVALUE", 0x34);
    (asc "CALLDATALOAD", 0x35); (asc "CALLDATASIZE", 0x36); (asc "GASPRICE", 0x38);
    (asc "PREVHASH", 0x40); (asc "COINBASE", 0x41); (asc "TIMESTAMP", 0x42);
    (asc "NUMBER", 0x43); (asc "DIFFICULTY", 0x44); (asc "GASLIMIT", 0x45); (asc "POP", 0x51);
    (asc "DUP", 0x52); (asc "SWAP", 0x53); (asc "MLOAD", 0x54); (asc "MSTORE", 0x55);
    (asc "MSTORE8", 0x56); (asc "SLOAD", 0x57); (asc "SSTORE", 0x58); (asc "JUMP", 0x59);
    (asc "JUMPI", 0x5a); (asc "PC", 0x5b); (asc "MSIZE", 0x5c); (asc "PUSH1", 0x60);
    (asc "PUSH2", 0x61); (asc "PUSH3", 0x62); (asc "PUSH4", 0x63); (asc "PUSH5", 0x64);
    (asc "PUSH6", 0x65); (asc "PUSH7", 0x66); (asc "PUSH8", 0x67); (asc "PUSH9", 0x68);
    (asc "PUSH10", 0x69); (asc "PUSH11", 0x6a); (asc "PUSH12", 0x6b); (asc "PUSH13", 0x6c);
    (asc "PUSH14", 0x6d); (asc "PUSH15", 0x6e); (asc "PUSH16", 0x6f); (asc "PUSH17", 0x70);
    (asc "PUSH18", 0x71); (asc "PUSH19", 0x72); (asc "PUSH20", 0x73); (asc "PUSH21", 0x74);
    (asc "PUSH22", 0x75); (asc "PUSH23", 0x76); (asc "PUSH24", 0x77); (asc "PUSH25", 0x78);
    (asc "PUSH26", 0x70); (asc "PUSH27", 0x7a); (asc "PUSH28", 0x7b); (asc "PUSH29", 0x7c);
    (asc "PUSH30", 0x7d); (asc "PUSH31", 0x7e); (asc "PUSH32", 0x7f); (asc "CREATE", 0xf0);
    (asc "CALL", 0xf1); (asc "RETURN", 0xf2); (asc "LOG", 0xfe); (asc "SUICIDE", 0x7f)
  ].

(** ethchain/types.go 119-225, opCodeToString. Every constant is there under
    its own name, but for GASPRICE. *)
Definition chain_opCodeToString (z : Z) : bytes :=
  match List.find (λ nv, nv.2 =? z) chain_consts with
  | Some (n, _) => if bool_decide (n = asc "GASPRICE") then asc "TXGASPRICE" else n
  | None => []
  end.

(** ethchain/types.go, OpCode.String. *)
Definition chain_OpCode_String (o : Z) : bytes :=
  let str := chain_opCodeToString o in
  if zlen str =? 0 then asc "Missing opcode 0x" ++ hexadecimal o else str.

(** ethchain/types.go, IsOpCode. *)
Definition chain_IsOpCode (s : bytes) : bool :=
  existsb (λ kv, bool_decide (kv.1 = s)) chain_OpCodes.

(** ethchain/asm.go, Disassemble. Every line carries its position. A push that
    is cut short ends the listing, and its name has been listed. *)
Fixpoint chain_disassemble (fuel : nat) (script : bytes) (pc : Z) : outcome (list (Z * bytes)) :=
  if zlen script <=? pc then Ret []
  else
    match fuel with
    | O => NoFuel
    | S f =>
        val ← index script pc;
        let op := b2z val in
        let asm := [(pc, chain_OpCode_String op)] in
        if (0x60 <=? op) && (op <=? 0x7f) then
          let pc := pc + 1 in
          let a := op - 0x60 + 1 in
          if zlen script <? pc + a then Ret asm
          else
            data ← slice script pc (pc + a);
            let data := if zlen data =? 0 then [x00] else data in
            let asm := asm ++ [(pc, asc "0x" ++ Bytes2Hex data)] in
            rest ← chain_disassemble f script (pc + (a - 1) + 1);
            Ret (asm ++ rest)
        else rest ← chain_disassemble f script (pc + 1); Ret (asm ++ rest)
    end.

Definition chain_Disassemble (script : bytes) : outcome (list (Z * bytes)) :=
  chain_disassemble (length script) script 0.


(** * Lemmas *)

Lemma push_range b a : OpCode (b2z b) = PUSH a -> 1 <= a <= 32.
Proof. destruct b; vm_compute; intros [= <-]; split; discriminate. Qed.

Lemma OpCode_op_code z : 0 <= z < 256 -> op_code (OpCode z) = z.
Proof.
  intros Hz. rewrite <-(b2z_z2b_small z Hz). generalize (z2b z). intros b.
  by destruct b; vm_compute.
Qed.

Lemma disassemble_total script : ∀ fuel pc,
  0 <= pc -> zlen script - pc <= Z.of_nat fuel ->
  ∃ r, disassemble fuel script pc = Ret r.
Proof.
  induction fuel as [|f IH]; intros pc Hpc Hf; simpl.
  { destruct (Z.leb_spec (zlen script) pc); [eauto|lia]. }
  destruct (Z.leb_spec (zlen script) pc); [eauto|].
  destruct (lookup_lt_is_Some_2 script (Z.to_nat pc)) as [c Hc]; [unfold zlen in *; lia|].
  rewrite (proj2 (index_Ret script pc c)) by (split; [lia|done]). cbn [mbind outcome_bind].
  assert (∀ q (g : list bytes -> list bytes), pc < q ->
    ∃ r, (rest ← disassemble f script q; Ret (option_map g rest)) = Ret r) as Hrest.
  { intros q g Hq. destruct (IH q) as [r ->]; [lia|lia|]. eexists. reflexivity. }
  destruct (OpCode (b2z c)) eqn:Eop; try (apply Hrest; lia).
  apply push_range in Eop.
  destruct (Z.ltb_spec (zlen script) (pc + 1 + n)); [eauto|].
  rewrite (proj2 (slice_Ret script _ _ _)) by (split; [lia|split; [lia|reflexivity]]).
  cbn [mbind outcome_bind]. apply Hrest. lia.
Qed.

(** * Properties *)

(** The disassembler is total: for every script it returns, with a listing
    or with nil for a truncated push; it never reads out of range, and the
    script's length bounds its iterations. *)
Theorem Disassemble_total (script : bytes) : ∃ r, Disassemble script = Ret r.
Proof. apply disassemble_total; unfold zlen; lia. Qed.

(** The table for assembling does not agree with the instruction set: of its
    entries, exactly the ones listed assemble to a code that the virtual
    machine reads as another instruction, so that, for instance, an assembled
    "EQ" is executed as SLT, "POP" is no instruction, "JUMP" is executed as
    JUMPI and "SUICIDE" as PUSH32. *)
Theorem assembler_disagrees :
  filter (λ kv, OpCode_String (OpCode kv.2) ≠ kv.1) OpCodes =
  [
    (asc "EQ", 0x0c); (asc "NOT", 0x0d); (asc "GASPRICE", 0x38); (asc "POP", 0x51);
    (asc "DUP", 0x52); (asc "SWAP", 0x53); (asc "MLOAD", 0x54); (asc "MSTORE", 0x55);
    (asc "MSTORE8", 0x56); (asc "SLOAD", 0x57); (asc "SSTORE", 0x58); (asc "JUMP", 0x59);
    (asc "JUMPI", 0x5a); (asc "PC", 0x5b); (asc "MSIZE", 0x5c); (asc "PUSH26", 0x70);
    (asc "SUICIDE", 0x7f)
  ].
Proof. vm_compute. reflexivity. Qed.
