(* ===== verification/State.v ===== *)
(** [ethstate]: accounts ([state_object.go]), the world state ([state.go]), the
    manifest of messages ([manifest.go]).

    State objects are shared by pointer: between a [State]'s map, the closures
    of the virtual machine and the state transition, and they survive a revert
    of the state.  They live in a heap, and a pointer is a position in it.  Big
    integers are values: every update of a balance in the code makes a new one,
    or changes one that nothing else points to.  The [State] nested in an object only uses its
    trie, which is what the object holds here.  The order in which Go iterates
    over a map is not defined, and neither is what lies in an array behind a slice of it;
    both are arguments ([MapOrder]). *)

From S2P Require Import Prelude GoVal Big Bytes Errors Rlp Value Db Crypto Nibbles Trie.

(** * Data *)

(** ethstate/state_object.go, StateObject. The nested state is its trie. *)
Record StateObject := mkObject {
  so_address : bytes;
  Balance : Z;
  CodeHash : bytes;
  Nonce : Z;
  so_Trie : Trie;
  Code : bytes;
  InitCode : bytes;
  storage : gmap bytes goval;
  gasPool : Z;
  remove : bool;
}.

(** ethstate/manifest.go, Message. The number is the block's pointer, which may be nil. *)
Record Message := mkMessage {
  m_To : bytes; m_From : bytes;
  m_Input : bytes;
  m_Output : bytes;
  m_Path : Z;
  m_Origin : bytes;
  m_Timestamp : Z;
  m_Coinbase : bytes;
  m_Block : bytes;
  m_Number : option Z;
  m_Value : Z;
  m_ChangedAddresses : list bytes;
}.

(** ethstate/manifest.go, Manifest. *)
Record Manifest := mkManifest { Messages : list Message }.

(** ethstate/manifest.go, NewManifest. *)
Definition NewManifest : Manifest := mkManifest [].

(** ethstate/manifest.go, Manifest.Reset. *)
Definition Manifest_Reset (m : Manifest) : Manifest := mkManifest [].

(** ethstate/state.go, State. The objects are pointers into the heap. *)
Record State := mkState {
  s_Trie : Trie;
  stateObjects : gmap bytes nat;
  s_manifest : Manifest;
}.

(** ethstate/state.go, New. *)
Definition State_New (trie : Trie) : State := mkState trie ∅ NewManifest.

(** The memory an operation runs on: the database, the state objects, and the
    state it is called on. *)
Record World (D : Type) := mkWorld {
  w_env : Env D;
  w_heap : list StateObject;
  w_state : State;
}.
Arguments mkWorld {D}.
Arguments w_env {D}.
Arguments w_heap {D}.
Arguments w_state {D}.

(** Updating one field of a record. *)
Definition set_Balance (b : Z) (o : StateObject) : StateObject :=
  mkObject (so_address o) b (CodeHash o) (Nonce o) (so_Trie o) (Code o) (InitCode o)
           (storage o) (gasPool o) (remove o).
Definition set_Nonce (n : Z) (o : StateObject) : StateObject :=
  mkObject (so_address o) (Balance o) (CodeHash o) n (so_Trie o) (Code o) (InitCode o)
           (storage o) (gasPool o) (remove o).
Definition set_Trie (t : Trie) (o : StateObject) : StateObject :=
  mkObject (so_address o) (Balance o) (CodeHash o) (Nonce o) t (Code o) (InitCode o)
           (storage o) (gasPool o) (remove o).
Definition set_Code (c : bytes) (o : StateObject) : StateObject :=
  mkObject (so_address o) (Balance o) (CodeHash o) (Nonce o) (so_Trie o) c (InitCode o)
           (storage o) (gasPool o) (remove o).
Definition set_InitCode (c : bytes) (o : StateObject) : StateObject :=
  mkObject (so_address o) (Balance o) (CodeHash o) (Nonce o) (so_Trie o) (Code o) c
           (storage o) (gasPool o) (remove o).
Definition set_storage (s : gmap bytes goval) (o : StateObject) : StateObject :=
  mkObject (so_address o) (Balance o) (CodeHash o) (Nonce o) (so_Trie o) (Code o) (InitCode o)
           s (gasPool o) (remove o).
Definition set_gasPool (g : Z) (o : StateObject) : StateObject :=
  mkObject (so_address o) (Balance o) (CodeHash o) (Nonce o) (so_Trie o) (Code o) (InitCode o)
           (storage o) g (remove o).
Definition set_remove (r : bool) (o : StateObject) : StateObject :=
  mkObject (so_address o) (Balance o) (CodeHash o) (Nonce o) (so_Trie o) (Code o) (InitCode o)
           (storage o) (gasPool o) r.

(** What the runtime decides: the iteration order of a map, and the bytes behind a slice
    of code in its array, up to the capacity (a longer slice of it reads them). *)
Class MapOrder := {
  map_order : ∀ {A}, gmap bytes A -> list (bytes * A);
  map_order_perm : ∀ {A} (m : gmap bytes A), map_order m ≡ₚ map_to_list m;
  spare_code : bytes -> bytes;
}.

(** Some order, and no spare capacity, for running examples. *)
Definition list_order : MapOrder :=
  {| map_order := λ A m, map_to_list m; map_order_perm := λ A m, reflexivity _;
     spare_code := λ _, [] |}.

(** The depth of trie that the walks over whole tries can handle; 20- and
    32-byte keys have 41 and 65 nibbles. *)
Definition walk_fuel : nat := 200.

(** * State objects *)

Section State.
Context `{Crypto} {D : Type} `{Database D} `{MapOrder}.

(** ethstate/state_object.go, NewStateObject. *)
Definition NewStateObject (addr : bytes) : StateObject :=
  mkObject (Address addr) 0 [] 0 (Trie_New (VStr [])) [] [] ∅ 0 false.

(** ethstate/state_object.go, NewContract. *)
Definition NewContract (address : bytes) (balance : Z) (root : bytes) : StateObject :=
  set_Trie (Trie_New (VStr root)) (set_Balance balance (NewStateObject address)).

(** ethstate/state_object.go, StateObject.MarkForDeletion. *)
Definition MarkForDeletion (o : StateObject) : StateObject := set_remove true o.

(** ethstate/state_object.go, StateObject.SetBalance. *)
Definition SetBalance (amount : Z) (o : StateObject) : StateObject := set_Balance amount o.

(** ethstate/state_object.go, StateObject.AddAmount. *)
Definition AddAmount (amount : Z) (o : StateObject) : StateObject :=
  SetBalance (Balance o + amount) o.

(** ethstate/state_object.go, StateObject.SubAmount. The balance may become
    negative. *)
Definition SubAmount (amount : Z) (o : StateObject) : StateObject :=
  SetBalance (Balance o - amount) o.

(** ethstate/state_object.go, StateObject.ConvertGas. *)
Definition ConvertGas (gas price : Z) (o : StateObject) : StateObject * option error :=
  let total := gas * price in
  if Balance o <? total
  then (o, Some (Errorf (asc "insufficient amount: " ++ decimal (Balance o) ++ asc ", "
                         ++ decimal total)))
  else (SubAmount total o, None).

(** ethstate/state_object.go, StateObject.SetGasPool. *)
Definition SetGasPool (gasLimit : Z) (o : StateObject) : StateObject := set_gasPool gasLimit o.

(** ethstate/state_object.go, StateObject.BuyGas. The pool is not reduced. *)
Definition BuyGas (gas price : Z) (o : StateObject) : StateObject * option error :=
  if gasPool o <? gas then (o, Some (StateGasLimitError (gasPool o) gas))
  else (AddAmount (gas * price) o, None).

(** ethstate/state_object.go, StateObject.RefundGas. *)
Definition RefundGas (gas price : Z) (o : StateObject) : StateObject :=
  set_Balance (Balance o - gas * price) (set_gasPool (gasPool o + gas) o).

(** ethstate/state_object.go, StateObject.Copy. The mark for deletion is not
    copied. *)
Definition StateObject_Copy (o : StateObject) : StateObject :=
  mkObject (so_address (NewStateObject (so_address o))) (Balance o) (CopyBytes (CodeHash o))
           (Nonce o) (Trie_Copy (so_Trie o)) (CopyBytes (Code o)) (CopyBytes (InitCode o))
           (storage o) (gasPool o) false.

(** ethstate/state_object.go, StateObject.GetInstr. [pc.Int64()] is given. *)
Definition GetInstr (c : StateObject) (pc : Z) : outcome goval :=
  if zlen (Code c) - 1 <? s64 pc then Ret (NewValue (VInt Kint 0))
  else b ← index (Code c) (s64 pc); NewValueFromBytes [b].

(** ethstate/state_object.go, StateObject.N. *)
Definition StateObject_N (c : StateObject) : Z := s64 (Nonce c).

(** ethstate/state_object.go, StateObject.RlpEncode. *)
Definition StateObject_RlpEncode (c : StateObject) : bytes :=
  Encode (VList [VInt Kuint64 (Nonce c); VBig (Balance c); tr_Root (so_Trie c);
                 VBytes (Sha3Bin (Code c))]).

(** ethstate/state_object.go, StateObject.RlpDecode. The code is read from the
    database under its hash. *)
Definition StateObject_RlpDecode (c : StateObject) (e : Env D) (data : bytes)
    : outcome StateObject :=
  decoder ← NewValueFromBytes data;
  let codeHash := Value_Bytes (Get decoder 3) in
  Ret (mkObject (so_address c) (Value_BigInt (Get decoder 1)) codeHash
                (Value_Uint (Get decoder 0)) (Trie_New (Value_Interface (Get decoder 2)))
                (db_data (e_db e) codeHash) (InitCode c) ∅ 0 (remove c)).

(** ethstate/state_object.go, NewStateObjectFromBytes. *)
Definition NewStateObjectFromBytes (e : Env D) (address data : bytes) : outcome StateObject :=
  StateObject_RlpDecode (mkObject address 0 [] 0 (Trie_New VNil) [] [] ∅ 0 false) e data.

(** ** Access through a pointer *)

(** Computations on the world. *)
Definition SM : Type -> Type := st (World D).

Definition get_object (loc : nat) : SM StateObject :=
  λ w, match w_heap w !! loc with Some o => (Ret o, w) | None => (Panic, w) end.

Definition put_object (loc : nat) (o : StateObject) : SM unit :=
  λ w, (Ret tt, mkWorld (w_env w) (<[loc := o]> (w_heap w)) (w_state w)).

Definition modify_object (loc : nat) (f : StateObject -> StateObject) : SM unit :=
  o ← get_object loc; put_object loc (f o).

(** Allocate an object. *)
Definition new_object (o : StateObject) : SM nat :=
  λ w, (Ret (length (w_heap w)), mkWorld (w_env w) (w_heap w ++ [o]) (w_state w)).

Definition get_env : SM (Env D) := λ w, (Ret (w_env w), w).
Definition put_env (e : Env D) : SM unit := λ w, (Ret tt, mkWorld e (w_heap w) (w_state w)).
Definition get_state : SM State := λ w, (Ret (w_state w), w).
Definition put_state (s : State) : SM unit := λ w, (Ret tt, mkWorld (w_env w) (w_heap w) s).

Definition set_objects (m : gmap bytes nat) (s : State) : State :=
  mkState (s_Trie s) m (s_manifest s).
Definition set_s_Trie (t : Trie) (s : State) : State :=
  mkState t (stateObjects s) (s_manifest s).
Definition set_manifest (m : Manifest) (s : State) : State :=
  mkState (s_Trie s) (stateObjects s) m.

(** Run a trie operation on the trie of an object. *)
Definition on_object_trie {A} (loc : nat) (m : TrieM A) : SM A :=
  o ← get_object loc;
  e ← get_env;
  let '(r, (t, e')) := m (so_Trie o, e) in
  _ ← put_object loc (set_Trie t o);
  _ ← put_env e';
  lift r.

(** Run a trie operation on the trie of the state. *)
Definition on_state_trie {A} (m : TrieM A) : SM A :=
  s ← get_state;
  e ← get_env;
  let '(r, (t, e')) := m (s_Trie s, e) in
  _ ← put_state (set_s_Trie t s);
  _ ← put_env e';
  lift r.

(** ethstate/state_object.go, StateObject.GetAddr. *)
Definition GetAddr (c : nat) (addr : bytes) : SM goval :=
  v ← on_object_trie c (Trie_Get addr); lift (NewValueFromBytes v).

(** ethstate/state_object.go, StateObject.SetAddr. *)
Definition SetAddr (c : nat) (addr : bytes) (value : goval) : SM unit :=
  on_object_trie c (Update addr (Value_Encode (NewValue value))).

(** ethstate/state_object.go, StateObject.getStorage. *)
Definition getStorage (self : nat) (k : bytes) : SM goval :=
  let key := LeftPadBytes k 32 in
  o ← get_object self;
  match storage o !! key with
  | Some value => mret value
  | None =>
      value ← GetAddr self key;
      _ ← (if negb (IsNil value)
           then modify_object self (λ o, set_storage (<[key := value]> (storage o)) o)
           else mret tt);
      mret value
  end.

(** ethstate/state_object.go, StateObject.GetStorage. *)
Definition GetStorage (self : nat) (key : Z) : SM goval := getStorage self (big_Bytes key).

(** ethstate/state_object.go, StateObject.setStorage. *)
Definition setStorage (self : nat) (k : bytes) (value : goval) : SM unit :=
  let key := LeftPadBytes k 32 in
  modify_object self (λ o, set_storage (<[key := Value_Copy value]> (storage o)) o).

(** ethstate/state_object.go, StateObject.SetStorage. *)
Definition SetStorage (self : nat) (key : Z) (value : goval) : SM unit :=
  setStorage self (big_Bytes key) value.

(** ethstate/state_object.go, StateObject.EachStorage. The callbacks in order:
    the cached values, then those of the trie that are not cached. *)
Definition EachStorage (fuel : nat) (self : nat) : SM (list (bytes * goval)) :=
  o ← get_object self;
  let cached := map (λ '(key, value), (key, NewValue (VBytes (Value_Encode value))))
                    (map_order (storage o)) in
  stored ← on_object_trie self (Each fuel);
  mret (cached ++ filter (λ kv, storage o !! kv.1 = None) stored).

(** ethstate/state_object.go 148-157, StateObject.Sync. Write one cached value. *)
Definition sync_storage (self : nat) (kv : bytes * goval) : SM unit :=
  let '(key, value) := kv in
  if Value_Len value =? 0 then on_object_trie self (Trie_Delete [] key)
  else SetAddr self key value.

(** ethstate/state_object.go 159-164, StateObject.Sync. Replace the trie when
    it disagrees with one rebuilt from its contents; [State.Update] ends with
    the same check. *)
Definition paranoia : TrieM unit :=
  '(valid, t2) ← ParanoiaCheck walk_fuel;
  if negb valid then st_modify (λ '(_, e), (t2, e)) else mret tt.

(** ethstate/state_object.go, StateObject.Sync. *)
Definition StateObject_Sync (self : nat) : SM unit :=
  o ← get_object self;
  _ ← for_each (sync_storage self) (map_order (storage o));
  on_object_trie self paranoia.

(** ethstate/state_object.go, StateObject.Reset. The nested state's trie is
    undone. *)
Definition StateObject_Reset (self : nat) : SM unit :=
  modify_object self (λ o, set_Trie (Trie_Undo (so_Trie o)) (set_storage ∅ o)).

(** * The manifest *)

(** ethstate/manifest.go, Manifest.AddMessage. The pointer is the position. *)
Definition AddMessage (msg : Message) : SM nat :=
  s ← get_state;
  let ms := Messages (s_manifest s) in
  _ ← put_state (set_manifest (mkManifest (ms ++ [msg])) s);
  mret (length ms).

Definition modify_message (i : nat) (f : Message -> Message) : SM unit :=
  s ← get_state;
  put_state (set_manifest (mkManifest (alter f i (Messages (s_manifest s)))) s).

Definition set_Input (b : bytes) (m : Message) : Message :=
  mkMessage (m_To m) (m_From m) b (m_Output m) (m_Path m) (m_Origin m) (m_Timestamp m)
            (m_Coinbase m) (m_Block m) (m_Number m) (m_Value m) (m_ChangedAddresses m).
Definition set_Output (b : bytes) (m : Message) : Message :=
  mkMessage (m_To m) (m_From m) (m_Input m) b (m_Path m) (m_Origin m) (m_Timestamp m)
            (m_Coinbase m) (m_Block m) (m_Number m) (m_Value m) (m_ChangedAddresses m).

(** ethstate/manifest.go, Message.AddStorageChange. *)
Definition AddStorageChange (addr : bytes) (m : Message) : Message :=
  mkMessage (m_To m) (m_From m) (m_Input m) (m_Output m) (m_Path m) (m_Origin m)
            (m_Timestamp m) (m_Coinbase m) (m_Block m) (m_Number m) (m_Value m)
            (m_ChangedAddresses m ++ [addr]).

(** * The state *)

(** ethstate/state.go, State.GetStateObject. *)
Definition GetStateObject (addr : bytes) : SM (option nat) :=
  let addr := Address addr in
  s ← get_state;
  match stateObjects s !! addr with
  | Some stateObject => mret (Some stateObject)
  | None =>
      data ← on_state_trie (Trie_Get addr);
      if zlen data =? 0 then mret None
      else
        e ← get_env;
        o ← lift (NewStateObjectFromBytes e addr data);
        stateObject ← new_object o;
        s ← get_state;
        _ ← put_state (set_objects (<[addr := stateObject]> (stateObjects s)) s);
        mret (Some stateObject)
  end.

(** ethstate/state.go, State.NewStateObject. *)
Definition State_NewStateObject (addr : bytes) : SM nat :=
  let addr := Address addr in
  stateObject ← new_object (NewStateObject addr);
  s ← get_state;
  _ ← put_state (set_objects (<[addr := stateObject]> (stateObjects s)) s);
  mret stateObject.

(** ethstate/state.go, State.GetOrNewStateObject. *)
Definition GetOrNewStateObject (addr : bytes) : SM nat :=
  stateObject ← GetStateObject addr;
  match stateObject with Some o => mret o | None => State_NewStateObject addr end.

(** ethstate/state.go, State.GetAccount. *)
Definition GetAccount (addr : bytes) : SM nat := GetOrNewStateObject addr.

(** ethstate/state.go, State.GetBalance. *)
Definition GetBalance (addr : bytes) : SM Z :=
  stateObject ← GetStateObject addr;
  match stateObject with Some o => Balance <$> get_object o | None => mret 0 end.

(** ethstate/state.go, State.GetNonce. *)
Definition GetNonce (addr : bytes) : SM Z :=
  stateObject ← GetStateObject addr;
  match stateObject with Some o => Nonce <$> get_object o | None => mret 0 end.

(** ethstate/state.go, State.UpdateStateObject. The code is hashed. *)
Definition UpdateStateObject (stateObject : nat) : SM unit :=
  o ← get_object stateObject;
  e ← get_env;
  _ ← put_env (mkEnv (db_Put (e_db e) (Sha3Bin (Code o)) (Code o)) (Code o :: e_hashed e));
  on_state_trie (Update (so_address o) (StateObject_RlpEncode o)).

(** ethstate/state.go, State.DeleteStateObject. *)
Definition DeleteStateObject (stateObject : nat) : SM unit :=
  o ← get_object stateObject;
  _ ← on_state_trie (Trie_Delete [] (so_address o));
  s ← get_state;
  put_state (set_objects (delete (so_address o) (stateObjects s)) s).

(** ethstate/state.go, State.Cmp. *)
Definition State_Cmp (s other : State) : bool := Trie_Cmp (s_Trie s) (s_Trie other).

(** ethstate/state.go, State.Root. *)
Definition State_Root (s : State) : goval := tr_Root (s_Trie s).

(** ethstate/state.go 130-132, State.Copy. Copy one object. *)
Definition copy_object (kv : bytes * nat) : SM (list (bytes * nat)) :=
  o ← get_object kv.2; l ← new_object (StateObject_Copy o); mret [(kv.1, l)].

(** ethstate/state.go, State.Copy. The copy has a manifest of its own. *)
Definition State_Copy : SM State :=
  s ← get_state;
  l ← for_collect copy_object (map_order (stateObjects s));
  mret (mkState (Trie_Copy (s_Trie s)) (list_to_map l) NewManifest).

(** ethstate/state.go, State.Set. The manifest stays. *)
Definition State_Set (state : State) : SM unit :=
  s ← get_state;
  put_state (mkState (s_Trie state) (stateObjects state) (s_manifest s)).

(** ethstate/state.go, State.Empty. *)
Definition State_Empty : SM unit :=
  s ← get_state; put_state (set_objects ∅ s).

(** ethstate/state.go, State.Reset. *)
Definition State_Reset : SM unit :=
  _ ← on_state_trie (st_modify (λ '(t, e), (Trie_Undo t, e)));
  s ← get_state;
  _ ← for_each (λ kv, StateObject_Reset kv.2) (map_order (stateObjects s));
  State_Empty.

(** ethstate/state.go, State.Sync. The nested tries, then the trie. *)
Definition State_Sync : SM unit :=
  s ← get_state;
  _ ← for_each (λ kv : bytes * nat,
        on_object_trie kv.2 (st_modify (λ '(t, e), Trie_Sync t e))) (map_order (stateObjects s));
  _ ← on_state_trie (st_modify (λ '(t, e), Trie_Sync t e));
  State_Empty.

(** ethstate/state.go 193-201, State.Update. Write one object. *)
Definition update_object (kv : bytes * nat) : SM unit :=
  o ← get_object kv.2;
  if remove o then DeleteStateObject kv.2
  else _ ← StateObject_Sync kv.2; UpdateStateObject kv.2.

(** ethstate/state.go, State.Update. *)
Definition State_Update : SM unit :=
  s ← get_state;
  _ ← for_each update_object (map_order (stateObjects s));
  on_state_trie paranoia.

End State.
