(* ===== verification/Dump.v ===== *)
(** [ethstate/dump.go]: the world state as a JSON text, account by account with
    its storage.  The fuel is for the walks over the tries. *)

From S2P Require Import Prelude GoVal Big Bytes Errors Text Json Rlp Value Db Crypto Nibbles Trie State.

(** ethstate/dump.go 10-15, Account. *)
Record Account := mkAccount {
  ac_Balance : bytes;
  ac_Nonce : Z;
  ac_CodeHash : bytes;
  ac_Storage : gmap bytes bytes;
}.

(** ethstate/dump.go 17-20, World. *)
Record WorldDump := mkWorldDump { wd_Root : bytes; wd_Accounts : gmap bytes Account }.

(** The fields and their names in the text. *)
Definition account_json (a : Account) : json :=
  JObj [(asc "balance", JStr (ac_Balance a)); (asc "nonce", JNum (ac_Nonce a));
        (asc "codeHash", JStr (ac_CodeHash a)); (asc "storage", JMap JStr (ac_Storage a))].

Definition world_json (w : WorldDump) : json :=
  JObj [(asc "root", JStr (wd_Root w)); (asc "accounts", JMap account_json (wd_Accounts w))].

Section Dump.
Context `{Crypto} {D : Type} `{Database D} `{MapOrder}.

(** ethstate/dump.go 34-37, State.Dump. The callback for the storage; a later key overwrites. *)
Fixpoint dump_storage (kvs : list (bytes * goval)) (acc : gmap bytes bytes) : outcome (gmap bytes bytes) :=
  match kvs with
  | [] => Ret acc
  | (key, value) :: r =>
      v ← Value_Decode value;
      dump_storage r (<[Bytes2Hex key := Bytes2Hex (Value_Bytes v)]> acc)
  end.

(** ethstate/dump.go 29-39, State.Dump. The callback for the accounts. *)
Definition dump_account (fuel : nat) (kv : bytes * goval) : SM (D := D) (list (bytes * Account)) :=
  let '(key, value) := kv in
  e ← get_env;
  stateObject ← lift (NewStateObjectFromBytes e key (Value_Bytes value));
  self ← new_object stateObject;
  kvs ← EachStorage fuel self;
  storage ← lift (dump_storage kvs ∅);
  mret [(Bytes2Hex key, mkAccount (decimal (Balance stateObject)) (Nonce stateObject)
                          (Bytes2Hex (CodeHash stateObject)) storage)].

(** ethstate/dump.go 23-39, State.Dump. The structure. The root must be a byte slice: the
    assertion of its type stops the program on the string that a new trie has. *)
Definition dump_world (fuel : nat) : SM (D := D) WorldDump :=
  s ← get_state;
  root ← lift (match tr_Root (s_Trie s) with VBytes b => Ret b | _ => Panic end);
  kvs ← on_state_trie (Each fuel);
  accounts ← for_collect (dump_account fuel) kvs;
  mret (mkWorldDump (Bytes2Hex root)
          (fold_left (λ m kv, <[kv.1 := kv.2]> m) accounts ∅)).

(** ethstate/dump.go, State.Dump. *)
Definition Dump (fuel : nat) : SM (D := D) bytes :=
  world ← dump_world fuel; mret (MarshalIndent (asc "    ") (world_json world)).

End Dump.
