(* ===== verification/Machine.v ===== *)
(** The parts of the virtual machine: [ethvm/stack.go] (stack and memory),
    [ethvm/closure.go] and the gas prices of [ethvm/common.go].

    The stack is the Go slice: its top is the last element.  Every push copies
    the number, so stack entries are values.  Slices returned by [Memory.Get]
    are copies here: what aliases the memory in the code (call arguments, init
    code, return data) is only read while that memory does not change. *)

From S2P Require Import Prelude GoVal Big Bytes Value State.

(** * Stack *)

(** The Go slice of the type [Stack]. *)
Notation Stack := (list Z).

(** ethvm/stack.go, Stack.Len. *)
Definition Stack_Len (st : Stack) : Z := zlen st.

(** ethvm/stack.go, Stack.Pop. *)
Definition Pop (st : Stack) : outcome (Z * Stack) :=
  str ← index st (zlen st - 1);
  data ← slice st 0 (zlen st - 1);
  Ret (str, data).

(** ethvm/stack.go, Stack.Popn. The second from the top, then the top. *)
Definition Popn (st : Stack) : outcome (Z * Z * Stack) :=
  ints ← slice st (zlen st - 2) (zlen st);
  data ← slice st 0 (zlen st - 2);
  x ← index ints 0;
  y ← index ints 1;
  Ret (x, y, data).

(** ethvm/stack.go, Stack.Peek. *)
Definition Peek (st : Stack) : outcome Z := index st (zlen st - 1).

(** ethvm/stack.go, Stack.Peekn. *)
Definition Peekn (st : Stack) : outcome (Z * Z) :=
  ints ← slice st (zlen st - 2) (zlen st);
  x ← index ints 0;
  y ← index ints 1;
  Ret (x, y).

(** ethvm/stack.go, Stack.Swapn. The positions count from the bottom. *)
Definition Swapn (n : Z) (st : Stack) : outcome (Z * Z * Stack) :=
  a ← index st 0;
  b ← index st n;
  st1 ← assign st n a;
  st2 ← assign st1 0 b;
  x ← index st2 n;
  y ← index st2 0;
  Ret (x, y, st2).

(** ethvm/stack.go, Stack.Push. *)
Definition Push (d : Z) (st : Stack) : Stack := st ++ [d].

(** ethvm/stack.go, Stack.Dupn. The position counts from the bottom. *)
Definition Dupn (n : Z) (st : Stack) : outcome (Z * Stack) :=
  d ← index st n;
  let st := Push d st in
  x ← Peek st;
  Ret (x, st).

(** ethvm/stack.go, Stack.Get. [None] is nil. *)
Definition Stack_Get (amount : Z) (st : Stack) : outcome (option (list Z)) :=
  let length := zlen st in
  if amount <=? length then
    let start := length - amount in
    r ← slice st (big_Int64 start) (big_Int64 length); Ret (Some r)
  else Ret None.

(** * Memory *)

(** The byte slice of the type [Memory]. *)
Notation Memory := bytes.

(** ethvm/stack.go, Memory.Len. *)
Definition Mem_Len (m : Memory) : Z := zlen m.

(** [copy(dst, src)]. *)
Definition copy_bytes (dst src : bytes) : bytes :=
  take (length dst) src ++ drop (length src) dst.

(** ethvm/stack.go, Memory.Set. Offset and size are [int64]; [make] panics on a
    negative size, and the assignment goes to [m.store[offset:offset+size]]. *)
Definition Mem_Set (offset size : Z) (value : bytes) (m : Memory) : outcome Memory :=
  let totSize := s64 (offset + size) in
  let lenSize := zlen m - 1 in
  let store :=
    if lenSize <? totSize then
      let diff := s64 (totSize - lenSize) in
      if 0 <? diff then m ++ zeros (diff - 1) else m
    else m in
  dst ← slice store offset totSize;
  Ret (take (Z.to_nat offset) store ++ copy_bytes dst value ++ drop (Z.to_nat totSize) store).

(** ethvm/stack.go, Memory.Resize. *)
Definition Mem_Resize (size : Z) (m : Memory) : Memory :=
  if zlen m <? size then m ++ zeros (size - zlen m) else m.

(** ethvm/stack.go, Memory.Get. The smaller of two [float64] numbers, of which
    the length is exact, is the smaller of the two integers. *)
Definition Mem_Get (offset size : Z) (m : Memory) : outcome bytes :=
  if offset <? zlen m then
    let end_ := Z.min (zlen m) (s64 (offset + size)) in
    slice m offset end_
  else Ret [].

(** * Gas prices *)

(** ethvm/common.go, GasStep. *)
Definition GasStep : Z := 1.
(** ethvm/common.go, GasSha. *)
Definition GasSha : Z := 20.
(** ethvm/common.go, GasSLoad. *)
Definition GasSLoad : Z := 20.
(** ethvm/common.go, GasSStore. *)
Definition GasSStore : Z := 100.
(** ethvm/common.go, GasBalance. *)
Definition GasBalance : Z := 20.
(** ethvm/common.go, GasCreate. *)
Definition GasCreate : Z := 100.
(** ethvm/common.go, GasCall. *)
Definition GasCall : Z := 20.
(** ethvm/common.go, GasMemory. *)
Definition GasMemory : Z := 1.
(** ethvm/common.go, GasData. *)
Definition GasData : Z := 5.
(** ethvm/common.go, GasTx. *)
Definition GasTx : Z := 500.
(** ethvm/common.go, Pow256. *)
Definition Pow256 : Z := 2 ^ 256.

(** * Closures *)

(** ethvm/closure.go, Closure. The caller is known by its address; giving the
    remaining gas back to it is the caller's part (see [RunClosure]).  The
    object and the message are pointers. *)
Record Closure := mkClosure {
  cl_caller : bytes;
  cl_object : nat;
  cl_Code : bytes;
  cl_message : nat;
  cl_Gas : Z;
  cl_UsedGas : Z;
  cl_Price : Z;
  cl_Args : bytes;
}.

(** ethvm/closure.go, NewClosure. *)
Definition NewClosure (msg : nat) (caller : bytes) (object : nat) (code : bytes)
    (gas price : Z) : Closure :=
  mkClosure caller object code msg gas 0 price [].

Definition set_gas (gas used : Z) (c : Closure) : Closure :=
  mkClosure (cl_caller c) (cl_object c) (cl_Code c) (cl_message c) gas used (cl_Price c) (cl_Args c).

Definition set_Args (args : bytes) (c : Closure) : Closure :=
  mkClosure (cl_caller c) (cl_object c) (cl_Code c) (cl_message c) (cl_Gas c) (cl_UsedGas c)
            (cl_Price c) args.

(** ethvm/closure.go, Closure.Gets. The end is tested against the capacity only. *)
Definition Gets `{MapOrder} (c : Closure) (x y : Z) : outcome goval :=
  let n := zlen (cl_Code c) in
  if (n <=? big_Int64 x) || (n <=? big_Int64 y) then Ret (NewValue (VInt Kint 0))
  else
    partial ← slice (cl_Code c ++ spare_code (cl_Code c)) (big_Int64 x) (s64 (big_Int64 x + big_Int64 y));
    Ret (NewValue (VBytes partial)).

(** ethvm/closure.go, Closure.Get. *)
Definition Closure_Get `{MapOrder} (c : Closure) (x : Z) : outcome goval := Gets c x 1.

(** ethvm/closure.go, Closure.UseGas. [None]: not enough. *)
Definition UseGas (gas : Z) (c : Closure) : option Closure :=
  if cl_Gas c <? gas then None
  else Some (set_gas (cl_Gas c - gas) (cl_UsedGas c + gas) c).

(** ethvm/closure.go, Closure.UseGas. The call [c.UseGas(c.Gas)]: the argument is
    the gas counter itself, which is zero by the time it is added to the used
    gas. *)
Definition UseAllGas (c : Closure) : Closure := set_gas 0 (cl_UsedGas c) c.

(** ethvm/closure.go, Closure.ReturnGas. *)
Definition ReturnGas (gas : Z) (c : Closure) : Closure :=
  set_gas (cl_Gas c + gas) (cl_UsedGas c - gas) c.

(** * Arithmetic *)

(** ethvm/vm.go, ensure256. *)
Definition ensure256 (x : Z) : Z :=
  let x := Z.land x (2 ^ 256 - 1) in
  if x <? 0 then 0 else x.

(** The conversions of a [uint64] to [float64] (53 bits, ties to even) and back;
    a value of [2^64] has no [uint64], amd64 gives the top bit. *)
Definition float64_of (z : Z) : Z :=
  if z <? 2 ^ 53 then z
  else
    let e := Z.log2 z - 52 in
    let q := z / 2 ^ e in
    let r := z `mod` 2 ^ e in
    let half := 2 ^ (e - 1) in
    (if (half <? r) || ((r =? half) && Z.odd q) then q + 1 else q) * 2 ^ e.

Definition uint64_of (f : Z) : Z := if f <? 2 ^ 64 then f else 2 ^ 63.

Arguments Pow256 : simpl never.
Arguments ensure256 : simpl never.
Arguments float64_of : simpl never.
Arguments Mem_Set : simpl never.
Arguments Mem_Get : simpl never.
Arguments Mem_Resize : simpl never.
Arguments Pop : simpl never.
Arguments Popn : simpl never.
Arguments Peek : simpl never.
Arguments Peekn : simpl never.
Arguments Gets : simpl never.
