(* ===== verification/Vm.v ===== *)
(** [ethvm/vm.go]: the virtual machine.

    A run of a closure is a computation [VM] on its locals (stack, memory,
    program counter), its closure, and the world.  One iteration of the loop of
    [RunClosure] is [step_gas] (the price of the operation and the memory it
    needs), the payment, and [exec]; nested calls run the same loop with an
    empty stack.  The loop has fuel; [VmSpec] shows that twice the gas bounds it.

    The debugger hooks and the log output are left out.  [vw_stuck] is a ghost:
    it records that an operation on the state (a walk over a malformed trie, or
    the address search of CREATE) did not end; nothing reads it. *)

From S2P Require Import Prelude GoVal Big Bytes Errors Rlp Value Db Crypto Nibbles Trie Opcodes.
From S2P Require Import State Machine.

(** ethvm/vm.go, Environment. The values behind the interface; the state is the
    world's.  A block that has no number yet answers a nil one. *)
Record Environment := mkEnvironment {
  env_Origin : bytes;
  env_BlockNumber : option Z;
  env_PrevHash : bytes;
  env_Coinbase : bytes;
  env_Time : Z;
  env_Difficulty : Z;
  env_Value : Z;
  env_BlockHash : bytes;
}.

(** ethvm/vm.go, Vm. The fields that matter to a run. *)
Record Vm := mkVm { vm_env : Environment; Recoverable : bool }.

(** ethvm/vm.go, New. *)
Definition Vm_New (env : Environment) : Vm := mkVm env true.

Record VWorld (D : Type) := mkVWorld { vw_world : World D; vw_stuck : bool }.
Arguments mkVWorld {D}.
Arguments vw_world {D}.
Arguments vw_stuck {D}.

(** ethvm/vm.go 96-103, Vm.RunClosure. The locals of a run, with its closure. *)
Record VState (D : Type) := mkVState {
  v_closure : Closure;
  v_stack : Stack;
  v_mem : Memory;
  v_pc : Z;
  v_world : VWorld D;
}.
Arguments mkVState {D}.
Arguments v_closure {D}.
Arguments v_stack {D}.
Arguments v_mem {D}.
Arguments v_pc {D}.
Arguments v_world {D}.

(** How an operation ends: the loop increments the program counter, continues
    without that, or returns. *)
Inductive ctl :=
| Next
| Continue
| Return (ret : bytes) (err : option error).

Section Vm.
Context `{Crypto} {D : Type} `{Database D} `{MapOrder}.

Definition VM : Type -> Type := st (VState D).

(** ** Access to the locals *)

Definition get_closure : VM Closure := λ s, (Ret (v_closure s), s).
Definition put_closure (c : Closure) : VM unit := λ s,
  (Ret tt, mkVState c (v_stack s) (v_mem s) (v_pc s) (v_world s)).
Definition get_stack : VM Stack := λ s, (Ret (v_stack s), s).
Definition put_stack (st : Stack) : VM unit := λ s,
  (Ret tt, mkVState (v_closure s) st (v_mem s) (v_pc s) (v_world s)).
Definition get_mem : VM Memory := λ s, (Ret (v_mem s), s).
Definition put_mem (m : Memory) : VM unit := λ s,
  (Ret tt, mkVState (v_closure s) (v_stack s) m (v_pc s) (v_world s)).
Definition get_pc : VM Z := λ s, (Ret (v_pc s), s).
Definition put_pc (pc : Z) : VM unit := λ s,
  (Ret tt, mkVState (v_closure s) (v_stack s) (v_mem s) pc (v_world s)).

(** An operation on the state. *)
Definition on_world {A} (m : SM A) : VM A := λ s,
  let '(o, w) := m (vw_world (v_world s)) in
  let stuck := match o with NoFuel => true | _ => vw_stuck (v_world s) end in
  (o, mkVState (v_closure s) (v_stack s) (v_mem s) (v_pc s) (mkVWorld w stuck)).

Definition push (d : Z) : VM unit := st ← get_stack; put_stack (Push d st).
Definition pop : VM Z :=
  st ← get_stack; '(x, st') ← lift (Pop st); _ ← put_stack st'; mret x.
Definition popn : VM (Z * Z) :=
  st ← get_stack; '(x, y, st') ← lift (Popn st); _ ← put_stack st'; mret (x, y).
Definition peek : VM Z := st ← get_stack; lift (Peek st).

(** [stack.data[stack.Len()-i]]. *)
Definition from_top (i : Z) : VM Z := st ← get_stack; lift (index st (zlen st - i)).

(** ethvm/vm.go 104-108, Vm.RunClosure. [require]. *)
Definition require (m : Z) : VM unit :=
  st ← get_stack; if zlen st <? m then st_panic else mret tt.

(** ethvm/closure.go, Closure.GetStorage. The object never answers nil. *)
Definition closure_GetStorage (x : Z) : VM goval :=
  c ← get_closure; on_world (GetStorage (cl_object c) x).

(** ethvm/closure.go, Closure.SetStorage. *)
Definition closure_SetStorage (x : Z) (val : goval) : VM unit :=
  c ← get_closure; on_world (SetStorage (cl_object c) x val).

(** ethvm/closure.go, Closure.Address. *)
Definition closure_Address : VM bytes :=
  c ← get_closure; on_world (so_address <$> get_object (cl_object c)).

(** * The price of an operation *)

(** ethvm/vm.go 144-148, Vm.RunClosure. [addStepGasUsage]: add if not negative. *)
Definition addStepGasUsage (gas amount : Z) : Z := if 0 <=? amount then gas + amount else gas.

(** ethvm/vm.go 160-171, Vm.RunClosure. The price of SSTORE. *)
Definition sstore_gas : VM Z :=
  st ← get_stack;
  '(y, x) ← lift (Peekn st);
  val ← closure_GetStorage x;
  let mult :=
    if (Value_BigInt val =? 0) && (0 <? zlen (big_Bytes y)) then 2
    else if negb (Value_BigInt val =? 0) && (zlen (big_Bytes y) =? 0) then 0
    else 1 in
  mret (mult * GasSStore).

(** ethvm/vm.go 150-216, Vm.RunClosure. The gas, and the size of memory needed. *)
Definition step_gas (op : opcode) : VM (Z * Z) :=
  let gas := addStepGasUsage 0 GasStep in
  match op with
  | STOP => mret (0, 0)
  | SUICIDE => mret (0, 0)
  | SLOAD => mret (GasSLoad, 0)
  | SSTORE => g ← sstore_gas; mret (g, 0)
  | BALANCE => mret (GasBalance, 0)
  | MSTORE => _ ← require 2; x ← peek; mret (gas, u64 (big_Uint64 x + 32))
  | MLOAD => _ ← require 1; x ← peek; mret (gas, u64 (big_Uint64 x + 32))
  | MSTORE8 => _ ← require 2; x ← peek; mret (gas, u64 (big_Uint64 x + 1))
  | RETURN =>
      _ ← require 2; x ← peek; y ← from_top 2;
      mret (gas, u64 (big_Uint64 x + big_Uint64 y))
  | SHA3 =>
      _ ← require 2; x ← peek; y ← from_top 2;
      mret (GasSha, u64 (big_Uint64 x + big_Uint64 y))
  | CALLDATACOPY =>
      _ ← require 3; x ← peek; y ← from_top 3;
      mret (gas, u64 (big_Uint64 x + big_Uint64 y))
  | CODECOPY =>
      _ ← require 3; x ← peek; y ← from_top 3;
      mret (gas, u64 (big_Uint64 x + big_Uint64 y))
  | CALL =>
      _ ← require 7;
      g ← from_top 1;
      a ← from_top 6; b ← from_top 7;
      c ← from_top 4; d ← from_top 5;
      let x := u64 (big_Uint64 a + big_Uint64 b) in
      let y := u64 (big_Uint64 c + big_Uint64 d) in
      mret (addStepGasUsage GasCall g, uint64_of (Z.max (float64_of x) (float64_of y)))
  | CREATE =>
      _ ← require 3; a ← from_top 2; b ← from_top 3;
      mret (GasCreate, u64 (big_Uint64 a + big_Uint64 b))
  | _ => mret (gas, 0)
  end.

(** ethvm/vm.go 218-222, Vm.RunClosure. Round the memory up to words and price
    its growth; [uint64] arithmetic. *)
Definition memory_size (newMemSize : Z) : Z := u64 (u64 (newMemSize + 31) / 32 * 32).
Definition memory_gas (gas newMemSize memLen : Z) : Z :=
  if memLen <? newMemSize then
    let m := u64 (GasMemory * (newMemSize - memLen)) / 32 in
    addStepGasUsage gas (s64 m)
  else gas.

(** * The operations *)

(** A binary operation on the top two: [f x y] with [x] the second, [y] the top. *)
Definition binop (f : Z -> Z -> outcome Z) : VM ctl :=
  _ ← require 2;
  '(x, y) ← popn;
  base ← lift (f x y);
  _ ← push base;
  mret Next.

Definition push_bool (b : bool) : VM unit := push (if b then 1 else 0).

Definition compare (f : Z -> Z -> bool) : VM ctl :=
  _ ← require 2; '(x, y) ← popn; _ ← push_bool (f x y); mret Next.

(** ethvm/vm.go 242-347, Vm.RunClosure. Arithmetic; the signed operations are the
    unsigned ones. *)
Definition exec_arith (op : opcode) : VM ctl :=
  match op with
  | ADD => binop (λ x y, Ret (ensure256 (y + x)))
  | SUB => binop (λ x y, Ret (ensure256 (y - x)))
  | MUL => binop (λ x y, Ret (ensure256 (y * x)))
  | DIV | SDIV =>
      binop (λ x y, if negb (x =? 0) then q ← big_Div y x; Ret (ensure256 q) else Ret 0)
  | MOD | SMOD => binop (λ x y, r ← big_Mod y x; Ret (ensure256 r))
  | EXP => binop (λ x y, Ret (ensure256 (big_Exp y x Pow256)))
  | NEG => _ ← require 1; x ← pop; _ ← push (Pow256 - x); mret Next
  | _ => st_panic
  end.

(** ethvm/vm.go 348-410, Vm.RunClosure. Comparisons; SLT and SGT compare like LT
    and GT. *)
Definition exec_compare (op : opcode) : VM ctl :=
  match op with
  | LT | SLT => compare (λ x y, y <? x)
  | GT | SGT => compare (λ x y, x <? y)
  | EQ => compare (λ x y, x =? y)
  | NOT => _ ← require 1; x ← pop; _ ← push_bool (negb (0 <? x)); mret Next
  | _ => st_panic
  end.

(** ethvm/vm.go 413-471, Vm.RunClosure. Bit operations and the modular ones. *)
Definition exec_bits (op : opcode) : VM ctl :=
  match op with
  | AND => binop (λ x y, Ret (Z.land y x))
  | OR => binop (λ x y, Ret (Z.lor y x))
  | XOR => binop (λ x y, Ret (Z.lxor y x))
  | BYTE =>
      _ ← require 2;
      '(val, th) ← popn;
      if (th <? 32) && (th <? zlen (big_Bytes val)) then
        b ← lift (index (LeftPadBytes (big_Bytes val) 32) (big_Int64 th));
        _ ← push (b2z b); mret Next
      else _ ← push 0; mret Next
  | ADDMOD =>
      _ ← require 3; x ← pop; y ← pop; z ← pop;
      r ← lift (big_Mod (x + y) z); _ ← push (ensure256 r); mret Next
  | MULMOD =>
      _ ← require 3; x ← pop; y ← pop; z ← pop;
      r ← lift (big_Mod (x * y) z); _ ← push (ensure256 r); mret Next
  | _ => st_panic
  end.

(** ethvm/vm.go 513-553, Vm.RunClosure. The bounds of CALLDATACOPY; CODECOPY has
    the same. *)
Definition copy_range (data : bytes) : VM unit :=
  mOff' ← pop; cOff' ← pop; l' ← pop;
  let size := zlen data in
  let mOff := big_Int64 mOff' in
  let cOff := big_Int64 cOff' in
  let l := big_Int64 l' in
  let '(cOff, l) :=
    if size <? cOff then (0, 0)
    else if size <? s64 (cOff + l) then (cOff, 0)
    else (cOff, l) in
  code ← lift (slice data cOff (s64 (cOff + l)));
  mem ← get_mem;
  mem' ← lift (Mem_Set mOff l code mem);
  put_mem mem'.

(** ethvm/vm.go 513-530, Vm.RunClosure. The word of call data at an offset. *)
Definition call_data_load (args : bytes) (offset : Z) : outcome Z :=
  let lenData := zlen args in
  let data := zeros 32 in
  data ← (if offset <=? lenData then
            let length := BigMin (offset + 32) lenData in
            s ← slice args (big_Int64 offset) (big_Int64 length);
            Ret (copy_bytes data s)
          else Ret data);
  Ret (BigD data).

(** ethvm/vm.go 474-615, Vm.RunClosure. Hashing, and what the closure and the
    block tell. *)
Definition exec_env (vm : Vm) (op : opcode) : VM ctl :=
  let env := vm_env vm in
  c ← get_closure;
  match op with
  | SHA3 =>
      _ ← require 2;
      '(size, offset) ← popn;
      mem ← get_mem;
      d ← lift (Mem_Get (big_Int64 offset) (big_Int64 size) mem);
      _ ← push (BigD (Sha3Bin d)); mret Next
  | ADDRESS => a ← closure_Address; _ ← push (BigD a); mret Next
  | BALANCE =>
      _ ← require 1; a ← pop;
      balance ← on_world (GetBalance (big_Bytes a));
      _ ← push balance; mret Next
  | ORIGIN => _ ← push (BigD (env_Origin env)); mret Next
  | CALLER => _ ← push (BigD (cl_caller c)); mret Next
  | CALLVALUE => _ ← push (env_Value env); mret Next
  | CALLDATALOAD =>
      _ ← require 1; offset ← pop;
      d ← lift (call_data_load (cl_Args c) offset); _ ← push d; mret Next
  | CALLDATASIZE => _ ← push (zlen (cl_Args c)); mret Next
  | CALLDATACOPY => _ ← copy_range (cl_Args c); mret Next
  | CODESIZE => _ ← push (zlen (cl_Code c)); mret Next
  | CODECOPY => _ ← copy_range (cl_Code c); mret Next
  | GASPRICE => _ ← push (cl_Price c); mret Next
  | PREVHASH => _ ← push (BigD (env_PrevHash env)); mret Next
  | COINBASE => _ ← push (BigD (env_Coinbase env)); mret Next
  | TIMESTAMP => _ ← push (env_Time env); mret Next
  | NUMBER => number ← lift (deref (env_BlockNumber env)); _ ← push number; mret Next
  | DIFFICULTY => _ ← push (env_Difficulty env); mret Next
  | GASLIMIT => _ ← push 0; mret Next
  | _ => st_panic
  end.

(** ethvm/vm.go 618-642, Vm.RunClosure. Pushing constants, and moving entries of
    the stack. *)
Definition exec_stack (op : opcode) : VM ctl :=
  match op with
  | PUSH a =>
      pc ← get_pc;
      let pc := pc + 1 in
      c ← get_closure;
      data ← lift (Gets c pc a);
      _ ← push (BigD (Value_Bytes data));
      _ ← put_pc (pc + (a - 1));
      mret Next
  | POP => _ ← require 1; _ ← pop; mret Next
  | DUP n =>
      st ← get_stack; '(_, st') ← lift (Dupn n st); _ ← put_stack st'; mret Next
  | SWAP n =>
      st ← get_stack; '(_, _, st') ← lift (Swapn n st); _ ← put_stack st'; mret Next
  | _ => st_panic
  end.

(** ethvm/vm.go 643-705, Vm.RunClosure. Memory, storage, jumps and counters. *)
Definition exec_mem (op : opcode) : VM ctl :=
  match op with
  | MLOAD =>
      _ ← require 1; offset ← pop; mem ← get_mem;
      d ← lift (Mem_Get (big_Int64 offset) 32 mem); _ ← push (BigD d); mret Next
  | MSTORE =>
      _ ← require 2; '(val, mStart) ← popn; mem ← get_mem;
      mem' ← lift (Mem_Set (big_Int64 mStart) 32 (BigToBytes val 256) mem);
      _ ← put_mem mem'; mret Next
  | MSTORE8 =>
      _ ← require 2; '(val, mStart) ← popn; mem ← get_mem;
      mem' ← lift (assign mem (big_Int64 mStart) (z2b (Z.land (big_Int64 val) 0xff)));
      _ ← put_mem mem'; mret Next
  | SLOAD =>
      _ ← require 1; loc ← pop; val ← closure_GetStorage loc;
      _ ← push (Value_BigInt val); mret Next
  | SSTORE =>
      _ ← require 2; '(val, loc) ← popn;
      _ ← closure_SetStorage loc (NewValue (VBig val));
      c ← get_closure;
      _ ← on_world (modify_message (cl_message c) (AddStorageChange (big_Bytes loc)));
      mret Next
  | JUMP => _ ← require 1; pc ← pop; _ ← put_pc pc; mret Continue
  | JUMPI =>
      _ ← require 2; '(cond, pos) ← popn;
      if 1 <=? cond then _ ← put_pc pos; mret Continue else mret Next
  | PC => pc ← get_pc; _ ← push pc; mret Next
  | MSIZE => mem ← get_mem; _ ← push (zlen mem); mret Next
  | GAS => c ← get_closure; _ ← push (cl_Gas c); mret Next
  | _ => st_panic
  end.

(** ** Creating and calling contracts

    [run] is the nested [RunClosure]: from a closure and the world, the result,
    the closure afterwards and the world. *)
Definition runner : Type :=
  Closure -> VWorld D -> outcome (bytes * option error) * (Closure * VWorld D).

(** ethvm/closure.go, Closure.Call. Run a nested closure; on its return, the gas
    it has left goes back to the caller (whose [ReturnGas] is called there). *)
Definition Closure_Call (run : runner) (child : Closure) (args : bytes)
    : VM (bytes * option error) := λ s,
  let '(o, (c', w')) := run (set_Args args child) (v_world s) in
  let closure := match o with
                 | Ret _ => ReturnGas (cl_Gas c') (v_closure s)
                 | _ => v_closure s
                 end in
  (o, mkVState closure (v_stack s) (v_mem s) (v_pc s) w').

(** ethvm/vm.go 722-724, Vm.RunClosure. The search for a free address: the loop
    does not change the address it tests. *)
Fixpoint find_address (fuel : nat) (addr : bytes) : SM unit :=
  o ← GetStateObject addr;
  match o with
  | None => mret tt
  | Some _ => match fuel with O => st_nofuel | S f => find_address f addr end
  end.

(** ethvm/vm.go 794-800, Vm.RunClosure. The message of a CALL; that of a CREATE
    has no input yet. *)
Definition call_message (env : Environment) (to from input : bytes) (value : Z) : Message :=
  mkMessage to from input [] 0 (env_Origin env) (env_Time env) (env_Coinbase env)
            (env_BlockHash env) (env_BlockNumber env) value [].

(** ethvm/vm.go 737-758, Vm.RunClosure. Run the init code; the answer is the
    error. The message's input is a copy: Go's slice shares the caller's memory. *)
Definition create_contract (run : runner) (addr : bytes) (msg : nat) (value size offset : Z)
    : VM (option error * nat) :=
  closure ← get_closure;
  contract ← on_world (State_NewStateObject addr);
  o ← on_world (get_object contract);
  if value <=? Balance o then
    _ ← on_world (modify_object (cl_object closure) (SubAmount value));
    _ ← on_world (modify_object contract (AddAmount value));
    mem ← get_mem;
    initCode ← lift (Mem_Get (big_Int64 offset) (big_Int64 size) mem);
    _ ← on_world (modify_message msg (set_Input initCode));
    closure ← get_closure;
    let gas := cl_Gas closure in
    _ ← put_closure (UseAllGas closure);
    caller ← closure_Address;
    let c := NewClosure msg caller contract initCode gas (cl_Price closure) in
    '(code, err) ← Closure_Call run c [];
    _ ← on_world (modify_object contract (set_Code code));
    mret (err, contract)
  else
    o ← on_world (get_object (cl_object closure));
    mret (Some (Errorf (asc "Insufficient funds to transfer value. Req " ++ decimal value
                        ++ asc ", has " ++ decimal (Balance o))), contract).

(** ethvm/vm.go 707-772, Vm.RunClosure. CREATE. *)
Definition exec_create (vm : Vm) (run : runner) : VM ctl :=
  _ ← require 3;
  value ← pop;
  '(size, offset) ← popn;
  snapshot ← on_world State_Copy;
  closure ← get_closure;
  caller ← closure_Address;
  object ← on_world (get_object (cl_object closure));
  let addr := CreateAddress caller (Nonce object) in
  _ ← on_world (find_address walk_fuel addr);
  _ ← on_world (modify_object (cl_object closure) (λ o, set_Nonce (u64 (Nonce o + 1)) o));
  msg ← on_world (AddMessage (call_message (vm_env vm) addr caller [] value));
  '(err, contract) ← create_contract run addr msg value size offset;
  match err with
  | Some _ => _ ← push 0; _ ← on_world (State_Set snapshot); mret Next
  | None =>
      _ ← push (BigD addr);
      o ← on_world (get_object contract);
      _ ← on_world (modify_message msg (set_Output (Code o)));
      mret Next
  end.

(** ethvm/vm.go 784-838, Vm.RunClosure. CALL, with the gas taken from the stack. The
    arguments are a copy: in Go the message's input is a slice of the caller's memory. *)
Definition call_with_gas (vm : Vm) (run : runner) (gas : Z) : VM ctl :=
  '(value, addr) ← popn;
  '(inSize, inOffset) ← popn;
  '(retSize, retOffset) ← popn;
  mem ← get_mem;
  args ← lift (Mem_Get (big_Int64 inOffset) (big_Int64 inSize) mem);
  caller ← closure_Address;
  msg ← on_world (AddMessage (call_message (vm_env vm) (big_Bytes addr) caller args value));
  closure ← get_closure;
  object ← on_world (get_object (cl_object closure));
  if Balance object <? value then
    _ ← put_closure (ReturnGas gas closure);
    _ ← push 0;
    mret Next
  else
    snapshot ← on_world State_Copy;
    stateObject ← on_world (GetOrNewStateObject (big_Bytes addr));
    _ ← on_world (modify_object (cl_object closure) (SubAmount value));
    _ ← on_world (modify_object stateObject (AddAmount value));
    o ← on_world (get_object stateObject);
    let c := NewClosure msg caller stateObject (Code o) gas (cl_Price closure) in
    '(ret, err) ← Closure_Call run c args;
    _ ← match err with
        | Some _ => _ ← push 0; on_world (State_Set snapshot)
        | None =>
            _ ← push 1;
            mem ← get_mem;
            mem' ← lift (Mem_Set (big_Int64 retOffset) (big_Int64 retSize) ret mem);
            put_mem mem'
        end;
    _ ← on_world (modify_message msg (set_Output ret));
    mret Next.

(** ethvm/vm.go 778-783, Vm.RunClosure. CALL. *)
Definition exec_call (vm : Vm) (run : runner) : VM ctl :=
  _ ← require 7;
  gas ← pop;
  call_with_gas vm run gas.

(** ethvm/vm.go 847-856, Vm.RunClosure. SUICIDE. The balance is not cleared. *)
Definition exec_suicide : VM ctl :=
  _ ← require 1;
  a ← pop;
  receiver ← on_world (GetOrNewStateObject (big_Bytes a));
  closure ← get_closure;
  object ← on_world (get_object (cl_object closure));
  _ ← on_world (modify_object receiver (AddAmount (Balance object)));
  _ ← on_world (modify_object (cl_object closure) MarkForDeletion);
  mret (Return [] None).

(** ethvm/vm.go 839-865, Vm.RunClosure. The switch, with RETURN, STOP and invalid
    codes. *)
Definition exec (vm : Vm) (run : runner) (op : opcode) : VM ctl :=
  match op with
  | LOG => mret Next
  | ADD | SUB | MUL | DIV | SDIV | MOD | SMOD | EXP | NEG => exec_arith op
  | LT | GT | SLT | SGT | EQ | NOT => exec_compare op
  | AND | OR | XOR | BYTE | ADDMOD | MULMOD => exec_bits op
  | SHA3 | ADDRESS | BALANCE | ORIGIN | CALLER | CALLVALUE | CALLDATALOAD | CALLDATASIZE
  | CALLDATACOPY | CODESIZE | CODECOPY | GASPRICE
  | PREVHASH | COINBASE | TIMESTAMP | NUMBER | DIFFICULTY | GASLIMIT => exec_env vm op
  | PUSH _ | POP | DUP _ | SWAP _ => exec_stack op
  | MLOAD | MSTORE | MSTORE8 | SLOAD | SSTORE | JUMP | JUMPI | PC | MSIZE | GAS => exec_mem op
  | CREATE => exec_create vm run
  | CALL => exec_call vm run
  | RETURN =>
      _ ← require 2;
      '(size, offset) ← popn;
      mem ← get_mem;
      ret ← lift (Mem_Get (big_Int64 offset) (big_Int64 size) mem);
      mret (Return ret None)
  | SUICIDE => exec_suicide
  | STOP => mret (Return [] None)
  | Unknown z => mret (Return [] (Some (Errorf (asc "Invalid opcode " ++ hexadecimal z))))
  end.

(** * The loop *)

(** ethvm/vm.go 111-235, Vm.RunClosure. One iteration: fetch, price, pay, execute. *)
Definition step (vm : Vm) (run : runner) : VM ctl :=
  pc ← get_pc;
  closure ← get_closure;
  val ← lift (Closure_Get closure pc);
  let op := OpCode (Value_Uint val) in
  '(gas, newMemSize) ← step_gas op;
  mem ← get_mem;
  let newMemSize := memory_size newMemSize in
  let gas := memory_gas gas newMemSize (zlen mem) in
  closure ← get_closure;
  match UseGas gas closure with
  | None =>
      _ ← put_closure (UseAllGas closure);
      mret (Return [] (Some (Errorf (asc "Insufficient gas for " ++ OpCode_String op
        ++ asc ". req " ++ decimal gas ++ asc " has " ++ decimal (cl_Gas closure)))))
  | Some closure =>
      _ ← put_closure closure;
      _ ← put_mem (Mem_Resize newMemSize mem);
      exec vm run op
  end.

(** ethvm/vm.go 72-92, Vm.RunClosure. What surrounds the loop: no code, and the
    recovery from a panic, which gives an error and the remaining gas. *)
Definition run_with (vm : Vm) (loop : VM (bytes * option error)) : runner := λ closure w,
  if zlen (cl_Code closure) =? 0 then (Ret ([], None), (closure, w))
  else
    let '(o, s) := loop (mkVState closure [] [] 0 w) in
    let o' := match o with
              | Panic => if Recoverable vm then Ret ([], Some (Errorf (asc "vm err"))) else Panic
              | _ => o
              end in
    (o', (v_closure s, v_world s)).

(** ethvm/vm.go 866-869, Vm.RunClosure. The end of an iteration; the loop. *)
Fixpoint vm_loop (fuel : nat) (vm : Vm) : VM (bytes * option error) :=
  match fuel with
  | O => st_nofuel
  | S f =>
      r ← step vm (run_with vm (vm_loop f vm));
      match r with
      | Next => pc ← get_pc; _ ← put_pc (pc + 1); vm_loop f vm
      | Continue => vm_loop f vm
      | Return ret err => mret (ret, err)
      end
  end.

(** ethvm/vm.go, Vm.RunClosure. The closure's gas afterwards is what it gives
    back to its caller. *)
Definition RunClosure (fuel : nat) (vm : Vm) : runner := run_with vm (vm_loop fuel vm).

End Vm.
