(* ===== verification/VmSpec.v ===== *)
(** What the virtual machine of [Vm] guarantees: gas is never created and bounds
    the run, the values it computes, and the behaviour of single operations. *)

From S2P Require Import Prelude GoVal Big Bytes Errors Rlp Value Db Crypto Nibbles Trie Opcodes.
From S2P Require Import State Machine Vm.

(** * Stack lengths *)

Lemma Pop_len st x st' : Pop st = Ret (x, st') -> zlen st' = zlen st - 1.
Proof.
  unfold Pop. intros H. inv_bind H. inv_bind H. simplify_eq.
  apply slice_Ret in E0 as (? & ? & ->). lenlia.
Qed.

Lemma Popn_len st x y st' : Popn st = Ret (x, y, st') -> zlen st' = zlen st - 2.
Proof.
  unfold Popn. intros H. repeat inv_bind H. simplify_eq.
  apply slice_Ret in E0 as (? & ? & ->). lenlia.
Qed.

Lemma Dupn_len n st x st' : Dupn n st = Ret (x, st') -> zlen st' = zlen st + 1.
Proof. unfold Dupn, Push. intros H. repeat inv_bind H. simplify_eq. lenlia. Qed.

Lemma assign_len {A} (l : list A) i v l' : assign l i v = Ret l' -> zlen l' = zlen l.
Proof.
  unfold assign. case_match; [|done]. intros [= <-]. unfold zlen. by rewrite length_insert.
Qed.

Lemma Swapn_len n st x y st' : Swapn n st = Ret (x, y, st') -> zlen st' = zlen st.
Proof.
  unfold Swapn. intros H. repeat inv_bind H. simplify_eq.
  apply assign_len in E1, E2. lia.
Qed.

(** Nothing below runs out of fuel by itself. *)
Lemma Pop_fuel st : Pop st ≠ NoFuel.
Proof. unfold Pop. repeat (apply bind_fuel; [auto with fuel|intros]); done. Qed.
Lemma Popn_fuel st : Popn st ≠ NoFuel.
Proof. unfold Popn. repeat (apply bind_fuel; [auto with fuel|intros]); done. Qed.
Lemma Peek_fuel st : Peek st ≠ NoFuel.
Proof. unfold Peek. auto with fuel. Qed.
Lemma Peekn_fuel st : Peekn st ≠ NoFuel.
Proof. unfold Peekn. repeat (apply bind_fuel; [auto with fuel|intros]); done. Qed.
Lemma assign_fuel {A} (l : list A) i v : assign l i v ≠ NoFuel.
Proof. unfold assign. by case_match. Qed.
#[export] Hint Resolve Pop_fuel Popn_fuel Peek_fuel Peekn_fuel assign_fuel : fuel.
Lemma Dupn_fuel n st : Dupn n st ≠ NoFuel.
Proof. unfold Dupn. repeat (apply bind_fuel; [auto with fuel|intros]); done. Qed.
Lemma Swapn_fuel n st : Swapn n st ≠ NoFuel.
Proof. unfold Swapn. repeat (apply bind_fuel; [auto with fuel|intros]); done. Qed.
Lemma Mem_Get_fuel o n m : Mem_Get o n m ≠ NoFuel.
Proof. unfold Mem_Get. case_match; auto with fuel. Qed.
Lemma Mem_Set_fuel o n v m : Mem_Set o n v m ≠ NoFuel.
Proof. unfold Mem_Set. apply bind_fuel; [auto with fuel|done]. Qed.
Lemma Gets_fuel `{MapOrder} c x y : Gets c x y ≠ NoFuel.
Proof. unfold Gets. case_match; [done|]. apply bind_fuel; [auto with fuel|done]. Qed.
Lemma big_Div_fuel x y : big_Div x y ≠ NoFuel.
Proof. unfold big_Div. by case_match. Qed.
Lemma big_Mod_fuel x y : big_Mod x y ≠ NoFuel.
Proof. unfold big_Mod. by case_match. Qed.
Lemma call_data_load_fuel args o : call_data_load args o ≠ NoFuel.
Proof.
  unfold call_data_load. apply bind_fuel; [|done]. case_match; [|done].
  apply bind_fuel; [auto with fuel|done].
Qed.
#[export] Hint Resolve Dupn_fuel Swapn_fuel Mem_Get_fuel Mem_Set_fuel Gets_fuel big_Div_fuel
  big_Mod_fuel call_data_load_fuel : fuel.

Section Spec.
Context `{HC : Crypto} {D : Type} `{HD : Database D} `{HO : MapOrder}.

(** * Local operations

    [local n m]: whatever its outcome, [m] leaves the closure alone; it runs
    out of fuel only if an operation on the state does; and when it returns, the stack
    has grown by at most [n]. *)

Definition stack_len (s : VState D) : Z := zlen (v_stack s).
Definition stuck (s : VState D) : Prop := vw_stuck (v_world s) = true.

Definition local {A} (n : Z) (m : VM (D := D) A) : Prop := ∀ s,
  v_closure (m s).2 = v_closure s ∧
  ((m s).1 = NoFuel -> stuck (m s).2) ∧
  (∀ a, (m s).1 = Ret a -> stack_len (m s).2 <= stack_len s + n).

Lemma local_weaken {A} n n' (m : VM A) : n <= n' -> local n m -> local n' m.
Proof.
  intros Hn Hm s. destruct (Hm s) as (? & ? & Hl). split; [done|]. split; [done|].
  intros a Ha. specialize (Hl a Ha). lia.
Qed.

Lemma local_ret {A} (a : A) : local 0 (mret a).
Proof. intros s. simpl. split; [done|]. split; [done|]. lia. Qed.

Lemma local_panic {A} n : local n (@st_panic (VState D) A).
Proof. by intros s; simpl; repeat split. Qed.

Lemma local_lift {A} (o : outcome A) : o ≠ NoFuel -> local 0 (lift o).
Proof. intros Ho s. simpl. split; [done|]. split; [done|]. lia. Qed.

Lemma local_bind {A B} n1 n2 (m : VM A) (f : A -> VM B) :
  local n1 m -> (∀ a, local n2 (f a)) -> local (n1 + n2) (m ≫= f).
Proof.
  intros Hm Hf s. destruct (Hm s) as (Hc & Hn & Hl). unfold mbind, st_bind.
  destruct (m s) as [[a| |] s'] eqn:E; simpl in *; [|by repeat split|by repeat split; auto].
  destruct (Hf a s') as (Hc' & Hn' & Hl'). split; [congruence|]. split; [done|].
  intros b Hb. specialize (Hl a eq_refl). specialize (Hl' b Hb). lia.
Qed.

Lemma local_bind_lift {A B} n (o : outcome A) (f : A -> VM B) :
  o ≠ NoFuel -> (∀ a, o = Ret a -> local n (f a)) -> local n (lift o ≫= f).
Proof. intros Ho Hf. destruct o as [a| |]; [apply (Hf a eq_refl)|by intros s; simpl; repeat split|done]. Qed.

Lemma local_on_world {A} (m : SM A) : local 0 (on_world m).
Proof.
  intros s. unfold on_world. destruct (m _) as [o w]. simpl.
  split; [done|]. split; [by intros ->|]. intros a _. unfold stack_len. simpl. lia.
Qed.

Lemma local_get_closure : local 0 (get_closure (D := D)).
Proof. intros s. unfold stack_len. simpl. split; [done|]. split; [done|]. lia. Qed.
Lemma local_get_mem : local 0 (get_mem (D := D)).
Proof. intros s. unfold stack_len. simpl. split; [done|]. split; [done|]. lia. Qed.
Lemma local_put_mem m : local 0 (put_mem (D := D) m).
Proof. intros s. unfold stack_len. simpl. split; [done|]. split; [done|]. lia. Qed.
Lemma local_get_pc : local 0 (get_pc (D := D)).
Proof. intros s. unfold stack_len. simpl. split; [done|]. split; [done|]. lia. Qed.
Lemma local_put_pc pc : local 0 (put_pc (D := D) pc).
Proof. intros s. unfold stack_len. simpl. split; [done|]. split; [done|]. lia. Qed.

Lemma local_push d : local 1 (push (D := D) d).
Proof.
  intros s. unfold stack_len, Push. simpl. split; [done|]. split; [done|].
  intros _ _. unfold Push. lenlia.
Qed.

Lemma local_pop : local (-1) (pop (D := D)).
Proof.
  intros s. unfold pop, mbind, st_bind, lift, get_stack, put_stack. cbn.
  destruct (Pop (v_stack s)) as [[x st]| |] eqn:E; simpl; split; try done; split; try done.
  - intros a _. unfold stack_len. simpl. apply Pop_len in E. lia.
  - by apply Pop_fuel in E.
Qed.

Lemma local_popn : local (-2) (popn (D := D)).
Proof.
  intros s. unfold popn, mbind, st_bind, lift, get_stack, put_stack. cbn.
  destruct (Popn (v_stack s)) as [[[x y] st]| |] eqn:E; simpl; split; try done; split; try done.
  - intros a _. unfold stack_len. simpl. apply Popn_len in E. lia.
  - by apply Popn_fuel in E.
Qed.

Lemma local_dup n : local 1 (st ← get_stack; '(_, st') ← lift (Dupn n st);
                             _ ← put_stack (D := D) st'; mret Next).
Proof.
  intros s. unfold mbind, st_bind, lift, get_stack, put_stack. cbn.
  destruct (Dupn n (v_stack s)) as [[x st]| |] eqn:E; simpl; split; try done; split; try done.
  - intros a _. unfold stack_len. simpl. apply Dupn_len in E. lia.
  - by apply Dupn_fuel in E.
Qed.

Lemma local_swap n : local 0 (st ← get_stack; '(_, _, st') ← lift (Swapn n st);
                              _ ← put_stack (D := D) st'; mret Next).
Proof.
  intros s. unfold mbind, st_bind, lift, get_stack, put_stack. cbn.
  destruct (Swapn n (v_stack s)) as [[[x y] st]| |] eqn:E; simpl; split; try done; split; try done.
  - intros a _. unfold stack_len. simpl. apply Swapn_len in E. lia.
  - by apply Swapn_fuel in E.
Qed.

Lemma local_peek : local 0 (peek (D := D)).
Proof.
  intros s. unfold peek, mbind, st_bind, lift, get_stack. cbn. split; [done|].
  split; [intros Hn; by apply Peek_fuel in Hn|]. intros a _. lia.
Qed.

Lemma local_from_top i : local 0 (from_top (D := D) i).
Proof.
  intros s. unfold from_top, mbind, st_bind, lift, get_stack. cbn. split; [done|].
  split; [intros Hn; by apply index_fuel in Hn|]. intros a _. lia.
Qed.

Lemma local_require m : local 0 (require (D := D) m).
Proof.
  intros s. unfold require, mbind, st_bind, get_stack. cbn. case_match; cbn; [done|].
  split; [done|]. split; [done|]. intros _ _. lia.
Qed.

Lemma local_step {A B} n1 n (m : VM A) (f : A -> VM B) :
  local n1 m -> (∀ a, local (n - n1) (f a)) -> local n (m ≫= f).
Proof.
  intros Hm Hf. eapply local_weaken; [|by apply (local_bind n1 (n - n1))]. lia.
Qed.

Lemma local_on_world' {A} n (m : SM A) : 0 <= n -> local n (on_world m).
Proof. intros Hn. eapply local_weaken; [exact Hn|apply local_on_world]. Qed.

Hint Resolve local_ret local_panic local_lift local_on_world local_get_closure local_get_mem
  local_put_mem local_get_pc local_put_pc local_push local_pop local_popn local_peek
  local_from_top local_require : local.

(** [loc]: bound an operation by walking through it. *)
Ltac loc :=
  repeat first
    [ progress intros
    | progress unfold push_bool
    | apply local_panic
    | eapply local_step; [solve [eauto with local fuel]|intros ?]
    | match goal with |- local _ (let '(_, _) := ?p in _) => destruct p end
    | case_match
    | eapply local_weaken; [|solve [eauto with local fuel]]; lia ].

Lemma local_closure_GetStorage x : local 0 (closure_GetStorage x).
Proof. unfold closure_GetStorage. loc. Qed.
Lemma local_closure_SetStorage x v : local 0 (closure_SetStorage x v).
Proof. unfold closure_SetStorage. loc. Qed.
Lemma local_closure_Address : local 0 closure_Address.
Proof. unfold closure_Address. loc. Qed.
Hint Resolve local_closure_GetStorage local_closure_SetStorage local_closure_Address : local.

Lemma local_binop f : (∀ x y, f x y ≠ NoFuel) -> local (-1) (binop f).
Proof. intros Hf. unfold binop. loc. Qed.

Lemma local_compare f : local (-1) (compare f).
Proof. unfold compare. loc. Qed.

Lemma local_copy_range d : local (-3) (copy_range d).
Proof. unfold copy_range. loc. Qed.
Hint Resolve local_copy_range : local.

Lemma local_exec_arith op : local 1 (exec_arith op).
Proof.
  unfold exec_arith. case_match; try apply local_panic;
    try (eapply local_weaken; [|apply local_binop; intros x y;
           repeat first [case_match|done|apply bind_fuel; [auto with fuel|intros]]]; lia).
  loc.
Qed.

Lemma local_exec_compare op : local 1 (exec_compare op).
Proof.
  unfold exec_compare. case_match; try apply local_panic;
    try (eapply local_weaken; [|apply local_compare]; lia). loc.
Qed.

Lemma local_exec_bits op : local 1 (exec_bits op).
Proof.
  unfold exec_bits. case_match; try apply local_panic;
    try (eapply local_weaken; [|by apply local_binop]; lia); loc.
Qed.

Lemma local_exec_env vm op : local 1 (exec_env vm op).
Proof. unfold exec_env. loc. Qed.

Lemma local_exec_stack op : local 1 (exec_stack op).
Proof.
  unfold exec_stack. destruct op; try apply local_panic; try solve [loc].
  - apply local_dup.
  - eapply local_weaken; [|apply local_swap]. lia.
Qed.

Lemma local_exec_mem op : local (if bool_decide (op = SSTORE) then -2 else 1) (exec_mem op).
Proof.
  unfold exec_mem. destruct op; try apply local_panic; rewrite ?bool_decide_eq_true_2 by done;
    rewrite ?bool_decide_eq_false_2 by done; loc.
Qed.

Lemma local_exec_suicide : local 1 exec_suicide.
Proof. unfold exec_suicide. loc. Qed.

Lemma exec_local vm run op :
  op ≠ CREATE -> op ≠ CALL ->
  local (if bool_decide (op = SSTORE) then -2 else 1) (exec vm run op).
Proof.
  intros H1 H2. destruct op; try done; rewrite ?bool_decide_eq_false_2 by done;
    cbn [exec]; try first
    [ apply local_exec_arith | apply local_exec_compare | apply local_exec_bits
    | apply local_exec_env | apply local_exec_stack | apply local_exec_suicide
    | match goal with |- local 1 (exec_mem ?o) =>
        pose proof (local_exec_mem o) as Hm; by rewrite bool_decide_eq_false_2 in Hm end
    | apply (local_exec_mem SSTORE) ]; loc.
Qed.

(** * Operations that call

    [calling c d F n m]: from a state with the closure [c], the gas grows by at
    most [d]; under [F], [m] runs out of fuel only if an operation on the state does;
    and the stack grows by at most [n]. *)

Definition pos_gas (c : Closure) : Z := Z.max 0 (cl_Gas c).

Lemma pos_gas_nonneg c : 0 <= pos_gas c.
Proof. unfold pos_gas. lia. Qed.

Definition calling {A} (c : Closure) (d : Z) (F : Prop) (n : Z) (m : VM (D := D) A) : Prop :=
  ∀ s, v_closure s = c ->
  pos_gas (v_closure (m s).2) <= pos_gas c + d ∧
  (F -> (m s).1 = NoFuel -> stuck (m s).2) ∧
  (∀ a, (m s).1 = Ret a -> stack_len (m s).2 <= stack_len s + n).

(** What a nested run may do: with fuel above twice its gas it ends, and it
    never returns more gas than it got. *)
Definition runner_ok (run : runner (D := D)) (fuel : Z) : Prop := ∀ c w,
  pos_gas (run c w).2.1 <= pos_gas c ∧
  (2 * pos_gas c < fuel -> (run c w).1 = NoFuel -> vw_stuck (run c w).2.2 = true).

Lemma calling_local {A} c d F n (m : VM A) : 0 <= d -> local n m -> calling c d F n m.
Proof.
  intros Hd Hm s Hs. destruct (Hm s) as (Hc & Hn & Hl).
  rewrite Hc, Hs. split; [lia|]. split; [done|done].
Qed.

Lemma calling_step {A B} c d F n1 n (m : VM A) (f : A -> VM B) :
  0 <= d -> local n1 m -> (∀ a, calling c d F (n - n1) (f a)) -> calling c d F n (m ≫= f).
Proof.
  intros Hd Hm Hf s Hs. destruct (Hm s) as (Hc & Hn & Hl). unfold mbind, st_bind.
  destruct (m s) as [[a| |] s'] eqn:E; simpl in *; [|split; [rewrite Hc, Hs; lia|split; auto; done]..].
  destruct (Hf a s') as (Hc' & Hn' & Hl'); [congruence|]. split; [lia|]. split; [done|].
  intros b Hb. specialize (Hl a eq_refl). specialize (Hl' b Hb). lia.
Qed.

Lemma calling_get {A} c d F n (f : Closure -> VM A) :
  calling c d F n (f c) -> calling c d F n (get_closure ≫= f).
Proof. intros Hf s Hs. unfold mbind, st_bind, get_closure. rewrite Hs. by apply Hf. Qed.

Lemma calling_put {A} c c1 d d1 F n (f : unit -> VM A) :
  pos_gas c1 + d1 <= pos_gas c + d -> calling c1 d1 F n (f tt) ->
  calling c d F n (put_closure c1 ≫= f).
Proof.
  intros Hd Hf s Hs. unfold mbind, st_bind, put_closure.
  destruct (Hf (mkVState c1 (v_stack s) (v_mem s) (v_pc s) (v_world s)) eq_refl) as (? & ? & ?).
  split; [lia|done].
Qed.

Lemma calling_then {A B} c d F n1 n (m : VM A) (f : A -> VM B) :
  calling c d F n1 m -> (∀ a, local (n - n1) (f a)) -> calling c d F n (m ≫= f).
Proof.
  intros Hm Hf s Hs. destruct (Hm s Hs) as (Hc & Hn & Hl). unfold mbind, st_bind.
  destruct (m s) as [[a| |] s'] eqn:E; simpl in *; [|split; [done|split; auto; done]..].
  destruct (Hf a s') as (Hc' & Hn' & Hl'). rewrite Hc'. split; [done|]. split; [done|].
  intros b Hb. specialize (Hl a eq_refl). specialize (Hl' b Hb). lia.
Qed.

Lemma calling_weaken {A} c d F F' n n' (m : VM A) :
  (F' -> F) -> n <= n' -> calling c d F n m -> calling c d F' n' m.
Proof.
  intros HF Hn Hm s Hs. destruct (Hm s Hs) as (? & ? & Hl). split; [done|]. split; [auto|].
  intros a Ha. specialize (Hl a Ha). lia.
Qed.

Lemma Closure_Call_calling run fuel c child args :
  runner_ok run fuel ->
  calling c (pos_gas child) (2 * pos_gas child < fuel) 0 (Closure_Call run child args).
Proof.
  intros Hrun s Hs. unfold Closure_Call.
  destruct (Hrun (set_Args args child) (v_world s)) as [Hg Hf].
  change (pos_gas (set_Args args child)) with (pos_gas child) in *.
  destruct (run _ _) as [o [c' w']]. cbn [fst snd] in *. split.
  - destruct o; cbn [v_closure]; rewrite Hs; unfold pos_gas in *; simpl; lia.
  - split; [done|]. intros a _. unfold stack_len. simpl. lia.
Qed.

Ltac loc_call :=
  repeat first
    [ progress intros
    | apply calling_get
    | eapply calling_step; [first [lia|apply pos_gas_nonneg]|solve [eauto with local fuel]|intros ?]
    | match goal with |- calling _ _ _ _ (let '(_, _) := ?p in _) => destruct p end ].

Lemma create_contract_calling run fuel c addr msg value size offset :
  runner_ok run fuel ->
  calling c 0 (2 * pos_gas c < fuel) 0 (create_contract run addr msg value size offset).
Proof.
  intros Hrun. unfold create_contract. loc_call. case_match.
  - loc_call. apply (calling_put c (UseAllGas c) 0 (pos_gas c)); [unfold pos_gas; simpl; lia|].
    loc_call. eapply calling_then; [|intros [? ?]].
    + by eapply (Closure_Call_calling run fuel _ (NewClosure _ _ _ _ (cl_Gas c) (cl_Price c))).
    + loc.
  - apply calling_local; [lia|]. loc.
Qed.

Lemma exec_create_calling vm run fuel c :
  runner_ok run fuel -> calling c 0 (2 * pos_gas c < fuel) 1 (exec_create vm run).
Proof.
  intros Hrun. unfold exec_create. loc_call.
  eapply calling_then; [by apply create_contract_calling|]. intros [[e|] contract]; loc.
Qed.

Lemma call_with_gas_calling vm run fuel c g :
  runner_ok run fuel ->
  calling c (Z.max 0 g) (2 * Z.max 0 g < fuel) 2 (call_with_gas vm run g).
Proof.
  intros Hrun. unfold call_with_gas. loc_call. case_match.
  - apply (calling_put c _ (Z.max 0 g) 0); [unfold pos_gas; simpl; lia|].
    apply calling_local; [lia|]. loc.
  - loc_call. eapply calling_then.
    + by eapply (Closure_Call_calling run fuel _ (NewClosure _ _ _ _ g (cl_Price c))).
    + intros [ret [e|]]; (eapply (local_step 1); [loc|]); loc.
Qed.

Lemma exec_call_calling vm run fuel s g :
  runner_ok run fuel -> Peek (v_stack s) = Ret g ->
  let r := exec_call vm run s in
  pos_gas (v_closure r.2) <= pos_gas (v_closure s) + Z.max 0 g ∧
  (2 * Z.max 0 g < fuel -> r.1 = NoFuel -> stuck r.2) ∧
  (∀ a, r.1 = Ret a -> stack_len r.2 <= stack_len s + 1).
Proof.
  intros Hrun Hg. unfold exec_call.
  unfold require, pop, mbind, st_bind, lift, get_stack, put_stack. cbn.
  destruct (zlen (v_stack s) <? 7); cbn; [split; [lia|by split]|].
  unfold Peek in Hg. unfold Pop. rewrite Hg. cbn [mbind outcome_bind].
  destruct (slice (v_stack s) 0 (zlen (v_stack s) - 1)) as [st| |] eqn:E; cbn.
  - destruct (call_with_gas_calling vm run fuel (v_closure s) g Hrun (mkVState (v_closure s) st (v_mem s) (v_pc s) (v_world s)) eq_refl)
      as (? & ? & Hl). split; [done|]. split; [done|]. intros a Ha. specialize (Hl a Ha).
    apply slice_Ret in E as (_ & _ & ->). unfold stack_len in *. cbn in Hl.
    apply index_lt in Hg. lenlia.
  - split; [lia|by split].
  - by apply slice_fuel in E.
Qed.

(** * The price *)

(** [quiet m]: [m] touches neither the stack nor the closure; [yields P m]:
    what it returns satisfies [P]. *)
Definition quiet {A} (m : VM (D := D) A) : Prop := ∀ s,
  v_stack (m s).2 = v_stack s ∧ v_closure (m s).2 = v_closure s ∧
  ((m s).1 = NoFuel -> stuck (m s).2).

Definition yields {A} (P : A -> Prop) (m : VM (D := D) A) : Prop :=
  ∀ s a, (m s).1 = Ret a -> P a.

Lemma quiet_bind {A B} (m : VM A) (f : A -> VM B) :
  quiet m -> (∀ a, quiet (f a)) -> quiet (m ≫= f).
Proof.
  intros Hm Hf s. destruct (Hm s) as (Hs & Hc & Hn). unfold mbind, st_bind.
  destruct (m s) as [[a| |] s'] eqn:E; simpl in *; [|split; [done|split; auto; done]..].
  destruct (Hf a s') as (? & ? & ?). split; [congruence|]. split; [congruence|done].
Qed.

Lemma quiet_ret {A} (a : A) : quiet (mret a).
Proof. by intros s; repeat split. Qed.

Lemma quiet_require n : quiet (require n).
Proof. intros s. unfold require, mbind, st_bind, get_stack. cbn. by case_match. Qed.

Lemma quiet_peek : quiet peek.
Proof.
  intros s. unfold peek, mbind, st_bind, get_stack. cbn. split; [done|]. split; [done|].
  intros Hn. by apply Peek_fuel in Hn.
Qed.

Lemma quiet_from_top i : quiet (from_top i).
Proof.
  intros s. unfold from_top, mbind, st_bind, get_stack. cbn. split; [done|]. split; [done|].
  intros Hn. by apply index_fuel in Hn.
Qed.

Lemma quiet_on_world {A} (m : SM A) : quiet (on_world m).
Proof. intros s. unfold on_world. destruct (m _) as [o w]. simpl. split; [done|]. by split; [|intros ->]. Qed.

Lemma quiet_lift {A} (o : outcome A) : o ≠ NoFuel -> quiet (lift o).
Proof. by intros Ho s. Qed.

Lemma quiet_get_stack : quiet get_stack.
Proof. by intros s. Qed.

Lemma quiet_get_closure : quiet get_closure.
Proof. by intros s. Qed.

Hint Resolve quiet_ret quiet_require quiet_peek quiet_from_top quiet_on_world quiet_lift : quiet.
Hint Resolve quiet_get_stack quiet_get_closure : quiet.

Ltac quiet := repeat first
  [ progress intros | solve [eauto with quiet fuel]
  | apply quiet_bind; [solve [eauto with quiet fuel]|]
  | match goal with |- quiet (let '(_, _) := ?p in _) => destruct p end ].

Lemma quiet_sstore_gas : quiet sstore_gas.
Proof.
  unfold sstore_gas. apply quiet_bind; [eauto with quiet|]. quiet.
  apply quiet_bind; [|quiet]. unfold closure_GetStorage. quiet.
Qed.

Lemma quiet_step_gas op : quiet (step_gas op).
Proof. destruct op; cbn [step_gas]; try solve [quiet]. apply quiet_bind; [apply quiet_sstore_gas|quiet]. Qed.

Lemma yields_bind {A B} (P : B -> Prop) (m : VM A) (f : A -> VM B) :
  (∀ a, yields P (f a)) -> yields P (m ≫= f).
Proof.
  intros Hf s b. unfold mbind, st_bind. destruct (m s) as [[a| |] s']; [apply Hf|done..].
Qed.

Lemma yields_bind_of {A B} (P : A -> Prop) (Q : B -> Prop) (m : VM A) (f : A -> VM B) :
  yields P m -> (∀ a, P a -> yields Q (f a)) -> yields Q (m ≫= f).
Proof.
  intros Hm Hf s b. specialize (Hm s). unfold mbind, st_bind.
  destruct (m s) as [[a| |] s']; [|done..]. apply Hf, Hm. done.
Qed.

Lemma yields_ret {A} (P : A -> Prop) a : P a -> yields P (mret a).
Proof. intros Ha s b [= <-]. done. Qed.

Lemma sstore_gas_pos : yields (λ g, 0 <= g) sstore_gas.
Proof.
  unfold sstore_gas. repeat (apply yields_bind; intros). destruct a0.
  apply yields_bind; intros. apply yields_ret. unfold GasSStore. repeat case_match; lia.
Qed.

(** Every operation costs at least one unit, but for the three that end the
    run or pop two entries of the stack. *)
Definition free (op : opcode) : Prop := op = STOP ∨ op = SUICIDE ∨ op = SSTORE.

Lemma step_gas_pos op : yields (λ gn, 0 <= gn.1 ∧ (¬ free op -> 1 <= gn.1)) (step_gas op).
Proof.
  unfold free. destruct (decide (op = SSTORE)) as [->|Hop].
  { cbn [step_gas]. eapply yields_bind_of; [apply sstore_gas_pos|]. intros g Hg. apply yields_ret.
    split; [done|]. tauto. }
  destruct op; try done; cbn [step_gas]; repeat (apply yields_bind; intros); apply yields_ret; cbn;
    unfold addStepGasUsage, GasStep, GasSLoad, GasBalance, GasSha, GasCreate, GasCall; cbn;
    try (split; [lia|]; intros Hf; first [lia|tauto]).
  destruct (Z.leb_spec 0 a0); lia.
Qed.

Lemma call_gas_top s g n :
  (step_gas (D := D) CALL s).1 = Ret (g, n) ->
  ∃ t, Peek (v_stack s) = Ret t ∧ GasCall + Z.max 0 t <= g.
Proof.
  cbn [step_gas]. unfold require, from_top, mbind, st_bind, lift, get_stack. cbn.
  destruct (zlen (v_stack s) <? 7); cbn; [done|].
  destruct (index (v_stack s) (zlen (v_stack s) - 1)) as [t| |] eqn:E; cbn; [|done..].
  intros Hr. exists t. split; [exact E|].
  repeat match type of Hr with context [index ?l ?i] => destruct (index l i); cbn in Hr; [|done..] end.
  injection Hr as <- _. unfold addStepGasUsage, GasCall. destruct (Z.leb_spec 0 t); lia.
Qed.

Lemma create_gas : yields (λ gn, GasCreate <= gn.1) (step_gas CREATE).
Proof. cbn [step_gas]. repeat (apply yields_bind; intros). by apply yields_ret. Qed.

Lemma memory_gas_le gas n len : gas <= memory_gas gas n len.
Proof.
  unfold memory_gas, addStepGasUsage. case_match; [|lia]. case_match; [|lia].
  apply Z.leb_le in H0. lia.
Qed.

(** * One iteration of the loop *)

(** Twice the gas plus the height of the stack: what every iteration lowers. *)
Definition measure (s : VState D) : Z := 2 * pos_gas (v_closure s) + stack_len s.

Definition continues (o : outcome ctl) : Prop := o = Ret Next ∨ o = Ret Continue.

Definition step_post (fuel : Z) (s : VState D) (r : outcome ctl * VState D) : Prop :=
  pos_gas (v_closure r.2) <= pos_gas (v_closure s) ∧
  (measure s <= fuel -> r.1 = NoFuel -> stuck r.2) ∧
  (continues r.1 -> measure r.2 < measure s).

Lemma not_continues_return : yields (λ c, ∃ r e, c = Return r e) exec_suicide.
Proof.
  unfold exec_suicide. repeat (apply yields_bind; intros). apply yields_ret. eauto.
Qed.

(** The operation itself, after [p] units were paid. *)
Lemma exec_post vm run fuel op s s1 p :
  runner_ok run fuel -> 0 <= p -> (¬ free op -> 1 <= p) ->
  (op = CALL -> ∃ t, Peek (v_stack s) = Ret t ∧ GasCall + Z.max 0 t <= p) ->
  (op = CREATE -> GasCreate <= p) ->
  v_stack s1 = v_stack s -> p <= cl_Gas (v_closure s) ->
  cl_Gas (v_closure s1) = cl_Gas (v_closure s) - p ->
  step_post fuel s (exec vm run op s1).
Proof.
  intros Hrun Hp0 Hp1 Hcall Hcreate Hst Hle Hpay. unfold step_post, measure, stack_len.
  pose proof (zlen_nonneg (v_stack s)).
  assert (pos_gas (v_closure s) = cl_Gas (v_closure s)) as Hg by (unfold pos_gas; lia).
  assert (pos_gas (v_closure s1) = cl_Gas (v_closure s) - p) as Hg1 by (unfold pos_gas; lia).
  destruct (decide (op = CALL)) as [->|Hnc]; [|destruct (decide (op = CREATE)) as [->|Hncr]].
  - destruct (Hcall eq_refl) as (t & Ht & Htp). unfold GasCall in Htp. rewrite <-Hst in Ht.
    destruct (exec_call_calling vm run fuel s1 t Hrun Ht) as (H1 & H2 & H3).
    cbn [exec]. unfold stack_len in H3. rewrite Hst in H3.
    split; [lia|]. split; [intros; apply H2; [lia|done]|]. intros [Hc|Hc]; specialize (H3 _ Hc); lia.
  - specialize (Hcreate eq_refl). unfold GasCreate in Hcreate.
    destruct (exec_create_calling vm run fuel (v_closure s1) Hrun s1 eq_refl) as (H1 & H2 & H3).
    cbn [exec]. unfold stack_len in H3. rewrite Hst in H3.
    split; [lia|]. split; [intros; apply H2; [lia|done]|]. intros [Hc|Hc]; specialize (H3 _ Hc); lia.
  - destruct (exec_local vm run op Hncr Hnc s1) as (H1 & H2 & H3).
    unfold stack_len in H3. rewrite Hst in H3. rewrite H1.
    split; [lia|]. split; [done|]. intros Hc.
    destruct (decide (op = SSTORE)) as [->|Hns].
    { destruct Hc as [Hc|Hc]; specialize (H3 _ Hc); rewrite bool_decide_eq_true_2 in H3 by done; lia. }
    rewrite bool_decide_eq_false_2 in H3 by done.
    destruct (decide (op = STOP)) as [->|Hnst]; [by destruct Hc|].
    destruct (decide (op = SUICIDE)) as [->|Hnsu].
    { destruct Hc as [Hc|Hc]; apply (not_continues_return s1) in Hc as (? & ? & ?); done. }
    assert (1 <= p) by (apply Hp1; unfold free; tauto).
    destruct Hc as [Hc|Hc]; specialize (H3 _ Hc); lia.
Qed.

Lemma step_post_end fuel s o s' :
  pos_gas (v_closure s') <= pos_gas (v_closure s) -> (o = NoFuel -> stuck s') -> ¬ continues o ->
  step_post fuel s (o, s').
Proof. intros Hg Hn Hc. split; [done|]. split; [auto|done]. Qed.

Lemma vm_step_ok vm run fuel s :
  runner_ok run fuel -> step_post fuel s (step vm run s).
Proof.
  intros Hrun. unfold step.
  unfold mbind, st_bind, lift, get_pc, get_closure, get_mem, put_closure, put_mem. cbn -[asc].
  destruct (Closure_Get (v_closure s) (v_pc s)) as [val| |] eqn:Eval; cbn.
  2: { apply step_post_end; [lia|done|by intros [?|?]]. }
  2: { by apply Gets_fuel in Eval. }
  set (op := OpCode (Value_Uint val)). clearbody op. clear val Eval.
  destruct (quiet_step_gas op s) as (Hqs & Hqc & Hqn).
  pose proof (step_gas_pos op s) as Hpos.
  assert (op = CALL -> ∀ g n, (step_gas op s).1 = Ret (g, n) ->
    ∃ t, Peek (v_stack s) = Ret t ∧ GasCall + Z.max 0 t <= g) as Hcall
    by (intros ->; apply call_gas_top).
  assert (op = CREATE -> ∀ gn, (step_gas op s).1 = Ret gn -> GasCreate <= gn.1) as Hcreate
    by (intros ->; apply create_gas).
  destruct (step_gas op s) as [[[g n]| |] s1] eqn:E; cbn in *.
  2: { apply step_post_end; [rewrite Hqc; lia|done|by intros [?|?]]. }
  2: { apply step_post_end; [rewrite Hqc; lia|auto|by intros [?|?]]. }
  destruct (Hpos _ eq_refl) as [H0 H1]. cbn in H0, H1.
  set (p := memory_gas g (memory_size n) (zlen (v_mem s1))).
  assert (g <= p) as Hgp by apply memory_gas_le. clearbody p.
  unfold UseGas. rewrite Hqc. destruct (Z.ltb_spec (cl_Gas (v_closure s)) p); cbn.
  - apply step_post_end; [unfold pos_gas; simpl; lia|done|by intros [?|?]].
  - apply exec_post with p; [done|lia| | | |done|done|done].
    + intros Hf. specialize (H1 Hf). lia.
    + intros Hop. destruct (Hcall Hop g n eq_refl) as (t & ? & ?). exists t. split; [done|lia].
    + intros Hop. specialize (Hcreate Hop _ eq_refl). cbn in Hcreate. lia.
Qed.

(** * The loop *)

Definition loop_post (fuel : nat) (s : VState D)
    (r : outcome (bytes * option error) * VState D) : Prop :=
  pos_gas (v_closure r.2) <= pos_gas (v_closure s) ∧
  (measure s < Z.of_nat fuel -> r.1 = NoFuel -> stuck r.2).

Lemma run_with_ok vm (loop : VM (bytes * option error)) (fuel : nat) :
  (∀ s, loop_post fuel s (loop s)) -> runner_ok (run_with vm loop) (Z.of_nat fuel).
Proof.
  intros Hloop c w. unfold run_with. case_match; cbn; [split; [lia|done]|].
  destruct (Hloop (mkVState c [] [] 0 w)) as [H1 H2]. unfold measure, stack_len in H2.
  destruct (loop _) as [o s]. cbn in *. split; [done|]. intros Hf Ho.
  apply H2; [lenlia|]. destruct o as [a| |]; [done| |done]. by destruct (Recoverable vm).
Qed.

Lemma vm_loop_ok vm fuel : ∀ s, loop_post fuel s (vm_loop fuel vm s).
Proof.
  induction fuel as [|f IH]; intros s.
  { split; cbn; [lia|]. unfold measure, pos_gas, stack_len. pose proof (zlen_nonneg (v_stack s)). lia. }
  cbn [vm_loop].
  pose proof (vm_step_ok vm (run_with vm (vm_loop f vm)) (Z.of_nat f) s (run_with_ok vm _ f IH))
    as (H1 & H2 & H3).
  unfold mbind at 1, st_bind at 1.
  destruct (step vm _ s) as [[c| |] s1] eqn:E; cbn in H1, H2, H3.
  - destruct c as [| |ret err].
    + specialize (H3 (or_introl eq_refl)).
      destruct (IH (mkVState (v_closure s1) (v_stack s1) (v_mem s1) (v_pc s1 + 1) (v_world s1)))
        as [H4 H5]. unfold mbind, st_bind, get_pc, put_pc. cbn in *. split; [lia|].
      intros Hf. apply H5. unfold measure, stack_len in *. cbn in *. lia.
    + specialize (H3 (or_intror eq_refl)). destruct (IH s1) as [H4 H5]. split; [lia|].
      intros Hf. apply H5. lia.
    + split; [done|by cbn].
  - split; [done|by cbn].
  - split; [done|]. cbn. intros Hf _. apply H2; [lia|done].
Qed.

Lemma RunClosure_ok vm fuel : runner_ok (RunClosure (D := D) fuel vm) (Z.of_nat fuel).
Proof. apply run_with_ok, vm_loop_ok. Qed.

End Spec.

(** * Single operations *)

Lemma Pop_app st x : Pop (st ++ [x]) = Ret (x, st).
Proof.
  unfold Pop. rewrite (index_middle st x []) by lenlia. cbn [mbind outcome_bind].
  rewrite (slice_of [] st [x]) by first [done|lenlia]. done.
Qed.

Lemma Popn_app st x y : Popn (st ++ [x; y]) = Ret (x, y, st).
Proof.
  unfold Popn. rewrite (slice_of st [x; y] [] _ (zlen (st ++ [x; y]) - 2) (zlen (st ++ [x; y])))
    by first [done|lenlia].
  cbn [mbind outcome_bind].
  rewrite (slice_of [] st [x; y]) by first [done|lenlia]. done.
Qed.

Lemma ensure256_mod x : ensure256 x = x `mod` 2 ^ 256.
Proof.
  unfold ensure256. change (2 ^ 256 - 1) with (Z.ones 256).
  rewrite Z.land_ones by lia. pose proof (Z.mod_pos_bound x (2 ^ 256) ltac:(lia)).
  destruct (Z.ltb_spec (x `mod` 2 ^ 256) 0); lia.
Qed.

Lemma big_Exp_256 y x : 0 <= x -> big_Exp y x Pow256 = (y ^ x) `mod` 2 ^ 256.
Proof.
  intros Hx. unfold big_Exp, Pow256. destruct (Z.eqb_spec (2 ^ 256) 0); [done|].
  rewrite Z.abs_eq by lia. destruct x; [done| |lia]. by apply pow_mod_pos_spec.
Qed.

(** What the arithmetic of the machine computes from the second entry [x] and
    the top [y]; [None] where it fails. *)
Definition arith_spec (op : opcode) (x y : Z) : option Z :=
  match op with
  | ADD => Some ((y + x) `mod` 2 ^ 256)
  | SUB => Some ((y - x) `mod` 2 ^ 256)
  | MUL => Some ((y * x) `mod` 2 ^ 256)
  | DIV | SDIV => Some (if x =? 0 then 0 else y / x)
  | MOD | SMOD => if x =? 0 then None else Some (y `mod` x)
  | EXP => Some ((y ^ x) `mod` 2 ^ 256)
  | _ => None
  end.

Definition arith_op (op : opcode) : bool :=
  match op with ADD | SUB | MUL | DIV | SDIV | MOD | SMOD | EXP => true | _ => false end.

Definition with_stack {D} (st : Stack) (s : VState D) : VState D :=
  mkVState (v_closure s) st (v_mem s) (v_pc s) (v_world s).

Section Ops.
Context `{HC : Crypto} {D : Type} `{HD : Database D} `{HO : MapOrder}.

Lemma binop_run (f : Z -> Z -> outcome Z) (s : VState D) st x y :
  v_stack s = st ++ [x; y] ->
  binop f s = match f x y with
              | Ret z => (Ret Next, with_stack (st ++ [z]) s)
              | Panic => (Panic, with_stack st s)
              | NoFuel => (NoFuel, with_stack st s)
              end.
Proof.
  intros Hs. unfold binop, require, popn, push, mbind, st_bind, lift, get_stack, put_stack. cbn.
  rewrite Hs. destruct (Z.ltb_spec (zlen (st ++ [x; y])) 2); [lenlia|]. cbn.
  rewrite Hs, Popn_app. cbn. by destruct (f x y).
Qed.

(** C32. The arithmetic operations compute on 256-bit words: from two words on
    the stack, ADD, SUB, MUL and EXP push the result modulo 2^256, DIV the
    quotient (zero for a zero divisor), MOD the remainder (an error for a zero
    divisor), and SDIV and SMOD do the same as DIV and MOD, without a sign; the result is again a word. *)
Theorem exec_arith_correct (op : opcode) (s : VState D) (st : Stack) (x y : Z) :
  arith_op op = true -> v_stack s = st ++ [x; y] -> 0 <= x < 2 ^ 256 -> 0 <= y < 2 ^ 256 ->
  exec_arith op s =
    match arith_spec op x y with
    | Some z => (Ret Next, with_stack (st ++ [z]) s)
    | None => (Panic, with_stack st s)
    end ∧
  ∀ z, arith_spec op x y = Some z -> 0 <= z < 2 ^ 256.
Proof.
  intros Hop Hs Hx Hy.
  assert (x ≠ 0 -> 0 <= y / x < 2 ^ 256) as Hdiv.
  { intros Hx0. split; [apply Z.div_pos; lia|]. apply Z.div_lt_upper_bound; nia. }
  assert (x ≠ 0 -> 0 <= y `mod` x < 2 ^ 256) as Hmod.
  { intros Hx0. pose proof (Z.mod_pos_bound y x). lia. }
  pose proof (λ a, Z.mod_pos_bound a (2 ^ 256) ltac:(lia)) as Hm.
  destruct op; try discriminate Hop; cbn [exec_arith arith_spec]; rewrite (binop_run _ s st x y Hs);
    rewrite ?ensure256_mod; try (split; [done|intros z [= <-]; apply Hm]).
  - unfold big_Div. destruct (Z.eqb_spec x 0) as [->|Hx0]; cbn; [split; [done|by intros z [= <-]]|].
    rewrite Z.abs_eq, Z.sgn_pos, Z.mul_1_l, ensure256_mod, Z.mod_small by lia.
    split; [done|]. intros z [= <-]. auto.
  - unfold big_Div. destruct (Z.eqb_spec x 0) as [->|Hx0]; cbn; [split; [done|by intros z [= <-]]|].
    rewrite Z.abs_eq, Z.sgn_pos, Z.mul_1_l, ensure256_mod, Z.mod_small by lia.
    split; [done|]. intros z [= <-]. auto.
  - unfold big_Mod. destruct (Z.eqb_spec x 0) as [->|Hx0]; cbn; [done|].
    rewrite Z.abs_eq, ensure256_mod, Z.mod_small by auto with lia.
    split; [done|]. intros z [= <-]. auto.
  - unfold big_Mod. destruct (Z.eqb_spec x 0) as [->|Hx0]; cbn; [done|].
    rewrite Z.abs_eq, ensure256_mod, Z.mod_small by auto with lia.
    split; [done|]. intros z [= <-]. auto.
  - rewrite big_Exp_256 by lia. rewrite Zmod_mod. split; [done|]. intros z [= <-]. apply Hm.
Qed.

Lemma recovers (fuel : nat) (env : Environment) (c : Closure) (w : VWorld D) :
  (RunClosure fuel (Vm_New env) c w).1 ≠ Panic.
Proof.
  unfold RunClosure, run_with. case_match; [done|].
  by destruct (vm_loop _ _ _) as [[| |] ?].
Qed.

(** C5. Gas is never created: whatever the code does, with any nesting of calls
    and creations, successful or failing, a run leaves its closure with at most
    the gas it was given (a negative amount counts as none). *)
Theorem gas_never_created (fuel : nat) (vm : Vm) (c : Closure) (w : VWorld D) :
  Z.max 0 (cl_Gas (RunClosure fuel vm c w).2.1) <= Z.max 0 (cl_Gas c).
Proof. apply RunClosure_ok. Qed.

(** C20. Termination: gas bounds every run.  With fuel above twice the gas of the
    closure, for any code and any nesting of calls and creations, a machine made by
    [New] returns a result; the only thing that could keep it running is an
    operation on the state that does not end itself, a walk over a malformed
    trie or the address search of CREATE, which the ghost flag records. *)
Theorem RunClosure_terminates (fuel : nat) (env : Environment) (c : Closure) (w : VWorld D) :
  2 * Z.max 0 (cl_Gas c) < Z.of_nat fuel ->
  vw_stuck (RunClosure fuel (Vm_New env) c w).2.2 = false ->
  ∃ out err, (RunClosure fuel (Vm_New env) c w).1 = Ret (out, err).
Proof.
  intros Hf Hs. pose proof (recovers fuel env c w) as Hp.
  pose proof (proj2 (RunClosure_ok (Vm_New env) fuel c w) Hf) as Hn.
  destruct (RunClosure fuel (Vm_New env) c w) as [[[out err]| |] [c' w']]; cbn in *;
    [by eauto|done|].
  by rewrite Hn in Hs.
Qed.

(** A recoverable machine, which is what [New] makes, never panics: every
    failure inside a run, a stack underflow, a division by zero, an access out of
    bounds, comes back as an error value with an empty result. *)
Theorem RunClosure_recovers (fuel : nat) (env : Environment) (c : Closure) (w : VWorld D) :
  (RunClosure fuel (Vm_New env) c w).1 ≠ Panic.
Proof. apply recovers. Qed.

(** NEG leaves the range of a word: of zero it gives [2^256]; of any other
    word, the two's complement. *)
Theorem neg_overflow (s : VState D) (st : Stack) (x : Z) :
  v_stack s = st ++ [x] -> 0 <= x < 2 ^ 256 ->
  exec_arith NEG s = (Ret Next, with_stack (st ++ [if x =? 0 then 2 ^ 256 else (- x) `mod` 2 ^ 256]) s).
Proof.
  intros Hs Hx. unfold exec_arith, require, pop, push, mbind, st_bind, lift, get_stack, put_stack. cbn.
  rewrite Hs. destruct (Z.ltb_spec (zlen (st ++ [x])) 1); [lenlia|]. cbn.
  rewrite Hs, Pop_app. cbn. unfold with_stack, Push, Pow256. do 4 f_equal.
  destruct (Z.eqb_spec x 0) as [->|Hx0]; [done|].
  apply (Z.mod_unique _ _ (-1)); lia.
Qed.

Lemma step_stop vm run (s : VState D) :
  Closure_Get (v_closure s) (v_pc s) = Ret (VInt Kint 0) -> v_mem s = [] ->
  0 <= cl_Gas (v_closure s) ->
  step vm run s = (Ret (Return [] None), s).
Proof.
  intros Hget Hmem Hg. destruct s as [c st m pc w]. cbn in *. subst m.
  unfold step, mbind, st_bind, get_pc, get_closure, lift. cbn -[OpCode]. rewrite Hget. cbn -[OpCode].
  change (OpCode (u64 0)) with STOP. cbn.
  change (memory_gas 0 (memory_size 0) (zlen (@nil byte))) with 0.
  unfold UseGas. destruct (Z.ltb_spec (cl_Gas c) 0); [lia|]. cbn.
  rewrite Z.sub_0_r, Z.add_0_r. unfold set_gas. by destruct c.
Qed.

(** Code of a single byte is never executed: the fetch answers STOP for it,
    because it refuses to read as many bytes as the code has. *)
Theorem single_byte_code_stops (fuel : nat) (vm : Vm) (c : Closure) (w : VWorld D) (b : byte) :
  cl_Code c = [b] -> 0 <= cl_Gas c ->
  RunClosure (S fuel) vm c w = (Ret ([], None), (c, w)).
Proof.
  intros Hc Hg. unfold RunClosure, run_with. rewrite Hc. change (zlen [b] =? 0) with false.
  cbn [vm_loop]. unfold mbind, st_bind. rewrite step_stop; [done| |done|done].
  unfold Closure_Get, Gets. cbn [v_closure v_pc]. by rewrite Hc.
Qed.

(** PUSHn: inside the code it pushes the [n] bytes that follow as a
    big-endian number and moves past them; with as few as [n] bytes of code in
    all, it pushes zero and still skips [n]. *)
Theorem push_reads_code (s : VState D) (n : Z) (pre data post : bytes) :
  cl_Code (v_closure s) = pre ++ data ++ post -> zlen pre = v_pc s + 1 -> zlen data = n ->
  zlen (pre ++ data ++ post) < 2 ^ 63 -> post ≠ [] ∨ pre ≠ [] -> data ≠ [] ->
  exec_stack (PUSH n) s =
    (Ret Next, mkVState (v_closure s) (v_stack s ++ [big_SetBytes data]) (v_mem s) (v_pc s + n)
                        (v_world s)).
Proof.
  intros Hc Hpre Hn Hlen Hne Hdata. assert (0 < n) as Hn0.
  { destruct data; [done|]. lenlia. }
  assert (n < zlen (pre ++ data ++ post)) as Hlt.
  { destruct Hne as [Hp|Hp]; [destruct post|destruct pre]; try done; lenlia. }
  assert (∀ z, 0 <= z < 2 ^ 63 -> big_Int64 z = z) as Hi.
  { intros z Hz. unfold big_Int64. destruct (Z.ltb_spec z 0); [lia|].
    rewrite Z.abs_eq by lia. apply s64_small. lia. }
  unfold exec_stack, mbind, st_bind, get_pc, get_closure, lift. cbn.
  assert (Gets (v_closure s) (v_pc s + 1) n = Ret (VBytes data)) as ->.
  { unfold Gets. rewrite Hc, <-Hpre, !Hi by lenlia.
    destruct (Z.leb_spec (zlen (pre ++ data ++ post)) (zlen pre)); [lenlia|].
    destruct (Z.leb_spec (zlen (pre ++ data ++ post)) n); [lia|]. cbn [orb].
    rewrite s64_small by lenlia.
    replace ((pre ++ data ++ post) ++ _) with (pre ++ data ++ (post ++ spare_code (pre ++ data ++ post)))
      by (by rewrite <-!app_assoc).
    slice_at pre data (post ++ spare_code (pre ++ data ++ post)). done. }
  unfold push, put_pc, get_stack, put_stack, mbind, st_bind, Push, BigD. cbn.
  do 2 f_equal. lia.
Qed.

(** DUPn and SWAPn count their position from the bottom of the stack, not
    from its top: DUPn copies entry [n] (from zero) of the stack's array, and
    SWAPn exchanges it with the bottom entry. *)
Theorem dup_swap_from_bottom (s : VState D) (n : nat) (a d : Z) (l r : Stack) :
  v_stack s = a :: l ++ d :: r -> n = S (length l) ->
  exec_stack (DUP (Z.of_nat n)) s = (Ret Next, with_stack ((a :: l ++ d :: r) ++ [d]) s) ∧
  exec_stack (SWAP (Z.of_nat n)) s = (Ret Next, with_stack (d :: l ++ a :: r) s).
Proof.
  intros Hs ->. assert (∀ x y (k m : Stack), index (x :: k ++ y :: m) (Z.of_nat (S (length k))) = Ret y) as Hn.
  { intros x y k m. apply (index_middle (x :: k) y m). rewrite zlen_cons. unfold zlen. lia. }
  split; cbn [exec_stack]; unfold mbind, st_bind, get_stack, put_stack, lift; cbn; rewrite Hs.
  - unfold Dupn. rewrite Hn. cbn [mbind outcome_bind]. unfold Peek, Push.
    rewrite (index_middle (a :: l ++ d :: r) d []) by lenlia. done.
  - unfold Swapn. rewrite index_head, Hn. cbn [mbind outcome_bind].
    rewrite assign_Ret by (cbn; rewrite length_app; cbn; lia). cbn [mbind outcome_bind].
    change (<[S (length l) := a]> (a :: l ++ d :: r)) with (a :: <[length l := a]> (l ++ d :: r)).
    rewrite insert_app_r_alt, Nat.sub_diag by lia. cbn [insert list_insert].
    change 0 with (Z.of_nat 0). rewrite assign_Ret by (cbn; lia). cbn [mbind outcome_bind].
    cbn [insert list_insert app]. rewrite Hn. cbn [mbind outcome_bind].
    by rewrite index_head.
Qed.

Definition set_world (w : World D) (s : VState D) : VState D :=
  mkVState (v_closure s) (v_stack s) (v_mem s) (v_pc s) (mkVWorld w (vw_stuck (v_world s))).

Lemma on_world_bind {A B} (m : SM A) (f : A -> VM B) s a w' :
  m (vw_world (v_world s)) = (Ret a, w') -> (on_world m ≫= f) s = f a (set_world w' s).
Proof. intros Hm. unfold mbind, st_bind, on_world. by rewrite Hm. Qed.

(** CREATE cannot give the new contract any value: it compares the value
    with the balance of the new account, which is zero, instead of the
    creator's; with a positive value the init code never runs and the answer is an error. *)
Theorem create_with_value_fails (run : runner) (addr : bytes) (msg : nat) (value size offset : Z)
    (s : VState D) (o : StateObject) :
  0 < value -> w_heap (vw_world (v_world s)) !! cl_object (v_closure s) = Some o ->
  ∃ e l, (create_contract run addr msg value size offset s).1 = Ret (Some e, l).
Proof.
  intros Hv Ho. unfold create_contract.
  change ((get_closure ≫= ?f) s) with (f (v_closure s) s). cbv beta.
  erewrite on_world_bind by reflexivity.
  erewrite on_world_bind; [|unfold get_object; cbn [set_world v_world vw_world w_heap];
                            by rewrite list_lookup_middle].
  cbn [Balance NewStateObject]. destruct (Z.leb_spec value 0); [lia|].
  erewrite on_world_bind; [by do 2 eexists|].
  unfold get_object. cbn [set_world v_world vw_world w_heap].
  rewrite lookup_app_l by (by eapply lookup_lt_Some). by rewrite Ho.
Qed.

End Ops.

(** * Runs on a small world

    Two contracts over the in-memory database, with [toy_crypto]: [1] calls
    [2] with some gas and then stores 7 at key 1. *)

#[local] Existing Instance toy_crypto.
#[local] Existing Instance list_order.

Definition caller_code : bytes :=
  [x60; x00; x60; x00; x60; x00; x60; x00; x60; x00; x60; x02; x60; x64; xf1; x50;
   x60; x07; x60; x01; x57; x00].

Definition contract (addr : byte) (code : bytes) : StateObject :=
  set_Code code (NewStateObject [addr]).

Definition two_contracts (callee_code : bytes) : VWorld MemDatabase :=
  mkVWorld
    (mkWorld (mkEnv NewMemDatabase []) [contract x01 caller_code; contract x02 callee_code]
       (mkState (Trie_New (VStr []))
          (<[Address [x01] := 0%nat]> (<[Address [x02] := 1%nat]> ∅)) NewManifest))
    false.

Definition example_vm : Vm := Vm_New (mkEnvironment [] (Some 1) [] [] 0 1 0 []).

(** The caller's run, with 1000 units of gas. *)
Definition caller_run (callee_code : bytes) :=
  RunClosure 3000 example_vm (NewClosure 0 [] 0 caller_code 1000 1) (two_contracts callee_code).

(** What the state holds for account 1 under key 1 after the run. *)
Definition stored_after (callee_code : bytes) : option goval :=
  let w := vw_world (caller_run callee_code).2.2 in
  match stateObjects (w_state w) !! Address [x01] with
  | Some loc => match w_heap w !! loc with
                | Some o => storage o !! LeftPadBytes [x01] 32
                | None => None
                end
  | None => None
  end.

(** After a failed call the caller writes to an account that is no longer in
    the state: the revert replaces the state's objects by the copies of the
    snapshot, while the running closure keeps its old pointer.  The same caller, successful
    in both runs, has its SSTORE recorded when the callee stops, and lost when
    the callee fails. *)
Theorem failed_call_detaches_caller :
  (caller_run [x00; x00]).1 = Ret ([], None) ∧ stored_after [x00; x00] = Some (VBig 7) ∧
  (caller_run [x21; x21]).1 = Ret ([], None) ∧ stored_after [x21; x21] = None.
Proof. vm_compute. repeat split. Qed.

Definition example_state (st : Stack) (c : Closure) : VState MemDatabase :=
  mkVState c st [] 0 (two_contracts []).

Definition example_closure (code : bytes) : Closure := NewClosure 0 [] 0 code 100 1.

Lemma RunClosure_terminates_witness :
  ∃ out err, (RunClosure 10 example_vm
                (NewClosure 0 [] 0 [x60; x01; x60; x02; x00] 4 1) (two_contracts [])).1 = Ret (out, err).
Proof.
  apply (RunClosure_terminates 10 (mkEnvironment [] (Some 1) [] [] 0 1 0 [])
           (NewClosure 0 [] 0 [x60; x01; x60; x02; x00] 4 1) (two_contracts []));
    [reflexivity|vm_compute; reflexivity].
Defined.

Lemma exec_arith_correct_witness :
  exec_arith SUB (example_state [5; 2; 1] (example_closure []))
  = (Ret Next, example_state [5; 2 ^ 256 - 1] (example_closure [])).
Proof.
  apply (exec_arith_correct SUB (example_state [5; 2; 1] (example_closure [])) [5] 2 1);
    [reflexivity|reflexivity|lia|lia].
Defined.

Lemma neg_overflow_witness :
  exec_arith NEG (example_state [0] (example_closure []))
  = (Ret Next, example_state [2 ^ 256] (example_closure [])).
Proof. apply (neg_overflow (example_state [0] (example_closure [])) [] 0); [reflexivity|lia]. Defined.

Lemma single_byte_code_stops_witness :
  RunClosure 1 example_vm (example_closure [xff]) (two_contracts [])
  = (Ret ([], None), (example_closure [xff], two_contracts [])).
Proof.
  apply (single_byte_code_stops 0 example_vm (example_closure [xff]) (two_contracts []) xff);
    [reflexivity|discriminate].
Defined.

Lemma push_reads_code_witness :
  exec_stack (PUSH 2) (example_state [] (example_closure [x61; x01; x02]))
  = (Ret Next, mkVState (example_closure [x61; x01; x02]) [258] [] 2 (two_contracts [])).
Proof.
  apply (push_reads_code (example_state [] (example_closure [x61; x01; x02])) 2 [x61] [x01; x02] []);
    try reflexivity; [by right|discriminate].
Defined.

Lemma dup_swap_from_bottom_witness :
  exec_stack (DUP 1) (example_state [10; 20; 30] (example_closure []))
  = (Ret Next, example_state [10; 20; 30; 20] (example_closure [])).
Proof.
  apply (dup_swap_from_bottom (example_state [10; 20; 30] (example_closure [])) 1 10 20 [] [30]);
    reflexivity.
Defined.

Lemma create_with_value_fails_witness :
  ∃ e l, (create_contract (RunClosure 10 example_vm) [x03] 0 1 0 0
            (example_state [] (example_closure []))).1 = Ret (Some e, l).
Proof.
  apply (create_with_value_fails (RunClosure 10 example_vm) [x03] 0 1 0 0
           (example_state [] (example_closure [])) (contract x01 caller_code));
    [lia|reflexivity].
Defined.
