(* ===== verification/Transaction.v ===== *)
(** [ethchain/transaction.go]: transactions, their signatures, their RLP form,
    and receipts.

    The curve is the class [Secp256k1] of [Curve]. *)

From S2P Require Import Prelude GoVal Big Bytes Rlp Value Crypto Curve.

(** * Transactions *)

(** ethchain/transaction.go, ContractAddr. *)
Definition ContractAddr : bytes := zeros 20.

(** ethchain/transaction.go, IsContractAddr. *)
Definition IsContractAddr (addr : bytes) : bool := bool_decide (addr = ContractAddr).

(** ethchain/transaction.go, Transaction. *)
Record Transaction := mkTx {
  tx_Nonce : Z;
  tx_Recipient : bytes;
  tx_Value : Z;
  tx_Gas : Z;
  tx_GasPrice : Z;
  tx_Data : bytes;
  tx_v : byte;
  tx_r : bytes;
  tx_s : bytes;
  tx_contractCreation : bool;
}.

#[export] Instance Transaction_eq_dec : EqDecision Transaction.
Proof. solve_decision. Defined.

(** ethchain/transaction.go, NewContractCreationTx. *)
Definition NewContractCreationTx (value gas gasPrice : Z) (script : bytes) : Transaction :=
  mkTx 0 ContractAddr value gas gasPrice script x00 [] [] true.

(** ethchain/transaction.go, NewTransactionMessage. *)
Definition NewTransactionMessage (to : bytes) (value gas gasPrice : Z) (data : bytes) : Transaction :=
  mkTx 0 to value gas gasPrice data x00 [] [] false.

(** ethchain/transaction.go, Transaction.GasValue. *)
Definition GasValue (tx : Transaction) : Z := tx_Gas tx * tx_GasPrice tx.

(** ethchain/transaction.go, Transaction.TotalValue. *)
Definition TotalValue (tx : Transaction) : Z := GasValue tx + tx_Value tx.

(** ethchain/transaction.go, Transaction.CreatesContract. *)
Definition CreatesContract (tx : Transaction) : bool := tx_contractCreation tx.

(** ethchain/transaction.go, Transaction.IsContract. *)
Definition IsContract (tx : Transaction) : bool := CreatesContract tx.

(** The fields that are signed. *)
Definition signed_data (tx : Transaction) : list goval :=
  [VInt Kuint64 (tx_Nonce tx); VBig (tx_GasPrice tx); VBig (tx_Gas tx); VBytes (tx_Recipient tx);
   VBig (tx_Value tx); VBytes (tx_Data tx)].

(** ethchain/transaction.go, Transaction.RlpData. *)
Definition tx_RlpData (tx : Transaction) : goval :=
  VList (signed_data tx ++
         [VByte (tx_v tx); VBytes (big_Bytes (big_SetBytes (tx_r tx)));
          VBytes (big_Bytes (big_SetBytes (tx_s tx)))]).

(** ethchain/transaction.go, Transaction.RlpValue. *)
Definition tx_RlpValue (tx : Transaction) : goval := NewValue (tx_RlpData tx).

(** ethchain/transaction.go, Transaction.RlpEncode. *)
Definition tx_RlpEncode (tx : Transaction) : bytes := Value_Encode (tx_RlpValue tx).

(** The transaction [&Transaction{}]; its nil integers are replaced by the
    decoder before anything reads them. *)
Definition zero_tx : Transaction := mkTx 0 [] 0 0 0 [] x00 [] [] false.

(** ethchain/transaction.go, Transaction.RlpValueDecode. The mark for contract
    creation is only ever set. *)
Definition tx_RlpValueDecode (tx : Transaction) (decoder : goval) : Transaction :=
  let recipient := Value_Bytes (Get decoder 3) in
  mkTx (Value_Uint (Get decoder 0)) recipient (Value_BigInt (Get decoder 4))
       (Value_BigInt (Get decoder 2)) (Value_BigInt (Get decoder 1)) (Value_Bytes (Get decoder 5))
       (z2b (Value_Uint (Get decoder 6))) (Value_Bytes (Get decoder 7))
       (Value_Bytes (Get decoder 8))
       (if IsContractAddr recipient then true else tx_contractCreation tx).

(** ethchain/transaction.go, Transaction.RlpDecode. *)
Definition tx_RlpDecode (tx : Transaction) (data : bytes) : outcome Transaction :=
  v ← NewValueFromBytes data; Ret (tx_RlpValueDecode tx v).

(** ethchain/transaction.go, NewTransactionFromBytes. *)
Definition NewTransactionFromBytes (data : bytes) : outcome Transaction :=
  tx_RlpDecode zero_tx data.

(** ethchain/transaction.go, NewTransactionFromValue. *)
Definition NewTransactionFromValue (val : goval) : Transaction := tx_RlpValueDecode zero_tx val.

Section Signatures.
Context `{Crypto} `{Secp256k1}.

(** ethchain/transaction.go, Transaction.Hash. *)
Definition tx_Hash (tx : Transaction) : bytes :=
  Sha3Bin (Value_Encode (NewValue (VList (signed_data tx)))).

(** ethchain/transaction.go, Transaction.Signature. *)
Definition Signature (tx : Transaction) (key : bytes) : bytes := secp_Sign (tx_Hash tx) key.

(** ethchain/transaction.go, Transaction.PublicKey. *)
Definition PublicKey (tx : Transaction) : bytes :=
  secp_RecoverPubkey (tx_Hash tx)
    (LeftPadBytes (tx_r tx) 32 ++ LeftPadBytes (tx_s tx) 32 ++ [z2b (b2z (tx_v tx) - 27)]).

(** ethchain/transaction.go, Transaction.Sender. The nil key of a failed
    recovery panics. *)
Definition Sender (tx : Transaction) : outcome bytes :=
  let pubkey := PublicKey tx in
  p ← index pubkey 0;
  if negb (b2z p =? 4) then Ret []
  else key ← slice pubkey 1 (zlen pubkey); Ret (drop 12 (Sha3Bin key)).

(** ethchain/transaction.go, Transaction.CreationAddress. *)
Definition CreationAddress (tx : Transaction) : outcome bytes :=
  sender ← Sender tx;
  Ret (drop 12 (Sha3Bin (Value_Encode (NewValue
         (VList [VBytes sender; VInt Kuint64 (tx_Nonce tx)]))))).

(** ethchain/transaction.go, Transaction.Sign. *)
Definition Sign (tx : Transaction) (privk : bytes) : outcome Transaction :=
  let sig := Signature tx privk in
  r ← slice sig 0 32;
  s ← slice sig 32 64;
  v ← index sig 64;
  Ret (mkTx (tx_Nonce tx) (tx_Recipient tx) (tx_Value tx) (tx_Gas tx) (tx_GasPrice tx)
            (tx_Data tx) (z2b (b2z v + 27)) r s (tx_contractCreation tx)).

End Signatures.

(** * Receipts *)

(** ethchain/transaction.go, Receipt. *)
Record Receipt := mkReceipt {
  r_Tx : Transaction;
  PostState : bytes;
  CumulativeGasUsed : Z;
}.

#[export] Instance Receipt_eq_dec : EqDecision Receipt.
Proof. solve_decision. Defined.

(** ethchain/transaction.go, Receipt.RlpValueDecode. *)
Definition receipt_RlpValueDecode (decoder : goval) : Receipt :=
  mkReceipt (NewTransactionFromValue (Get decoder 0)) (Value_Bytes (Get decoder 1))
            (Value_BigInt (Get decoder 2)).

(** ethchain/transaction.go, NewRecieptFromValue. *)
Definition NewRecieptFromValue (val : goval) : Receipt := receipt_RlpValueDecode val.

(** ethchain/transaction.go, Receipt.RlpData. *)
Definition receipt_RlpData (self : Receipt) : goval :=
  VList [tx_RlpData (r_Tx self); VBytes (PostState self); VBig (CumulativeGasUsed self)].

(** ethchain/transaction.go, Receipt.Cmp. *)
Definition receipt_Cmp (self other : Receipt) : bool :=
  bool_decide (PostState self = PostState other).

(** * Sorting *)

(** ethchain/transaction.go, Transactions.Len. *)
Definition txs_Len (s : list Transaction) : Z := zlen s.

(** ethchain/transaction.go, Transactions.Swap. *)
Definition txs_Swap (s : list Transaction) (i j : Z) : outcome (list Transaction) :=
  x ← index s i;
  y ← index s j;
  s' ← assign s i y;
  assign s' j x.

(** ethchain/transaction.go, TxByNonce.Less. *)
Definition txs_Less (s : list Transaction) (i j : Z) : outcome bool :=
  x ← index s i;
  y ← index s j;
  Ret (tx_Nonce x <? tx_Nonce y).

(** * The wire form *)

(** The item of a transaction. *)
Definition tx_fields (tx : Transaction) : list item :=
  [RStr (big_Bytes (tx_Nonce tx)); RStr (big_Bytes (tx_GasPrice tx)); RStr (big_Bytes (tx_Gas tx));
   RStr (tx_Recipient tx); RStr (big_Bytes (tx_Value tx)); RStr (tx_Data tx)].

Definition tx_item (tx : Transaction) : item :=
  RList (tx_fields tx ++
         [RStr (big_Bytes (b2z (tx_v tx))); RStr (big_Bytes (big_SetBytes (tx_r tx)));
          RStr (big_Bytes (big_SetBytes (tx_s tx)))]).

(** The numbers a transaction can carry over the wire: amounts are not
    negative and the nonce has at most 63 bits. *)
Definition tx_ok (tx : Transaction) : Prop :=
  0 <= tx_Nonce tx < 2 ^ 63 ∧ 0 <= tx_Value tx ∧ 0 <= tx_Gas tx ∧ 0 <= tx_GasPrice tx.

(** What arrives: the signature without leading zeros, and the mark for
    contract creation recomputed from the recipient. *)
Definition tx_wire (tx : Transaction) : Transaction :=
  mkTx (tx_Nonce tx) (tx_Recipient tx) (tx_Value tx) (tx_Gas tx) (tx_GasPrice tx) (tx_Data tx)
       (tx_v tx) (big_Bytes (big_SetBytes (tx_r tx))) (big_Bytes (big_SetBytes (tx_s tx)))
       (IsContractAddr (tx_Recipient tx)).

Lemma to_item_tx tx : 0 <= tx_Nonce tx < 2 ^ 63 -> to_item (tx_RlpData tx) = Some (tx_item tx).
Proof.
  intros Hn. pose proof (b2z_range (tx_v tx)).
  unfold tx_RlpData, tx_item, tx_fields, signed_data. simpl. by rewrite !s64_small by lia.
Qed.

Lemma to_item_signed tx :
  0 <= tx_Nonce tx < 2 ^ 63 -> to_item (VList (signed_data tx)) = Some (RList (tx_fields tx)).
Proof. intros Hn. unfold tx_fields, signed_data. simpl. by rewrite !s64_small by lia. Qed.

Lemma tx_decode tx : tx_ok tx -> NewTransactionFromValue (of_item (tx_item tx)) = tx_wire tx.
Proof.
  intros (Hn & Hv & Hg & Hp). pose proof (b2z_range (tx_v tx)).
  unfold NewTransactionFromValue, tx_RlpValueDecode, tx_wire, tx_item, tx_fields.
  get_fields. cbn [of_item]. rewrite !BigInt_big, !Uint_big, !Bytes_of_str by lia.
  rewrite z2b_b2z. by case_match.
Qed.

(** Encoding a transaction and decoding the bytes. *)
Lemma tx_roundtrip tx :
  tx_ok tx -> zlen (tx_RlpEncode tx) < 2 ^ 64 ->
  NewTransactionFromBytes (tx_RlpEncode tx) = Ret (tx_wire tx).
Proof.
  intros Hok Hl. unfold NewTransactionFromBytes, tx_RlpDecode, tx_RlpEncode, Value_Encode, tx_RlpValue in *.
  change (NewValue (tx_RlpData tx)) with (tx_RlpData tx) in *.
  rewrite (NewValueFromBytes_Encode _ (tx_item tx)); [|apply to_item_tx, Hok|done].
  cbn [mbind outcome_bind]. by rewrite <-tx_decode.
Qed.

(** * Signatures *)

Lemma LeftPad_minimal r :
  zlen r <= 32 -> LeftPadBytes (big_Bytes (big_SetBytes r)) 32 = LeftPadBytes r 32.
Proof.
  intros Hr. pose proof (SetBytes_range r) as [H0 H1].
  assert (zlen (big_Bytes (big_SetBytes r)) <= 32).
  { apply Bytes_len_le; [lia|]. rewrite Z.abs_eq by lia.
    eapply Z.lt_le_trans; [apply H1|]. apply Z.pow_le_mono_r; lia. }
  apply SetBytes_inj; rewrite ?LeftPadBytes_len, ?LeftPadBytes_value; [lia|].
  rewrite SetBytes_Bytes. lia.
Qed.

Section SignSpec.
Context `{Crypto} `{Secp256k1} `{!Secp256k1Laws}.

Lemma tx_Hash_wire tx : tx_Hash (tx_wire tx) = tx_Hash tx.
Proof. done. Qed.

Lemma Sender_wire tx :
  zlen (tx_r tx) <= 32 -> zlen (tx_s tx) <= 32 -> Sender (tx_wire tx) = Sender tx.
Proof.
  intros Hr Hs. unfold Sender, PublicKey. rewrite tx_Hash_wire. cbn [tx_r tx_s tx_v tx_wire].
  by rewrite !LeftPad_minimal by done.
Qed.

(** [tx'] is [tx] with some signature. *)
Definition same_content (tx tx' : Transaction) : Prop :=
  signed_data tx' = signed_data tx ∧ tx_contractCreation tx' = tx_contractCreation tx.

Lemma Sign_ok tx key kp :
  NewKeyPairFromSec key = Some kp ->
  ∃ tx', Sign tx key = Ret tx' ∧ same_content tx tx' ∧ zlen (tx_r tx') = 32 ∧
         zlen (tx_s tx') = 32 ∧ Sender tx' = KeyPair_Address kp.
Proof.
  intros Hkp. pose proof Hkp as (pub & Hpub & ->)%fmap_Some.
  assert (zlen (tx_Hash tx) = 32) as Hh by apply Sha3Bin_len.
  pose proof (secp_sign_len _ key Hh ltac:(eauto)) as Hlen.
  unfold Sign, Signature. set (sig := secp_Sign (tx_Hash tx) key) in *.
  destruct (index_in sig 64) as [v Hiv]; [lia|]. pose proof Hiv as [_ Hv]%index_Ret.
  change (Z.to_nat 64) with 64%nat in Hv.
  pose proof (secp_sign_v _ _ v Hh ltac:(eauto) Hv) as Hv4.
  assert (sig = take 32 sig ++ take 32 (drop 32 sig) ++ [v]) as Hsig.
  { rewrite <-(take_drop 32 sig) at 1. f_equal. rewrite <-(take_drop 32 (drop 32 sig)) at 1.
    f_equal. rewrite drop_drop. rewrite (drop_S sig v) by done.
    rewrite drop_ge; [done|]. unfold zlen in Hlen. lia. }
  assert (zlen (take 32 sig) = 32) as Hr by lenlia.
  assert (zlen (take 32 (drop 32 sig)) = 32) as Hs by lenlia.
  set (r := take 32 sig) in *. set (s := take 32 (drop 32 sig)) in *.
  rewrite (slice_of [] r (s ++ [v]) sig 0 32), (slice_of r s [v] sig 32 64) by first [done|rewrite ?Hr, ?Hs; done].

  cbn [mbind outcome_bind]. rewrite Hiv. cbn [mbind outcome_bind]. eexists; split; [done|].
  repeat split; [done|done|]. unfold Sender, PublicKey. cbn [tx_r tx_s tx_v].
  match goal with |- context [tx_Hash ?t] => change (tx_Hash t) with (tx_Hash tx) end.
  unfold LeftPadBytes. rewrite Hr, Hs. cbn [Z.ltb Z.compare Pos.compare Pos.compare_cont].
  change (zeros (32 - 32)) with (@nil byte). cbn [app].
  pose proof (b2z_range v). rewrite b2z_z2b_small by lia.
  replace (b2z v + 27 - 27) with (b2z v) by lia. rewrite z2b_b2z, <-Hsig.
  unfold sig. rewrite (secp_recover _ _ pub) by done.
  pose proof (secp_pub_head _ _ Hpub) as Hp0. pose proof (secp_pub_len _ _ Hpub) as Hpl.
  unfold KeyPair_Address. cbn [kp_PublicKey].
  by rewrite (proj2 (index_Ret pub 0 x04)).
Qed.

(** C10. A signed transaction travels: a transaction with amounts and nonce in
    range can be signed with any valid key; the bytes on the wire decode to the
    same transaction, up to leading zeros of the signature and the mark for
    contract creation, which is recomputed from the recipient; its sender is
    the address of the key and its hash is the hash before the signature. *)
Theorem signed_transaction_travels (tx : Transaction) (key : bytes) (kp : KeyPair) :
  tx_ok tx -> NewKeyPairFromSec key = Some kp ->
  ∃ tx', Sign tx key = Ret tx' ∧ same_content tx tx' ∧
    (zlen (tx_RlpEncode tx') < 2 ^ 64 ->
     NewTransactionFromBytes (tx_RlpEncode tx') = Ret (tx_wire tx')) ∧
    Sender (tx_wire tx') = KeyPair_Address kp ∧ tx_Hash (tx_wire tx') = tx_Hash tx.
Proof.
  intros Hok Hkp. destruct (Sign_ok tx key kp Hkp) as (tx' & HS & Hc & Hr & Hs & Hsend).
  exists tx'. pose proof Hc as [Hd _]. injection Hd as Hn Hp Hg _ Hv _.
  split; [done|]. split; [done|]. split; [|split].
  - intros Hl. apply tx_roundtrip; [|done]. unfold tx_ok in *. by rewrite Hn, Hp, Hg, Hv.
  - by rewrite Sender_wire by lia.
  - rewrite tx_Hash_wire. unfold tx_Hash. by rewrite (proj1 Hc).
Qed.

(** The hash of a transaction commits to everything that is signed: as long
    as the digests of the two encodings do not collide, equal hashes mean equal
    nonce, price, gas, recipient, value and data. *)
Theorem tx_Hash_commits (a b : Transaction) :
  tx_ok a -> tx_ok b ->
  collision_free [Value_Encode (VList (signed_data a)); Value_Encode (VList (signed_data b))] ->
  tx_Hash a = tx_Hash b -> signed_data a = signed_data b.
Proof.
  intros (Hna & Hva & Hga & Hpa) (Hnb & Hvb & Hgb & Hpb) Hcf Heq.
  assert (∀ x y, 0 <= x -> 0 <= y -> big_Bytes x = big_Bytes y -> x = y) as Hinj.
  { intros x y Hx Hy E%(f_equal big_SetBytes). rewrite !SetBytes_Bytes in E. lia. }
  destruct (collision_free_pair _ _ Hcf Heq) as [E Hlen].
  unfold Value_Encode in *. rewrite (Encode_item _ _ (to_item_signed a Hna)) in E, Hlen.
  rewrite (Encode_item _ _ (to_item_signed b Hnb)) in E.
  apply enc_inj in E; [|done]. injection E as En Ep Eg Er Ev Ed.
  unfold signed_data. by rewrite (Hinj _ _ (proj1 Hna) (proj1 Hnb) En), (Hinj _ _ Hpa Hpb Ep),
    (Hinj _ _ Hga Hgb Eg), (Hinj _ _ Hva Hvb Ev), Er, Ed.
Qed.

End SignSpec.

(** ** Runs *)

Definition example_key : bytes := replicate 32 x11.
Definition example_tx : Transaction := NewTransactionMessage (replicate 20 x22) 1000 500 10 [x01; x02].

Lemma signed_transaction_travels_witness :
  ∃ tx', @Sign toy_crypto toy_curve example_tx example_key = Ret tx' ∧ same_content example_tx tx' ∧
    (zlen (tx_RlpEncode tx') < 2 ^ 64 ->
     NewTransactionFromBytes (tx_RlpEncode tx') = Ret (tx_wire tx')) ∧
    @Sender toy_crypto toy_curve (tx_wire tx')
    = @KeyPair_Address toy_crypto (mkKeyPair example_key (x04 :: example_key ++ zeros 32)) ∧
    @tx_Hash toy_crypto (tx_wire tx') = @tx_Hash toy_crypto example_tx.
Proof.
  apply (@signed_transaction_travels toy_crypto toy_curve toy_curve_laws example_tx example_key);
    [vm_compute; intuition discriminate|reflexivity].
Defined.

Lemma tx_Hash_commits_witness : signed_data example_tx = signed_data example_tx.
Proof.
  apply (@tx_Hash_commits toy_crypto example_tx (tx_wire example_tx));
    [vm_compute; intuition discriminate|vm_compute; intuition discriminate|
     apply (@cf_check_ok toy_crypto); vm_compute; reflexivity|reflexivity].
Defined.
