(* ===== verification/Block.v ===== *)
(** [ethchain/block.go], [ethchain/genesis.go], [ethchain/fees.go]: blocks,
    their headers and their RLP form, and the genesis block.

    A block owns its world state, which appears here as the [State] it was
    opened with.  A block created by [CreateBlock] has no number (a nil
    pointer) until the chain gives it one: until then the encoder writes an empty
    list for it. *)

From S2P Require Import Prelude GoVal Big Bytes Rlp Value Db Crypto Nibbles Trie State.
From S2P Require Import Curve Transaction.

(** ethchain/block.go, BlockInfo. *)
Record BlockInfo := mkBlockInfo { bi_Number : Z; bi_Hash : bytes; bi_Parent : bytes }.

(** ethchain/block.go, BlockInfo.RlpDecode. *)
Definition BlockInfo_RlpDecode (data : bytes) : outcome BlockInfo :=
  decoder ← NewValueFromBytes data;
  Ret (mkBlockInfo (Value_Uint (Get decoder 0)) (Value_Bytes (Get decoder 1))
                   (Value_Bytes (Get decoder 2))).

(** ethchain/block.go, BlockInfo.RlpEncode. *)
Definition BlockInfo_RlpEncode (bi : BlockInfo) : bytes :=
  Encode (VList [VInt Kuint64 (bi_Number bi); VBytes (bi_Hash bi); VBytes (bi_Parent bi)]).

(** ethchain/block.go, Block. *)
Inductive Block := mkBlock {
  PrevHash : bytes;
  Uncles : list Block;
  UncleSha : bytes;
  b_Coinbase : bytes;
  b_state : State;
  b_Difficulty : Z;
  Time : Z;
  b_Number : option Z;
  MinGasPrice : Z;
  GasLimit : Z;
  b_GasUsed : Z;
  Extra : bytes;
  b_Nonce : bytes;
  transactions : list Transaction;
  receipts : list Receipt;
  TxSha : bytes;
}.

(** Updating one field of a block. *)
Definition set_Uncles_sha (us : list Block) (sha : bytes) (b : Block) : Block :=
  mkBlock (PrevHash b) us sha (b_Coinbase b) (b_state b) (b_Difficulty b) (Time b)
          (b_Number b) (MinGasPrice b) (GasLimit b) (b_GasUsed b) (Extra b) (b_Nonce b)
          (transactions b) (receipts b) (TxSha b).
Definition set_b_state (s : State) (b : Block) : Block :=
  mkBlock (PrevHash b) (Uncles b) (UncleSha b) (b_Coinbase b) s (b_Difficulty b) (Time b)
          (b_Number b) (MinGasPrice b) (GasLimit b) (b_GasUsed b) (Extra b) (b_Nonce b)
          (transactions b) (receipts b) (TxSha b).
Definition set_b_GasUsed (g : Z) (b : Block) : Block :=
  mkBlock (PrevHash b) (Uncles b) (UncleSha b) (b_Coinbase b) (b_state b) (b_Difficulty b) (Time b)
          (b_Number b) (MinGasPrice b) (GasLimit b) g (Extra b) (b_Nonce b)
          (transactions b) (receipts b) (TxSha b).
Definition set_b_Nonce (n : bytes) (b : Block) : Block :=
  mkBlock (PrevHash b) (Uncles b) (UncleSha b) (b_Coinbase b) (b_state b) (b_Difficulty b) (Time b)
          (b_Number b) (MinGasPrice b) (GasLimit b) (b_GasUsed b) (Extra b) n
          (transactions b) (receipts b) (TxSha b).

(** The block [&Block{}]; its nil fields are replaced before they are read. *)
Definition zero_block : Block :=
  mkBlock [] [] [] [] (State_New (Trie_New VNil)) 0 0 None 0 0 0 [] [] [] [] [].

Section Block.
Context `{Crypto}.

(** ethchain/genesis.go 16-18, ZeroHash256. *)
Definition ZeroHash256 : bytes := zeros 32.
Definition ZeroHash160 : bytes := zeros 20.
Definition EmptyShaList : bytes := Sha3Bin (Encode (VList [])).

(** A [*big.Int] in an interface. *)
Definition big_val (n : option Z) : goval := match n with Some z => VBig z | None => VNilBig end.

(** ethchain/block.go, Block.header. *)
Definition header (block : Block) : outcome (list goval) :=
  Ret [VBytes (PrevHash block); VBytes (UncleSha block); VBytes (b_Coinbase block);
       State_Root (b_state block); VBytes (TxSha block); VBig (b_Difficulty block);
       big_val (b_Number block); VBig (MinGasPrice block); VBig (GasLimit block);
       VBig (b_GasUsed block); VInt Kint64 (Time block); VStr (Extra block);
       VBytes (b_Nonce block)].
Arguments header : simpl never.

(** ethchain/block.go, Block.rlpReceipts. *)
Definition rlpReceipts (block : Block) : goval := VList (map receipt_RlpData (receipts block)).

(** The loop of [rlpUncles]. *)
Definition headers (bs : list Block) : outcome (list goval) :=
  foldr (λ u acc, h ← header u; r ← acc; Ret (VList h :: r)) (Ret []) bs.

(** ethchain/block.go, Block.rlpUncles. *)
Definition rlpUncles (block : Block) : outcome goval := VList <$> headers (Uncles block).

(** ethchain/block.go, Block.SetUncles. *)
Definition SetUncles (uncles : list Block) (block : Block) : outcome Block :=
  u ← VList <$> headers uncles;
  Ret (set_Uncles_sha uncles (Sha3Bin (Encode u)) block).

(** ethchain/block.go, CreateBlock. [now] is [time.Now().Unix()]. *)
Definition CreateBlock (root : goval) (prevHash base : bytes) (difficulty : Z) (nonce extra : bytes)
    (now : Z) : outcome Block :=
  block ← SetUncles []
    (mkBlock prevHash [] EmptyShaList base (State_New (Trie_New VNil)) difficulty now None 0 0 0
             extra nonce [] [] []);
  Ret (set_b_state (State_New (Trie_New root)) block).

(** ethchain/block.go, Block.Value. *)
Definition block_Value (block : Block) : outcome goval :=
  h ← header block;
  us ← rlpUncles block;
  Ret (NewValue (VList [VList h; rlpReceipts block; us])).

(** ethchain/block.go, Block.RlpEncode. *)
Definition block_RlpEncode (block : Block) : outcome bytes := Value_Encode <$> block_Value block.

(** ethchain/block.go, Block.Hash. *)
Definition block_Hash (block : Block) : outcome bytes :=
  v ← block_Value block; Ret (Sha3Bin (Value_Encode v)).

Lemma headers_Ret bs : ∃ hs, headers bs = Ret hs.
Proof.
  unfold headers. induction bs as [|b bs [hs IH]]; [by eexists|]. cbn [foldr]. rewrite IH. by eexists.
Qed.

Lemma block_Hash_Ret block : ∃ hash, block_Hash block = Ret hash.
Proof.
  unfold block_Hash, block_Value, rlpUncles. destruct (headers_Ret (Uncles block)) as [us ->]. by eexists.
Qed.

(** ethchain/block.go, Block.HashNoNonce. *)
Definition HashNoNonce (block : Block) : outcome bytes :=
  h ← header block; Ret (Sha3Bin (Encode (VList (take 12 h)))).

(** ethchain/block.go, NewUncleBlockFromValue. *)
Definition NewUncleBlockFromValue (header : goval) : Block :=
  mkBlock (Value_Bytes (Get header 0)) [] (Value_Bytes (Get header 1))
          (Value_Bytes (Get header 2)) (State_New (Trie_New (Get header 3)))
          (Value_BigInt (Get header 5)) (s64 (big_Uint64 (Value_BigInt (Get header 10))))
          (Some (Value_BigInt (Get header 6))) (Value_BigInt (Get header 7))
          (Value_BigInt (Get header 8)) (Value_BigInt (Get header 9))
          (Value_Str (Get header 11)) (Value_Bytes (Get header 12)) [] []
          (Value_Bytes (Get header 4)).

(** The elements [v.Get(0)], ... up to [v.Len()]. *)
Definition elements (v : goval) : list goval :=
  map (λ i, Get v (Z.of_nat i)) (seq 0 (Z.to_nat (Value_Len v))).

(** ethchain/block.go, Block.RlpValueDecode. Receipts and uncles that are not
    there leave the old ones. *)
Definition block_RlpValueDecode (block : Block) (decoder : goval) : Block :=
  let h := NewUncleBlockFromValue (Get decoder 0) in
  let rs := if negb (IsNil (Get decoder 1))
            then map NewRecieptFromValue (elements (Get decoder 1)) else receipts block in
  let txs := if negb (IsNil (Get decoder 1)) then map r_Tx rs else transactions block in
  let us := if negb (IsNil (Get decoder 2))
            then map NewUncleBlockFromValue (elements (Get decoder 2)) else Uncles block in
  mkBlock (PrevHash h) us (UncleSha h) (b_Coinbase h) (b_state h) (b_Difficulty h) (Time h)
          (b_Number h) (MinGasPrice h) (GasLimit h) (b_GasUsed h) (Extra h) (b_Nonce h)
          txs rs (TxSha h).

(** ethchain/block.go, Block.RlpDecode. *)
Definition block_RlpDecode (block : Block) (data : bytes) : outcome Block :=
  rlpValue ← NewValueFromBytes data; Ret (block_RlpValueDecode block rlpValue).

(** ethchain/block.go, NewBlockFromBytes. *)
Definition NewBlockFromBytes (raw : bytes) : outcome Block := block_RlpDecode zero_block raw.

(** ethchain/block.go, NewBlockFromRlpValue. *)
Definition NewBlockFromRlpValue (rlpValue : goval) : Block :=
  block_RlpValueDecode zero_block rlpValue.

(** ethchain/block.go, Block.CalcGasLimit. The gas used times 6/5, as a
    rational in lowest terms. *)
Definition CalcGasLimit (block parent : Block) : outcome Z :=
  match b_Number block with
  | None => Panic
  | Some number =>
      if number =? 0 then Ret (BigPow 10 6)
      else
        let previous := (1024 - 1) * GasLimit parent in
        let num := b_GasUsed parent * 6 in
        let g := Z.gcd num 5 in
        curInt ← big_Div (num / g) (5 / g);
        result ← big_Div (previous + curInt) 1024;
        Ret (BigMax 125000 result)
  end.

(** ethchain/block.go, Block.GetTransaction. *)
Definition GetTransaction (self : Block) (hash : bytes) : option Transaction :=
  r_Tx <$> List.find (λ r, bool_decide (tx_Hash (r_Tx r) = hash)) (receipts self).

(** ethchain/block.go, Block.setTransactions. *)
Definition setTransactions (txs : list Transaction) (b : Block) : Block :=
  mkBlock (PrevHash b) (Uncles b) (UncleSha b) (b_Coinbase b) (b_state b) (b_Difficulty b) (Time b)
          (b_Number b) (MinGasPrice b) (GasLimit b) (b_GasUsed b) (Extra b) (b_Nonce b)
          txs (receipts b) (TxSha b).

(** ethchain/block.go, Block.SetReceipts. *)
Definition SetReceipts (rs : list Receipt) (txs : list Transaction) (b : Block) : Block :=
  setTransactions txs
    (mkBlock (PrevHash b) (Uncles b) (UncleSha b) (b_Coinbase b) (b_state b) (b_Difficulty b) (Time b)
             (b_Number b) (MinGasPrice b) (GasLimit b) (b_GasUsed b) (Extra b) (b_Nonce b)
             (transactions b) rs (TxSha b)).

(** ethchain/block.go, Block.GetRoot. *)
Definition GetRoot (block : Block) : goval := State_Root (b_state block).

(** * Fees *)

(** ethchain/fees.go 7-9, BlockReward. *)
Definition BlockReward : Z := 1500000000000000000.
Definition UncleReward : Z := 1125000000000000000.
Definition UncleInclusionReward : Z := 187500000000000000.

(** * The genesis block *)

(** ethchain/genesis.go, GenesisHeader. *)
Definition GenesisHeader : list goval :=
  [VBytes ZeroHash256; VBytes (Sha3Bin (Encode (VList []))); VBytes ZeroHash160; VStr []; VStr [];
   VBig 131072; VBig 0; VBig 0; VBig 1000000; VBig 0; VBig 0; VNil;
   VBytes (Sha3Bin (big_Bytes 42))].

(** ethchain/genesis.go, Genesis. *)
Definition Genesis : goval := VList [VList GenesisHeader; VList []; VList []].

Section TxSha.
Context {D : Type} `{Database D}.

(** ethchain/block.go, Block.BlockInfo. *)
Definition block_BlockInfo (db : D) (block : Block) : outcome BlockInfo :=
  h ← block_Hash block; BlockInfo_RlpDecode (db_data db (h ++ asc "Info")).

(** ethchain/block.go 216-218, CreateTxSha. The key of a receipt is the
    encoding of its position. *)
Definition update_receipt (i : Z) (receipt : Receipt) : TrieM unit (D := D) :=
  Update (Value_Encode (NewValue (VInt Kint i)))
         (Value_Encode (NewValue (receipt_RlpData receipt))).

(** The loop of [CreateTxSha], from position [i]. *)
Fixpoint update_receipts (i : Z) (rs : list Receipt) : TrieM unit (D := D) :=
  match rs with
  | [] => mret tt
  | receipt :: rest => _ ← update_receipt i receipt; update_receipts (i + 1) rest
  end.

(** ethchain/block.go, CreateTxSha. The trie is new, over the shared database,
    and is not synced. *)
Definition CreateTxSha (rs : list Receipt) : st (Env D) bytes := λ e,
  let '(r, (trie, e')) := update_receipts 0 rs (Trie_New (VStr []), e) in
  match r with
  | Ret _ => match tr_Root trie with
             | VStr s => (Ret s, e')
             | VBytes b => (Ret b, e')
             | _ => (Panic, e')
             end
  | Panic => (Panic, e')
  | NoFuel => (NoFuel, e')
  end.

(** ethchain/block.go, Block.SetTxHash. *)
Definition SetTxHash (rs : list Receipt) (b : Block) : st (Env D) Block :=
  sha ← CreateTxSha rs;
  mret (mkBlock (PrevHash b) (Uncles b) (UncleSha b) (b_Coinbase b) (b_state b) (b_Difficulty b)
                (Time b) (b_Number b) (MinGasPrice b) (GasLimit b) (b_GasUsed b) (Extra b)
                (b_Nonce b) (transactions b) (receipts b) sha).

End TxSha.

End Block.

Arguments header : simpl never.

(** * The wire form of blocks *)

(** The root of a block's state: the empty string, or a digest. *)
Definition root_ok (v : goval) : Prop :=
  ∃ r, (v = VStr r ∨ v = VBytes r) ∧ (r = [] ∨ zlen r = 32).

Definition header_ok (b : Block) : Prop :=
  root_ok (State_Root (b_state b)) ∧ 0 <= b_Difficulty b ∧ (∃ n, b_Number b = Some n ∧ 0 <= n) ∧
  0 <= MinGasPrice b ∧ 0 <= GasLimit b ∧ 0 <= b_GasUsed b ∧ 0 <= Time b < 2 ^ 63.

Definition receipt_ok (r : Receipt) : Prop := tx_ok (r_Tx r) ∧ 0 <= CumulativeGasUsed r.

Definition block_ok (b : Block) : Prop :=
  header_ok b ∧ Forall receipt_ok (receipts b) ∧ Forall header_ok (Uncles b).

Definition receipt_item (r : Receipt) : item :=
  RList [tx_item (r_Tx r); RStr (PostState r); RStr (big_Bytes (CumulativeGasUsed r))].

Definition root_string (b : Block) : bytes := Value_Bytes (State_Root (b_state b)).

Definition header_fields (b : Block) : list item :=
  [RStr (PrevHash b); RStr (UncleSha b); RStr (b_Coinbase b); RStr (root_string b);
   RStr (TxSha b); RStr (big_Bytes (b_Difficulty b)); RStr (big_Bytes (default 0 (b_Number b)));
   RStr (big_Bytes (MinGasPrice b)); RStr (big_Bytes (GasLimit b)); RStr (big_Bytes (b_GasUsed b));
   RStr (big_Bytes (Time b)); RStr (Extra b); RStr (b_Nonce b)].

Definition block_item (b : Block) : item :=
  RList [RList (header_fields b); RList (map receipt_item (receipts b));
         RList (map (RList ∘ header_fields) (Uncles b))].

(** What arrives of a receipt, of a header, of a block. *)
Definition receipt_wire (r : Receipt) : Receipt :=
  mkReceipt (tx_wire (r_Tx r)) (PostState r) (CumulativeGasUsed r).

Definition header_wire (b : Block) : Block :=
  mkBlock (PrevHash b) [] (UncleSha b) (b_Coinbase b)
          (State_New (Trie_New (VBytes (root_string b)))) (b_Difficulty b) (Time b) (b_Number b)
          (MinGasPrice b) (GasLimit b) (b_GasUsed b) (Extra b) (b_Nonce b) [] [] (TxSha b).

Definition block_wire (b : Block) : Block :=
  let rs := map receipt_wire (receipts b) in
  mkBlock (PrevHash b) (map header_wire (Uncles b)) (UncleSha b) (b_Coinbase b)
          (State_New (Trie_New (VBytes (root_string b)))) (b_Difficulty b) (Time b) (b_Number b)
          (MinGasPrice b) (GasLimit b) (b_GasUsed b) (Extra b) (b_Nonce b) (map r_Tx rs) rs (TxSha b).

Lemma to_item_root v : root_ok v -> to_item v = Some (RStr (Value_Bytes v)).
Proof. by intros (r & [-> | ->] & _). Qed.

Lemma of_str_root v : root_ok v -> of_str (Value_Bytes v) = VBytes (Value_Bytes v).
Proof.
  intros (r & Hr & Hlen). assert (Value_Bytes v = r) as -> by (by destruct Hr as [-> | ->]).
  destruct r as [|x [|y r]]; [done| |done].
  destruct Hlen as [|Hlen]; [done|]. rewrite zlen_cons in Hlen. lenlia.
Qed.

Lemma to_item_header b :
  header_ok b -> ∃ h, header b = Ret h ∧ to_item (VList h) = Some (RList (header_fields b)).
Proof.
  intros (Hr & _ & (n & Hn & _) & _ & _ & _ & Ht). unfold header. rewrite Hn. cbn [big_val].
  eexists. split; [done|]. rewrite to_item_list. unfold header_fields. rewrite Hn.
  cbn [mapM]. rewrite (to_item_root _ Hr). simpl. by rewrite s64_small by lia.
Qed.

Lemma to_item_receipt r : receipt_ok r -> to_item (receipt_RlpData r) = Some (receipt_item r).
Proof.
  intros [(Hn & _) _]. unfold receipt_RlpData, receipt_item. rewrite to_item_list. cbn [mapM].
  by rewrite to_item_tx.
Qed.

Lemma to_items {A} (f : A -> goval) (g : A -> item) l :
  Forall (λ x, to_item (f x) = Some (g x)) l -> to_item (VList (map f l)) = Some (RList (map g l)).
Proof.
  intros Hl. rewrite to_item_list.
  enough (mapM to_item (map f l) = Some (map g l)) as -> by done.
  apply mapM_Some. induction Hl; constructor; auto.
Qed.

Lemma headers_ok l :
  Forall header_ok l ->
  ∃ hs, headers l = Ret hs ∧ to_item (VList hs) = Some (RList (map (RList ∘ header_fields) l)).
Proof.
  induction 1 as [|b l Hb Hl (hs & IH & IHi)]; [by exists []|].
  destruct (to_item_header b Hb) as (h & Eh & Hi). unfold headers in *. cbn [foldr]. rewrite IH, Eh.
  eexists. split; [done|]. rewrite to_item_list in *.
  apply fmap_Some in IHi as (its & Hits & [= <-]).
  cbn [mapM]. rewrite to_item_list, Hi.
  cbn [mbind option_bind]. by rewrite Hits.
Qed.

Lemma to_item_block b :
  block_ok b -> ∃ v, block_Value b = Ret v ∧ to_item v = Some (block_item b).
Proof.
  intros (Hh & Hr & Hu). destruct (to_item_header b Hh) as (h & Eh & Hi).
  destruct (headers_ok _ Hu) as (us & Eu & Hus).
  unfold block_Value, rlpUncles. rewrite Eh, Eu. eexists. split; [done|].
  assert (to_item (rlpReceipts b) = Some (RList (map receipt_item (receipts b)))) as Hrs.
  { apply to_items. eapply Forall_impl; [done|]. apply to_item_receipt. }
  cbn [NewValue]. rewrite to_item_list. cbn [mapM]. by rewrite Hi, Hrs, Hus.
Qed.

Lemma header_decode b :
  header_ok b -> NewUncleBlockFromValue (of_item (RList (header_fields b))) = header_wire b.
Proof.
  intros (Hr & Hd & (n & Hn & Hn0) & Hm & Hl & Hg & Ht).
  unfold NewUncleBlockFromValue, header_fields, header_wire. get_fields. cbn [of_item].
  rewrite Hn. change (default 0 (Some n)) with n. unfold root_string. rewrite (of_str_root _ Hr).
  rewrite !BigInt_big, !Bytes_of_str, !Str_of_str by lia.
  unfold big_Uint64. rewrite Z.abs_eq, u64_small, s64_small by lia. done.
Qed.

Lemma receipt_decode r :
  receipt_ok r -> NewRecieptFromValue (of_item (receipt_item r)) = receipt_wire r.
Proof.
  intros [Ht Hc]. unfold NewRecieptFromValue, receipt_RlpValueDecode, receipt_item, receipt_wire.
  get_fields. rewrite tx_decode by done. cbn [of_item]. by rewrite BigInt_big, Bytes_of_str by lia.
Qed.

Lemma elements_list its : elements (of_item (RList its)) = map of_item its.
Proof.
  unfold elements. change (of_item (RList its)) with (VList (map of_item its)).
  cbn [Value_Len]. rewrite zlen_map. unfold zlen. rewrite Nat2Z.id.
  apply list_eq. intros i. rewrite !list_lookup_fmap.
  destruct (decide (i < length its)%nat) as [Hi|Hi].
  - destruct (lookup_lt_is_Some_2 its i Hi) as [it Hit]. rewrite lookup_seq_lt, Hit by lia. simpl.
    f_equal. by apply (Get_item its).
  - rewrite lookup_seq_ge, (lookup_ge_None_2 its) by lia. done.
Qed.

Lemma map_decode {A B} (f : goval -> B) (g : A -> item) (h : A -> B) l :
  Forall (λ x, f (of_item (g x)) = h x) l -> map f (map of_item (map g l)) = map h l.
Proof. induction 1; simpl; by f_equal. Qed.

Lemma block_decode b : block_ok b -> NewBlockFromRlpValue (of_item (block_item b)) = block_wire b.
Proof.
  intros (Hh & Hr & Hu). unfold NewBlockFromRlpValue, block_RlpValueDecode, block_item.
  get_fields. rewrite header_decode by done.
  cbn [of_item IsNil negb]. fold of_item.
  change (VList (map of_item (map receipt_item (receipts b))))
    with (of_item (RList (map receipt_item (receipts b)))).
  change (VList (map of_item (map (RList ∘ header_fields) (Uncles b))))
    with (of_item (RList (map (RList ∘ header_fields) (Uncles b)))).
  rewrite !elements_list.
  rewrite (map_decode NewRecieptFromValue receipt_item receipt_wire)
    by (eapply Forall_impl; [done|]; apply receipt_decode).
  by rewrite (map_decode NewUncleBlockFromValue (RList ∘ header_fields) header_wire)
    by (eapply Forall_impl; [done|]; apply header_decode).
Qed.

Lemma receipt_item_wire r : receipt_item (receipt_wire r) = receipt_item r.
Proof.
  unfold receipt_item, receipt_wire, tx_item, tx_wire, tx_fields. simpl.
  pose proof (SetBytes_range (tx_r (r_Tx r))). pose proof (SetBytes_range (tx_s (r_Tx r))).
  by rewrite !SetBytes_Bytes, !Z.abs_eq by lia.
Qed.

Lemma header_ok_wire b : header_ok b -> header_ok (header_wire b).
Proof.
  intros (Hr & H1). split; [|exact H1].
  destruct Hr as (r & Hr & Hlen). exists r. split; [right|done].
  unfold header_wire, State_Root, root_string, Trie_New. simpl. by destruct Hr as [-> | ->].
Qed.

Lemma header_fields_wire b : header_fields (header_wire b) = header_fields b.
Proof. done. Qed.

(** A decoded block can be encoded, to the same item. *)
Lemma block_ok_wire b : block_ok b -> block_ok (block_wire b) ∧ block_item (block_wire b) = block_item b.
Proof.
  intros (Hh & Hr & Hu). split.
  - split; [by apply (header_ok_wire b)|]. split; apply Forall_fmap.
    + eapply Forall_impl; [done|]. intros r [(Hn & Hv & Hg & Hp) Hc]. repeat split; simpl; tauto.
    + eapply Forall_impl; [done|]. apply header_ok_wire.
  - unfold block_item. f_equal. f_equal. f_equal; [|f_equal]; cbn [receipts Uncles block_wire];
      f_equal; rewrite map_map; apply map_ext.
    + apply receipt_item_wire.
    + done.
Qed.

Lemma block_encoding b : block_ok b -> block_RlpEncode b = Ret (enc (block_item b)).
Proof.
  intros Hb. destruct (to_item_block b Hb) as (v & Hv & Hi).
  unfold block_RlpEncode, Value_Encode. rewrite Hv. cbn [fmap outcome_fmap].
  by rewrite (Encode_item v _ Hi).
Qed.

Lemma block_Hash_item `{Crypto} b : block_ok b -> block_Hash b = Ret (Sha3Bin (enc (block_item b))).
Proof.
  intros Hb. destruct (to_item_block b Hb) as (v & Hv & Hi).
  unfold block_Hash. rewrite Hv. cbn [mbind outcome_bind]. unfold Value_Encode.
  by rewrite (Encode_item v _ Hi).
Qed.

(** C11. A block survives the wire.  Take a block that has a number, and whose uncles have one,
    with times from 0 up to 2^63 and state roots that are empty or 32 bytes long in all of them, no negative amount in
    the headers, the receipts or the transactions, and transaction nonces below 2^63 (larger ones are
    encoded as another number).  The
    bytes of [RlpEncode], if fewer than 2^64, decode to a block with the
    same header fields, the same receipts and transactions (signatures without
    leading zeros, the mark for contract creation recomputed), the uncles' headers, and a
    state opened at the same root; it hashes to the same block hash. *)
Theorem block_roundtrip `{Crypto} (b : Block) :
  block_ok b ->
  ∃ data, block_RlpEncode b = Ret data ∧
    (zlen data < 2 ^ 64 -> NewBlockFromBytes data = Ret (block_wire b)) ∧
    block_Hash (block_wire b) = block_Hash b.
Proof.
  intros Hb. destruct (to_item_block b Hb) as (v & Hv & Hi).
  exists (Encode v). unfold block_RlpEncode. rewrite Hv. split; [done|]. split.
  - intros Hl. unfold NewBlockFromBytes, block_RlpDecode.
    rewrite (NewValueFromBytes_Encode v _ Hi Hl). cbn [mbind outcome_bind].
    f_equal. by apply block_decode.
  - destruct (block_ok_wire b Hb) as [Hw Hitem].
    by rewrite !block_Hash_item, Hitem by done.
Qed.

Lemma triple_inj x y z x' y' z' :
  RList [RList x; RList y; RList z] = RList [RList x'; RList y'; RList z'] ->
  x = x' ∧ y = y' ∧ z = z'.
Proof. by intros [= -> -> ->]. Qed.

(** C29. The hash of a block commits to the block.  Take two blocks that can be encoded faithfully: they and their uncles
    have numbers, times from 0 up to 2^63, state roots that are empty or 32 bytes long, no negative amounts, and
    transaction nonces below 2^63; and suppose that the digests of their
    encodings, which are shorter than 2^64 bytes, do not collide.  If they have the same hash, they are the same block as it
    arrives on the wire: the same header fields, state root, receipts and transactions in the same order
    (signatures without leading zeros, the mark for contract creation recomputed from the
    recipient), and uncles' headers. *)
Theorem block_Hash_commits `{Crypto} (a b : Block) :
  block_ok a -> block_ok b -> collision_free [enc (block_item a); enc (block_item b)] ->
  block_Hash a = block_Hash b ->
  block_wire a = block_wire b.
Proof.
  intros Ha Hb Hcf. rewrite !block_Hash_item by done. intros [= Heq].
  destruct (collision_free_pair _ _ Hcf Heq) as [E Hl]. apply enc_inj in E; [|done].
  by rewrite <-!block_decode, E.
Qed.

(** The gas limit of a block follows its parent: for any block but the
    first, it is (1023 limit + 6/5 used) / 1024, rounded down and at least
    125000; with a parent that used at most its limit it drops by at most a
    1024th (rounded up) and grows by at most a 5120th, above that minimum. *)
Theorem CalcGasLimit_spec (block parent : Block) (n : Z) :
  b_Number block = Some n -> n ≠ 0 -> 0 <= b_GasUsed parent <= GasLimit parent ->
  ∃ limit, CalcGasLimit block parent = Ret limit ∧
    limit = Z.max 125000 ((1023 * GasLimit parent + 6 * b_GasUsed parent / 5) / 1024) ∧
    GasLimit parent - GasLimit parent / 1024 - 1 <= limit ∧
    limit <= Z.max 125000 (GasLimit parent + GasLimit parent / 5120).
Proof.
  intros Hn Hn0 Hu. unfold CalcGasLimit. rewrite Hn. destruct (Z.eqb_spec n 0); [done|].
  set (u := b_GasUsed parent) in *. set (l := GasLimit parent) in *.
  assert (∀ d, 0 < d -> (d | u * 6) -> (d | 5) -> u * 6 / d / (5 / d) = 6 * u / 5) as Hred.
  { intros d Hd [x Hx] [y Hy]. rewrite Hx, Hy. rewrite !Z.div_mul by lia.
    replace (6 * u) with (x * d) by lia. rewrite Z.div_mul_cancel_r by lia. done. }
  assert (0 < Z.gcd (u * 6) 5) as Hg.
  { pose proof (Z.gcd_nonneg (u * 6) 5). assert (Z.gcd (u * 6) 5 ≠ 0); [|lia].
    intros E%Z.gcd_eq_0_r. lia. }
  pose proof (Z.gcd_divide_l (u * 6) 5) as Hdl. pose proof (Z.gcd_divide_r (u * 6) 5) as Hdr.
  set (d := Z.gcd (u * 6) 5) in *.
  assert (0 < 5 / d) as Hpos.
  { apply Z.div_str_pos. split; [done|]. apply Z.divide_pos_le; [lia|done]. }
  unfold big_Div. destruct (Z.eqb_spec (5 / d) 0); [lia|]. cbn [mbind outcome_bind].
  rewrite (Z.sgn_pos (5 / d)), (Z.abs_eq (5 / d)), Hred by (done || lia).
  change (1024 =? 0) with false. cbn [mbind outcome_bind].
  change (Z.sgn 1024) with 1. change (Z.abs 1024) with 1024.
  eexists. split; [done|]. rewrite BigMax_max.
  rewrite !Z.mul_1_l. change (1024 - 1) with 1023.
  clearbody u l d. clear Hred Hdl Hdr Hpos Hg.
  split; [done|]. split; Z.to_euclidean_division_equations; lia.
Qed.

(** * The genesis block *)

Lemma encode_bytes_le b : zlen b < 2 ^ 64 -> zlen (encode_bytes b) <= zlen b + 9.
Proof.
  intros Hb. destruct (encode_bytes_shape b) as [x -> Hx|Hs Hv|Hl Hv]; [lenlia|lenlia|].
  pose proof (len_bytes (zlen b) ltac:(lia)). lenlia.
Qed.

Lemma header_le n : 0 <= n < 2 ^ 64 -> zlen (WriteSliceHeader n) <= 9.
Proof.
  intros Hn. unfold WriteSliceHeader. destruct (Z.ltb_spec n 56); [lenlia|].
  pose proof (len_bytes n ltac:(lia)). lenlia.
Qed.

Section Genesis.
Context `{Crypto}.

Definition genesis_fields : list item :=
  [RStr ZeroHash256; RStr EmptyShaList; RStr ZeroHash160; RStr []; RStr []; RStr (big_Bytes 131072);
   RStr []; RStr []; RStr (big_Bytes 1000000); RStr []; RStr []; RList [];
   RStr (Sha3Bin (big_Bytes 42))].

Lemma to_item_genesis :
  to_item Genesis = Some (RList [RList genesis_fields; RList []; RList []]).
Proof. done. Qed.

Lemma genesis_len : zlen (Encode Genesis) < 2 ^ 64.
Proof.
  rewrite (Encode_item _ _ to_item_genesis), !enc_list.
  assert (zlen EmptyShaList = 32) as H1 by apply Sha3Bin_len.
  assert (zlen (Sha3Bin (big_Bytes 42)) = 32) as H2 by apply Sha3Bin_len.
  pose proof (encode_bytes_le ZeroHash256 ltac:(by vm_compute)) as H3.
  pose proof (encode_bytes_le ZeroHash160 ltac:(by vm_compute)) as H4.
  assert (zlen (encode_bytes EmptyShaList) <= 41) as H5 by (rewrite encode_bytes_le; lia).
  assert (zlen (encode_bytes (Sha3Bin (big_Bytes 42))) <= 41) as H6 by (rewrite encode_bytes_le; lia).
  change (zlen ZeroHash256) with 32 in H3. change (zlen ZeroHash160) with 20 in H4.
  set (c := concat (map enc genesis_fields)).
  assert (zlen c < 300).
  { unfold c, genesis_fields. cbn [map concat enc].
    change (zlen (concat [])) with 0. change (WriteSliceHeader 0) with [xc0].
    change (encode_bytes []) with [x80].
    change (encode_bytes (big_Bytes 131072)) with [x83; x02; x00; x00].
    change (encode_bytes (big_Bytes 1000000)) with [x83; x0f; x42; x40].
    pose proof (header_le 0 ltac:(lia)). clearbody c. lenlia. }
  cbn [map concat enc]. fold c.
  pose proof (header_le (zlen c) ltac:(lenlia)). pose proof (header_le 0 ltac:(lia)).
  autorewrite with zlen.
  match goal with |- zlen (WriteSliceHeader ?n) + _ < _ => pose proof (header_le n ltac:(lenlia)) end.
  lenlia.
Qed.

(** The block that the literal decodes to. *)
Definition genesis_decoded : Block :=
  mkBlock ZeroHash256 [] EmptyShaList ZeroHash160 (State_New (Trie_New (VBytes []))) 131072 0
          (Some 0) 0 1000000 0 [] (Sha3Bin (big_Bytes 42)) [] [] [].

Lemma genesis_decode :
  NewBlockFromRlpValue (of_item (RList [RList genesis_fields; RList []; RList []]))
  = genesis_decoded.
Proof.
  unfold NewBlockFromRlpValue, block_RlpValueDecode, NewUncleBlockFromValue, genesis_fields.
  get_fields. cbn [of_item map].
  rewrite !BigInt_big, !Bytes_of_str by lia. done.
Qed.

(** The genesis block: the literal [Genesis] decodes to block 0 with
    difficulty 131072, gas limit 1000000, the empty state and nothing in it, in
    the form that every theorem about blocks asks for; but its bytes are not
    the encoding of that block, because the literal has nil (an empty list)
    for the extra data and the decoded block an empty string. *)
Theorem genesis_block :
  ∃ b, NewBlockFromBytes (Encode Genesis) = Ret b ∧ block_ok b ∧
    b_Number b = Some 0 ∧ b_Difficulty b = 131072 ∧ GasLimit b = 1000000 ∧
    GetRoot b = VBytes [] ∧ PrevHash b = ZeroHash256 ∧ Time b = 0 ∧
    receipts b = [] ∧ Uncles b = [] ∧ block_RlpEncode b ≠ Ret (Encode Genesis).
Proof.
  exists genesis_decoded.
  assert (block_ok genesis_decoded) as Hb.
  { split; [|split; by apply Forall_nil]. split; [exists []; by auto|].
    split; [done|]. split; [by exists 0|]. done. }
  split.
  { unfold NewBlockFromBytes, block_RlpDecode.
    rewrite (NewValueFromBytes_Encode _ _ to_item_genesis genesis_len). cbn [mbind outcome_bind].
    f_equal. apply genesis_decode. }
  repeat (split; [done|]).
  destruct (to_item_block _ Hb) as (v & Hv & Hi). unfold block_RlpEncode. rewrite Hv.
  unfold Value_Encode. rewrite (Encode_item _ _ to_item_genesis).
  cbn [fmap outcome_fmap]. rewrite (Encode_item v _ Hi). set (x := enc (block_item _)).
  set (y := enc _). intros E. assert (x = y) as E' by congruence. clear E. unfold x, y in E'.
  rename E' into E.
  symmetry in E. apply enc_inj in E.
  - apply triple_inj in E as [E _].
    assert (Some (RList []) = Some (RStr [])) as E11 by exact (f_equal (λ l, l !! 11%nat) E).
    discriminate E11.
  - rewrite <-(Encode_item _ _ to_item_genesis). apply genesis_len.
Qed.

End Genesis.

(** ** Runs *)

Definition example_block : Block :=
  mkBlock (zeros 32) [] (zeros 32) (zeros 20) (State_New (Trie_New (VStr []))) 131072 1400000000
          (Some 1) 10 1000000 500 (asc "extra") [x2a] [example_tx]
          [mkReceipt example_tx (zeros 32) 500] (zeros 32).

Lemma example_block_ok : block_ok example_block.
Proof.
  split; [|split; [|by apply Forall_nil]].
  - split; [exists []; by auto|]. split; [done|]. split; [by exists 1|]. done.
  - by repeat constructor.
Defined.

Lemma block_roundtrip_witness :
  ∃ data, block_RlpEncode example_block = Ret data ∧
    (zlen data < 2 ^ 64 -> NewBlockFromBytes data = Ret (block_wire example_block)) ∧
    @block_Hash toy_crypto (block_wire example_block) = @block_Hash toy_crypto example_block.
Proof. apply (@block_roundtrip toy_crypto example_block). exact example_block_ok. Defined.

Lemma block_Hash_commits_witness : block_wire example_block = block_wire (block_wire example_block).
Proof.
  apply (@block_Hash_commits toy_crypto example_block (block_wire example_block)).
  - exact example_block_ok.
  - apply (block_ok_wire example_block example_block_ok).
  - apply (@cf_check_ok toy_crypto). vm_compute. reflexivity.
  - vm_compute. reflexivity.
Defined.

Lemma CalcGasLimit_spec_witness :
  ∃ limit, CalcGasLimit example_block (set_b_GasUsed 600000 example_block) = Ret limit ∧
    limit = Z.max 125000 ((1023 * 1000000 + 6 * 600000 / 5) / 1024) ∧
    1000000 - 1000000 / 1024 - 1 <= limit ∧ limit <= Z.max 125000 (1000000 + 1000000 / 5120).
Proof.
  apply (CalcGasLimit_spec example_block (set_b_GasUsed 600000 example_block) 1);
    [reflexivity|discriminate|cbn; lia].
Defined.
