(* ===== verification/TrieRoot.v ===== *)
(** The root of a trie commits to its content: two tries whose roots are equal
    hold the same map, unless the hash function collides on the nodes of the
    two.  The receipts of a block ([CreateTxSha] of [ethchain/block.go]) are
    committed to in this way. *)

From S2P Require Import Prelude GoVal Big Bytes Rlp Value Db Crypto Nibbles Trie TrieSpec State.
From S2P Require Import Curve Transaction Block.

(** * References determine contents *)

(** Two node tables that agree where both are defined. *)
Definition compatible (S S' : gmap bytes item) : Prop :=
  ∀ h it it', S !! h = Some it -> S' !! h = Some it' -> it = it'.

Definition agree (m m' : tmap) : Prop := ∀ r, valid r -> read m r = read m' r.

Lemma pair_not_branch (x y : item) cs v : length cs = 16%nat -> [x; y] ≠ cs ++ [RStr v].
Proof. intros Hc E%(f_equal length). rewrite length_app, Hc in E. done. Qed.

Section Functional.
Variables S S' : gmap bytes item.
Hypothesis Hcompat : compatible S S'.

(** What [tref] and [tnode] determine. *)
Definition ref_agrees (it : item) (m : tmap) : Prop := ∀ m', tref S' it m' -> agree m m'.
Definition node_agrees (it : item) (m : tmap) : Prop := ∀ m', tnode S' it m' -> agree m m'.

Lemma leaf_agrees k v m :
  nibbles k -> (∀ r, valid r -> m r = if bool_decide (r = k ++ [16]) then Some v else None) ->
  node_agrees (RList [RStr (compact true k); RStr v]) m.
Proof.
  intros Hk Hm m' H' r Hr. unfold read. rewrite Hm by done. inversion H' as [k' v' ? Hk' Hm' E|k' c mc ? Hk' ? ? ? ? ? E|cs ? ? ? Hc ? ? ? E]; subst.
  - apply compact_inj in E as [_ ->]; [|done|done]. by rewrite Hm'.
  - by apply compact_inj in E as [? _].
  - symmetry in E. by eapply pair_not_branch in E.
Qed.

Lemma ext_agrees k c mc m :
  nibbles k -> ref_agrees c mc -> (∀ r, valid r -> m (k ++ r) = mc r) ->
  (∀ r, valid r -> (∀ r', r ≠ k ++ r') -> m r = None) ->
  node_agrees (RList [RStr (compact false k); c]) m.
Proof.
  intros Hk Hc Hm Hout m' H' r Hr. unfold read.
  inversion H' as [k' v' ? Hk' Hm' E|k' c' mc' ? Hk' Hne Href Hm' Hout' ? E|cs ? ? ? Hl ? ? ? E]; subst.
  - by apply compact_inj in E as [? _].
  - apply compact_inj in E as [_ ->]; [|done|done].
    destruct (decide (take (length k) r = k)) as [Ht|Ht].
    + rewrite <-(take_drop (length k) r), Ht in Hr |- *.
      pose proof (valid_prefix _ _ Hk Hr) as Hd. rewrite Hm, Hm' by done. by apply Hc.
    + assert (∀ r', r ≠ k ++ r') as Hno by (intros r' ->; by rewrite take_app_length in Ht).
      by rewrite Hout, Hout' by done.
  - symmetry in E. by eapply pair_not_branch in E.
Qed.

Lemma branch_agrees cs v ms m :
  length cs = 16%nat -> (∀ i c, cs !! i = Some c -> ref_agrees c (ms i)) ->
  (∀ i r, (i < 16)%nat -> valid r -> m (Z.of_nat i :: r) = ms i r) -> read m [16] = v ->
  node_agrees (RList (cs ++ [RStr v])) m.
Proof.
  intros Hl Hcs Hm Hv m' H' r Hr.
  inversion H' as [k' v' ? Hk' Hm' E|k' c' mc' ? Hk' ? ? ? ? ? E|cs' v' ms' ? Hl' Hcs' Hm' Hv' E].
  - by eapply pair_not_branch in E.
  - by eapply pair_not_branch in E.
  - apply app_inj_tail in E as [-> [= ->]]. subst. destruct r as [|i r]; [by apply valid_nonempty in Hr|].
    apply valid_cons in Hr as [[-> ->]|[Hi Hr]]; [congruence|]. unfold read.
    unfold nibble in Hi. rewrite <-(Z2Nat.id i) by lia.
    destruct (lookup_lt_is_Some_2 cs (Z.to_nat i)) as [c Hc]; [lia|].
    rewrite Hm, Hm' by (done || lia). by apply (Hcs _ _ Hc (ms' (Z.to_nat i))); [apply Hcs'|].
Qed.

Lemma tref_agrees it m : tref S it m -> ref_agrees it m.
Proof.
  intros H. induction H using tref_mut with (P0 := λ it m _, node_agrees it m).
  - intros m' H' r Hr. unfold read. rewrite e by done. inversion H' as [? Hm' E|h n ? ? Hh ? E|]; subst.
    + by rewrite Hm'.
    + done.
  - intros m' H'. inversion H' as [? Hm' E|h' n' ? Hn' Hh ? E|]; subst; [done|].
    apply IHtref. by rewrite (Hcompat _ _ _ e Hn').
  - intros m' H'. inversion H' as [| |l' ? Hn E]; subst. by apply IHtref.
  - by apply leaf_agrees.
  - by eapply ext_agrees.
  - by eapply branch_agrees.
Qed.

End Functional.

(** * Roots *)

Section Roots.
Context `{HC : Crypto} {D : Type} `{HD : Database D} `{HL : !DatabaseLaws D}.

Lemma store_compatible (s s' : Store D) S S' :
  store_ok s S -> store_ok s' S' -> collision_free (hashed s ++ hashed s') -> compatible S S'.
Proof.
  intros [Hs _ _] [Hs' _ _] [Hcf Hlen] h it it' H1 H2.
  destruct (Hs h it H1) as (-> & _ & Hi). destruct (Hs' _ it' H2) as (Heq & _ & Hi').
  apply enc_inj; [apply Hlen, elem_of_app; by left|].
  apply Hcf; [apply elem_of_app; by left|apply elem_of_app; by right|done].
Qed.

(** Tries with the same root, as RLP items, have the same content. *)
Lemma root_commits te te' M M' M0 M0' :
  trie_ok (D := D) te M M0 -> trie_ok te' M' M0' ->
  collision_free (e_hashed te.2 ++ e_hashed te'.2) ->
  to_item (tr_Root te.1) = to_item (tr_Root te'.1) ->
  ∀ key, content M key = content M' key.
Proof.
  intros (S & ? & Hok & (_ & m & (it & Hv & Hz & Ht) & _ & HM) & _)
    (S' & ? & Hok' & (_ & m' & (it' & Hv' & Hz' & Ht') & _ & HM') & _) Hcf Heq key.
  rewrite (vrep_to_item _ _ Hv Hz), (vrep_to_item _ _ Hv' Hz') in Heq. injection Heq as <-.
  unfold content. rewrite <-HM, <-HM'. eapply tref_agrees; [|done|done|apply valid_key].
  by eapply store_compatible.
Qed.

(** Writing a list of pairs, and the content it leaves. *)
Definition update_all (kvs : list (bytes * bytes)) : TrieM unit (D := D) :=
  for_each (λ kv, Update kv.1 kv.2) kvs.

Definition written (kvs : list (bytes * bytes)) (M : gmap bytes bytes) : gmap bytes bytes :=
  fold_left (λ M kv, <[kv.1 := kv.2]> M) kvs M.

Lemma grows_update_all kvs : grows (update_all kvs).
Proof.
  induction kvs as [|kv kvs IH]; [by intros ? ?|].
  apply grows_bind; [apply grows_Update|done].
Qed.

Lemma update_all_ok kvs : ∀ te M M0,
  Forall (λ kv, kv.2 ≠ [x00]) kvs -> trie_ok te M M0 ->
  hwp (update_all kvs) (λ _ te', trie_ok te' (written kvs M) M0) te.
Proof.
  induction kvs as [|kv kvs IH]; intros te M M0 Hall Hok; [by apply (hwp_ret tt)|].
  apply Forall_cons in Hall as [Hkv Hall].
  apply hwp_bind; [intros ?; apply grows_update_all|].
  eapply hwp_mono; [|by apply Update_ok]. intros [] te' Hok'. by apply IH.
Qed.

(** C6. The root of a trie commits to its content: write two lists of pairs into two
    new tries, over any databases; both writes return, and if the roots come
    out equal then every key reads the same in both, unless the hash
    function collides on a node of the two. *)
Theorem trie_root_commits (a b : list (bytes * bytes)) (e e' : Env D) :
  Forall (λ kv, kv.2 ≠ [x00]) (a ++ b) ->
  let r := update_all a (Trie_New (VStr []), e) in
  let r' := update_all b (Trie_New (VStr []), e') in
  collision_free (e_hashed r.2.2 ++ e_hashed r'.2.2) ->
  r.1 = Ret tt ∧ r'.1 = Ret tt ∧
  (to_item (tr_Root r.2.1) = to_item (tr_Root r'.2.1) ->
   ∀ key, content (written a ∅) key = content (written b ∅) key).
Proof.
  intros [Ha Hb]%Forall_app r r' Hcf.
  destruct (update_all_ok a (Trie_New (VStr []), e) ∅ ∅) as ([] & Hr & Hok); [done|apply New_ok| |].
  { eapply collision_free_mono; [|done]. apply list_subseteq_app_l. done. }
  destruct (update_all_ok b (Trie_New (VStr []), e') ∅ ∅) as ([] & Hr' & Hok'); [done|apply New_ok| |].
  { eapply collision_free_mono; [|done]. apply list_subseteq_app_r. done. }
  split; [done|]. split; [done|]. intros Heq key. by eapply root_commits.
Qed.

End Roots.

(** * Receipts *)

Section Receipts.
Context `{HC : Crypto} {D : Type} `{HD : Database D} `{HL : !DatabaseLaws D}.

Lemma root_type_string v s r : (root_type (D := D) v s).1 = Ret r -> is_string r.
Proof.
  unfold root_type, is_string.
  destruct v; try (intros [= <-]; by eauto);
    unfold PutValue; rewrite orb_true_r; intros [= <-]; by eauto.
Qed.

Lemma Update_string key w te u :
  (Update (D := D) key w te).1 = Ret u -> is_string (tr_Root (Update key w te).2.1).
Proof.
  destruct te as [t e]. unfold Update, mbind, st_bind, get_Root, run, set_Root.
  destruct (UpdateState _ _ _ _ _) as [[v| |] s]; [|done|done].
  cbn. destruct (root_type v _) as [[r| |] s'] eqn:E; [|done|done]. cbn.
  intros _. by apply (root_type_string v (mkStore (st_cache s) (st_env s))); rewrite E.
Qed.

Lemma update_all_string kvs : ∀ te u,
  is_string (tr_Root te.1) -> (update_all (D := D) kvs te).1 = Ret u ->
  is_string (tr_Root (update_all kvs te).2.1).
Proof.
  induction kvs as [|kv kvs IH]; intros te u Hs; [done|].
  unfold update_all. cbn [for_each]. unfold mbind, st_bind.
  pose proof (Update_string kv.1 kv.2 te) as Hu.
  destruct (Update kv.1 kv.2 te) as [[x| |] te']; [|done|done]. cbn in *.
  apply IH. by eapply Hu.
Qed.

(** The pairs that [CreateTxSha] writes. *)
Definition receipt_key (i : Z) : bytes := Value_Encode (NewValue (VInt Kint i)).

Fixpoint receipt_pairs (i : Z) (rs : list Receipt) : list (bytes * bytes) :=
  match rs with
  | [] => []
  | r :: rest => (receipt_key i, Value_Encode (NewValue (receipt_RlpData r))) :: receipt_pairs (i + 1) rest
  end.

Lemma update_receipts_all rs : ∀ i, update_receipts (D := D) i rs = update_all (receipt_pairs i rs).
Proof.
  induction rs as [|r rs IH]; intros i; [done|].
  cbn [update_receipts]. rewrite IH. done.
Qed.

Lemma receipt_key_inj i j : 0 <= i < 2 ^ 63 -> 0 <= j < 2 ^ 63 -> receipt_key i = receipt_key j -> i = j.
Proof.
  intros Hi Hj. unfold receipt_key, Value_Encode. cbn [NewValue].
  rewrite (Encode_item _ (RStr (big_Bytes (s64 i)))), (Encode_item _ (RStr (big_Bytes (s64 j)))) by done.
  rewrite !s64_small by lia. intros E%enc_inj.
  - injection E as E%(f_equal big_SetBytes). rewrite !SetBytes_Bytes in E. lia.
  - cbn [enc]. assert (zlen (big_Bytes i) <= 8).
    { apply Bytes_len_le; [lia|]. change (256 ^ 8) with (2 ^ 64). lia. }
    pose proof (encode_bytes_le (big_Bytes i) ltac:(lia)). lia.
Qed.

Lemma receipt_pairs_lookup rs : ∀ i k M,
  0 <= i -> i + zlen rs < 2 ^ 63 -> 0 <= k < 2 ^ 63 ->
  written (receipt_pairs i rs) M !! receipt_key k =
  if bool_decide (i <= k < i + zlen rs)
  then Value_Encode ∘ receipt_RlpData <$> rs !! Z.to_nat (k - i) else M !! receipt_key k.
Proof.
  induction rs as [|r rs IH]; intros i k M Hi Hl Hk; cbn [receipt_pairs].
  - rewrite bool_decide_eq_false_2; [done|lenlia].
  - rewrite zlen_cons in *. unfold written. cbn [fold_left fst snd]. fold (written (receipt_pairs (i + 1) rs)).
    rewrite IH by lia. destruct (decide (k = i)) as [->|Hne].
    + rewrite bool_decide_eq_false_2, bool_decide_eq_true_2 by lenlia.
      rewrite lookup_insert_eq, Z.sub_diag. done.
    + destruct (decide (i <= k < i + (1 + zlen rs))).
      * rewrite !bool_decide_eq_true_2 by lia.
        replace (Z.to_nat (k - i)) with (S (Z.to_nat (k - (i + 1)))) by lia. done.
      * rewrite !bool_decide_eq_false_2 by lia. apply lookup_insert_ne.
        intros E. pose proof (zlen_nonneg rs). apply receipt_key_inj in E; lia.
Qed.

(** Receipts that can be encoded. *)
Definition receipt_fits (r : Receipt) : Prop :=
  receipt_ok r ∧ zlen (Value_Encode (receipt_RlpData r)) < 2 ^ 64.

Lemma receipt_encoding r :
  receipt_fits r -> Value_Encode (receipt_RlpData r) = enc (receipt_item r) ∧
                    zlen (enc (receipt_item r)) < 2 ^ 64.
Proof.
  intros [Hr Hl]. assert (Value_Encode (receipt_RlpData r) = enc (receipt_item r)) as <-; [|done].
  by apply Encode_item, to_item_receipt.
Qed.

Lemma enc_list_storable l : zlen (enc (RList l)) < 2 ^ 64 -> enc (RList l) ≠ [x00].
Proof.
  rewrite enc_list. set (c := concat _). pose proof (zlen_nonneg c). intros Hl E.
  revert Hl E. unfold WriteSliceHeader.
  destruct (Z.ltb_spec (zlen c) 56) as [Hc|Hc]; cbn [app]; intros Hl E;
    injection E as E _; apply (f_equal b2z) in E; rewrite b2z_z2b in E; change (b2z x00) with 0 in E.
  - rewrite Z.mod_small in E by lia. lia.
  - pose proof (len_bytes (zlen c) ltac:(lenlia)). rewrite Z.mod_small in E by lia. lia.
Qed.

Lemma receipt_pairs_storable rs : ∀ i,
  Forall receipt_fits rs -> Forall (λ kv, kv.2 ≠ [x00]) (receipt_pairs i rs).
Proof.
  induction rs as [|r rs IH]; intros i Hrs; [by constructor|].
  apply Forall_cons in Hrs as [Hr Hrs]. constructor; [|by apply IH].
  destruct (receipt_encoding r Hr) as [E Hl]. cbn [snd].
  change (NewValue (receipt_RlpData r)) with (receipt_RlpData r). rewrite E.
  by apply enc_list_storable.
Qed.

(** What the trie of the receipts holds under a position. *)
Lemma receipts_content rs k :
  Forall receipt_fits rs -> zlen rs < 2 ^ 63 -> 0 <= k < 2 ^ 63 ->
  content (written (receipt_pairs 0 rs) ∅) (receipt_key k)
  = default [] (enc ∘ receipt_item <$> rs !! Z.to_nat k).
Proof.
  intros Hrs Hl Hk. unfold content. rewrite receipt_pairs_lookup by lia.
  rewrite lookup_empty, Z.sub_0_r, Z.add_0_l.
  case_bool_decide as Hb.
  - destruct (rs !! Z.to_nat k) as [r|] eqn:E; [|done]. cbn.
    apply (Forall_lookup_1 _ _ _ _ Hrs), receipt_encoding in E as [E _]. done.
  - rewrite lookup_ge_None_2; [done|]. unfold zlen in Hb. lia.
Qed.

Lemma CreateTxSha_ok rs (e : Env D) :
  Forall receipt_fits rs -> collision_free (e_hashed (CreateTxSha rs e).2) ->
  ∃ te sha, (CreateTxSha rs e) = (Ret sha, te.2) ∧
    trie_ok te (written (receipt_pairs 0 rs) ∅) ∅ ∧ to_item (tr_Root te.1) = Some (RStr sha).
Proof.
  intros Hrs. unfold CreateTxSha. rewrite update_receipts_all.
  pose proof (update_all_ok (receipt_pairs 0 rs) (Trie_New (VStr []), e) ∅ ∅) as Hu.
  unfold hwp in Hu.
  pose proof (update_all_string (receipt_pairs 0 rs) (Trie_New (VStr []), e)) as Hs.
  destruct (update_all _ _) as [o [t e']]. cbn [fst snd] in *. intros Hcf.
  destruct Hu as ([] & Ho & Hok); [by apply receipt_pairs_storable|apply New_ok| |].
  { cbn in *. destruct o; [|done|done]. by destruct (tr_Root t). }
  cbn in Ho. subst o. destruct (Hs tt) as (b & Hb); [by exists []; left|done|]. cbn in Hb.
  exists (t, e'), b. destruct Hb as [Hb|Hb]; rewrite Hb; cbn; by rewrite Hb.
Qed.

(** C9. The transaction root of a block commits to its receipts.  Take two lists of fewer than 2^63
    receipts that can be encoded faithfully: transaction nonces below 2^63 (larger ones are encoded as another
    number), amounts and used gas not negative, each encoding shorter than 2^64 bytes; and suppose that the hash function
    does not collide on the nodes of the two tries.
    Then [CreateTxSha] returns for both, and if the roots are the same, so are the lists as they arrive on the
    wire: the same receipts of the same transactions in the same order, signatures without leading
    zeros, and the mark for contract creation, which is not encoded, recomputed from the recipient. *)
Theorem CreateTxSha_commits (rs rs' : list Receipt) (e e' : Env D) :
  Forall receipt_fits rs -> Forall receipt_fits rs' -> zlen rs < 2 ^ 63 -> zlen rs' < 2 ^ 63 ->
  let r := CreateTxSha rs e in
  let r' := CreateTxSha rs' e' in
  collision_free (e_hashed r.2 ++ e_hashed r'.2) ->
  (∃ sha, r.1 = Ret sha) ∧ (∃ sha, r'.1 = Ret sha) ∧
  (r.1 = r'.1 -> map receipt_wire rs = map receipt_wire rs').
Proof.
  intros Hrs Hrs' Hl Hl' r r' Hcf.
  destruct (CreateTxSha_ok rs e Hrs) as (te & sha & Hr & Hok & Hroot).
  { eapply collision_free_mono; [|done]. by apply list_subseteq_app_l. }
  destruct (CreateTxSha_ok rs' e' Hrs') as (te' & sha' & Hr' & Hok' & Hroot').
  { eapply collision_free_mono; [|done]. by apply list_subseteq_app_r. }
  unfold r, r' in *. rewrite Hr, Hr' in *. split; [by eexists|]. split; [by eexists|].
  cbn. intros [= ->]. rewrite <-Hroot' in Hroot.
  assert (∀ k, enc ∘ receipt_item <$> rs !! k = enc ∘ receipt_item <$> rs' !! k) as Hk.
  { intros k. destruct (decide (Z.of_nat k < 2 ^ 63)).
    - pose proof (root_commits _ _ _ _ _ _ Hok Hok' Hcf Hroot (receipt_key (Z.of_nat k))) as Hc.
      rewrite !receipts_content, !Nat2Z.id in Hc by (done || lia).
      assert (∀ r, enc (receipt_item r) ≠ []) as Hne.
      { intros x E. pose proof (enc_pos (receipt_item x)). rewrite E in *. done. }
      destruct (rs !! k), (rs' !! k); cbn [fmap option_fmap option_map default from_option] in *;
        [by f_equal|by edestruct Hne|by edestruct Hne|done].
    - unfold zlen in *. by rewrite !lookup_ge_None_2 by lia. }
  apply list_eq. intros k. rewrite !list_lookup_fmap. specialize (Hk k).
  destruct (rs !! k) as [x|] eqn:E, (rs' !! k) as [x'|] eqn:E'; [|done|done|done].
  apply (inj Some) in Hk. cbn [fmap option_fmap option_map]. f_equal.
  pose proof (Forall_lookup_1 _ _ _ _ Hrs E) as Hx. pose proof (Forall_lookup_1 _ _ _ _ Hrs' E') as [Hx' _].
  apply enc_inj in Hk; [|by apply receipt_encoding].
  rewrite <-(receipt_decode x), <-(receipt_decode x'), Hk; [done..|apply Hx].
Qed.

End Receipts.

(** ** Runs *)

#[local] Existing Instance toy_crypto.

Definition new_env : Env MemDatabase := mkEnv NewMemDatabase [].

Lemma trie_root_commits_witness :
  content (written [(asc "do", asc "verb"); (asc "dog", asc "puppy")] ∅) (asc "dog")
  = content (written [(asc "dog", asc "kitten"); (asc "do", asc "verb"); (asc "dog", asc "puppy")] ∅)
      (asc "dog").
Proof.
  apply (trie_root_commits (HC := toy_crypto)
           [(asc "do", asc "verb"); (asc "dog", asc "puppy")]
           [(asc "dog", asc "kitten"); (asc "do", asc "verb"); (asc "dog", asc "puppy")] new_env new_env).
  - repeat constructor; discriminate.
  - apply cf_check_ok. vm_compute. reflexivity.
  - vm_compute. reflexivity.
Defined.

Lemma example_fits (r : Receipt) :
  r = mkReceipt example_tx (zeros 32) 500 -> receipt_fits r ∧ receipt_fits (receipt_wire r).
Proof. intros ->. vm_compute. intuition discriminate. Qed.

Lemma CreateTxSha_commits_witness :
  map receipt_wire [mkReceipt example_tx (zeros 32) 500]
  = map receipt_wire [receipt_wire (mkReceipt example_tx (zeros 32) 500)].
Proof.
  apply (CreateTxSha_commits (HC := toy_crypto) [mkReceipt example_tx (zeros 32) 500]
           [receipt_wire (mkReceipt example_tx (zeros 32) 500)] new_env new_env).
  - apply Forall_singleton. by apply example_fits.
  - apply Forall_singleton. by apply example_fits.
  - reflexivity.
  - reflexivity.
  - apply cf_check_ok. vm_compute. reflexivity.
  - vm_compute. reflexivity.
Defined.
