(* ===== verification/TrieIter.v ===== *)
(** The iteration of [ethtrie/trie.go] (TrieIterator.Each): on a trie that
    represents a map, it makes one call for every key with a value, in the order
    of the nibble paths, and terminates.

    The walk has no bound of its own: it follows the hashes it finds.  That it
    ends is a fact about the trie relation [tref] of [TrieSpec], and the proofs
    go by induction on it. *)

From stdpp Require Import sorting.
From S2P Require Import Prelude GoVal Big Bytes Rlp Value Db Crypto Nibbles Trie TrieSpec TrieRoot.

(** * Paths *)

(** The order of the paths: by nibbles, the terminator last. *)
Fixpoint path_lt (a b : list Z) : Prop :=
  match a, b with
  | x :: a, y :: b => x < y ∨ x = y ∧ path_lt a b
  | _, _ => False
  end.

Lemma path_lt_app k a b : path_lt a b -> path_lt (k ++ a) (k ++ b).
Proof. intros Hab. induction k as [|x k IH]; cbn; [done|by right]. Qed.

Lemma path_lt_irrefl a : ¬ path_lt a a.
Proof. induction a as [|x a IH]; [by intros []|]. intros [?|[_ ?]]; [lia|done]. Qed.

(** The string of a path. *)
Definition path_key (r : list Z) : bytes := match DecodeCompact r with Ret k => k | _ => [] end.

Lemma path_key_HexDecode key : path_key (CompactHexDecode key) = key.
Proof. unfold path_key. by rewrite DecodeCompact_HexDecode. Qed.

Lemma DecodeCompact_valid r : valid r -> DecodeCompact r = Ret (path_key r).
Proof.
  intros (k & Hk & ->). unfold path_key.
  enough (∃ s, DecodeCompact (k ++ [16]) = Ret s) as [s ->] by done.
  unfold DecodeCompact. set (f := λ v acc, _).
  enough (∃ s, foldr f (Ret []) (k ++ [16]) = Ret s) as [s ->] by (cbn; eauto).
  induction Hk as [|x k Hx _ [s IH]]; [by exists []|].
  exists (hexdigit x :: s). cbn [app foldr]. rewrite IH. unfold f. cbn [mbind outcome_bind].
  unfold nibble in Hx. destruct (Z.ltb_spec x 16); [|lia]. by rewrite hex_base_index.
Qed.

(** The calls [l] are made for the paths [rs] of [m], in order, the paths prefixed
    by [p]: each for a value of [m], and each value but the empty string, which
    may be passed over, has its call. *)
Definition call_for (m : tmap) (p : list Z) (r : list Z) (kv : bytes * goval) : Prop :=
  valid r ∧ kv.1 = path_key (p ++ r) ∧ ∃ w, m r = Some w ∧ vrep kv.2 (RStr w).

Definition calls (m : tmap) (p : list Z) (rs : list (list Z)) (l : list (bytes * goval)) : Prop :=
  StronglySorted path_lt rs ∧ Forall2 (call_for m p) rs l ∧
  ∀ r w, valid r -> m r = Some w -> w ≠ [] -> r ∈ rs.

Definition visits (m : tmap) (p : list Z) (l : list (bytes * goval)) : Prop :=
  ∃ rs, calls m p rs l.

Lemma StronglySorted_prefix k rs :
  StronglySorted path_lt rs -> StronglySorted path_lt (app k <$> rs).
Proof.
  induction 1 as [|r rs _ IH Hr]; cbn; constructor; [done|].
  apply Forall_fmap. eapply Forall_impl; [done|]. intros x. apply path_lt_app.
Qed.

Lemma calls_in m p rs l r : calls m p rs l -> r ∈ rs -> valid r ∧ is_Some (m r).
Proof.
  intros (_ & Hl & _) Hr. apply list_elem_of_lookup in Hr as [i Hi].
  destruct (Forall2_lookup_l _ _ _ _ _ Hl Hi) as (kv & _ & Hv & _ & w & Hw & _).
  split; [done|by exists w].
Qed.

Lemma visits_nothing m p : (∀ r w, valid r -> m r = Some w -> w = []) -> visits m p [].
Proof. intros Hm. exists []. split; [constructor|]. split; [constructor|]. naive_solver. Qed.

(** A single call. *)
Lemma visits_one m p k v w : valid k -> m k = Some w ->
  (∀ r w', valid r -> m r = Some w' -> w' ≠ [] -> r = k) -> vrep v (RStr w) ->
  visits m p [(path_key (p ++ k), v)].
Proof.
  intros Hk Hmk Hm Hv. exists [k]. split; [by repeat constructor|]. split.
  - constructor; [|constructor]. split; [done|]. split; [done|by exists w].
  - intros r w' Hr Hw Hne. apply list_elem_of_singleton. by eapply Hm.
Qed.

(** Under an extension. *)
Lemma visits_under k mc m p l : nibbles k ->
  (∀ r, valid r -> m (k ++ r) = mc r) ->
  (∀ r, valid r -> (∀ r', r ≠ k ++ r') -> m r = None) ->
  visits mc (p ++ k) l -> visits m p l.
Proof.
  intros Hk Hm Hm' (rs & Hs & Hl & Hin). exists (app k <$> rs).
  split; [by apply StronglySorted_prefix|]. split.
  - apply Forall2_fmap_l. eapply Forall2_impl; [done|]. intros r kv (Hr & Hkey & w & Hw & Hv).
    split; [by apply valid_app|]. split; [by rewrite app_assoc|]. exists w. by rewrite Hm.
  - intros r w Hr Hw Hne. apply list_elem_of_fmap. destruct (decide (take (length k) r = k)) as [Ht|Ht].
    + exists (drop (length k) r). rewrite <-(take_drop (length k) r), Ht in Hr, Hw.
      pose proof (valid_prefix _ _ Hk Hr) as Hd. rewrite Hm in Hw by done.
      split; [by rewrite <-Ht at 1; rewrite take_drop|by eapply Hin].
    + rewrite Hm' in Hw; [done|done|]. intros r' ->. by rewrite take_app_length in Ht.
Qed.

(** * Branches *)

(** What the slots from [j] on hold. *)
Definition from (j : Z) (m : tmap) : tmap :=
  λ r, match r with i :: _ => if j <=? i then m r else None | [] => None end.

Lemma from_0 m r : valid r -> from 0 m r = m r.
Proof.
  intros Hr. destruct r as [|i r]; [by apply valid_nonempty in Hr|]. cbn.
  apply valid_cons in Hr. unfold nibble in Hr. destruct (Z.leb_spec 0 i); [done|lia].
Qed.

Lemma from_17 m r : valid r -> from 17 m r = None.
Proof.
  intros Hr. destruct r as [|i r]; [done|]. cbn.
  apply valid_cons in Hr. unfold nibble in Hr. destruct (Z.leb_spec 17 i); [lia|done].
Qed.

Lemma visits_ext m m' p l : (∀ r, valid r -> m r = m' r) -> visits m p l -> visits m' p l.
Proof.
  intros Hm (rs & Hs & Hl & Hin). exists rs. split; [done|]. split.
  - eapply Forall2_impl; [done|]. intros r kv (Hr & ? & w & Hw & Hv). do 2 (split; [done|]).
    exists w. by rewrite <-Hm.
  - intros r w Hr. rewrite <-Hm by done. by apply Hin.
Qed.

(** Two parts of a map, one below the other. *)
Lemma visits_app m1 m2 m p l1 l2 :
  (∀ r w, m1 r = Some w -> m r = Some w) -> (∀ r w, m2 r = Some w -> m r = Some w) ->
  (∀ r w, valid r -> m r = Some w -> m1 r = Some w ∨ m2 r = Some w) ->
  (∀ a b, is_Some (m1 a) -> is_Some (m2 b) -> path_lt a b) ->
  visits m1 p l1 -> visits m2 p l2 -> visits m p (l1 ++ l2).
Proof.
  intros Hm1 Hm2 Hm Hlt (r1 & Hc1) (r2 & Hc2). exists (r1 ++ r2).
  pose proof Hc1 as (Hs1 & Hl1 & Hin1). pose proof Hc2 as (Hs2 & Hl2 & Hin2). split; [|split].
  - apply StronglySorted_app_2; [|done|done]. intros a b Ha Hb.
    apply Hlt; [by eapply (calls_in m1)|by eapply (calls_in m2)].
  - apply Forall2_app; (eapply Forall2_impl; [done|]);
      intros r kv (Hr & ? & w & Hw & Hv); (do 2 (split; [done|])); exists w; auto.
  - intros r w Hr Hw Hne. apply elem_of_app.
    destruct (Hm r w Hr Hw); [left; by eapply Hin1|right; by eapply Hin2].
Qed.

(** The slot [j] alone. *)
Definition only (j : Z) (m : tmap) : tmap :=
  λ r, match r with i :: _ => if i =? j then m r else None | [] => None end.

Lemma visits_from j m p l1 l2 :
  visits (only j m) p l1 -> visits (from (j + 1) m) p l2 -> visits (from j m) p (l1 ++ l2).
Proof.
  apply visits_app.
  - intros [|i r] w; cbn; [done|]. destruct (Z.eqb_spec i j), (Z.leb_spec j i); try done; lia.
  - intros [|i r] w; cbn; [done|]. destruct (Z.leb_spec (j + 1) i), (Z.leb_spec j i); try done; lia.
  - intros [|i r] w _; cbn; [done|].
    destruct (Z.eqb_spec i j), (Z.leb_spec (j + 1) i), (Z.leb_spec j i); try done; try lia; auto.
  - intros [|i r] [|i' r']; cbn; try by intros [? ?] || by intros ? [? ?].
    destruct (Z.eqb_spec i j), (Z.leb_spec (j + 1) i'); try by intros [? ?] || by intros ? [? ?].
    left. lia.
Qed.

Lemma visits_slot j m p l : nibble j ->
  visits (λ r, m (j :: r)) (p ++ [j]) l -> visits (only j m) p l.
Proof.
  intros Hj. apply visits_under; [by constructor|..].
  - intros r _. cbn. by rewrite Z.eqb_refl.
  - intros [|i r] _ Hne; [done|]. cbn. destruct (Z.eqb_spec i j) as [->|]; [|done].
    by destruct (Hne r).
Qed.

(** * The walk *)

Section Walk.
Context `{HC : Crypto} {D : Type} `{HD : Database D} `{HL : !DatabaseLaws D}.

(** The walk fills the cache and leaves the rest of the store alone. *)
Definition same_env : relation (Store D) := λ s s', st_env s' = st_env s.

#[local] Instance same_env_order : PreOrder same_env.
Proof. split; [by intros s|]. intros s1 s2 s3 H1 H2. unfold same_env in *. congruence. Qed.

Lemma steps_tame {A} (m : TM D A) : steps same_env m -> tame m.
Proof.
  intros Hm. split; intros s; specialize (Hm s); unfold same_env in Hm; [|by rewrite Hm].
  unfold st_hashed, store_hashing. by rewrite Hm.
Qed.

Lemma steps_Cache_Get k : steps same_env (Cache_Get (D := D) k).
Proof.
  intros s. unfold Cache_Get. case_match; [done|].
  unfold mbind, st_bind, lift. by case_match.
Qed.

Lemma steps_for_collect {A B} (f : A -> TM D (list B)) l :
  (∀ a, steps same_env (f a)) -> steps same_env (for_collect f l).
Proof.
  intros Hf. induction l as [|a l IH]; [apply (steps_ret _)|].
  cbn [for_collect]. apply (steps_bind _); [apply Hf|]. intros x.
  apply (steps_bind _); [done|]. intros y. apply (steps_ret _).
Qed.

Ltac walk_steps := repeat first
  [ apply (steps_ret _) | apply (steps_lift _) | apply steps_Cache_Get
  | apply (steps_bind _); [|intros ?] | apply steps_for_collect; intros ? | case_match
  | solve [auto] ].

Lemma steps_iterateNode f : ∀ p v, steps same_env (iterateNode (D := D) f p v).
Proof.
  induction f as [|f IH]; intros p v; cbn [iterateNode]; [by intros s|]. walk_steps.
Qed.

(** Reading a key does not touch the database either. *)
Lemma steps_getState f : ∀ node key, steps same_env (getState (D := D) f node key).
Proof. induction f as [|f IH]; intros node key; cbn [getState]; [by intros s|]. unfold getNode. walk_steps. Qed.

Lemma Trie_Get_env key t (e : Env D) : (Trie_Get key (t, e)).2.2 = e.
Proof.
  unfold Trie_Get, mbind, st_bind. cbn [get_Root]. unfold run.
  set (m := getState _ _ _). pose proof (steps_getState _ _ _ : steps same_env m) as Hm.
  specialize (Hm (mkStore (tr_cache t) e)). unfold same_env in Hm. cbn [st_env] in Hm.
  by destruct (m _) as [[v| |] s'].
Qed.

Lemma tame_iterateNode f p v : tame (iterateNode (D := D) f p v).
Proof. apply steps_tame, steps_iterateNode. Qed.

Lemma grows_for_collect {S' A B} `{Hashing S'} (f : A -> st S' (list B)) l :
  (∀ a, grows (f a)) -> grows (for_collect f l).
Proof.
  intros Hf. induction l as [|a l IH]; [apply grows_ret|].
  cbn [for_collect]. apply grows_bind; [apply Hf|]. intros x.
  apply grows_bind; [done|]. intros y. apply grows_ret.
Qed.

(** What the walk does with a reference that is not empty: a list is a node
    in place, a string is the hash of one. *)
Definition visit (f : nat) (p : list Z) (v : goval) : TM D (list (bytes * goval)) :=
  if negb (Value_Len v =? 0) && (zlen (Value_Str v) =? 0) then iterateNode f p v
  else fetchNode f p (Value_Bytes v).

(** With enough fuel, a walk visits what the reference stands for. *)
Definition visited (S : gmap bytes item) (m : tmap) (p : list Z)
    (l : list (bytes * goval)) (s : Store D) : Prop := store_ok s S ∧ visits m p l.

Definition walks (S : gmap bytes item) (it : item) (m : tmap)
    (walk : nat -> list Z -> goval -> TM D (list (bytes * goval))) : Prop :=
  ∃ n, ∀ f, (n <= f)%nat -> ∀ v p s, vrep v it -> no_zero it = true -> nibbles p ->
    store_ok s S -> hwp (walk f p v) (visited S m p) s.

Lemma visit_inline S l m :
  l ≠ [] -> walks S (RList l) m iterateNode -> walks S (RList l) m visit.
Proof.
  intros Hl [n Hn]. exists n. intros f Hf v p s Hv Hz Hp Hok. unfold visit.
  destruct (vrep_list_inv v l Hv) as (vs & -> & Hvs).
  rewrite (Len_vrep vs _ Hvs). destruct l as [|it l]; [done|]. rewrite zlen_cons.
  destruct (Z.eqb_spec (1 + zlen l) 0); [lenlia|]. by apply Hn.
Qed.

Lemma visit_hash S h n m :
  S !! h = Some n -> zlen h = 32 -> walks S n m iterateNode -> walks S (RStr h) m visit.
Proof.
  intros Hn Hlen [k Hk]. exists k. intros f Hf v p s Hv Hz Hp Hok. unfold visit.
  destruct (vrep_string v h Hv) as (-> & -> & -> & _). rewrite Hlen. unfold fetchNode.
  apply hwp_bind; [intros a; apply tame_iterateNode|].
  eapply hwp_mono; [|by apply Cache_Get_wp]. intros r s' [Hok' Hr].
  apply Hk; [done..| |done|done]. by apply (ok_hash _ _ Hok' h n Hn).
Qed.

Lemma walk_leaf S k w m : nibbles k ->
  (∀ r, valid r -> m r = if bool_decide (r = k ++ [16]) then Some w else None) ->
  walks S (RList [RStr (compact true k); RStr w]) m iterateNode.
Proof.
  intros Hk Hm. exists 1%nat. intros [|f] Hf v p s Hv Hz Hp Hok; [lia|].
  destruct (pair_shape v _ _ Hv) as (Hl & Hs & Hw). cbn [iterateNode].
  rewrite Hl, Hs. simpl Z.eqb. cbn iota.
  eapply hwp_bind_lift; [by apply CompactDecode_compact|]. simpl term.
  unfold Value_Raw in Hw. destruct (vrep_string _ _ Hw) as (Hstr & _ & Hlen & _).
  rewrite Hstr, Hlen, andb_negb_l.
  eapply hwp_bind_lift; [apply index_middle; lenlia|]. change (16 =? 16) with true. cbn iota.
  assert (valid (k ++ [16])) as Hv16 by by exists k.
  eapply hwp_bind_lift; [by apply DecodeCompact_valid, valid_app|].
  apply hwp_ret. split; [done|]. apply (visits_one m p (k ++ [16]) _ w); [done| | |done].
  - by rewrite Hm, bool_decide_eq_true_2.
  - intros r w' Hr Hw' _. rewrite Hm in Hw' by done. by case_bool_decide.
Qed.

Lemma index_last (k : list Z) : k ≠ [] -> nibbles k ->
  ∃ x, index k (zlen k - 1) = Ret x ∧ nibble x.
Proof.
  intros Hk Hn. destruct k as [|x k _] using rev_ind; [done|]. exists x.
  split; [apply index_middle; lenlia|].
  apply Forall_app in Hn as [_ Hx]. by apply Forall_cons in Hx as [? _].
Qed.

(** An extension is visited by visiting what it refers to. *)
Lemma walk_ext S k c mc m :
  nibbles k -> k ≠ [] -> walks S c mc visit ->
  (∀ r, valid r -> m (k ++ r) = mc r) ->
  (∀ r, valid r -> (∀ r', r ≠ k ++ r') -> m r = None) ->
  walks S (RList [RStr (compact false k); c]) m iterateNode.
Proof.
  intros Hk Hk0 [n Hn] Hm Hm'. exists (Datatypes.S n).
  intros [|f] Hf v p s Hv Hz Hp Hok; [lia|].
  destruct (pair_shape v _ _ Hv) as (Hl & Hs & Hw). cbn [iterateNode].
  rewrite Hl, Hs. simpl Z.eqb. cbn iota.
  eapply hwp_bind_lift; [by apply CompactDecode_compact|]. simpl term. rewrite app_nil_r.
  unfold Value_Raw in Hw.
  assert (hwp (visit f (p ++ k) (Get v 1)) (visited S m p) s) as Hvisit.
  { eapply hwp_mono; [|apply Hn; [lia|done| |by apply Forall_app|done]].
    - intros l s' [? ?]. split; [done|]. by apply (visits_under k mc).
    - by apply (no_zero_elem _ 1 _ Hz). }
  unfold visit in Hvisit. destruct (_ && _); [done|].
  destruct (index_last k Hk0 Hk) as (x & Hx & Hnib).
  eapply hwp_bind_lift; [done|]. unfold nibble in Hnib. by destruct (Z.eqb_spec x 16); [lia|].
Qed.

(** The slots of a branch.  The list of the sixteen references has an amount
    of fuel that is enough for each. *)
Lemma slots_fuel S (cs : list item) (ms : nat -> tmap) :
  (∀ i c, cs !! i = Some c -> c ≠ RStr [] -> walks S c (ms i) visit) ->
  ∃ n, ∀ i c, cs !! i = Some c -> c ≠ RStr [] -> ∀ f, (n <= f)%nat -> ∀ v p s,
    vrep v c -> no_zero c = true -> nibbles p -> store_ok s S ->
    hwp (visit f p v) (visited S (ms i) p) s.
Proof.
  revert ms. induction cs as [|c cs IH]; intros ms Hcs; [by exists 0%nat|].
  destruct (IH (λ i, ms (Datatypes.S i))) as [n Hn].
  { intros i c' Hi. by apply (Hcs (Datatypes.S i)). }
  assert (c = RStr [] ∨ c ≠ RStr []) as [->|Hc] by (destruct c as [[|]|]; auto).
  - exists n. intros [|i] c' Hi; [by injection Hi as <-|]. by apply (Hn i).
  - destruct (Hcs 0%nat c eq_refl Hc) as [k Hk]. exists (Nat.max k n).
    intros [|i] c' Hi Hne f Hf.
    + injection Hi as <-. apply Hk. lia.
    + apply (Hn i); [done|done|lia].
Qed.

(** The body of the loop over the slots of the branch [v]. *)
Definition visit_slot (f : nat) (p : list Z) (v : goval) (i : nat) : TM D (list (bytes * goval)) :=
  let pk := p ++ [Z.of_nat i] in
  let u := Get v (Z.of_nat i) in
  if (Z.of_nat i =? 16) && negb (Value_Len u =? 0)
  then s ← lift (DecodeCompact pk); mret [(s, u)]
  else if negb (Value_Len u =? 0) && (zlen (Value_Str u) =? 0) then iterateNode f pk u
  else if negb (zlen (Value_Str u) =? 0) then fetchNode f pk (Value_Str u) else mret [].

Lemma tame_visit_slot f p v i : tame (visit_slot f p v i).
Proof.
  apply steps_tame. unfold visit_slot, fetchNode. walk_steps; apply steps_iterateNode.
Qed.

(** The last slot holds a value. *)
Lemma visit_value S f p v m s : nibbles p ->
  vrep (Get v 16) (RStr (read m [16])) -> store_ok s S ->
  hwp (visit_slot f p v 16) (visited S (only 16 m) p) s.
Proof.
  intros Hp Hv Hok. unfold visit_slot. change (Z.of_nat 16) with 16.
  destruct (vrep_string _ _ Hv) as (Hstr & _ & Hlen & _). rewrite Hstr, Hlen.
  change (16 =? 16) with true. cbn [andb].
  assert (∀ r, valid r -> is_Some (only 16 m r) -> r = [16] ∧ only 16 m r = m [16]) as Honly.
  { intros [|i r] Hr; cbn; [by intros []|]. apply valid_cons in Hr as [[-> ->]|[Hi _]]; [done|].
    unfold nibble in Hi. destruct (Z.eqb_spec i 16); [lia|by intros []]. }
  destruct (Z.eqb_spec (zlen (read m [16])) 0) as [E|E]; cbn [negb andb].
  - apply hwp_ret. split; [done|]. apply visits_nothing. intros r w Hr Hw.
    destruct (Honly r Hr) as [_ Hm]; [by rewrite Hw|]. rewrite Hm in Hw.
    apply zlen_0 in E. unfold read in E. by rewrite Hw in E.
  - eapply hwp_bind_lift; [by apply DecodeCompact_valid, valid_app, valid_16|].
    apply hwp_ret. split; [done|]. unfold read in *.
    destruct (m [16]) as [w|] eqn:Ew; [|done]. cbn [default] in *.
    apply (visits_one _ p [16] _ w); [apply valid_16|done| |done].
    intros r w' Hr Hw' _. apply Honly; [done|by rewrite Hw'].
Qed.

(** The others hold references. *)
Lemma visit_child S f p v i c m s : (i < 16)%nat -> nibbles p ->
  vrep (Get v (Z.of_nat i)) c -> tref S c (λ r, m (Z.of_nat i :: r)) ->
  (c ≠ RStr [] -> hwp (visit f (p ++ [Z.of_nat i]) (Get v (Z.of_nat i)))
     (visited S (λ r, m (Z.of_nat i :: r)) (p ++ [Z.of_nat i])) s) ->
  store_ok s S ->
  hwp (visit_slot f p v i) (visited S (only (Z.of_nat i) m) p) s.
Proof.
  intros Hi Hp Hv Ht Hvisit Hok. unfold visit_slot.
  assert (nibble (Z.of_nat i)) as Hnib by (unfold nibble; lia).
  destruct (Z.eqb_spec (Z.of_nat i) 16); [lia|]. cbn [andb].
  assert (c ≠ RStr [] -> hwp (visit f (p ++ [Z.of_nat i]) (Get v (Z.of_nat i)))
    (visited S (only (Z.of_nat i) m) p) s) as Hgo.
  { intros Hc. eapply hwp_mono; [|by apply Hvisit]. intros l s' [? ?]. split; [done|].
    by apply visits_slot. }
  unfold visit in Hgo. inversion Ht as [? Hm|h nd ? Hnd Hlen Htn|l ? Hln]; subst.
  - destruct (vrep_string _ _ Hv) as (-> & _ & -> & _). apply hwp_ret. split; [done|].
    apply visits_slot; [done|]. apply visits_nothing. intros r w Hr. by rewrite Hm.
  - destruct (vrep_string _ _ Hv) as (Hstr & Hb & Hl & _).
    rewrite Hstr, Hb, Hl, Hlen in *. cbn [Z.eqb negb andb] in *. apply Hgo. intros [= ->]. done.
  - destruct (tnode_list _ _ _ Hln) as (l' & [= <-] & Hne).
    destruct (vrep_list_inv _ l Hv) as (vs & Hvl & Hvs). rewrite Hvl in *.
    rewrite (Len_vrep vs _ Hvs) in *. destruct (Z.eqb_spec (zlen l) 0) as [E|E].
    + by apply zlen_0 in E.
    + by apply Hgo.
Qed.

Lemma walk_branch S cs w ms m :
  length cs = 16%nat -> (∀ i c, cs !! i = Some c -> tref S c (ms i)) ->
  (∀ i c, cs !! i = Some c -> c ≠ RStr [] -> walks S c (ms i) visit) ->
  (∀ i r, (i < 16)%nat -> valid r -> m (Z.of_nat i :: r) = ms i r) ->
  read m [16] = w ->
  walks S (RList (cs ++ [RStr w])) m iterateNode.
Proof.
  intros Hl Href Hcs Hm Hw16. destruct (slots_fuel S cs ms Hcs) as [n Hn].
  exists (Datatypes.S n). intros [|f] Hf v p s Hv Hz Hp Hok; [lia|].
  destruct (branch_shape v cs w Hv Hl) as [Hlen Hget]. unfold Value_Raw in Hget.
  assert (∀ i s, (i < 17)%nat -> store_ok s S ->
    hwp (visit_slot f p v i) (visited S (only (Z.of_nat i) m) p) s) as Hslot.
  { clear s Hok. intros i s Hi Hok. destruct (decide (i = 16%nat)) as [->|Hi16].
    - apply visit_value; [done| |done]. rewrite Hw16. by apply (Hget 16%nat), last_slot.
    - destruct (lookup_lt_is_Some_2 cs i) as [c Hc]; [lia|].
      assert ((cs ++ [RStr w]) !! i = Some c) as Hc' by by apply lookup_app_l_Some.
      pose proof (λ r, Hm i r ltac:(lia)) as Hmi.
      eapply visit_child; [lia|done|by apply Hget| | |done].
      + eapply tref_ext; [|by apply Href]. intros r Hr. by rewrite Hmi.
      + intros Hne. eapply hwp_mono; [|apply (Hn i c); [done|done|lia|by apply Hget|
          by eapply no_zero_elem| |done]].
        * intros l s' [? ?]. split; [done|]. eapply visits_ext; [|done]. intros r Hr. by rewrite Hmi.
        * apply Forall_app. split; [done|]. repeat constructor; lia. }
  cbn [iterateNode]. rewrite Hlen. simpl Z.eqb. cbn iota. change (Z.to_nat 17) with 17%nat.
  change (hwp (for_collect (visit_slot f p v) (seq 0 17)) (visited S m p) s).
  eapply hwp_mono with (Q := visited S (from (Z.of_nat 0) m) p).
  { intros l s' [? ?]. split; [done|]. eapply visits_ext; [|done]. apply from_0. }
  assert (∀ k j s, (j + k = 17)%nat -> store_ok s S ->
    hwp (for_collect (visit_slot f p v) (seq j k)) (visited S (from (Z.of_nat j) m) p) s) as Hloop.
  { clear s Hok. induction k as [|k IH]; intros j s Hj Hok; cbn [seq for_collect].
    - apply hwp_ret. split; [done|]. replace j with 17%nat by lia.
      apply visits_nothing. intros r w1 Hr. by rewrite from_17.
    - apply hwp_bind.
      { intros a. apply grows_bind; [apply grows_for_collect|]; intros ?;
          [apply tame_visit_slot|apply grows_ret]. }
      eapply hwp_mono; [|apply Hslot; [lia|done]]. intros l1 s1 [Hok1 Hl1].
      apply hwp_bind; [intros a; apply tame_ret|].
      eapply hwp_mono; [|apply IH; [lia|done]]. intros l2 s2 [Hok2 Hl2].
      apply hwp_ret. split; [done|]. apply visits_from; [done|].
      by replace (Z.of_nat j + 1) with (Z.of_nat (Datatypes.S j)) by lia. }
  by apply (Hloop 17%nat 0%nat).
Qed.

(** Every reference that is not empty can be walked. *)
Lemma tref_walks S it m : tref S it m -> it ≠ RStr [] -> walks S it m visit.
Proof.
  intros H. induction H using tref_mut with (P0 := λ it m _, walks S it m iterateNode).
  - done.
  - intros _. by eapply visit_hash.
  - intros _. destruct (tnode_list _ _ _ t) as (l' & [= <-] & Hne). by apply visit_inline.
  - by eapply walk_leaf.
  - eapply walk_ext; eauto.
  - eapply walk_branch; eauto.
Qed.

(** * The iteration *)

(** The calls [l] list the map [M]: the keys in the order of their paths, so each
    once, with their values; keys that hold the empty string may be left out. *)
Definition key_lt (a b : bytes) : Prop := path_lt (CompactHexDecode a) (CompactHexDecode b).

(** The value that a call passes, as a string. *)
Definition call_string (kv : bytes * goval) : bytes * bytes := (kv.1, Value_Str kv.2).

Definition listing (M : gmap bytes bytes) (l : list (bytes * bytes)) : Prop :=
  StronglySorted key_lt l.*1 ∧ (∀ key w, (key, w) ∈ l -> M !! key = Some w) ∧
  ∀ key w, M !! key = Some w -> w ≠ [] -> (key, w) ∈ l.

(** Every value passed is a string in one of its representations. *)
Definition string_call (kv : bytes * goval) : Prop := ∃ b, vrep kv.2 (RStr b).

Lemma visits_listing m M l :
  at_keys m -> (∀ key, m (CompactHexDecode key) = M !! key) ->
  visits m [] l -> listing M (call_string <$> l) ∧ Forall string_call l.
Proof.
  intros Hkeys HM (rs & Hs & Hl & Hin).
  assert (Forall2 (λ r kv, ∃ key w, r = CompactHexDecode key ∧ call_string kv = (key, w) ∧
    M !! key = Some w ∧ vrep kv.2 (RStr w)) rs l) as Hl'.
  { eapply Forall2_impl; [done|]. intros r [k v] (Hr & Hk & w & Hw & Hv).
    destruct (Hkeys r Hr) as [key ->]; [by rewrite Hw|]. exists key, w. cbn in *.
    rewrite path_key_HexDecode in Hk. subst k. rewrite HM in Hw.
    by destruct (vrep_string v w Hv) as (<- & _). }
  assert (∀ key w, M !! key = Some w -> w ≠ [] -> (key, w) ∈ call_string <$> l) as Hall.
  { intros key w Hw Hne. rewrite <-HM in Hw. pose proof (Hin _ _ (valid_key key) Hw Hne) as Hr.
    apply list_elem_of_lookup in Hr as [i Hi].
    destruct (Forall2_lookup_l _ _ _ _ _ Hl' Hi) as (kv & Hkv & key' & w' & Heq & Hcall & Hw' & _).
    apply key_inj in Heq as <-. rewrite <-HM, Hw in Hw'. injection Hw' as <-.
    rewrite <-Hcall. apply list_elem_of_fmap_2. by eapply list_elem_of_lookup_2. }
  clear Hl Hin. split; [split; [|split; [|exact Hall]]|].
  - clear Hall. induction Hl' as [|r kv rs l (key & w & -> & Hc & _) Hl IH]; [constructor|].
    apply StronglySorted_inv in Hs as [Hs Hr].
    change ((call_string <$> kv :: l).*1) with ((call_string kv).1 :: (call_string <$> l).*1). rewrite Hc. constructor; [by apply IH|].
    apply Forall_forall. intros k Hk. apply list_elem_of_lookup in Hk as [i Hi].
    rewrite !list_lookup_fmap in Hi. destruct (l !! i) as [kv'|] eqn:Ei; [|done].
    destruct (Forall2_lookup_r _ _ _ _ _ Hl Ei) as (r & Hri & key' & w' & -> & Hc' & _).
    change (Some (call_string kv').1 = Some k) in Hi. rewrite Hc' in Hi. injection Hi as <-.
    rewrite Forall_forall in Hr. apply (Hr (CompactHexDecode key')). by eapply list_elem_of_lookup_2.
  - intros key w (kv & Heq & Hkv)%list_elem_of_fmap. apply list_elem_of_lookup in Hkv as [i Hi].
    destruct (Forall2_lookup_r _ _ _ _ _ Hl' Hi) as (r & _ & key' & w' & _ & Hc & Hw & _). congruence.
  - apply Forall_lookup. intros i kv Hi.
    destruct (Forall2_lookup_r _ _ _ _ _ Hl' Hi) as (r & _ & key & w & _ & _ & _ & Hv). by exists w.
Qed.

Lemma Each_ok te M M0 :
  trie_ok (D := D) te M M0 -> Value_Len (tr_Root te.1) ≠ 0 ->
  ∃ n, ∀ fuel, (n <= fuel)%nat ->
    hwp (Each fuel) (λ l te', (listing M (call_string <$> l) ∧ Forall string_call l) ∧ trie_ok te' M M0) te.
Proof.
  destruct te as [t e]. intros (S & S0 & Hok & (Hstr & m & (it & Hv & Hz & Ht) & Hkeys & HM) & Hrest) Hne.
  cbn [fst] in *. assert (it ≠ RStr []) as Hit.
  { intros ->. destruct (vrep_string _ _ Hv) as (_ & _ & Hl & _). by rewrite Hl in Hne. }
  destruct (tref_walks S it m Ht Hit) as [n Hn]. exists n. intros fuel Hf.
  unfold Each. apply hwp_bind; [intros r; apply grows_run, steps_tame|].
  { unfold fetchNode. apply (steps_bind _); [apply steps_Cache_Get|]. intros ?. apply steps_iterateNode. }
  apply (hwp_ret (tr_Root t) _ (t, e)). apply run_wp.
  apply wp_db; [apply steps_tame; unfold fetchNode; apply (steps_bind _);
    [apply steps_Cache_Get|]; intros ?; apply steps_iterateNode|].
  assert (visit fuel [] (tr_Root t) = fetchNode fuel [] (Value_Bytes (NewValue (tr_Root t)))) as <-.
  { destruct (vrep_NewValue _ _ Hv) as [-> _]. unfold visit.
    destruct Hstr as (b & [E|E]); rewrite E in *; cbn; change (zlen b) with (Value_Len (VStr b));
      cbn in *; by destruct (Z.eqb_spec (zlen b) 0). }
  eapply hwp_mono; [|apply Hn; [done..|constructor|done]].
  intros l s' [Hok' Hl] Hdb. split; [by eapply visits_listing|].
  exists S, S0. split; [by destruct s'|]. split; [split; [done|exists m; split; [by exists it|done]]|].
  cbn in *. by rewrite Hdb.
Qed.

(** The iteration fills the cache of the trie, nothing else. *)
Lemma Each_env fuel te : (Each (D := D) fuel te).2.2 = te.2.
Proof.
  destruct te as [t e]. unfold Each, mbind, st_bind, get_Root, run. cbn [fst snd].
  assert (steps same_env (fetchNode (D := D) fuel [] (Value_Bytes (NewValue (tr_Root t))))) as Hs.
  { unfold fetchNode. apply (steps_bind _); [apply steps_Cache_Get|]. intros ?. apply steps_iterateNode. }
  specialize (Hs (mkStore (tr_cache t) e)). unfold same_env in Hs. cbn [st_env] in Hs.
  by destruct (fetchNode _ _ _ _) as [o s].
Qed.

Lemma Each_run te M M0 :
  trie_ok (D := D) te M M0 -> Value_Len (tr_Root te.1) ≠ 0 -> collision_free (e_hashed te.2) ->
  ∃ n, ∀ fuel, (n <= fuel)%nat -> ∃ l t',
    Each fuel te = (Ret l, (t', te.2)) ∧ listing M (call_string <$> l) ∧ Forall string_call l.
Proof.
  intros Hok Hne Hcf. destruct (Each_ok te M M0 Hok Hne) as [n Hn]. exists n. intros fuel Hf.
  pose proof (Each_env fuel te) as Henv. specialize (Hn fuel Hf). unfold hwp in Hn.
  destruct (Each fuel te) as [o [t' e']]. cbn in *. subst e'.
  destruct (Hn Hcf) as (l & -> & [? ?] & _). by exists l, t'.
Qed.

(** A trie without content, over a database with nothing under the empty key. *)
Lemma Each_nothing (t : Trie) (e : Env D) fuel :
  Value_Bytes (NewValue (tr_Root t)) = [] -> nodes (tr_cache t) !! [] = None ->
  db_data (e_db e) [] = [] -> (0 < fuel)%nat -> ∃ t', Each fuel (t, e) = (Ret [], (t', e)).
Proof.
  intros Hroot Hcache Hdb Hf. destruct fuel as [|f]; [lia|].
  unfold Each, mbind, st_bind, get_Root, run, fetchNode, Cache_Get. cbn [fst snd].
  rewrite Hroot. cbn [st_cache]. unfold mbind, st_bind, lift. cbn [st_env st_cache].
  rewrite Hcache, Hdb. by eexists.
Qed.

(** The trie after a run, and with more hashed. *)
Lemma trie_run_ok ops (e : Env D) :
  Forall storable ops ->
  let te := (for_collect trie_step ops (Trie_New (VStr []), e)).2 in
  collision_free (e_hashed te.2) -> trie_ok te (maps_after ops (∅, ∅)).1 (maps_after ops (∅, ∅)).2.
Proof.
  intros Hops te Hcf.
  by destruct (steps_ok ops (Trie_New (VStr []), e) (∅, ∅)) as (outs & _ & _ & Hok); [|apply New_ok|..].
Qed.

Lemma trie_ok_hashed t (e e' : Env D) M M0 :
  e_db e' = e_db e -> e_hashed e ⊆ e_hashed e' -> trie_ok (t, e) M M0 -> trie_ok (t, e') M M0.
Proof.
  intros Hdb Hh (S & S0 & [H1 H2 H3] & HM & Hsub & Hdur & H0). exists S, S0.
  unfold store_of, hashed, stored, cached, disk, durable in *. cbn in *. rewrite Hdb in *.
  split; [split; unfold stored, hashed, cached, disk; cbn|done].
  - intros h it Hit. destruct (H1 h it Hit) as (? & ? & ?). auto.
  - intros h it Hit. rewrite Hdb. by apply H2.
  - intros h n Hn Hd. destruct (H3 h n Hn Hd) as (? & ? & ?). auto.
Qed.

(** C8. The iteration of a trie is the listing of its map: after any sequence of
    updates, reads, syncs, undos and restarts on a new trie over any database, in
    which no update writes the one-byte string zero (the value that does not
    survive storage), [Each] ends, without a panic, and its calls are bindings of the map, each at
    most once, in the order of the nibble paths (a key comes after those it is a
    prefix of), among them every binding whose value is not the empty string.
    So what is reported does not depend on the history, the cache or the
    database.  (The trie is not the empty one, for which [Each] looks up the
    empty key; and the hash function is free of collisions on the nodes of the
    run.) *)
Theorem Each_lists_the_map (ops : list trie_op) (e : Env D) :
  Forall storable ops ->
  let te := (for_collect trie_step ops (Trie_New (VStr []), e)).2 in
  let M := (maps_after ops (∅, ∅)).1 in
  collision_free (e_hashed te.2) -> Value_Len (tr_Root te.1) ≠ 0 ->
  ∃ n, ∀ fuel, (n <= fuel)%nat -> ∃ l, (Each fuel te).1 = Ret l ∧
    StronglySorted key_lt (call_string <$> l).*1 ∧
    (∀ key w, (key, w) ∈ call_string <$> l -> M !! key = Some w) ∧
    (∀ key w, M !! key = Some w -> w ≠ [] -> (key, w) ∈ call_string <$> l).
Proof.
  intros Hops te M Hcf Hne.
  pose proof (trie_run_ok ops e Hops Hcf) as Hok.
  destruct (Each_run te M _ Hok Hne Hcf) as [n Hn]. exists n. intros fuel Hf.
  destruct (Hn fuel Hf) as (l & t' & Hl & Hlist & _). exists l. by rewrite Hl.
Qed.

End Walk.

(** ** A run *)

Definition iter_ops : list trie_op :=
  [OpUpdate (asc "do") (asc "verb"); OpUpdate (asc "dog") (asc "puppy"); OpSync;
   OpUpdate (asc "horse") (asc "stallion"); OpUpdate (asc "do") []; OpSync; OpReopen].

Lemma Each_lists_the_map_witness :
  ∃ n, ∀ fuel, (n <= fuel)%nat -> ∃ l,
    (Each fuel
       (for_collect (trie_step (H := toy_crypto)) iter_ops (Trie_New (VStr []), new_env)).2).1 = Ret l ∧
    StronglySorted key_lt (call_string <$> l).*1 ∧
    (∀ key w, (key, w) ∈ call_string <$> l -> (maps_after iter_ops (∅, ∅)).1 !! key = Some w) ∧
    (∀ key w, (maps_after iter_ops (∅, ∅)).1 !! key = Some w -> w ≠ [] -> (key, w) ∈ call_string <$> l).
Proof.
  apply (Each_lists_the_map (HC := toy_crypto) iter_ops new_env).
  - repeat constructor; discriminate.
  - apply cf_check_ok. vm_compute. reflexivity.
  - vm_compute. discriminate.
Defined.

(** What it reports there. *)
Example each_run :
  let te := (for_collect (trie_step (H := toy_crypto)) iter_ops (Trie_New (VStr []), new_env)).2 in
  (map call_string <$> (Each 20 te).1) =
  Ret [(asc "dog", asc "puppy"); (asc "horse", asc "stallion")].
Proof. vm_compute. reflexivity. Qed.
