(* ===== verification/BlockChain.v ===== *)
(** [ethchain/block_chain.go]: the chain of blocks in the database and its
    head.

    Blocks are values: a block that is read back from the database is a new
    object.  Reading operations are functions of the database and the chain
    record; writing ones are computations [CM] on [Chain], which is the
    environment, the heap of state objects and the chain record.  The walks from block to block
    follow hashes found in the database and carry fuel. *)

From S2P Require Import Prelude GoVal Big Bytes Errors Rlp Value Db Crypto Nibbles Trie TrieSpec.
From S2P Require Import State Curve Transaction Block.

(** ethchain/block_chain.go, BlockChain. *)
Record BlockChain := mkBlockChain {
  genesisBlock : Block;
  TD : Z;
  LastBlockNumber : Z;
  CurrentBlock : option Block;
  LastBlockHash : bytes;
}.

(** Updating fields of the chain. *)
Definition set_head (b : Block) (hash : bytes) (bc : BlockChain) : BlockChain :=
  mkBlockChain (genesisBlock bc) (TD bc) (LastBlockNumber bc) (Some b) hash.
Definition set_number (n : Z) (bc : BlockChain) : BlockChain :=
  mkBlockChain (genesisBlock bc) (TD bc) n (CurrentBlock bc) (LastBlockHash bc).
Definition set_TD (td : Z) (bc : BlockChain) : BlockChain :=
  mkBlockChain (genesisBlock bc) td (LastBlockNumber bc) (CurrentBlock bc) (LastBlockHash bc).
Definition set_genesis (b : Block) (bc : BlockChain) : BlockChain :=
  mkBlockChain b (TD bc) (LastBlockNumber bc) (CurrentBlock bc) (LastBlockHash bc).

Definition set_MinGasPrice (p : Z) (b : Block) : Block :=
  mkBlock (PrevHash b) (Uncles b) (UncleSha b) (b_Coinbase b) (b_state b) (b_Difficulty b) (Time b)
          (b_Number b) p (GasLimit b) (b_GasUsed b) (Extra b) (b_Nonce b)
          (transactions b) (receipts b) (TxSha b).
Definition set_b_Difficulty (d : Z) (b : Block) : Block :=
  mkBlock (PrevHash b) (Uncles b) (UncleSha b) (b_Coinbase b) (b_state b) d (Time b)
          (b_Number b) (MinGasPrice b) (GasLimit b) (b_GasUsed b) (Extra b) (b_Nonce b)
          (transactions b) (receipts b) (TxSha b).
Definition set_b_Number (n : Z) (b : Block) : Block :=
  mkBlock (PrevHash b) (Uncles b) (UncleSha b) (b_Coinbase b) (b_state b) (b_Difficulty b) (Time b)
          (Some n) (MinGasPrice b) (GasLimit b) (b_GasUsed b) (Extra b) (b_Nonce b)
          (transactions b) (receipts b) (TxSha b).
Definition set_GasLimit (l : Z) (b : Block) : Block :=
  mkBlock (PrevHash b) (Uncles b) (UncleSha b) (b_Coinbase b) (b_state b) (b_Difficulty b) (Time b)
          (b_Number b) (MinGasPrice b) l (b_GasUsed b) (Extra b) (b_Nonce b)
          (transactions b) (receipts b) (TxSha b).

(** What the operations on the chain run on. *)
Record Chain (D : Type) := mkChain {
  c_env : Env D;
  c_heap : list StateObject;
  c_bc : BlockChain;
}.
Arguments mkChain {D}.
Arguments c_env {D}.
Arguments c_heap {D}.
Arguments c_bc {D}.

(** [block.Number.Uint64()]. *)
Definition block_number (b : Block) : outcome Z := big_Uint64 <$> deref (b_Number b).

(** The key of the additional information, and of the bloom filter, of a block. *)
Definition info_key (hash : bytes) : bytes := hash ++ asc "Info".
Definition bloom_key (hash : bytes) : bytes := asc "bloom" ++ hash.

(** [float64(x)] of a uint64: rounding to 53 bits, half to even. *)
Definition float_of_uint64 (x : Z) : Z :=
  let k := Z.max 0 (Z.log2 x - 52) in
  let q := x / 2 ^ k in
  let r := x `mod` 2 ^ k in
  let up := (2 ^ k <? 2 * r) || ((2 * r =? 2 ^ k) && negb (k =? 0) && Z.odd q) in
  (q + (if up then 1 else 0)) * 2 ^ k.

(** [uint64(f)] of such a number; 2^64 does not fit, and amd64 gives 2^63. *)
Definition uint64_of_float (f : Z) : Z := if f =? 2 ^ 64 then 2 ^ 63 else f.

Section BlockChain.
Context `{Crypto} {D : Type} `{Database D} `{MapOrder}.

Definition CM : Type -> Type := st (Chain D).

Definition get_chain : CM (Chain D) := λ c, (Ret c, c).
Definition modify_bc (f : BlockChain -> BlockChain) : CM unit := λ c,
  (Ret tt, mkChain (c_env c) (c_heap c) (f (c_bc c))).
Definition modify_db (f : D -> D) : CM unit := λ c,
  (Ret tt, mkChain (mkEnv (f (e_db (c_env c))) (e_hashed (c_env c))) (c_heap c) (c_bc c)).

(** Run an operation on the state of a block. *)
Definition on_state {A} (s : State) (m : SM (D := D) A) : CM (A * State) := λ c,
  let '(o, w) := m (mkWorld (c_env c) (c_heap c) s) in
  ((λ a, (a, w_state w)) <$> o, mkChain (w_env w) (w_heap w) (c_bc c)).

(** * Reading *)

(** ethchain/block_chain.go, BlockChain.Genesis. *)
Definition bc_Genesis (bc : BlockChain) : Block := genesisBlock bc.

(** ethchain/block_chain.go, BlockChain.GenesisBlock. *)
Definition GenesisBlock (bc : BlockChain) : Block := genesisBlock bc.

(** ethchain/block_chain.go, BlockChain.HasBlock. *)
Definition HasBlock (db : D) (hash : bytes) : bool := negb (zlen (db_data db hash) =? 0).

(** ethchain/block_chain.go, BlockChain.GetBlock. *)
Definition GetBlock (db : D) (hash : bytes) : outcome (option Block) :=
  let data := db_data db hash in
  if zlen data =? 0 then Ret None else Some <$> NewBlockFromBytes data.

(** ethchain/block_chain.go 95-100, BlockChain.HasBlockWithPrevHash. The loop. *)
Fixpoint prev_hash_loop (fuel : nat) (db : D) (hash : bytes) (block : option Block) : outcome bool :=
  match block with
  | None => Ret false
  | Some b =>
      match fuel with
      | O => NoFuel
      | S f =>
          if bool_decide (hash = PrevHash b) then Ret true
          else next ← GetBlock db (PrevHash b); prev_hash_loop f db hash next
      end
  end.

(** ethchain/block_chain.go, BlockChain.HasBlockWithPrevHash. *)
Definition HasBlockWithPrevHash (fuel : nat) (db : D) (bc : BlockChain) (hash : bytes) : outcome bool :=
  prev_hash_loop fuel db hash (CurrentBlock bc).

(** ethchain/block_chain.go, BlockChain.CalculateBlockTD. *)
Definition CalculateBlockTD (block : Block) : Z :=
  fold_left (λ blockDiff uncle, blockDiff + b_Difficulty uncle) (Uncles block) 0 + b_Difficulty block.

(** ethchain/block_chain.go 63-73, BlockChain.NewBlock. The difficulty of the
    next block: more by a 1024th if it comes within 42 seconds, else less. *)
Definition next_difficulty (time : Z) (current : Block) : outcome Z :=
  let mul := if time <? s64 (Time current + 42) then 1 else -1 in
  diff ← big_Div (b_Difficulty current) 1024;
  Ret (diff * mul + b_Difficulty current).

(** ethchain/block_chain.go, BlockChain.NewBlock. [now] is [time.Now().Unix()]. *)
Definition NewBlock (bc : BlockChain) (coinbase : bytes) (now : Z) : outcome Block :=
  let root := match CurrentBlock bc with Some cur => GetRoot cur | None => VNil end in
  let hash := match CurrentBlock bc with Some _ => LastBlockHash bc | None => ZeroHash256 end in
  block ← CreateBlock root hash coinbase (BigPow 2 32) [] [] now;
  let block := set_MinGasPrice 10000000000000 block in
  match CurrentBlock bc with
  | None => Ret block
  | Some cur =>
      diff ← next_difficulty (Time block) cur;
      number ← deref (b_Number cur);
      let block := set_b_Number (number + 1) (set_b_Difficulty diff block) in
      limit ← CalcGasLimit block cur;
      Ret (set_GasLimit limit block)
  end.

(** ethchain/block_chain.go 218-228, BlockChain.GetChainHashesFromHash. The
    loop, [n] times at most; the block is nil when the chain is broken. *)
Fixpoint hashes_loop (n : nat) (db : D) (block : option Block) : outcome (list bytes) :=
  match n with
  | O => Ret []
  | S m =>
      b ← deref block;
      hash ← block_Hash b;
      number ← deref (b_Number b);
      if number <=? 0 then Ret [hash]
      else next ← GetBlock db (PrevHash b);
           rest ← hashes_loop m db next;
           Ret (hash :: rest)
  end.

(** ethchain/block_chain.go, BlockChain.GetChainHashesFromHash. *)
Definition GetChainHashesFromHash (db : D) (hash : bytes) (max : Z) : outcome (list bytes) :=
  block ← GetBlock db hash;
  match block with None => Ret [] | Some _ => hashes_loop (Z.to_nat max) db block end.

(** ethchain/block_chain.go 245-253, BlockChain.GetChainFromHash. Skip the
    newest blocks: at most [n] of them; the hash reached and the number left. *)
Fixpoint skip_loop (n : nat) (db : D) (num : Z) (currentHash : bytes) : outcome (Z * bytes) :=
  match n with
  | O => Ret (num, currentHash)
  | S m =>
      block ← GetBlock db currentHash;
      match block with
      | None => Ret (num - 1, currentHash)
      | Some b => skip_loop m db (num - 1) (PrevHash b)
      end
  end.

(** ethchain/block_chain.go 255-268, BlockChain.GetChainFromHash. Collect [n] blocks at
    most, down to the given hash. *)
Fixpoint take_loop (n : nat) (db : D) (hash : bytes) (parentNumber num : Z) (currentHash : bytes)
    : outcome (list goval) :=
  match n with
  | O => Ret []
  | S m =>
      if bool_decide (currentHash = hash) || (num <? parentNumber) then Ret []
      else
        block ← GetBlock db currentHash;
        match block with
        | None => Ret []
        | Some b =>
            v ← block_Value b;
            rest ← take_loop m db hash parentNumber (u64 (num - 1)) (PrevHash b);
            Ret (v :: rest)
        end
  end.

(** ethchain/block_chain.go, BlockChain.GetChainFromHash. The difference of the
    numbers is a uint64, and the minimum is taken as floating point. *)
Definition GetChainFromHash (db : D) (bc : BlockChain) (hash : bytes) (max : Z)
    : outcome (list goval) :=
  cur ← deref (CurrentBlock bc);
  currentHash ← block_Hash cur;
  lastNumber ← block_number cur;
  block ← GetBlock db hash;
  parent ← deref block;
  parentNumber ← block_number parent;
  let count := uint64_of_float
    (Z.min (float_of_uint64 (u64 (lastNumber - parentNumber))) (float_of_uint64 max)) in
  let startNumber := u64 (parentNumber + count) in
  '(num, h) ← skip_loop (Z.to_nat (lastNumber - startNumber)) db lastNumber currentHash;
  take_loop (Z.to_nat count) db hash parentNumber num h.

(** ethchain/block_chain.go 279-286, BlockChain.GetChain. The loop. *)
Fixpoint chain_loop (n : nat) (db : D) (genHash : bytes) (block : option Block) (blocks : list Block)
    : outcome (list Block) :=
  match n, block with
  | S m, Some b =>
      hash ← block_Hash b;
      if bool_decide (genHash = hash) then Ret (b :: blocks)
      else next ← GetBlock db (PrevHash b); chain_loop m db genHash next (b :: blocks)
  | _, _ => Ret blocks
  end.

(** ethchain/block_chain.go, BlockChain.GetChain. *)
Definition GetChain (db : D) (bc : BlockChain) (hash : bytes) (amount : Z) : outcome (list Block) :=
  genHash ← block_Hash (genesisBlock bc);
  block ← GetBlock db hash;
  chain_loop (Z.to_nat amount) db genHash block [].

(** ethchain/block_chain.go 362-363, BlockChain.GetBlockByNumber. The loop: a
    missing block is dereferenced. *)
Fixpoint by_number (fuel : nat) (db : D) (num : Z) (block : option Block) : outcome Block :=
  b ← deref block;
  n ← block_number b;
  if n =? num then Ret b
  else match fuel with
       | O => NoFuel
       | S f => next ← GetBlock db (PrevHash b); by_number f db num next
       end.

(** ethchain/block_chain.go, BlockChain.GetBlockByNumber. *)
Definition GetBlockByNumber (fuel : nat) (db : D) (bc : BlockChain) (num : Z)
    : outcome (option Block) :=
  block ← by_number fuel db num (CurrentBlock bc);
  n ← block_number block;
  if (n =? 0) && negb (num =? 0) then Ret None else Ret (Some block).

(** ethchain/block_chain.go, BlockChain.BlockInfoByHash. *)
Definition BlockInfoByHash (db : D) (hash : bytes) : outcome BlockInfo :=
  BlockInfo_RlpDecode (db_data db (info_key hash)).

(** ethchain/block_chain.go, BlockChain.BlockInfo. *)
Definition bc_BlockInfo (db : D) (block : Block) : outcome BlockInfo :=
  hash ← block_Hash block; BlockInfo_RlpDecode (db_data db (info_key hash)).

(** * Writing *)

(** ethchain/block_chain.go, BlockChain.writeBlockInfo. *)
Definition writeBlockInfo (block : Block) : CM unit :=
  c ← get_chain;
  let n := u64 (LastBlockNumber (c_bc c) + 1) in
  _ ← modify_bc (set_number n);
  hash ← lift (block_Hash block);
  modify_db (λ db, db_Put db (info_key hash)
                     (BlockInfo_RlpEncode (mkBlockInfo n hash (PrevHash block)))).

(** ethchain/block_chain.go, BlockChain.Add. *)
Definition Add (block : Block) : CM unit :=
  _ ← writeBlockInfo block;
  hash ← lift (block_Hash block);
  _ ← modify_bc (set_head block hash);
  encodedBlock ← lift (block_RlpEncode block);
  _ ← modify_db (λ db, db_Put db hash encodedBlock);
  modify_db (λ db, db_Put db (asc "LastBlock") encodedBlock).

(** ethchain/block_chain.go, BlockChain.SetTotalDifficulty. *)
Definition SetTotalDifficulty (td : Z) : CM unit :=
  _ ← modify_db (λ db, db_Put db (asc "LastKnownTotalDifficulty") (big_Bytes td));
  modify_bc (set_TD td).

(** ethchain/block_chain.go 292-301, AddTestNetFunds. The addresses. *)
Definition testnet_addresses : list bytes := map asc [
  "51ba59315b3a95761d0863b05ccc7a7f54703d99";
  "e4157b34ea9615cfbde6b4fda419828124b70c78";
  "b9c015918bdaba24b4ff057a92a3873d6eb201be";
  "6c386a4b26f73c802f34673f7248bb118f97424a";
  "cd2a3d9f938e13cd947ec05abc7fe734df8dd826";
  "2ef47100e0787b915105fd5e3f4ff6752079d5cb";
  "e6716f9544a56c530d868e4bfbacb172315bdead";
  "1a26338f0d905e295fccb71fa9ea849ffa12aaf4"]%string.

(** ethchain/block_chain.go 302-305, AddTestNetFunds. One of the accounts. *)
Definition fund (addr : bytes) : SM (D := D) unit :=
  account ← GetAccount (Hex2Bytes addr);
  _ ← modify_object account
        (set_Balance 1606938044258990275541962092341162602522202993782792835301376);
  UpdateStateObject account.

(** ethchain/block_chain.go, AddTestNetFunds. On the state of the block. *)
Definition AddTestNetFunds : SM (D := D) unit := for_each fund testnet_addresses.

(** ethchain/block_chain.go 310-325, BlockChain.setLastBlock. The first start:
    the genesis block gets its funds, is written and becomes the head; its
    filter is 255 zeros. *)
Definition first_start : CM unit :=
  c ← get_chain;
  let g := genesisBlock (c_bc c) in
  '(_, s) ← on_state (b_state g)
              (_ ← AddTestNetFunds; on_state_trie (st_modify (λ '(t, e), Trie_Sync t e)));
  let g := set_b_state s g in
  _ ← modify_bc (set_genesis g);
  _ ← Add g;
  hash ← lift (block_Hash g);
  modify_db (λ db, db_Put db (bloom_key hash) (zeros 255)).

(** ethchain/block_chain.go, BlockChain.setLastBlock. *)
Definition setLastBlock : CM unit :=
  c ← get_chain;
  let data := db_data (e_db (c_env c)) (asc "LastBlock") in
  _ ← (if negb (zlen data =? 0) then
         block ← lift (NewBlockFromBytes data);
         hash ← lift (block_Hash block);
         number ← lift (block_number block);
         _ ← modify_bc (set_head block hash);
         modify_bc (set_number number)
       else first_start);
  c ← get_chain;
  modify_bc (set_TD (BigD (db_LastKnownTD (e_db (c_env c))))).

(** ethchain/block_chain.go, NewBlockChain. The chain record that is passed in
    is replaced. *)
Definition NewBlockChain : CM unit :=
  g ← lift (NewBlockFromBytes (Encode Genesis));
  _ ← modify_bc (λ _, mkBlockChain g 0 0 None []);
  setLastBlock.

(** ethchain/block_chain.go, BlockChain.ResetTillBlockHash. The loop of the
    code starts from a nil block, so it never runs. *)
Definition ResetTillBlockHash (hash : bytes) : CM unit :=
  c ← get_chain;
  let bc := c_bc c in
  let lastBlock := CurrentBlock bc in
  genHash ← lift (block_Hash (genesisBlock bc));
  _ ← (if bool_decide (hash = genHash) then
         _ ← modify_bc (set_head (genesisBlock bc) genHash);
         modify_bc (set_number 1)
       else
         returnTo ← lift (GetBlock (e_db (c_env c)) hash);
         _ ← modify_bc (λ bc, mkBlockChain (genesisBlock bc) (TD bc) (LastBlockNumber bc) returnTo
                                (LastBlockHash bc));
         b ← lift (deref returnTo);
         h ← lift (block_Hash b);
         _ ← modify_bc (set_head b h);
         n ← lift (block_number b);
         modify_bc (set_number n));
  last ← lift (deref lastBlock);
  lastHash ← lift (block_Hash last);
  modify_db (λ db, db_Delete db lastHash).

(** ethchain/block_chain.go 133-139, BlockChain.FindCanonicalChain. The
    difficulty of the blocks before the common one. *)
Fixpoint incoming_difficulty (common : bytes) (blocks : list Block) (acc : Z) : outcome Z :=
  match blocks with
  | [] => Ret acc
  | block :: rest =>
      hash ← block_Hash block;
      if bool_decide (hash = common) then Ret acc
      else incoming_difficulty common rest (acc + CalculateBlockTD block)
  end.

(** ethchain/block_chain.go 145-158, BlockChain.FindCanonicalChain. The
    difficulty of the current chain above the common block; the first block is
    not counted. *)
Fixpoint current_difficulty (fuel : nat) (db : D) (common : bytes) (block : Block) (acc : Z)
    : outcome Z :=
  hash ← block_Hash block;
  if bool_decide (hash = common) then Ret acc
  else
    anOtherBlock ← GetBlock db (PrevHash block);
    match anOtherBlock with
    | None => Ret acc
    | Some b =>
        match fuel with
        | O => NoFuel
        | S f => current_difficulty f db common b (acc + CalculateBlockTD block)
        end
    end.

(** ethchain/block_chain.go, BlockChain.FindCanonicalChain. *)
Definition FindCanonicalChain (fuel : nat) (blocks : list Block) (commonBlockHash : bytes) : CM bool :=
  c ← get_chain;
  chainDifficulty ← lift (incoming_difficulty commonBlockHash blocks 0);
  curChainDifficulty ← lift
    (match CurrentBlock (c_bc c) with
     | None => Ret 0
     | Some b => current_difficulty fuel (e_db (c_env c)) commonBlockHash b 0
     end);
  if curChainDifficulty <? chainDifficulty then
    _ ← ResetTillBlockHash commonBlockHash; mret false
  else mret true.

(** ethchain/block_chain.go, BlockChain.FindCanonicalChainFromMsg. All elements
    of the message but the last. *)
Definition FindCanonicalChainFromMsg (fuel : nat) (data : goval) (commonBlockHash : bytes) : CM bool :=
  FindCanonicalChain fuel
    (map (λ i, NewBlockFromRlpValue (Get data (Z.of_nat i))) (seq 0 (Z.to_nat (Value_Len data - 1))))
    commonBlockHash.

End BlockChain.

(** * Walking the chain *)

Section Walks.
Context `{HC : Crypto} {D : Type} `{HD : Database D}.

(** The blocks that are reached from a hash through the database, newest first, as
    far as the first hash that is not in it. *)
Inductive ancestry (db : D) : bytes -> list Block -> Prop :=
| ancestry_end h : GetBlock db h = Ret None -> ancestry db h []
| ancestry_block h b bs :
    GetBlock db h = Ret (Some b) -> ancestry db (PrevHash b) bs -> ancestry db h (b :: bs).

(** The chain from a head. *)
Definition chain_of (db : D) (bc : BlockChain) (bs : list Block) : Prop :=
  ∃ b rest, CurrentBlock bc = Some b ∧ bs = b :: rest ∧ ancestry db (PrevHash b) rest.

Definition has_number (num : Z) (b : Block) : bool :=
  bool_decide (big_Uint64 <$> b_Number b = Some num).

(** The next block on the walk. *)
Lemma ancestry_next db b bs :
  ancestry db (PrevHash b) bs -> GetBlock db (PrevHash b) = Ret (head bs).
Proof. by inversion 1. Qed.

Lemma prev_hash_loop_spec db hash bs : ∀ b fuel,
  ancestry db (PrevHash b) bs -> (length bs < fuel)%nat ->
  prev_hash_loop fuel db hash (Some b) = Ret (bool_decide (hash ∈ map PrevHash (b :: bs))).
Proof.
  induction bs as [|b' bs IH]; intros b fuel Hanc Hf; (destruct fuel as [|f]; [lia|]);
    cbn [prev_hash_loop]; pose proof (ancestry_next _ _ _ Hanc) as Hn; case_bool_decide as E.
  - rewrite bool_decide_eq_true_2; [done|]. subst. by left.
  - rewrite Hn. cbn. destruct f; cbn; by rewrite bool_decide_eq_false_2 by set_solver.
  - rewrite bool_decide_eq_true_2; [done|]. subst. by left.
  - inversion Hanc as [|? ? ? Hg Hanc' E1 E2]; subst. rewrite Hg. cbn [mbind outcome_bind].
    rewrite IH by (done || simpl in Hf; lia). f_equal. apply bool_decide_ext. set_solver.
Qed.

Lemma by_number_spec db num bs : ∀ b fuel,
  ancestry db (PrevHash b) bs -> Forall (λ b, is_Some (b_Number b)) (b :: bs) ->
  (length bs < fuel)%nat ->
  by_number fuel db num (Some b)
  = match List.find (has_number num) (b :: bs) with Some b' => Ret b' | None => Panic end.
Proof.
  induction bs as [|b' bs IH]; intros b fuel Hanc Hall Hf; (destruct fuel as [|f]; [lia|]);
    pose proof (ancestry_next _ _ _ Hanc) as Hn; apply Forall_cons in Hall as [[n Hb] Hall].
  - cbn. unfold block_number, has_number. rewrite Hb. cbn.
    destruct (Z.eqb_spec (big_Uint64 n) num) as [->|Hne].
    + by rewrite bool_decide_eq_true_2.
    + rewrite bool_decide_eq_false_2 by congruence. rewrite Hn. cbn. by destruct f.
  - cbn [by_number deref mbind outcome_bind List.find]. unfold block_number, has_number at 1.
    rewrite Hb. cbn -[by_number].
    destruct (Z.eqb_spec (big_Uint64 n) num) as [->|Hne].
    + by rewrite bool_decide_eq_true_2.
    + rewrite bool_decide_eq_false_2 by congruence.
      inversion Hanc as [|? ? ? Hg Hanc' E1 E2]; subst. rewrite Hg. cbn [mbind outcome_bind].
      apply IH; [done..|simpl in Hf; lia].
Qed.

(** Looking a block up by its number walks the chain down from the head: on a chain of
    which every block has a number it ends, and returns the newest block with the number; a number
    that no block of the chain has makes it dereference a nil block.  It never
    returns the nil that the code means for that case. *)
Theorem GetBlockByNumber_spec (fuel : nat) (db : D) (bc : BlockChain) (bs : list Block) (num : Z) :
  chain_of db bc bs -> Forall (λ b, is_Some (b_Number b)) bs -> (length bs <= fuel)%nat ->
  GetBlockByNumber fuel db bc num
  = match List.find (has_number num) bs with Some b => Ret (Some b) | None => Panic end.
Proof.
  intros (b & rest & Hcur & -> & Hanc) Hall Hf. unfold GetBlockByNumber. rewrite Hcur.
  rewrite (by_number_spec _ _ rest) by (done || simpl in Hf; lia).
  destruct (List.find _ _) as [b'|] eqn:E; [|done]. apply List.find_some in E as [_ E].
  unfold has_number in E. apply bool_decide_eq_true in E. cbn [mbind outcome_bind].
  unfold block_number. destruct (b_Number b') as [n|]; [|done]. cbn in *. injection E as ->.
  by destruct (num =? 0).
Qed.

End Walks.

(** * Adding blocks and starting again *)

Section Adding.
Context `{HC : Crypto} {D : Type} `{HD : Database D} `{HL : !DatabaseLaws D} `{HM : MapOrder}.

#[local] Arguments asc : simpl never.

Lemma BigD_td (db : D) :
  BigD (db_LastKnownTD db) = BigD (db_data db (asc "LastKnownTotalDifficulty")).
Proof.
  rewrite db_td. cbn zeta. destruct (Z.eqb_spec (zlen (db_data db (asc "LastKnownTotalDifficulty"))) 0) as [E|E];
    [|done]. by rewrite (zlen_0 _ E).
Qed.

Lemma GetBlock_ext (db db' : D) h : db_data db h = db_data db' h -> GetBlock db h = GetBlock db' h.
Proof. unfold GetBlock. by intros ->. Qed.

Lemma NewBlockFromBytes_enc b :
  block_ok b -> zlen (enc (block_item b)) < 2 ^ 64 ->
  NewBlockFromBytes (enc (block_item b)) = Ret (block_wire b).
Proof.
  intros Hb Hl. unfold NewBlockFromBytes, block_RlpDecode. rewrite (NewValueFromBytes_enc _ Hl).
  cbn [mbind outcome_bind]. f_equal. by apply block_decode.
Qed.

Lemma GetBlock_stored (db : D) h b :
  block_ok b -> zlen (enc (block_item b)) < 2 ^ 64 -> db_data db h = enc (block_item b) ->
  GetBlock db h = Ret (Some (block_wire b)) ∧ HasBlock db h = true.
Proof.
  intros Hb Hl Hd. unfold GetBlock, HasBlock. rewrite Hd. pose proof (enc_pos (block_item b)).
  destruct (Z.eqb_spec (zlen (enc (block_item b))) 0); [lia|]. split; [|done].
  by rewrite (NewBlockFromBytes_enc b Hb Hl).
Qed.

(** The hash of a block that can be encoded. *)
Definition block_digest (b : Block) : bytes := Sha3Bin (enc (block_item b)).

Lemma block_digest_wire b : block_ok b -> block_Hash (block_wire b) = Ret (block_digest b).
Proof.
  intros Hb. destruct (block_ok_wire b Hb) as [Hw Hi]. unfold block_digest.
  by rewrite <-Hi, block_Hash_item.
Qed.

Lemma genesis_bytes : NewBlockFromBytes (Encode Genesis) = Ret genesis_decoded.
Proof.
  unfold NewBlockFromBytes, block_RlpDecode.
  rewrite (NewValueFromBytes_Encode _ _ to_item_genesis genesis_len). cbn [mbind outcome_bind].
  f_equal. apply genesis_decode.
Qed.

(** What [Add] leaves. *)
Definition added (b : Block) (c : Chain D) : Chain D :=
  let h := block_digest b in
  let n := u64 (LastBlockNumber (c_bc c) + 1) in
  let data := enc (block_item b) in
  let db := db_Put (e_db (c_env c)) (info_key h) (BlockInfo_RlpEncode (mkBlockInfo n h (PrevHash b))) in
  mkChain (mkEnv (db_Put (db_Put db h data) (asc "LastBlock") data) (e_hashed (c_env c))) (c_heap c)
          (set_head b h (set_number n (c_bc c))).

Lemma Add_run (b : Block) (c : Chain D) : block_ok b -> Add b c = (Ret tt, added b c).
Proof.
  intros Hb. unfold Add, writeBlockInfo.
  unfold mbind, st_bind. cbn. rewrite (block_Hash_item b Hb), (block_encoding b Hb). done.
Qed.

Lemma key_ne (k k' : bytes) : zlen k ≠ zlen k' -> k ≠ k'.
Proof. congruence. Qed.

Lemma digest_len b : zlen (block_digest b) = 32.
Proof. apply Sha3Bin_len. Qed.

Lemma info_key_len h : zlen (info_key h) = zlen h + 4.
Proof. unfold info_key. change (asc "Info") with [x49; x6e; x66; x6f]. lenlia. Qed.

(** The keys of the chain have different lengths. *)
Ltac keys :=
  apply key_ne; rewrite ?info_key_len, ?digest_len;
  change (zlen (asc "LastBlock")) with 9;
  change (zlen (asc "LastKnownTotalDifficulty")) with 24; lia.

Ltac keyed := cbn [added c_env e_db].

Lemma added_block b c : db_data (e_db (c_env (added b c))) (block_digest b) = enc (block_item b).
Proof. keyed. rewrite db_get_put_ne by keys. by rewrite db_get_put_eq. Qed.

Lemma added_last b c : db_data (e_db (c_env (added b c))) (asc "LastBlock") = enc (block_item b).
Proof. keyed. by rewrite db_get_put_eq. Qed.

Lemma added_info b c :
  db_data (e_db (c_env (added b c))) (info_key (block_digest b))
  = BlockInfo_RlpEncode (mkBlockInfo (u64 (LastBlockNumber (c_bc c) + 1)) (block_digest b) (PrevHash b)).
Proof. keyed. rewrite !db_get_put_ne by keys. by rewrite db_get_put_eq. Qed.

Lemma added_other b c k :
  zlen k = 32 ∨ zlen k = 24 -> k ≠ block_digest b ->
  db_data (e_db (c_env (added b c))) k = db_data (e_db (c_env c)) k.
Proof. intros Hk Hne. keyed. rewrite !db_get_put_ne; [done|keys|congruence|keys]. Qed.

Lemma BlockInfo_roundtrip bi :
  0 <= bi_Number bi < 2 ^ 63 -> zlen (bi_Hash bi) = 32 -> zlen (bi_Parent bi) = 32 ->
  BlockInfo_RlpDecode (BlockInfo_RlpEncode bi) = Ret bi.
Proof.
  intros Hn Hh Hp. unfold BlockInfo_RlpDecode, BlockInfo_RlpEncode.
  rewrite (NewValueFromBytes_Encode _
             (RList [RStr (big_Bytes (bi_Number bi)); RStr (bi_Hash bi); RStr (bi_Parent bi)])).
  - cbn [mbind outcome_bind]. get_fields. cbn [of_item].
    rewrite Uint_big, !Bytes_of_str by lia. by destruct bi.
  - rewrite to_item_list. cbn. by rewrite s64_small by lia.
  - rewrite (Encode_item _ (RList [RStr (big_Bytes (bi_Number bi)); RStr (bi_Hash bi);
                                   RStr (bi_Parent bi)]))
      by (rewrite to_item_list; cbn; by rewrite s64_small by lia).
    rewrite enc_list. cbn [map concat enc].
    assert (zlen (big_Bytes (bi_Number bi)) <= 8).
    { apply Bytes_len_le; [lia|]. change (256 ^ 8) with (2 ^ 64). lia. }
    pose proof (encode_bytes_le (big_Bytes (bi_Number bi)) ltac:(lia)).
    pose proof (encode_bytes_le (bi_Hash bi) ltac:(lia)).
    pose proof (encode_bytes_le (bi_Parent bi) ltac:(lia)).
    set (d := encode_bytes _ ++ _). assert (zlen d < 200) by (unfold d; lenlia).
    pose proof (header_le (zlen d) ltac:(lenlia)). lenlia.
Qed.

(** Starting on a database whose last block is [b]. *)
Lemma NewBlockChain_run (env : Env D) heap bc0 b n :
  block_ok b -> b_Number b = Some n -> n < 2 ^ 64 -> zlen (enc (block_item b)) < 2 ^ 64 ->
  db_data (e_db env) (asc "LastBlock") = enc (block_item b) ->
  NewBlockChain (mkChain env heap bc0)
  = (Ret tt, mkChain env heap
       (mkBlockChain genesis_decoded (BigD (db_data (e_db env) (asc "LastKnownTotalDifficulty"))) n
                     (Some (block_wire b)) (block_digest b))).
Proof.
  intros Hb Hn Hn64 Hl Hd. unfold NewBlockChain. rewrite genesis_bytes.
  unfold setLastBlock, mbind, st_bind. cbn [lift get_chain modify_bc c_env c_heap c_bc].
  rewrite Hd. pose proof (enc_pos (block_item b)).
  destruct (Z.eqb_spec (zlen (enc (block_item b))) 0); [lia|]. cbn [negb].
  rewrite (NewBlockFromBytes_enc b Hb Hl), (block_digest_wire b Hb).
  unfold block_number. cbn [block_wire b_Number]. rewrite Hn.
  destruct Hb as [(_ & _ & (n' & Hn' & Hpos) & _) _]. assert (n' = n) as -> by congruence.
  cbn. unfold big_Uint64. rewrite Z.abs_eq, u64_small by lia. by rewrite BigD_td.
Qed.


(** * Switching chains *)

Definition total (bs : list Block) : Z := foldr (λ b acc, CalculateBlockTD b + acc) 0 bs.

(** The blocks of a list before the one with the hash. *)
Fixpoint before (common : bytes) (bs : list Block) : list Block :=
  match bs with
  | [] => []
  | b :: rest => if bool_decide (block_digest b = common) then [] else b :: before common rest
  end.

(** The part of the current chain that a switch to the block would undo; the last
    block of the chain is never counted. *)
Fixpoint branch (common : bytes) (bs : list Block) : list Block :=
  match bs with
  | [] | [_] => []
  | b :: rest => if bool_decide (block_digest b = common) then [] else b :: branch common rest
  end.

Lemma branch_cons common b b' bs :
  branch common (b :: b' :: bs)
  = if bool_decide (block_digest b = common) then [] else b :: branch common (b' :: bs).
Proof. done. Qed.

Lemma incoming_difficulty_spec common bs : ∀ acc,
  Forall block_ok bs -> incoming_difficulty common bs acc = Ret (acc + total (before common bs)).
Proof.
  induction bs as [|b bs IH]; intros acc Hall; [by rewrite Z.add_0_r|].
  apply Forall_cons in Hall as [Hb Hall].
  cbn [incoming_difficulty before]. rewrite (block_Hash_item b Hb). cbn [mbind outcome_bind].
  fold (block_digest b). case_bool_decide; cbn [total foldr]; [by rewrite Z.add_0_r|].
  rewrite IH by done. fold (total (before common bs)). f_equal. lia.
Qed.

Lemma current_difficulty_spec (db : D) common bs : ∀ b fuel acc,
  ancestry db (PrevHash b) bs -> Forall block_ok (b :: bs) -> (length bs <= fuel)%nat ->
  current_difficulty fuel db common b acc = Ret (acc + total (branch common (b :: bs))).
Proof.
  induction bs as [|b' bs IH]; intros b fuel acc Hanc Hall Hf; apply Forall_cons in Hall as [Hb Hall];
    destruct fuel as [|f]; cbn [current_difficulty]; rewrite (block_Hash_item b Hb);
    cbn [mbind outcome_bind]; fold (block_digest b);
    rewrite (ancestry_next _ _ _ Hanc); cbn [head mbind outcome_bind];
    rewrite ?Z.add_0_r; try (by case_bool_decide; rewrite ?Z.add_0_r); [simpl in Hf; lia|].
  rewrite branch_cons. case_bool_decide; [by rewrite Z.add_0_r|].
  inversion Hanc as [|? ? ? Hg Hanc' E1 E2]; subst.
  rewrite IH by (done || simpl in Hf; lia). cbn [total foldr].
  fold (total (branch common (b' :: bs))). f_equal. lia.
Qed.

Lemma ResetTillBlockHash_run (c : Chain D) cur p n common :
  CurrentBlock (c_bc c) = Some cur -> block_ok cur -> block_ok (genesisBlock (c_bc c)) ->
  block_digest (genesisBlock (c_bc c)) ≠ common ->
  GetBlock (e_db (c_env c)) common = Ret (Some p) -> block_ok p -> b_Number p = Some n -> n < 2 ^ 64 ->
  ResetTillBlockHash common c
  = (Ret tt, mkChain (mkEnv (db_Delete (e_db (c_env c)) (block_digest cur)) (e_hashed (c_env c)))
       (c_heap c)
       (mkBlockChain (genesisBlock (c_bc c)) (TD (c_bc c)) n (Some p) (block_digest p))).
Proof.
  intros Hcur Hok Hg Hne Hget Hp Hn Hn64.
  assert (0 <= n) by (destruct Hp as [(_ & _ & (n' & ? & ?) & _) _]; naive_solver).
  unfold ResetTillBlockHash, mbind, st_bind. cbn [get_chain lift modify_bc c_env c_heap c_bc].
  rewrite (block_Hash_item _ Hg). fold (block_digest (genesisBlock (c_bc c))).
  rewrite bool_decide_eq_false_2 by congruence. cbn. rewrite Hget. cbn.
  rewrite (block_Hash_item _ Hp). fold (block_digest p). cbn. unfold block_number. rewrite Hn. cbn.
  unfold big_Uint64. rewrite Z.abs_eq, u64_small by lia. rewrite Hcur. cbn.
  by rewrite (block_Hash_item _ Hok).
Qed.

(** The longer chain wins, but a restart loses it.  [FindCanonicalChain]
    adds up the difficulties of the incoming blocks and of the current chain,
    each above the common block, and keeps the current chain unless it is
    strictly lighter.  When it switches, the head becomes the common block, the
    only thing removed from the database is the record of the old head, and a
    node that starts again on it has the old head back, with a hash under which
    there is no block. *)
Theorem FindCanonicalChain_spec (fuel : nat) (c : Chain D) (blocks : list Block) (common : bytes)
    (cur p : Block) (rest : list Block) (n m : Z) :
  let db := e_db (c_env c) in
  chain_of db (c_bc c) (cur :: rest) -> (length rest <= fuel)%nat ->
  Forall block_ok blocks -> Forall block_ok (cur :: rest) ->
  block_ok (genesisBlock (c_bc c)) -> block_digest (genesisBlock (c_bc c)) ≠ common ->
  GetBlock db common = Ret (Some p) -> block_ok p -> b_Number p = Some n -> n < 2 ^ 64 ->
  db_data db (asc "LastBlock") = enc (block_item cur) -> zlen (enc (block_item cur)) < 2 ^ 64 ->
  b_Number cur = Some m -> m < 2 ^ 64 ->
  let c' := mkChain (mkEnv (db_Delete db (block_digest cur)) (e_hashed (c_env c))) (c_heap c)
    (mkBlockChain (genesisBlock (c_bc c)) (TD (c_bc c)) n (Some p) (block_digest p)) in
  FindCanonicalChain fuel blocks common c
  = (if total (branch common (cur :: rest)) <? total (before common blocks)
     then (Ret false, c') else (Ret true, c)) ∧
  ∃ c'', NewBlockChain c' = (Ret tt, c'') ∧ CurrentBlock (c_bc c'') = Some (block_wire cur) ∧
    LastBlockHash (c_bc c'') = block_digest cur ∧
    GetBlock (e_db (c_env c'')) (block_digest cur) = Ret None.
Proof.
  intros db (b & rest' & Hcur & [= <- <-] & Hanc) Hf Hblocks Hall Hg Hne Hget Hp Hn Hn64 Hlast Hl Hm Hm64 c'.
  pose proof Hall as [Hc _]%Forall_cons. split.
  - unfold FindCanonicalChain, mbind, st_bind. cbn [get_chain lift]. rewrite Hcur.
    rewrite incoming_difficulty_spec by done. fold db.
    rewrite (current_difficulty_spec db common rest) by done. rewrite !Z.add_0_l.
    destruct (_ <? _); [|done].
    by rewrite (ResetTillBlockHash_run c cur p n common).
  - eexists. split.
    + apply (NewBlockChain_run _ _ _ cur m); [done..|]. cbn [c_env e_db].
      rewrite db_get_delete_ne; [done|]. apply key_ne. by rewrite digest_len.
    + cbn [c_bc CurrentBlock LastBlockHash c_env e_db]. split; [done|]. split; [done|].
      unfold GetBlock. by rewrite db_get_delete_eq.
Qed.

(** A new block extends the head: it has the next number, the head's hash
    and state root, no content, and a gas limit that follows the head's; its
    difficulty differs from the head's by a 1024th of it, more when the block
    comes less than 42 seconds after the head and less otherwise. *)
Theorem NewBlock_spec (bc : BlockChain) (coinbase : bytes) (now : Z) (cur : Block) (n : Z) :
  CurrentBlock bc = Some cur -> b_Number cur = Some n -> 0 <= n ->
  0 <= b_Difficulty cur -> 0 <= Time cur < 2 ^ 62 ->
  ∃ b limit, NewBlock bc coinbase now = Ret b ∧
    b_Number b = Some (n + 1) ∧ PrevHash b = LastBlockHash bc ∧ GetRoot b = GetRoot cur ∧
    b_Coinbase b = coinbase ∧ Time b = now ∧ transactions b = [] ∧ Uncles b = [] ∧
    CalcGasLimit b cur = Ret limit ∧ GasLimit b = limit ∧
    b_Difficulty b = (if now <? Time cur + 42
                      then b_Difficulty cur + b_Difficulty cur / 1024
                      else b_Difficulty cur - b_Difficulty cur / 1024) ∧
    CalculateBlockTD b = b_Difficulty b.
Proof.
  intros Hcur Hn Hn0 Hd Ht. unfold NewBlock. rewrite Hcur. unfold CreateBlock, SetUncles.
  cbn -[BigPow next_difficulty CalcGasLimit].
  unfold next_difficulty. cbn -[BigPow CalcGasLimit]. rewrite s64_small, Hn by lia.
  cbn -[BigPow CalcGasLimit].
  set (b0 := set_b_Number _ _).
  assert (∃ limit, CalcGasLimit b0 cur = Ret limit) as [limit Hlim].
  { unfold CalcGasLimit. cbn -[Z.mul Z.add Z.gcd]. destruct (Z.eqb_spec (n + 1) 0); [lia|].
    set (g := Z.gcd _ 5). unfold big_Div at 1. destruct (Z.eqb_spec (5 / g) 0) as [E|]; [|by eexists].
    exfalso. pose proof (Z.gcd_divide_r (b_GasUsed cur * 6) 5) as [k Hk]. fold g in Hk.
    pose proof (Z.gcd_nonneg (b_GasUsed cur * 6) 5) as H0. fold g in H0.
    assert (g ≠ 0) by lia. rewrite Hk, Z.div_mul in E by done. lia. }
  rewrite Hlim. cbn -[BigPow CalcGasLimit]. eexists _, limit. split; [done|].
  split; [done|]. split; [done|]. split; [apply copyRoot_eq|].
  repeat (split; [done|]). split; [|done]. cbn. change (Z.abs 1024) with 1024. rewrite Z.mul_1_l.
  destruct (now <? Time cur + 42); lia.
Qed.

End Adding.

(** * Runs *)

#[local] Existing Instances toy_crypto list_order.

(** A chain of the genesis block and one block on it, added one after the other. *)
Definition first_block : Block :=
  mkBlock (block_digest genesis_decoded) [] (zeros 32) (zeros 20) (State_New (Trie_New (VStr [])))
          131072 1400000000 (Some 1) 10 1000000 500 (asc "extra") [x2a] [example_tx]
          [mkReceipt example_tx (zeros 32) 500] (zeros 32).

Definition empty_chain : Chain MemDatabase :=
  mkChain (mkEnv NewMemDatabase []) [] (mkBlockChain genesis_decoded 0 0 None []).

Definition genesis_chain : Chain MemDatabase := (Add genesis_decoded empty_chain).2.
Definition short_chain : Chain MemDatabase := (Add first_block genesis_chain).2.

Lemma genesis_ok : block_ok genesis_decoded.
Proof.
  split; [|split; by apply Forall_nil]. split; [exists []; by auto|].
  split; [done|]. split; [by exists 0|]. done.
Qed.

Lemma first_block_ok : block_ok first_block.
Proof.
  split; [|split; [|by apply Forall_nil]].
  - split; [exists []; by auto|]. split; [done|]. split; [by exists 1|]. done.
  - by repeat constructor.
Qed.

Lemma short_chain_of :
  chain_of (e_db (c_env short_chain)) (c_bc short_chain) [first_block; block_wire genesis_decoded].
Proof.
  exists first_block, [block_wire genesis_decoded]. split; [reflexivity|]. split; [reflexivity|].
  constructor; [vm_compute; reflexivity|]. constructor. vm_compute. reflexivity.
Qed.

Lemma GetBlockByNumber_spec_witness :
  GetBlockByNumber 2 (e_db (c_env short_chain)) (c_bc short_chain) 0
  = Ret (Some (block_wire genesis_decoded)) ∧
  GetBlockByNumber 2 (e_db (c_env short_chain)) (c_bc short_chain) 7 = Panic.
Proof.
  split.
  - apply (GetBlockByNumber_spec 2 _ _ [first_block; block_wire genesis_decoded] 0);
      [exact short_chain_of|repeat constructor; eexists; reflexivity|simpl; lia].
  - apply (GetBlockByNumber_spec 2 _ _ [first_block; block_wire genesis_decoded] 7);
      [exact short_chain_of|repeat constructor; eexists; reflexivity|simpl; lia].
Defined.


(** A second block on the short chain, and a heavier one in its place. *)
Definition second_block (difficulty : Z) : Block :=
  mkBlock (block_digest first_block) [] (zeros 32) (zeros 20) (State_New (Trie_New (VStr [])))
          difficulty 1400000010 (Some 2) 10 1000000 500 [] [x2b] [] [] (zeros 32).

Definition long_chain : Chain MemDatabase := (Add (second_block 131072) short_chain).2.

Lemma second_block_ok d : 0 <= d -> block_ok (second_block d).
Proof.
  intros Hd. split; [|split; by apply Forall_nil].
  split; [exists []; by auto|]. split; [done|]. split; [by exists 2|]. done.
Qed.

Lemma FindCanonicalChain_spec_witness :
  let p := block_wire first_block in
  let c' := mkChain (mkEnv (db_Delete (e_db (c_env long_chain)) (block_digest (second_block 131072)))
                           (e_hashed (c_env long_chain))) (c_heap long_chain)
    (mkBlockChain (genesisBlock (c_bc long_chain)) (TD (c_bc long_chain)) 1 (Some p) (block_digest p)) in
  let common := block_digest first_block in
  let heavy := total (before common [second_block 140000; first_block]) in
  let light := total (branch common [second_block 131072; p; block_wire genesis_decoded]) in
  heavy = 140000 ∧ light = 131072 ∧
  FindCanonicalChain 2 [second_block 140000; first_block] common long_chain
  = (if light <? heavy then (Ret false, c') else (Ret true, long_chain)) ∧
  ∃ c'', NewBlockChain c' = (Ret tt, c'') ∧
    CurrentBlock (c_bc c'') = Some (block_wire (second_block 131072)) ∧
    LastBlockHash (c_bc c'') = block_digest (second_block 131072) ∧
    GetBlock (e_db (c_env c'')) (block_digest (second_block 131072)) = Ret None.
Proof.
  split; [vm_compute; reflexivity|]. split; [vm_compute; reflexivity|].
  apply (FindCanonicalChain_spec 2 long_chain [second_block 140000; first_block]
           (block_digest first_block) (second_block 131072) (block_wire first_block)
           [block_wire first_block; block_wire genesis_decoded] 1 2).
  - eexists _, _. split; [reflexivity|]. split; [reflexivity|].
    constructor; [vm_compute; reflexivity|]. constructor; [vm_compute; reflexivity|].
    constructor. vm_compute. reflexivity.
  - simpl. lia.
  - apply Forall_cons. split; [by apply second_block_ok|]. apply Forall_singleton.
    exact first_block_ok.
  - apply Forall_cons. split; [by apply second_block_ok|].
    apply Forall_cons. split; [apply (block_ok_wire _ first_block_ok)|].
    apply Forall_singleton. apply (block_ok_wire _ genesis_ok).
  - exact genesis_ok.
  - vm_compute. discriminate.
  - vm_compute. reflexivity.
  - apply (block_ok_wire _ first_block_ok).
  - reflexivity.
  - reflexivity.
  - vm_compute. reflexivity.
  - vm_compute. reflexivity.
  - reflexivity.
  - reflexivity.
Defined.

Lemma NewBlock_spec_witness :
  ∃ b limit, NewBlock (c_bc short_chain) (zeros 20) 1400000041 = Ret b ∧
    b_Number b = Some (1 + 1) ∧ PrevHash b = LastBlockHash (c_bc short_chain) ∧
    GetRoot b = GetRoot first_block ∧ b_Coinbase b = zeros 20 ∧ Time b = 1400000041 ∧
    transactions b = [] ∧ Uncles b = [] ∧ CalcGasLimit b first_block = Ret limit ∧ GasLimit b = limit ∧
    b_Difficulty b = (if 1400000041 <? 1400000000 + 42
                      then 131072 + 131072 / 1024 else 131072 - 131072 / 1024) ∧
    CalculateBlockTD b = b_Difficulty b.
Proof.
  apply (NewBlock_spec (c_bc short_chain) (zeros 20) 1400000041 first_block 1);
    [reflexivity|reflexivity|discriminate|discriminate|split; [discriminate|reflexivity]].
Defined.
