(* ===== verification/Transition.v ===== *)
(** [ethchain/state_transition.go] and [ethchain/vm_env.go]: applying a
    transaction to the world state.

    A transition is a record of the transaction and of pointers to the accounts
    it has looked up; its operations are computations [TXM] on that record and
    the world.  The gas counter is shared with the closure that runs the code: a
    run leaves the transition with the gas that the closure has left.  The
    fuel of a run is computed from the gas, so it is always enough
    ([TransitionSpec]). *)

From S2P Require Import Prelude GoVal Big Bytes Errors Rlp Value Db Crypto Nibbles Trie State.
From S2P Require Import Machine Vm Curve Transaction Block.

(** ethchain/state_transition.go, StateTransition. The state is the world's. *)
Record StateTransition := mkTransition {
  st_coinbase : bytes;
  st_receiver : bytes;
  st_tx : Transaction;
  st_gas : Z;
  st_gasPrice : Z;
  st_value : Z;
  st_data : bytes;
  st_block : Block;
  st_cb : option nat;
  st_rec : option nat;
  st_sen : option nat;
}.

(** Updating one field of a transition. *)
Definition set_st_gas (g : Z) (s : StateTransition) : StateTransition :=
  mkTransition (st_coinbase s) (st_receiver s) (st_tx s) g (st_gasPrice s) (st_value s)
               (st_data s) (st_block s) (st_cb s) (st_rec s) (st_sen s).
Definition set_st_data (d : bytes) (s : StateTransition) : StateTransition :=
  mkTransition (st_coinbase s) (st_receiver s) (st_tx s) (st_gas s) (st_gasPrice s) (st_value s)
               d (st_block s) (st_cb s) (st_rec s) (st_sen s).
Definition set_cb (p : option nat) (s : StateTransition) : StateTransition :=
  mkTransition (st_coinbase s) (st_receiver s) (st_tx s) (st_gas s) (st_gasPrice s) (st_value s)
               (st_data s) (st_block s) p (st_rec s) (st_sen s).
Definition set_rec (p : option nat) (s : StateTransition) : StateTransition :=
  mkTransition (st_coinbase s) (st_receiver s) (st_tx s) (st_gas s) (st_gasPrice s) (st_value s)
               (st_data s) (st_block s) (st_cb s) p (st_sen s).
Definition set_sen (p : option nat) (s : StateTransition) : StateTransition :=
  mkTransition (st_coinbase s) (st_receiver s) (st_tx s) (st_gas s) (st_gasPrice s) (st_value s)
               (st_data s) (st_block s) (st_cb s) (st_rec s) p.

Section Transition.
Context `{Crypto} `{Secp256k1} {D : Type} `{Database D} `{MapOrder}.

(** Computations on the world of the virtual machine, and of a transition. *)
Definition WM : Type -> Type := st (VWorld D).

Definition in_world {A} (m : SM A) : WM A := λ vw,
  let '(o, w) := m (vw_world vw) in
  (o, mkVWorld w (match o with NoFuel => true | _ => vw_stuck vw end)).

Definition TXM : Type -> Type := st (StateTransition * VWorld D).

Definition on_vworld {A} (m : WM A) : TXM A := λ '(s, vw), let '(o, vw') := m vw in (o, (s, vw')).
Definition world {A} (m : SM A) : TXM A := on_vworld (in_world m).
Definition get_st : TXM StateTransition := λ s, (Ret s.1, s).
Definition put_st (f : StateTransition -> StateTransition) : TXM unit := λ '(s, vw),
  (Ret tt, (f s, vw)).

(** [defer d]: [d] runs when [m] has returned or panicked. *)
Definition deferred {A} (d : TXM unit) (m : TXM A) : TXM A := λ s,
  let '(o, s1) := m s in
  match o with
  | NoFuel => (NoFuel, s1)
  | _ => let '(o', s2) := d s1 in
         (match o' with Ret _ => o | Panic => Panic | NoFuel => NoFuel end, s2)
  end.

(** ethchain/state_transition.go, NewStateTransition. The coinbase object is a
    pointer: a nil one panics. *)
Definition NewStateTransition (coinbase : option nat) (tx : Transaction) (block : Block)
    : SM (D := D) StateTransition :=
  match coinbase with
  | None => st_panic
  | Some cb =>
      o ← get_object cb;
      mret (mkTransition (so_address o) (tx_Recipient tx) tx 0 (tx_GasPrice tx) (tx_Value tx)
                         (tx_Data tx) block (Some cb) None None)
  end.

(** ethchain/state_transition.go, StateTransition.Coinbase. *)
Definition st_Coinbase : TXM nat :=
  self ← get_st;
  match st_cb self with
  | Some cb => mret cb
  | None =>
      cb ← world (GetOrNewStateObject (st_coinbase self));
      _ ← put_st (set_cb (Some cb));
      mret cb
  end.

(** ethchain/state_transition.go, StateTransition.Sender. *)
Definition st_Sender : TXM nat :=
  self ← get_st;
  match st_sen self with
  | Some sen => mret sen
  | None =>
      addr ← lift (Sender (st_tx self));
      sen ← world (GetOrNewStateObject addr);
      _ ← put_st (set_sen (Some sen));
      mret sen
  end.

(** ethchain/state_transition.go, StateTransition.Receiver. *)
Definition st_Receiver : TXM (option nat) :=
  self ← get_st;
  if CreatesContract (st_tx self) then mret None
  else match st_rec self with
       | Some r => mret (Some r)
       | None =>
           r ← world (GetOrNewStateObject (tx_Recipient (st_tx self)));
           _ ← put_st (set_rec (Some r));
           mret (Some r)
       end.

(** ethchain/state_transition.go, MakeContract. *)
Definition MakeContract (tx : Transaction) : SM (D := D) (option nat) :=
  if IsContract tx then
    addr ← lift (CreationAddress tx);
    contract ← State_NewStateObject addr;
    _ ← modify_object contract (λ o, set_Trie (Trie_New (VStr [])) (set_InitCode (tx_Data tx) o));
    mret (Some contract)
  else mret None.

(** ethchain/state_transition.go, StateTransition.MakeStateObject. *)
Definition MakeStateObject (tx : Transaction) : SM (D := D) (option nat) := MakeContract tx.

(** ethchain/state_transition.go, StateTransition.UseGas. *)
Definition st_UseGas (amount : Z) : TXM (option error) :=
  self ← get_st;
  if st_gas self <? amount then mret (Some OutOfGasError)
  else _ ← put_st (set_st_gas (st_gas self - amount)); mret None.

(** ethchain/state_transition.go, StateTransition.AddGas. *)
Definition st_AddGas (amount : Z) : TXM unit :=
  self ← get_st; put_st (set_st_gas (st_gas self + amount)).

Definition insufficient_funds (what : bytes) (req has : Z) : error :=
  Errorf (asc "Insufficient funds to " ++ what ++ asc ". Req " ++ decimal req ++ asc ", has "
          ++ decimal has).

(** ethchain/state_transition.go, StateTransition.BuyGas. *)
Definition st_BuyGas : TXM (option error) :=
  sender ← st_Sender;
  self ← get_st;
  let tx := st_tx self in
  o ← world (get_object sender);
  if Balance o <? GasValue tx
  then mret (Some (insufficient_funds (asc "pre-pay gas") (GasValue tx) (Balance o)))
  else
    coinbase ← st_Coinbase;
    co ← world (get_object coinbase);
    let '(co', err) := BuyGas (tx_Gas tx) (tx_GasPrice tx) co in
    _ ← world (put_object coinbase co');
    match err with
    | Some e => mret (Some e)
    | None =>
        _ ← st_AddGas (tx_Gas tx);
        _ ← world (modify_object sender (SubAmount (GasValue tx)));
        mret None
    end.

(** ethchain/state_transition.go, StateTransition.RefundGas. *)
Definition st_RefundGas : TXM unit :=
  coinbase ← st_Coinbase;
  sender ← st_Sender;
  self ← get_st;
  _ ← world (modify_object coinbase (RefundGas (st_gas self) (tx_GasPrice (st_tx self))));
  let remaining := st_gas self * tx_GasPrice (st_tx self) in
  world (modify_object sender (AddAmount remaining)).

(** ethchain/state_transition.go, StateTransition.preCheck. *)
Definition preCheck : TXM (option error) :=
  self ← get_st;
  sender ← st_Sender;
  o ← world (get_object sender);
  let tx := st_tx self in
  if negb (Nonce o =? tx_Nonce tx) then mret (Some (NonceError (tx_Nonce tx) (Nonce o)))
  else st_BuyGas.

(** ethchain/state_transition.go, StateTransition.transferValue. *)
Definition transferValue (sender receiver : nat) : TXM (option error) :=
  self ← get_st;
  o ← world (get_object sender);
  if Balance o <? st_value self
  then mret (Some (insufficient_funds (asc "transfer value") (st_value self) (Balance o)))
  else
    _ ← world (modify_object sender (SubAmount (st_value self)));
    _ ← world (modify_object receiver (AddAmount (st_value self)));
    mret None.

(** ethchain/vm_env.go 15-31, NewEnv. What the environment answers; a sender
    that cannot be recovered panics. *)
Definition NewEnv (tx : Transaction) (block : Block) : outcome Environment :=
  origin ← Sender tx;
  hash ← block_Hash block;
  Ret (mkEnvironment origin (b_Number block) (PrevHash block) (b_Coinbase block) (Time block)
                     (b_Difficulty block) (tx_Value tx) hash).

(** Fuel for a run with some gas. *)
Definition run_fuel (gas : Z) : nat := S (2 * Z.to_nat gas).

(** ethchain/state_transition.go, StateTransition.Eval. *)
Definition st_Eval (msg : nat) (script : bytes) (context : nat) : TXM (bytes * option error) :=
  transactor ← st_Sender;
  self ← get_st;
  caller ← world (get_object transactor);
  env ← lift (NewEnv (st_tx self) (st_block self));
  let callerClosure :=
    set_Args (tx_Data (st_tx self))
      (NewClosure msg (so_address caller) context script (st_gas self) (st_gasPrice self)) in
  '(ret, err, c) ← on_vworld (λ vw,
     let '(o, (c, vw')) := RunClosure (run_fuel (st_gas self)) (Vm_New env) callerClosure vw in
     ('(ret, err) ← o; Ret (ret, err, c), vw'));
  _ ← put_st (set_st_gas (cl_Gas c));
  mret (ret, err).

(** ethchain/state_transition.go 186-212, StateTransition.TransitionState. Move
    the value; the receiver and the snapshot to go back to. *)
Definition move_value (sender : nat) : TXM (option nat * option State) :=
  self ← get_st;
  if CreatesContract (st_tx self) then
    _ ← world (modify_object sender (SubAmount (st_value self)));
    snapshot ← world State_Copy;
    receiver ← world (MakeStateObject (st_tx self));
    _ ← put_st (set_rec receiver);
    match receiver with
    | None => mret (None, Some snapshot)
    | Some r =>
        _ ← world (modify_object r (AddAmount (st_value self)));
        mret (Some r, Some snapshot)
    end
  else
    receiver ← st_Receiver;
    match receiver with
    | None => st_panic
    | Some r =>
        _ ← world (modify_object sender (SubAmount (st_value self)));
        _ ← world (modify_object r (AddAmount (st_value self)));
        snapshot ← world State_Copy;
        mret (Some r, Some snapshot)
    end.

(** ethchain/state_transition.go 214-220, StateTransition.TransitionState. *)
Definition transition_message (sender receiver : nat) : TXM nat :=
  self ← get_st;
  r ← world (get_object receiver);
  s ← world (get_object sender);
  hash ← lift (block_Hash (st_block self));
  world (AddMessage (mkMessage (so_address r) (so_address s) (tx_Data (st_tx self)) [] 0
           (so_address s) (Time (st_block self)) (b_Coinbase (st_block self)) hash
           (b_Number (st_block self)) (st_value self) [])).

(** Go back to a snapshot. *)
Definition revert_to (snapshot : option State) : TXM unit :=
  match snapshot with Some s => world (State_Set s) | None => st_panic end.

(** ethchain/state_transition.go 222-251, StateTransition.TransitionState. Run
    the init code or the code. *)
Definition run_code (msg receiver : nat) (snapshot : option State) : TXM (option error) :=
  self ← get_st;
  r ← world (get_object receiver);
  if IsContractAddr (st_receiver self) then
    _ ← put_st (set_st_data []);
    '(code, err) ← st_Eval msg (InitCode r) receiver;
    match err with
    | Some e =>
        _ ← revert_to snapshot;
        mret (Some (Errorf (asc "Error during init execution " ++ Error e)))
    | None =>
        _ ← world (modify_object receiver (set_Code code));
        _ ← world (modify_message msg (set_Output code));
        mret None
    end
  else if 0 <? zlen (Code r) then
    '(ret, err) ← st_Eval msg (Code r) receiver;
    match err with
    | Some e =>
        _ ← revert_to snapshot;
        mret (Some (Errorf (asc "Error during code execution " ++ Error e)))
    | None => _ ← world (modify_message msg (set_Output ret)); mret None
    end
  else mret None.

(** ethchain/state_transition.go 158-252, StateTransition.TransitionState. What
    follows the check, and is followed by the refund whatever happens. *)
Definition transition_body : TXM (option error) :=
  sender ← st_Sender;
  _ ← world (modify_object sender (λ o, set_Nonce (u64 (Nonce o + 1)) o));
  err ← st_UseGas GasTx;
  match err with
  | Some e => mret (Some e)
  | None =>
      self ← get_st;
      err ← st_UseGas (zlen (st_data self) * GasData);
      match err with
      | Some e => mret (Some e)
      | None =>
          o ← world (get_object sender);
          if Balance o <? st_value self
          then mret (Some (insufficient_funds (asc "transfer value") (st_value self) (Balance o)))
          else
            '(receiver, snapshot) ← move_value sender;
            match receiver with
            | None => mret (Some (Errorf (asc "Unable to create contract")))
            | Some r =>
                msg ← transition_message sender r;
                run_code msg r snapshot
            end
      end
  end.

(** ethchain/state_transition.go, StateTransition.TransitionState. *)
Definition TransitionState : TXM (option error) :=
  err ← preCheck;
  match err with
  | Some e => mret (Some e)
  | None => deferred st_RefundGas transition_body
  end.

End Transition.
