(* ===== verification/Core.v ===== *)
(** The node that the transaction pool and the state manager share: the chain, the
    pool, the states of the manager, and the list of what has been told to others
    (broadcasts to peers, posts on the event bus). *)

From S2P Require Import Prelude GoVal Big Bytes Errors Rlp Value Wire Db Crypto Nibbles Trie.
From S2P Require Import State Curve Transaction Block Machine BlockChain Transition.

(** What the node tells others. *)
Inductive effect :=
| Broadcast (msgType : MsgType) (data : list goval)
| PostTx (event : bytes) (tx : Transaction)
| PostBlock (event : bytes) (block : Block)
| PostMessages (event : bytes) (messages : list Message)
| PostMiner (event : bytes).

(** ethchain/state_manager.go 50-75, StateManager. The chain, the proof of work
    and the rest of the node are not stored in it here. *)
Record StateManager := mkManager {
  transState : State;
  miningState : State;
  lastAttemptedBlock : option Block;
}.

(** The node: [k_stuck] is set when a run of the virtual machine met an
    operation on the state that does not end ([Vm]). *)
Record Core (D : Type) := mkCore {
  k_chain : Chain D;
  k_pool : list Transaction;
  k_effects : list effect;
  k_manager : StateManager;
  k_stuck : bool;
}.
Arguments mkCore {D}.
Arguments k_chain {D}.
Arguments k_pool {D}.
Arguments k_effects {D}.
Arguments k_manager {D}.
Arguments k_stuck {D}.

Section Core.
Context {D : Type}.

(** Computations on the node. *)
Definition NM : Type -> Type := st (Core D).

Definition get_core : NM (Core D) := λ k, (Ret k, k).

Definition on_chain {A} (m : CM (D := D) A) : NM A := λ k,
  let '(o, c) := m (k_chain k) in
  (o, mkCore c (k_pool k) (k_effects k) (k_manager k) (k_stuck k)).

Definition set_pool (p : list Transaction) : NM unit := λ k,
  (Ret tt, mkCore (k_chain k) p (k_effects k) (k_manager k) (k_stuck k)).

Definition emit (e : effect) : NM unit := λ k,
  (Ret tt, mkCore (k_chain k) (k_pool k) (k_effects k ++ [e]) (k_manager k) (k_stuck k)).

(** An operation on the state of the current block. *)
Definition on_current {A} (m : SM (D := D) A) : NM A :=
  k ← get_core;
  b ← lift (deref (CurrentBlock (c_bc (k_chain k))));
  '(a, s) ← on_chain (on_state (b_state b) m);
  _ ← on_chain (modify_bc (λ bc, set_head (set_b_state s b) (LastBlockHash bc) bc));
  mret a.

Definition set_manager (f : StateManager -> StateManager) : NM unit := λ k,
  (Ret tt, mkCore (k_chain k) (k_pool k) (k_effects k) (f (k_manager k)) (k_stuck k)).

(** An operation on a state that is not part of a block in the chain. *)
Definition with_state {A} (s : State) (m : SM (D := D) A) : NM (A * State) := on_chain (on_state s m).

(** An operation on the environment only. *)
Definition on_env {A} (m : st (Env D) A) : NM A := λ k,
  let c := k_chain k in
  let '(o, e) := m (c_env c) in
  (o, mkCore (mkChain e (c_heap c) (c_bc c)) (k_pool k) (k_effects k) (k_manager k) (k_stuck k)).

End Core.

(** [wlp_steps]: peel a computation, keeping what its tests tell. *)
Ltac wlp_steps :=
  repeat match goal with
  | |- wlp (mret _) _ _ => apply wlp_ret
  | |- wlp (_ ≫= _) _ _ => apply wlp_bind
  | |- wlp (lift _) _ _ => apply wlp_lift; intros ? ?
  | |- wlp (let '(_, _) := ?x in _) _ _ => destruct x eqn:?
  | |- wlp (if ?x then _ else _) _ _ => destruct x eqn:?
  | |- wlp (match ?x with _ => _ end) _ _ => destruct x eqn:?
  | |- wlp get_core _ _ => intros ? ? [= <- <-]
  | |- wlp (emit _) _ _ => intros ? ? [= <- <-]
  | |- wlp (set_pool _) _ _ => intros ? ? [= <- <-]
  end.
