(* ===== verification/TxPool.v ===== *)
(** [ethchain/transaction_pool.go]: the pool of pending transactions.

    The goroutine that reads the queue is the step
    [handle_queued], run once for each transaction queued; locks are left out, as each step
    runs alone. *)

From S2P Require Import Prelude GoVal Big Bytes Errors Rlp Value Wire Db Crypto Nibbles Trie.
From S2P Require Import State Curve Transaction Block BlockChain Core.

(** ethchain/transaction_pool.go 24-28, minGasPrice. *)
Definition minGasPrice : Z := 1000000.

(** ethchain/transaction_pool.go 17-19, txPoolQueueSize. *)
Definition txPoolQueueSize : Z := 50.

(** ethchain/transaction_pool.go, FindTx. *)
Definition FindTx (pool : list Transaction) (finder : Transaction -> bool) : option Transaction :=
  List.find finder pool.

Section TxPool.
Context `{Crypto} `{Secp256k1} {D : Type} `{Database D}.

(** ethchain/transaction_pool.go, NewTxPool. *)
Definition NewTxPool : list Transaction := [].

(** ethchain/transaction_pool.go, TxPool.addTransaction. *)
Definition addTransaction (tx : Transaction) : NM (D := D) unit :=
  k ← get_core;
  _ ← set_pool (k_pool k ++ [tx]);
  emit (Broadcast MsgTxTy [tx_RlpData tx]).

(** ethchain/transaction_pool.go, TxPool.ValidateTransaction. Looking up the
    sender's account may add it to the current state's objects. *)
Definition ValidateTransaction (tx : Transaction) : NM (D := D) (option error) :=
  k ← get_core;
  match CurrentBlock (c_bc (k_chain k)) with
  | None => mret (Some (Errorf (asc "[TXPL] No last block on the block chain")))
  | Some _ =>
      if negb (zlen (tx_Recipient tx) =? 20) then
        mret (Some (Errorf (asc "[TXPL] Invalid recipient. len = "
                            ++ decimal (zlen (tx_Recipient tx)))))
      else
        addr ← lift (Sender tx);
        balance ← on_current (sender ← GetAccount addr; Balance <$> get_object sender);
        if balance <? tx_Value tx then
          mret (Some (Errorf (asc "[TXPL] Insufficient amount in sender's (" ++ Bytes2Hex addr
                              ++ asc ") account")))
        else if IsContract tx && (tx_GasPrice tx <? minGasPrice) then
          mret (Some (Errorf (asc "[TXPL] Gasprice too low, " ++ decimal (tx_GasPrice tx)
                              ++ asc " given should be at least " ++ decimal minGasPrice ++ asc ".")))
        else mret None
  end.

(** ethchain/transaction_pool.go 135-157, TxPool.queueHandler. One transaction
    from the queue; the log line takes the first bytes of the sender. *)
Definition handle_queued (tx : Transaction) : NM (D := D) unit :=
  k ← get_core;
  let hash := tx_Hash tx in
  match FindTx (k_pool k) (λ tx, bool_decide (tx_Hash tx = hash)) with
  | Some _ => mret tt
  | None =>
      err ← ValidateTransaction tx;
      match err with
      | Some _ => mret tt
      | None =>
          _ ← addTransaction tx;
          addr ← lift (Sender tx);
          _ ← lift (slice addr 0 4);
          emit (PostTx (asc "newTx:pre") tx)
      end
  end.

(** ethchain/transaction_pool.go, TxPool.queueHandler. The transactions queued
    before the quit signal, in order. *)
Definition queueHandler (queue : list Transaction) : NM (D := D) unit := for_each handle_queued queue.

(** ethchain/transaction_pool.go, TxPool.QueueTransaction. *)
Definition QueueTransaction (tx : Transaction) (queue : list Transaction) : list Transaction :=
  queue ++ [tx].

(** ethchain/transaction_pool.go, TxPool.CurrentTransactions. *)
Definition CurrentTransactions : NM (D := D) (list Transaction) := k ← get_core; mret (k_pool k).

(** ethchain/transaction_pool.go 186-193, TxPool.RemoveInvalid. The loop over the
    elements [rest] that follow [kept].  [list.Remove] clears the links of the
    element it removes, so [e.Next()] is nil after it and the loop ends. *)
Fixpoint remove_loop (state : State) (kept rest : list Transaction) : NM (D := D) State :=
  match rest with
  | [] => mret state
  | tx :: more =>
      addr ← lift (Sender tx);
      '(nonce, state) ← with_state state (sender ← GetAccount addr; Nonce <$> get_object sender);
      err ← ValidateTransaction tx;
      if bool_decide (is_Some err) || (tx_Nonce tx <=? nonce)
      then _ ← set_pool (kept ++ more); mret state
      else remove_loop state (kept ++ [tx]) more
  end.

(** ethchain/transaction_pool.go, TxPool.RemoveInvalid. The state is returned, as it may
    have got new objects. *)
Definition RemoveInvalid (state : State) : NM (D := D) State :=
  k ← get_core; remove_loop state [] (k_pool k).

(** ethchain/transaction_pool.go, TxPool.Flush. *)
Definition Flush : NM (D := D) (list Transaction) :=
  txList ← CurrentTransactions; _ ← set_pool []; mret txList.

(** ethchain/transaction_pool.go, TxPool.Stop. *)
Definition TxPool_Stop : NM (D := D) unit := _ ← Flush; mret tt.

End TxPool.

(** * The pool as a transition system *)

Section PoolSpec.
Context `{HC : Crypto} `{HS : Secp256k1} {D : Type} `{HD : Database D}.

(** What can happen to the pool: a queued transaction is handled, the pool is
    cleaned after a block, or flushed.  (Steps that panic end the process.) *)
Inductive pool_step : Core D -> Core D -> Prop :=
| step_queued tx k k' : handle_queued tx k = (Ret tt, k') -> pool_step k k'
| step_clean state state' k k' : RemoveInvalid state k = (Ret state', k') -> pool_step k k'
| step_flush txs k k' : Flush k = (Ret txs, k') -> pool_step k k'.

(** Transactions that the validation can let through. *)
Definition admissible (tx : Transaction) : Prop :=
  zlen (tx_Recipient tx) = 20 ∧ (IsContract tx = true -> minGasPrice <= tx_GasPrice tx).

Definition pool_ok (k : Core D) : Prop :=
  NoDup (map tx_Hash (k_pool k)) ∧ Forall admissible (k_pool k).

(** Computations that leave the pool alone. *)
Definition pools_eq (k k' : Core D) : Prop := k_pool k' = k_pool k.
Notation same_pool := (steps pools_eq).

#[local] Instance pools_eq_preorder : PreOrder pools_eq.
Proof. split; [done|]. unfold pools_eq. intros ???. congruence. Qed.

Lemma same_pool_chain {A} (m : CM (D := D) A) : same_pool (on_chain m).
Proof. intros k. unfold on_chain. by destruct (m (k_chain k)). Qed.

Lemma same_pool_emit e : same_pool (emit e).
Proof. done. Qed.

Lemma same_pool_core : same_pool get_core.
Proof. done. Qed.

#[local] Hint Resolve steps_ret steps_lift same_pool_chain same_pool_emit same_pool_core : same_pool.

(** [pool_same]: nothing in the computation writes the pool. *)
Ltac pool_same :=
  repeat match goal with
  | |- steps _ (_ ≫= _) => apply steps_bind; [exact _| |intros ?]
  | |- steps _ (let '(_, _) := ?x in _) => destruct x
  | |- steps _ (match ?x with _ => _ end) => destruct x
  | |- steps _ _ => solve [eauto with same_pool typeclass_instances]
  end.

Lemma same_pool_current {A} (m : SM (D := D) A) : same_pool (on_current m).
Proof. unfold on_current. pool_same. Qed.

#[local] Hint Resolve same_pool_current : same_pool.

Lemma same_pool_Validate tx : same_pool (ValidateTransaction tx).
Proof. unfold ValidateTransaction. pool_same. Qed.

#[local] Hint Resolve same_pool_Validate : same_pool.

Lemma Validate_admissible tx k :
  wlp (ValidateTransaction tx) (λ err k', k_pool k' = k_pool k ∧ (err = None -> admissible tx)) k.
Proof.
  apply wlp_and; [by eapply steps_wlp; [apply same_pool_Validate|]|].
  unfold ValidateTransaction. wlp_steps; try done.
  eapply steps_wlp; [apply same_pool_current|]. intros balance k' _. wlp_steps; try done.
  intros _. unfold admissible. destruct (Z.eqb_spec (zlen (tx_Recipient tx)) 20); [|done].
  split; [done|]. intros Hc. rewrite Hc in *. cbn in *. lia.
Qed.

Lemma handle_queued_pool tx k :
  wlp (handle_queued tx) (λ _ k', k_pool k' = k_pool k ∨
    k_pool k' = k_pool k ++ [tx] ∧ admissible tx ∧ tx_Hash tx ∉ map tx_Hash (k_pool k)) k.
Proof.
  unfold handle_queued. wlp_steps; [by left|].
  eapply wlp_mono; [|apply Validate_admissible]. intros err k1 [Hp Ha]. wlp_steps; [by left|].
  unfold addTransaction. wlp_steps. right. cbn. rewrite Hp. split; [done|]. split; [by apply Ha|].
  intros (tx' & Htx & Hin)%list_elem_of_fmap.
  eapply List.find_none in Heqo; [|by apply list_elem_of_In].
  by apply bool_decide_eq_false in Heqo.
Qed.

Lemma remove_loop_pool rest : ∀ state kept k,
  k_pool k = kept ++ rest ->
  wlp (remove_loop state kept rest) (λ _ k', k_pool k' = kept ++ rest ∨
    ∃ i, is_Some (rest !! i) ∧ k_pool k' = kept ++ delete i rest) k.
Proof.
  induction rest as [|tx more IH]; intros state kept k Hk; cbn [remove_loop]; [apply wlp_ret; by left|].
  wlp_steps. eapply steps_wlp; [apply same_pool_chain|]. intros [nonce state'] k1 Hk1. wlp_steps.
  eapply steps_wlp; [apply same_pool_Validate|]. intros err k2 Hk2. wlp_steps.
  - right. exists 0%nat. split; [by eexists|done].
  - eapply wlp_mono; [|apply (IH state' (kept ++ [tx])); rewrite Hk2, Hk1, Hk, <-app_assoc; done].
    intros _ k' [E | (i & Hi & E)]; [left|right; exists (S i)]; rewrite E, <-app_assoc; done.
Qed.

(** C12. The pool holds no transaction twice, and only admissible ones: with any
    interleaving of queued transactions, cleaning after blocks and flushes, starting from a pool
    that has the property (as the empty one has), the hashes in the pool are pairwise
    different, and every transaction in it has a recipient of 20 bytes and, if
    it creates a contract, at least the minimum gas price. *)
Theorem pool_invariant (k k' : Core D) : rtc pool_step k k' -> pool_ok k -> pool_ok k'.
Proof.
  induction 1 as [|k k1 k' Hstep _ IH]; [done|]. intros [Hnd Hall]. apply IH. clear IH k'.
  destruct Hstep as [tx k k' E|state state' k k' E|txs k k' E].
  - apply handle_queued_pool in E as [E | (E & Ha & Hn)]; unfold pool_ok; rewrite E; [done|].
    split; [|by apply Forall_app; split; [|apply Forall_singleton]].
    rewrite map_app. apply NoDup_app. split; [done|]. split; [|apply NoDup_singleton].
    intros h Hh ->%list_elem_of_singleton. done.
  - unfold RemoveInvalid in E. eapply (wlp_bind get_core) in E; [|wlp_steps; by apply remove_loop_pool].
    unfold pool_ok. destruct E as [-> | (i & _ & ->)]; [done|]. cbn [app].
    change (map tx_Hash) with (fmap (M := list) tx_Hash). rewrite list_fmap_delete.
    split; [eapply sublist_NoDup; [exact Hnd|apply sublist_delete]|by apply Forall_delete].
  - unfold Flush, CurrentTransactions in E. injection E as _ <-.
    split; [apply NoDup_nil|apply Forall_nil]; done.
Qed.

(** Cleaning the pool after a block removes one transaction at most: the
    loop walks over the list it removes from, and the element it has removed
    has no successor any more, so the invalid transactions behind the first
    stay in the pool. *)
Theorem RemoveInvalid_removes_one (state state' : State) (k k' : Core D) :
  RemoveInvalid state k = (Ret state', k') ->
  k_pool k' = k_pool k ∨
  ∃ i tx, k_pool k !! i = Some tx ∧ k_pool k' = delete i (k_pool k).
Proof.
  intros E. unfold RemoveInvalid in E.
  eapply (wlp_bind get_core) in E; [|wlp_steps; by apply remove_loop_pool].
  destruct E as [-> | (i & [tx Htx] & ->)]; [by left|]. right. by exists i, tx.
Qed.

End PoolSpec.

(** * Runs *)

#[local] Existing Instances toy_crypto toy_curve list_order.

Definition zero_state : State := State_New (Trie_New (VStr [])).

(** A node on the chain of [BlockChain], with some transactions in its pool. *)
Definition node_with (pool : list Transaction) : Core MemDatabase :=
  mkCore short_chain pool [] (mkManager zero_state zero_state None) false.

Definition free_tx (gas : Z) : Transaction :=
  ret_or zero_tx (Sign (NewTransactionMessage (replicate 20 x22) 0 gas 10 []) example_key).

Lemma pool_invariant_witness :
  k_pool (handle_queued (free_tx 500) (node_with [])).2 = [free_tx 500] ∧
  pool_ok (handle_queued (free_tx 500) (node_with [])).2.
Proof.
  split; [vm_compute; reflexivity|].
  apply (pool_invariant (node_with [])).
  - apply rtc_once. apply (step_queued (free_tx 500)). vm_compute. reflexivity.
  - split; [apply NoDup_nil|apply Forall_nil]; done.
Defined.

(** Two transactions whose nonce has been used: the second one stays. *)
Lemma RemoveInvalid_removes_one_witness :
  let k := node_with [free_tx 500; free_tx 600] in
  let k' := (RemoveInvalid (State_New (Trie_New (VStr []))) k).2 in
  k_pool k' = [free_tx 600] ∧
  (k_pool k' = k_pool k ∨ ∃ i tx, k_pool k !! i = Some tx ∧ k_pool k' = delete i (k_pool k)).
Proof.
  split; [vm_compute; reflexivity|].
  apply (RemoveInvalid_removes_one (State_New (Trie_New (VStr [])))
           (ret_or (State_New (Trie_New (VStr [])))
              (RemoveInvalid (State_New (Trie_New (VStr []))) (node_with [free_tx 500; free_tx 600])).1)).
  vm_compute. reflexivity.
Defined.
