(* ===== verification/StateManager.v ===== *)
(** [ethchain/state_manager.go]: processing blocks.

    A computation [NM] on the node.  The state that a block is applied to is
    the one its parent was opened with; it is passed along explicitly, so the
    deferred [state.Reset] is the last step of [Process].  (When the processing
    panics nothing recovers, so that step is left out there.)  The parent is a copy read
    from the database; the gas that [ProcessTransactions] writes into it is returned with it. *)

From S2P Require Import Prelude GoVal Big Bytes Errors Rlp Value Wire Db Crypto Nibbles Trie.
From S2P Require Import State Curve Transaction Block Bloom Pow Machine Vm BlockChain Transition.
From S2P Require Import Core TxPool.

Section StateManager.
Context `{Crypto} `{Secp256k1} {D : Type} `{Database D} `{MapOrder}.

(** A copy of the current block's state. *)
Definition copy_current : NM (D := D) State :=
  k ← get_core;
  b ← lift (deref (CurrentBlock (c_bc (k_chain k))));
  '(s, _) ← with_state (b_state b) State_Copy;
  mret s.

(** ethchain/state_manager.go, NewStateManager. *)
Definition NewStateManager : NM (D := D) unit :=
  t ← copy_current;
  m ← copy_current;
  set_manager (λ _, mkManager t m None).

(** ethchain/state_manager.go, StateManager.CurrentState. *)
Definition CurrentState : NM (D := D) State :=
  k ← get_core; b ← lift (deref (CurrentBlock (c_bc (k_chain k)))); mret (b_state b).

(** ethchain/state_manager.go, StateManager.TransState. *)
Definition TransState : NM (D := D) State := k ← get_core; mret (transState (k_manager k)).

(** ethchain/state_manager.go, StateManager.MiningState. *)
Definition MiningState : NM (D := D) State := k ← get_core; mret (miningState (k_manager k)).

(** ethchain/state_manager.go, StateManager.NewMiningState. *)
Definition NewMiningState : NM (D := D) State :=
  s ← copy_current;
  _ ← set_manager (λ m, mkManager (transState m) s (lastAttemptedBlock m));
  mret s.

Definition set_attempted (b : Block) : NM (D := D) unit :=
  set_manager (λ m, mkManager (transState m) (miningState m) (Some b)).

(** * Transactions *)

(** Run a transition on the node: the error, the gas that is left, the state. *)
Definition run_transition (T : StateTransition) (state : State)
    : NM (D := D) (option error * Z * State) := λ k,
  let c := k_chain k in
  let '(o, (T', vw)) :=
    TransitionState (T, mkVWorld (mkWorld (c_env c) (c_heap c) state) (k_stuck k)) in
  let w := vw_world vw in
  (match o with
   | Ret err => Ret (err, st_gas T', w_state w)
   | Panic => Panic
   | NoFuel => NoFuel
   end,
   mkCore (mkChain (w_env w) (w_heap w) (c_bc c)) (k_pool k) (k_effects k) (k_manager k) (vw_stuck vw)).

(** ethchain/state_manager.go 124-126, StateManager.ProcessTransactions. Apply
    one transaction. *)
Definition apply_transaction (coinbase : bytes) (block : Block) (tx : Transaction) (state : State)
    : NM (D := D) (option error * Z * State) :=
  '(T, state) ← with_state state (cb ← GetStateObject coinbase; NewStateTransition cb tx block);
  run_transition T state.

(** [state.Root().([]byte)]. *)
Definition root_bytes (s : State) : outcome bytes :=
  match State_Root s with VBytes b => Ret b | _ => Panic end.

(** The error for a receipt that differs from the one in the block. *)
Definition receipt_error (i : Z) (original receipt : Receipt) : outcome error :=
  r ← slice (PostState original) 0 4;
  c ← slice (PostState receipt) 0 4;
  Ret (Errorf (asc "err diff #" ++ decimal (i + 1) ++ asc " (r) "
               ++ decimal (CumulativeGasUsed original) ++ asc " ~ " ++ Bytes2Hex r
               ++ asc "  <=>  (c) " ++ decimal (CumulativeGasUsed receipt) ++ asc " ~ "
               ++ Bytes2Hex c ++ asc " (" ++ Bytes2Hex (tx_Hash (r_Tx receipt)) ++ asc ")" ++ [x0a])).

(** The answer of [ProcessTransactions]; the error is the last value. *)
Record processed := mkProcessed {
  p_receipts : list Receipt;
  p_handled : list Transaction;
  p_unhandled : list Transaction;
  p_state : State;
  p_parent : Block;
  p_err : option error;
}.

(** ethchain/state_manager.go 121-171, StateManager.ProcessTransactions. The loop from
    transaction [i]. *)
Fixpoint process_loop (coinbase : bytes) (block parent : Block) (i : Z) (txs : list Transaction)
    (rs : list Receipt) (handled : list Transaction) (totalUsedGas : Z) (state : State)
    : NM (D := D) processed :=
  match txs with
  | [] => mret (mkProcessed rs handled [] state (set_b_GasUsed totalUsedGas parent) None)
  | tx :: rest =>
      '(err, gas, state) ← apply_transaction coinbase block tx state;
      if match err with Some e => IsNonceErr e | None => false end then
        process_loop coinbase block parent (i + 1) rest rs handled totalUsedGas state
      else if match err with Some e => IsGasLimitErr e | None => false end then
        mret (mkProcessed rs handled (tx :: rest) state (set_b_GasUsed totalUsedGas parent) err)
      else
        _ ← emit (PostTx (asc "newTx:post") tx);
        '(_, state) ← with_state state State_Update;
        let total := totalUsedGas + (tx_Gas tx - gas) in
        root ← lift (root_bytes state);
        let receipt := mkReceipt tx (CopyBytes root) total in
        match receipts block !! Z.to_nat i with
        | Some original =>
            if negb (receipt_Cmp original receipt) then
              e ← lift (receipt_error i original receipt);
              mret (mkProcessed [] [] [] state parent (Some e))
            else process_loop coinbase block parent (i + 1) rest (rs ++ [receipt])
                              (handled ++ [tx]) total state
        | None => process_loop coinbase block parent (i + 1) rest (rs ++ [receipt])
                               (handled ++ [tx]) total state
        end
  end.

(** ethchain/state_manager.go, StateManager.ProcessTransactions. *)
Definition ProcessTransactions (coinbase : nat) (state : State) (block parent : Block)
    (txs : list Transaction) : NM (D := D) processed :=
  '(o, state) ← with_state state (get_object coinbase);
  process_loop (so_address o) block parent 0 txs [] [] 0 state.

(** ethchain/state_manager.go, StateManager.ApplyDiff. *)
Definition ApplyDiff (state : State) (parent block : Block)
    : NM (D := D) (list Receipt * option error * State) :=
  '(coinbase, state) ← with_state state (GetOrNewStateObject (b_Coinbase block));
  limit ← lift (CalcGasLimit block parent);
  '(_, state) ← with_state state (modify_object coinbase (SetGasPool limit));
  p ← ProcessTransactions coinbase state block parent (transactions block);
  mret (match p_err p with
        | Some e => ([], Some e, p_state p)
        | None => (p_receipts p, None, p_state p)
        end).

(** * Validation and rewards *)

(** ethchain/state_manager.go, StateManager.CalculateTD. *)
Definition CalculateTD (block : Block) : NM (D := D) bool :=
  k ← get_core;
  let uncleDiff := fold_left (λ acc uncle, acc + b_Difficulty uncle) (Uncles block) 0 in
  let TD := TD (c_bc (k_chain k)) in
  let td := TD + uncleDiff + b_Difficulty block in
  if TD <? td then _ ← on_chain (SetTotalDifficulty td); mret true
  else mret false.

(** ethchain/state_manager.go 309-313, StateManager.ValidateBlock. The first uncle of
    another generation. *)
Fixpoint check_uncles (previous : Block) (uncles : list Block) : option error :=
  match uncles with
  | [] => None
  | uncle :: rest =>
      if negb (bool_decide (PrevHash uncle = PrevHash previous))
      then Some (ValidationError (asc "Mismatch uncle's previous hash. Expected "
                   ++ Bytes2Hex (PrevHash previous) ++ asc ", got " ++ Bytes2Hex (PrevHash uncle)))
      else check_uncles previous rest
  end.

(** ethchain/state_manager.go, StateManager.ValidateBlock. *)
Definition ValidateBlock (block : Block) : NM (D := D) (option error) :=
  k ← get_core;
  let bc := c_bc (k_chain k) in
  previous ← lift (GetBlock (e_db (c_env (k_chain k))) (PrevHash block));
  match Uncles block, previous with
  | _ :: _, None => st_panic
  | us, _ =>
      match (match previous with Some p => check_uncles p us | None => None end) with
      | Some e => mret (Some e)
      | None =>
          previous ← lift (deref previous);
          let diff := s64 (Time block - Time previous) in
          if diff <? 0 then
            cur ← lift (deref (CurrentBlock bc));
            mret (Some (ValidationError (asc "Block timestamp less then prev block " ++ decimal diff
                    ++ asc " (" ++ decimal (Time block) ++ asc " - " ++ decimal (Time cur) ++ asc ")")))
          else
            hash ← lift (HashNoNonce block);
            ok ← lift (Pow_Verify hash (b_Difficulty block) (b_Nonce block));
            mret (if ok : bool then None
                  else Some (ValidationError (asc "Block's nonce is invalid (= "
                               ++ Bytes2Hex (b_Nonce block) ++ asc ")")))
      end
  end.

(** ethchain/state_manager.go, CalculateBlockReward. *)
Definition CalculateBlockReward (block : Block) (uncleLength : nat) : Z :=
  Nat.iter uncleLength (λ base, base + UncleInclusionReward) 0 + BlockReward.

(** ethchain/state_manager.go, CalculateUncleReward. *)
Definition CalculateUncleReward (block : Block) : Z := UncleReward.

(** Pay an amount to an account and write it. *)
Definition reward (addr : bytes) (amount : Z) : SM (D := D) unit :=
  account ← GetAccount addr;
  _ ← modify_object account (AddAmount amount);
  UpdateStateObject account.

(** ethchain/state_manager.go, StateManager.AccumelateRewards. It never fails. *)
Definition AccumelateRewards (block : Block) : SM (D := D) unit :=
  _ ← reward (b_Coinbase block) (CalculateBlockReward block (length (Uncles block)));
  for_each (λ uncle, reward (b_Coinbase uncle) (CalculateUncleReward uncle)) (Uncles block).

(** The addresses that the messages of a block enter in its filter. *)
Definition message_addresses (ms : list Message) : list bytes :=
  flat_map (λ m, [m_To m; m_From m]) ms.

(** ethchain/state_manager.go, StateManager.createBloomFilter. *)
Definition createBloomFilter (state : State) : NM (D := D) BloomFilter :=
  let ms := Messages (s_manifest state) in
  bloomf ← lift (enter_all (message_addresses ms) (NewBloomFilter None));
  _ ← emit (PostMessages (asc "messages") ms);
  mret bloomf.

(** * Blocks *)

(** ethchain/state_manager.go 233-258, StateManager.Process. The total
    difficulty, and what follows when the block is taken. *)
Definition accept_block (state : State) (block : Block) (dontReact : bool) : NM (D := D) State :=
  heavier ← CalculateTD block;
  if heavier : bool then
    '(_, state) ← with_state state State_Sync;
    _ ← on_chain (Add block);
    filter ← createBloomFilter state;
    hash ← lift (block_Hash block);
    _ ← on_chain (modify_db (λ db, db_Put db (bloom_key hash) (Bloom_Bin filter)));
    state ← (if dontReact then mret state
             else _ ← emit (PostBlock (asc "newBlock") block);
                  mret (set_manifest (Manifest_Reset (s_manifest state)) state));
    v ← lift (block_Value block);
    _ ← emit (Broadcast MsgBlockTy [v]);
    RemoveInvalid state
  else mret state.

(** ethchain/state_manager.go 204-260, StateManager.Process. From applying the
    transactions on. *)
Definition process_block (state : State) (parent block : Block) (dontReact : bool)
    : NM (D := D) (option error * State) :=
  '(receipts, err, state) ← ApplyDiff state parent block;
  match err with
  | Some e => mret (Some e, state)
  | None =>
      txSha ← on_env (CreateTxSha receipts);
      if negb (bool_decide (txSha = TxSha block)) then
        mret (Some (Errorf (asc "Error validating tx sha. Received " ++ Bytes2Hex (TxSha block)
                            ++ asc ", got " ++ Bytes2Hex txSha)), state)
      else
        err ← ValidateBlock block;
        match err with
        | Some e => mret (Some e, state)
        | None =>
            '(_, state) ← with_state state (AccumelateRewards block);
            if negb (State_Cmp (b_state block) state) then
              mret (Some (Errorf (asc "Invalid merkle root." ++ [x0a] ++ asc "rec: "
                      ++ Bytes2Hex (Value_Bytes (State_Root (b_state block))) ++ [x0a] ++ asc "is:  "
                      ++ Bytes2Hex (Value_Bytes (State_Root state)))), state)
            else state ← accept_block state block dontReact; mret (None, state)
        end
  end.

(** ethchain/state_manager.go, StateManager.Process. *)
Definition Process (block : Block) (dontReact : bool) : NM (D := D) (option error) :=
  k ← get_core;
  let db := e_db (c_env (k_chain k)) in
  hash ← lift (block_Hash block);
  if HasBlock db hash then mret None
  else if negb (HasBlock db (PrevHash block)) then mret (Some (ParentError (PrevHash block)))
  else
    _ ← set_attempted block;
    found ← lift (GetBlock db (PrevHash block));
    parent ← lift (deref found);
    '(err, state) ← process_block (b_state parent) parent block dontReact;
    _ ← with_state state State_Reset;
    mret err.

(** ethchain/state_manager.go, StateManager.GetMessages. The errors of the two
    steps are dropped. *)
Definition GetMessages (block : Block) : NM (D := D) (list Message * option error) :=
  k ← get_core;
  let db := e_db (c_env (k_chain k)) in
  if negb (HasBlock db (PrevHash block)) then mret ([], Some (ParentError (PrevHash block)))
  else
    _ ← set_attempted block;
    found ← lift (GetBlock db (PrevHash block));
    parent ← lift (deref found);
    '(state, _) ← with_state (b_state parent) State_Copy;
    '(_, _, state) ← ApplyDiff state parent block;
    '(_, state) ← with_state state (AccumelateRewards block);
    let messages := Messages (s_manifest state) in
    _ ← with_state state State_Reset;
    mret (messages, None).

End StateManager.
