(* ===== verification/Filter.v ===== *)
(** [ethchain/filter.go]: filters over the messages of blocks.

    The arguments of a filter come from scripts as values of unknown type
    ([obj]).  The lists and maps of the QML library are opaque; what they
    convert to is a parameter. *)

From S2P Require Import Prelude GoVal Big Bytes Errors Rlp Value Wire Db Crypto Nibbles Trie.
From S2P Require Import State Curve Transaction Block Bloom BlockChain Core StateManager.

(** ethchain/filter.go, data. *)
Record data := mkData { d_id : bytes; d_address : bytes }.

(** ethchain/filter.go, Filter. *)
Record Filter := mkFilter {
  earliest : bytes;
  latest : bytes;
  skip : Z;
  from : list bytes;
  to : list bytes;
  max : Z;
  altered : list data;
}.

(** ethchain/filter.go, NewFilter. *)
Definition NewFilter : Filter := mkFilter [] [] 0 [] [] 0 [].

(** ethchain/filter.go, Filter.AddAltered. *)
Definition AddAltered (id address : bytes) (f : Filter) : Filter :=
  mkFilter (earliest f) (latest f) (skip f) (from f) (to f) (max f) (altered f ++ [mkData id address]).

Definition set_altered (d : list data) (f : Filter) : Filter :=
  mkFilter (earliest f) (latest f) (skip f) (from f) (to f) (max f) d.
Definition set_earliest (b : bytes) (f : Filter) : Filter :=
  mkFilter b (latest f) (skip f) (from f) (to f) (max f) (altered f).
Definition set_latest (b : bytes) (f : Filter) : Filter :=
  mkFilter (earliest f) b (skip f) (from f) (to f) (max f) (altered f).

(** ethchain/filter.go, Filter.SetFrom. *)
Definition SetFrom (addr : list bytes) (f : Filter) : Filter :=
  mkFilter (earliest f) (latest f) (skip f) addr (to f) (max f) (altered f).

(** ethchain/filter.go, Filter.AddFrom. *)
Definition AddFrom (addr : bytes) (f : Filter) : Filter := SetFrom (from f ++ [addr]) f.

(** ethchain/filter.go, Filter.SetTo. *)
Definition SetTo (addr : list bytes) (f : Filter) : Filter :=
  mkFilter (earliest f) (latest f) (skip f) (from f) addr (max f) (altered f).

(** ethchain/filter.go, Filter.AddTo. *)
Definition AddTo (addr : bytes) (f : Filter) : Filter := SetTo (to f ++ [addr]) f.

(** ethchain/filter.go, Filter.SetMax. *)
Definition SetMax (max : Z) (f : Filter) : Filter :=
  mkFilter (earliest f) (latest f) (skip f) (from f) (to f) max (altered f).

(** ethchain/filter.go, Filter.SetSkip. *)
Definition SetSkip (skip : Z) (f : Filter) : Filter :=
  mkFilter (earliest f) (latest f) skip (from f) (to f) (max f) (altered f).

(** ethchain/filter.go, includes. *)
Definition includes (addresses : list bytes) (a : bytes) : bool := bool_decide (a ∈ addresses).

(** ethchain/filter.go 200-214, Filter.FilterMessages. One item of the altered
    ones. *)
Definition item_matches (message : Message) (item : data) : bool :=
  negb ((0 <? zlen (d_id item)) && negb (bool_decide (m_To message = d_id item)))
  && negb ((0 <? zlen (d_address item)) && negb (includes (m_ChangedAddresses message) (d_address item))).

(** ethchain/filter.go, Filter.FilterMessages. *)
Fixpoint FilterMessages (self : Filter) (msgs : list Message) : list Message :=
  match msgs with
  | [] => []
  | message :: rest =>
      if (0 <? zlen (to self)) && negb (includes (to self) (m_To message)) then FilterMessages self rest
      else if (0 <? zlen (from self)) && negb (includes (from self) (m_From message))
      then FilterMessages self rest
      else if negb ((zlen (altered self) =? 0) || existsb (item_matches message) (altered self))
      then FilterMessages self rest
      else message :: FilterMessages self rest
  end.

(** ethchain/filter.go 238-243, Filter.bloomFilter. Whether one of the addresses is in the
    filter; no addresses are in every filter. *)
Fixpoint search_any (bloom : BloomFilter) (addrs : list bytes) : outcome bool :=
  match addrs with
  | [] => Ret false
  | a :: rest => found ← Bloom_Search a bloom; if found : bool then Ret true else search_any bloom rest
  end.

Definition included (bloom : BloomFilter) (addrs : list bytes) : outcome bool :=
  if 0 <? zlen addrs then search_any bloom addrs else Ret true.

(** * Arguments from scripts *)

(** A value of unknown type: a plain Go value, a slice or map of interfaces, a
    list or map of the QML library. *)
Inductive obj (Q : Type) :=
| OGo (v : goval)
| OList (l : list (obj Q))
| OMap (m : list (bytes * obj Q))
| OQList (q : Q)
| OQMap (q : Q).
Arguments OGo {Q} v.
Arguments OList {Q} l.
Arguments OMap {Q} m.
Arguments OQList {Q} q.
Arguments OQMap {Q} q.

Section Filters.
Context `{Crypto} `{Secp256k1} {D : Type} `{Database D} `{MapOrder}.

(** What [Convert] makes of a QML list and of a QML map. *)
Context {Q : Type} (list_Convert : Q -> list (obj Q)) (map_Convert : Q -> list (bytes * obj Q)).

(** A field of a map; [nil] when it is missing. *)
Definition field (m : list (bytes * obj Q)) (name : bytes) : obj Q :=
  default (OGo VNil) (snd <$> List.find (λ p, bool_decide (p.1 = name)) m).

(** [v.(string)] with its test. *)
Definition as_string (v : obj Q) : option bytes := match v with OGo (VStr s) => Some s | _ => None end.
Definition is_nil (v : obj Q) : bool := match v with OGo VNil => true | _ => false end.

(** ethchain/filter.go, mapToData. *)
Definition mapToData (m : list (bytes * obj Q)) : data :=
  mkData (match as_string (field m (asc "id")) with Some s => Hex2Bytes s | None => [] end)
         (match as_string (field m (asc "at")) with Some s => Hex2Bytes s | None => [] end).

(** ethchain/filter.go, makeAltered. *)
Fixpoint makeAltered (fuel : nat) (v : obj Q) : outcome (list data) :=
  match fuel with
  | O => NoFuel
  | S f =>
      let slice l := foldr (λ item acc, d ← makeAltered f item; r ← acc; Ret (d ++ r)) (Ret []) l in
      match v with
      | OGo (VStr str) => Ret [mkData (Hex2Bytes str) []]
      | OMap m => Ret [mapToData m]
      | OList l => slice l
      | OQList q => slice (list_Convert q)
      | OQMap q => Ret [mapToData (map_Convert q)]
      | OGo _ => Panic
      end
  end.

(** The value that [NewValue] makes of an argument; only the length of a slice
    is looked at. *)
Definition to_goval (v : obj Q) : goval :=
  match v with OGo v => v | OList l => VList (map (λ _, VNil) l) | _ => VNil end.

(** ethchain/filter.go 85-96, Filter.SetEarliestBlock. The hash that an argument means; [SetLatestBlock]
    does the same. *)
Definition block_argument (bc : BlockChain) (v : goval) : outcome bytes :=
  let e := NewValue v in
  if Value_Int e =? -1 then b ← deref (CurrentBlock bc); block_Hash b
  else if 0 <? Value_Len e then Ret (Value_Bytes e)
  else Panic.

(** ethchain/filter.go, Filter.SetEarliestBlock. *)
Definition SetEarliestBlock (bc : BlockChain) (v : goval) (f : Filter) : outcome Filter :=
  h ← block_argument bc v; Ret (set_earliest h f).

(** ethchain/filter.go, Filter.SetLatestBlock. *)
Definition SetLatestBlock (bc : BlockChain) (v : goval) (f : Filter) : outcome Filter :=
  h ← block_argument bc v; Ret (set_latest h f).

(** An argument that is a block: hex when it is a string. *)
Definition block_field (v : obj Q) : goval :=
  match as_string v with Some s => VBytes (Hex2Bytes s) | None => to_goval v end.

(** [v.(string)] and [v.(int)] without a test. *)
Definition must_string (v : obj Q) : outcome bytes := deref (as_string v).
Definition must_int (v : obj Q) : outcome Z := match v with OGo (VInt Kint z) => Ret z | _ => Panic end.

(** A step that is taken when a field is there. *)
Definition when (v : obj Q) (step : obj Q -> Filter -> outcome Filter) (f : Filter) : outcome Filter :=
  if is_nil v then Ret f else step v f.

(** ethchain/filter.go, NewFilterFromMap. *)
Definition NewFilterFromMap (fuel : nat) (bc : BlockChain) (object : list (bytes * obj Q))
    : outcome Filter :=
  f ← when (field object (asc "earliest")) (λ v, SetEarliestBlock bc (block_field v)) NewFilter;
  f ← when (field object (asc "latest")) (λ v, SetLatestBlock bc (block_field v)) f;
  f ← when (field object (asc "to")) (λ v f, s ← must_string v; Ret (AddTo (Hex2Bytes s) f)) f;
  f ← when (field object (asc "from")) (λ v f, s ← must_string v; Ret (AddFrom (Hex2Bytes s) f)) f;
  f ← when (field object (asc "max")) (λ v f, n ← must_int v; Ret (SetMax n f)) f;
  f ← when (field object (asc "skip")) (λ v f, n ← must_int v; Ret (SetSkip n f)) f;
  when (field object (asc "altered")) (λ v f, d ← makeAltered fuel v; Ret (set_altered d f)) f.

(** * Finding messages *)

(** ethchain/filter.go, Filter.bloomFilter. An error of the database panics; no
    stored filter is a nil slice. *)
Definition bloomFilter (self : Filter) (db : D) (block : Block) : outcome bool :=
  hash ← block_Hash block;
  let '(bin, err) := db_Get db (bloom_key hash) in
  if err then Panic
  else
    let bloom := NewBloomFilter (if zlen bin =? 0 then None else Some bin) in
    fromIncluded ← included bloom (from self);
    toIncluded ← included bloom (to self);
    Ret (fromIncluded && toIncluded).

(** ethchain/filter.go 150-171, Filter.Find. The loop from block number [i] of
    the search; the messages so far. *)
Fixpoint find_loop (fuel : nat) (self : Filter) (i : Z) (block : option Block) (messages : list Message)
    : NM (D := D) (list Message) :=
  match block with
  | None => mret messages
  | Some b =>
      match fuel with
      | O => st_nofuel
      | S f =>
          k ← get_core;
          let db := e_db (c_env (k_chain k)) in
          last ← (if max self =? i then mret true
                  else if 0 <? zlen (earliest self) then
                    hash ← lift (block_Hash b); mret (bool_decide (hash = earliest self))
                  else mret false);
          interesting ← lift (bloomFilter self db b);
          found ← (if interesting : bool then
                     '(msgs, err) ← GetMessages b;
                     mret (match err with
                           | Some _ => None
                           | None => Some (messages ++ FilterMessages self msgs)
                           end)
                   else mret (Some messages));
          match found with
          | None => mret messages
          | Some messages =>
              k ← get_core;
              next ← lift (GetBlock (e_db (c_env (k_chain k))) (PrevHash b));
              if last : bool then mret messages else find_loop f self (i + 1) next messages
          end
      end
  end.

(** ethchain/filter.go, Filter.Find. The loop that should skip blocks tests [i < i]
    and does nothing. *)
Definition Find (fuel : nat) (self : Filter) : NM (D := D) (list Message) :=
  k ← get_core;
  block ← lift (GetBlock (e_db (c_env (k_chain k))) (latest self));
  find_loop fuel self 1 block [].

End Filters.

(** * What a filter finds *)

(** A message that a filter asks for. *)
Definition wanted (self : Filter) (m : Message) : Prop :=
  (to self = [] ∨ m_To m ∈ to self) ∧ (from self = [] ∨ m_From m ∈ from self) ∧
  (altered self = [] ∨ ∃ d, d ∈ altered self ∧
     (d_id d = [] ∨ m_To m = d_id d) ∧ (d_address d = [] ∨ d_address d ∈ m_ChangedAddresses m)).

#[export] Instance wanted_dec self m : Decision (wanted self m).
Proof.
  refine (cast_if (decide ((to self = [] ∨ m_To m ∈ to self) ∧ (from self = [] ∨ m_From m ∈ from self) ∧
    (altered self = [] ∨ Exists (λ d, (d_id d = [] ∨ m_To m = d_id d) ∧
       (d_address d = [] ∨ d_address d ∈ m_ChangedAddresses m)) (altered self)))));
    abstract (unfold wanted; rewrite Exists_exists in *; done).
Defined.

(** * What the tests of the loops decide *)

Lemma zlen_some {A} (l : list A) : (0 <? zlen l) = negb (match l with [] => true | _ => false end).
Proof. destruct l as [|x l]; [done|]. apply Z.ltb_lt. lenlia. Qed.

(** The form that every guard has: an empty criterion accepts everything. *)
Lemma guard_spec {A} (l : list A) (P : Prop) `{Decision P} :
  (0 <? zlen l) && negb (bool_decide P) = negb (bool_decide (l = [] ∨ P)).
Proof.
  rewrite zlen_some. destruct l as [|x l]; cbn [negb andb].
  - by rewrite bool_decide_eq_true_2 by auto.
  - f_equal. apply bool_decide_ext. naive_solver.
Qed.

Lemma item_matches_spec m d :
  item_matches m d = bool_decide ((d_id d = [] ∨ m_To m = d_id d)
                                  ∧ (d_address d = [] ∨ d_address d ∈ m_ChangedAddresses m)).
Proof. unfold item_matches, includes. by rewrite bool_decide_and, !guard_spec, !negb_involutive. Qed.

Lemma altered_spec m l :
  (zlen l =? 0) || existsb (item_matches m) l = true <->
  l = [] ∨ ∃ d, d ∈ l ∧ (d_id d = [] ∨ m_To m = d_id d)
                ∧ (d_address d = [] ∨ d_address d ∈ m_ChangedAddresses m).
Proof.
  rewrite orb_true_iff, Z.eqb_eq, existsb_exists. setoid_rewrite item_matches_spec.
  setoid_rewrite bool_decide_eq_true. setoid_rewrite list_elem_of_In.
  split; (intros [Hl|Hd]; [left|right; done]); [by apply zlen_0|by subst].
Qed.

Lemma FilterMessages_cons self m msgs :
  FilterMessages self (m :: msgs)
  = if decide (wanted self m) then m :: FilterMessages self msgs else FilterMessages self msgs.
Proof.
  cbn [FilterMessages]. unfold includes. rewrite !guard_spec.
  pose proof (altered_spec m (altered self)) as Ha.
  do 2 (case_bool_decide; cbn [negb]; [|by rewrite decide_False by (unfold wanted; tauto)]).
  destruct (_ || _); cbn [negb].
  - by rewrite decide_True by (unfold wanted; tauto).
  - rewrite decide_False; [done|]. unfold wanted. intros (_ & _ & Hw). by apply Ha in Hw.
Qed.

Lemma FilterMessages_none self msgs : Forall (λ m, ¬ wanted self m) msgs -> FilterMessages self msgs = [].
Proof. induction 1; [done|]. by rewrite FilterMessages_cons, decide_False. Qed.

(** C24. The loop with its three guards and its flag keeps exactly the messages
    that are wanted, in their order: those sent to one of the addresses of [to]
    (if there are any), from one of [from] (if any), and matching one of the
    items of [altered] (if any), where an item constrains the receiver and the
    changed address only as far as they are given. *)
Theorem FilterMessages_spec (self : Filter) (msgs : list Message) :
  FilterMessages self msgs = filter (wanted self) msgs.
Proof. induction msgs as [|m msgs IH]; [done|]. by rewrite FilterMessages_cons, filter_cons, IH. Qed.

(** * A block that is passed over has nothing to find *)

(** A search answers, and finds every address that was entered. *)
Lemma search_entered addrs b a :
  marks b (entered addrs) ->
  ∃ r, Bloom_Search a b = Ret r ∧ (a ∈ addrs -> 8 <= zlen a -> r = true).
Proof.
  intros Hm. unfold Bloom_Search. case_match; [exists false; split; [done|lia]|].
  rewrite (all_set_marks _ _ _ Hm). eexists. split; [done|]. intros Ha H8.
  apply bool_decide_eq_true, Forall_forall. intros i Hi. unfold entered.
  apply elem_of_list_to_set, list_elem_of_bind. exists a. split; [done|]. by apply list_elem_of_filter.
Qed.

Lemma search_any_entered addrs b l :
  marks b (entered addrs) ->
  ∃ r, search_any b l = Ret r ∧ (∀ a, a ∈ l -> a ∈ addrs -> 8 <= zlen a -> r = true).
Proof.
  intros Hm. induction l as [|a l (r & IH & Hr)]; cbn [search_any].
  - exists false. split; [done|]. by intros a ?%elem_of_nil.
  - destruct (search_entered addrs b a Hm) as (r1 & -> & Hr1). cbn [mbind outcome_bind].
    destruct r1; [by exists true|]. exists r. split; [done|].
    intros a' [->|Hin]%elem_of_cons Ha H8; [by specialize (Hr1 Ha H8)|by eapply Hr].
Qed.

Lemma included_entered addrs b l :
  marks b (entered addrs) ->
  ∃ r, included b l = Ret r ∧ (∀ a, l = [] ∨ a ∈ l -> a ∈ addrs -> 8 <= zlen a -> r = true).
Proof.
  intros Hm. unfold included. rewrite zlen_some. destruct l as [|x l]; cbn [negb].
  - by exists true.
  - destruct (search_any_entered addrs b (x :: l) Hm) as (r & -> & Hr). exists r.
    split; [done|]. intros a [?|Hin]; [done|by apply Hr].
Qed.

Lemma message_addresses_in m ms :
  m ∈ ms -> m_To m ∈ message_addresses ms ∧ m_From m ∈ message_addresses ms.
Proof.
  intros Hm. unfold message_addresses. rewrite !list_elem_of_In, !in_flat_map.
  apply list_elem_of_In in Hm. split; exists m; cbn; auto.
Qed.

(** C25. The bloom filter of a block never hides a message: when the record that
    [createBloomFilter] makes from the messages of a block is stored for the
    block (and their addresses have at least eight bytes, as all addresses of
    accounts do), the test of [Find] answers, and when it answers no, none of
    the messages is wanted. *)
Theorem bloom_filter_sound `{Crypto} {D : Type} `{Database D}
    (self : Filter) (db : D) (block : Block) (hash : bytes) (ms : list Message) (f : BloomFilter) :
  block_Hash block = Ret hash ->
  enter_all (message_addresses ms) (NewBloomFilter None) = Ret f ->
  db_Get db (bloom_key hash) = (Bloom_Bin f, false) ->
  (∀ m, m ∈ ms -> 8 <= zlen (m_To m) ∧ 8 <= zlen (m_From m)) ->
  ∃ b, bloomFilter self db block = Ret b ∧ (b = false -> FilterMessages self ms = []).
Proof.
  intros Hh Hf Hdb Hlen. unfold bloomFilter. rewrite Hh. cbn [mbind outcome_bind]. rewrite Hdb.
  destruct (enter_all_marks (message_addresses ms) _ _ marks_new) as (f' & Hf' & Hm).
  assert (f' = f) as -> by congruence. rewrite (right_id_L ∅ (∪)) in Hm.
  assert (zlen (Bloom_Bin f) =? 0 = false) as ->.
  { apply Z.eqb_neq. unfold zlen, Bloom_Bin. rewrite (proj1 Hm). lia. }
  replace (NewBloomFilter (if false then None else Some (Bloom_Bin f))) with f by by destruct f.
  destruct (included_entered _ _ (from self) Hm) as (rf & -> & Hrf).
  destruct (included_entered _ _ (to self) Hm) as (rt & -> & Hrt). cbn [mbind outcome_bind].
  exists (rf && rt). split; [done|]. intros Hno.
  apply FilterMessages_none, Forall_forall. intros m Hin (Hto & Hfrom & _).
  destruct (Hlen m Hin), (message_addresses_in m ms Hin).
  by rewrite (Hrf (m_From m)), (Hrt (m_To m)) in Hno.
Qed.

(** * An example *)

#[local] Existing Instances toy_crypto list_order.

(** A block with one message, from the address of tens to that of nines. *)
Definition nines : bytes := repeat x09 20.
Definition tens : bytes := repeat x10 20.
Definition one_message : Message :=
  mkMessage nines tens [] [] 0 tens 1400000000 (zeros 20) (zeros 32) (Some 1) 0 [].
Definition one_bloom : BloomFilter :=
  match enter_all (message_addresses [one_message]) (NewBloomFilter None) with
  | Ret f => f
  | _ => NewBloomFilter None
  end.
Definition one_db : MemDatabase :=
  Mem_Put NewMemDatabase (bloom_key (block_digest first_block)) (Bloom_Bin one_bloom).

(** The filter for messages to another address passes the block over; the one
    for messages to the receiver does not. *)
Lemma bloom_filter_sound_witness :
  (∃ b, bloomFilter (AddTo (repeat x11 20) NewFilter) one_db first_block = Ret b ∧
     (b = false -> FilterMessages (AddTo (repeat x11 20) NewFilter) [one_message] = [])) ∧
  bloomFilter (AddTo (repeat x11 20) NewFilter) one_db first_block = Ret false ∧
  bloomFilter (AddTo nines NewFilter) one_db first_block = Ret true ∧
  FilterMessages (AddTo nines NewFilter) [one_message] = [one_message].
Proof.
  split; [|vm_compute; auto].
  apply (bloom_filter_sound _ one_db first_block (block_digest first_block) [one_message] one_bloom).
  - reflexivity.
  - vm_compute. reflexivity.
  - vm_compute. reflexivity.
  - intros m ->%list_elem_of_singleton. split; discriminate.
Defined.
