(* ===== verification/BlockPool.v ===== *)
(** [block_pool.go]: the pool of blocks that are being fetched from peers.  Peers
    are known by a number here; what is done with a block that is in line
    ([CheckLinkAndProcess]'s argument) is a computation on the node. *)

From S2P Require Import Prelude GoVal Big Bytes Errors Rlp Value Wire Db Crypto Nibbles Trie.
From S2P Require Import State Curve Transaction Block Machine BlockChain Transition Core.
From S2P Require Import TxPool.

(** block_pool.go 12-15, block. The peer it is asked from, and the block when it has come. *)
Record block := mkPooled { b_peer : option nat; b_block : option Block }.

(** block_pool.go, BlockPool. The hashes wanted, the first next in line, and the
    entries; a hash may have one or the other. *)
Record BlockPool := mkBlockPool { hashPool : list bytes; pool : gmap bytes block; td : Z }.

(** block_pool.go, NewBlockPool. *)
Definition NewBlockPool : BlockPool := mkBlockPool [] ∅ 0.

Definition no_entry : block := mkPooled None None.

(** block_pool.go, BlockPool.AddHash. *)
Definition AddHash (hash : bytes) (self : BlockPool) : BlockPool :=
  match pool self !! hash with
  | None => mkBlockPool (hash :: hashPool self) (<[hash := no_entry]> (pool self)) (td self)
  | Some _ => self
  end.

(** block_pool.go 90-97, BlockPool.Take. The loop from some hash on, [num] hashes
    being still to take. A hash without an entry is a nil pointer. *)
Fixpoint take_loop (peer : nat) (num : Z) (hs : list bytes) (pool : gmap bytes block)
    : outcome (list bytes * gmap bytes block) :=
  match hs with
  | [] => Ret ([], pool)
  | h :: rest =>
      if num <=? 0 then Ret ([], pool)
      else match pool !! h with
           | None => Panic
           | Some e =>
               if match b_peer e with None => true | Some p => (p =? peer)%nat end then
                 '(taken, pool) ← take_loop peer (num - 1) rest (<[h := mkPooled (Some peer) (b_block e)]> pool);
                 Ret (h :: taken, pool)
               else take_loop peer num rest pool
           end
  end.

(** block_pool.go, BlockPool.Take. *)
Definition Take (amount : Z) (peer : nat) (self : BlockPool) : outcome (list bytes * BlockPool) :=
  let num := Z.min amount (Z.of_nat (size (pool self))) in
  '(hashes, pool) ← take_loop peer num (hashPool self) (pool self);
  Ret (hashes, mkBlockPool (hashPool self) pool (td self)).

Section BlockPool.
Context `{Crypto} `{Secp256k1} {D : Type} `{Database D} `{MapOrder}.

(** block_pool.go, BlockPool.HasLatestHash. *)
Definition HasLatestHash (bc : BlockChain) (self : BlockPool) : outcome bool :=
  b ← deref (CurrentBlock bc);
  hash ← block_Hash b;
  Ret (bool_decide (is_Some (pool self !! hash))).

(** block_pool.go, BlockPool.HasCommonHash. *)
Definition HasCommonHash (db : D) (hash : bytes) : outcome bool :=
  b ← GetBlock db hash; Ret (bool_decide (is_Some b)).

(** block_pool.go, BlockPool.SetBlock. *)
Definition SetBlock (b : Block) (self : BlockPool) : outcome BlockPool :=
  hash ← block_Hash b;
  let e := default no_entry (pool self !! hash) in
  Ret (mkBlockPool (hashPool self) (<[hash := mkPooled (b_peer e) (Some b)]> (pool self)) (td self)).

(** block_pool.go, BlockPool.IsLinked. *)
Definition IsLinked (db : D) (self : BlockPool) : outcome bool :=
  match hashPool self with
  | [] => Ret false
  | h :: _ =>
      e ← deref (pool self !! h);
      Ret (match b_block e with Some b => HasBlock db (PrevHash b) | None => false end)
  end.

(** block_pool.go 57-68, BlockPool.CheckLinkAndProcess. The loop from some hash on. *)
Fixpoint link_loop (f : Block -> NM (D := D) unit) (hs : list bytes) (self : BlockPool)
    : NM (D := D) (bool * BlockPool) :=
  match hs with
  | [] => mret (true, self)
  | h :: rest =>
      e ← lift (deref (pool self !! h));
      match b_block e with
      | Some b => _ ← f b; link_loop f rest (mkBlockPool (hashPool self) (delete h (pool self)) (td self))
      | None => mret (false, mkBlockPool hs (pool self) (td self))
      end
  end.

(** block_pool.go, BlockPool.CheckLinkAndProcess. *)
Definition CheckLinkAndProcess (f : Block -> NM (D := D) unit) (self : BlockPool)
    : NM (D := D) (bool * BlockPool) :=
  k ← get_core;
  linked ← lift (IsLinked (e_db (c_env (k_chain k))) self);
  if linked : bool then link_loop f (hashPool self) self else mret (false, self).

End BlockPool.

(** * What holds of a pool *)

(** Every hash wanted has an entry, and is wanted once. *)
Definition line_ok (self : BlockPool) : Prop :=
  NoDup (hashPool self) ∧ ∀ h, h ∈ hashPool self -> is_Some (pool self !! h).

Lemma NewBlockPool_ok : line_ok NewBlockPool.
Proof. split; [constructor|by intros h ?%elem_of_nil]. Qed.

Lemma AddHash_ok hash self : line_ok self -> line_ok (AddHash hash self).
Proof.
  intros [Hnd Hin]. unfold AddHash. destruct (pool self !! hash) as [e|] eqn:E; [done|]. split; cbn.
  - constructor; [|done]. intros Hh. apply Hin in Hh. rewrite E in Hh. by destruct Hh.
  - intros h [->|Hh]%elem_of_cons; [by rewrite lookup_insert_eq; eexists|].
    destruct (decide (h = hash)) as [->|]; [by rewrite lookup_insert_eq; eexists|].
    rewrite lookup_insert_ne by done. by apply Hin.
Qed.

(** The entries of a pool only change. *)
Lemma line_ok_entries self p t :
  line_ok self -> (∀ h, is_Some (pool self !! h) -> is_Some (p !! h)) ->
  line_ok (mkBlockPool (hashPool self) p t).
Proof. intros [Hnd Hin] Hp. split; [done|]. intros h Hh. by apply Hp, Hin. Qed.

Lemma SetBlock_ok `{Crypto} b self self' : line_ok self -> SetBlock b self = Ret self' -> line_ok self'.
Proof.
  intros Hok E. unfold SetBlock in E. inv_bind E. injection E as <-. apply line_ok_entries; [done|].
  intros h Hh. apply lookup_insert_is_Some'. by right.
Qed.

(** * Asking for blocks *)

(** A hash that a peer may be asked for. *)
Definition free_for (peer : nat) (p : gmap bytes block) (h : bytes) : bool :=
  match p !! h with
  | Some e => match b_peer e with None => true | Some q => (q =? peer)%nat end
  | None => false
  end.

(** Some hashes are now asked from the peer. *)
Definition asked (peer : nat) (hs : list bytes) (p p' : gmap bytes block) : Prop :=
  ∀ h, p' !! h = if decide (h ∈ hs) then (λ e, mkPooled (Some peer) (b_block e)) <$> p !! h else p !! h.

Lemma filter_bool_ext {A} (P Q : A -> bool) (l : list A) :
  (∀ x, x ∈ l -> P x = Q x) -> filter P l = filter Q l.
Proof.
  induction l as [|x l IH]; intros Hl; [done|]. rewrite !filter_cons, IH by (intros y Hy; apply Hl; by right).
  apply decide_ext. by rewrite (Hl x) by left.
Qed.

Lemma take_loop_ok peer num hs p :
  NoDup hs -> (∀ h, h ∈ hs -> is_Some (p !! h)) -> 0 <= num ->
  ∃ p', take_loop peer num hs p = Ret (take (Z.to_nat num) (filter (free_for peer p) hs), p') ∧
    asked peer (take (Z.to_nat num) (filter (free_for peer p) hs)) p p'.
Proof.
  revert num p. induction hs as [|h hs IH]; intros num p Hnd Hin Hn; cbn [take_loop].
  { exists p. rewrite filter_nil, take_nil. split; [done|]. intros h. by rewrite decide_False by set_solver. }
  apply NoDup_cons in Hnd as [Hh Hnd]. destruct (Z.leb_spec num 0) as [H0|H0].
  { exists p. replace (Z.to_nat num) with 0%nat by lia. cbn. split; [done|]. intros h'.
    by rewrite decide_False by set_solver. }
  destruct (Hin h ltac:(left)) as [e He]. rewrite He.
  assert (match b_peer e with Some q => (q =? peer)%nat | None => true end = free_for peer p h) as ->.
  { unfold free_for. by rewrite He. }
  destruct (free_for peer p h) eqn:Hfree; [rewrite filter_cons_True by by rewrite Hfree|].
  - destruct (IH (num - 1) (<[h:=mkPooled (Some peer) (b_block e)]> p)) as (p' & Hrun & Hask); [done| |lia|].
    { intros h' Hh'. apply lookup_insert_is_Some'. right. apply Hin. by right. }
    assert (filter (free_for peer (<[h:=mkPooled (Some peer) (b_block e)]> p)) hs
            = filter (free_for peer p) hs) as Hsame.
    { apply filter_bool_ext. intros h' Hh'. unfold free_for. by rewrite lookup_insert_ne by set_solver. }
    rewrite Hsame in *. exists p'. rewrite Hrun. cbn [mbind outcome_bind].
    replace (Z.to_nat num) with (S (Z.to_nat (num - 1))) by lia. split; [done|]. intros h'.
    rewrite (Hask h'). cbn [take]. set (l := take _ _) in *.
    assert (h ∉ l) as Hl.
    { intros [i Hi]%list_elem_of_lookup. apply lookup_take_Some in Hi as [Hi _].
      apply list_elem_of_lookup_2, list_elem_of_filter in Hi as [_ Hi]. by apply Hh. }
    destruct (decide (h' = h)) as [->|Hne].
    + rewrite decide_False, lookup_insert_eq by done. by rewrite decide_True, He by left.
    + rewrite lookup_insert_ne by done. apply decide_ext. rewrite elem_of_cons. tauto.
  - rewrite filter_cons_False by (rewrite Hfree; by intros []). apply IH; [done| |done]. intros h' Hh'. apply Hin. by right.
Qed.

Lemma asked_some peer hs p p' h : asked peer hs p p' -> is_Some (p !! h) -> is_Some (p' !! h).
Proof. intros Ha [e He]. rewrite (Ha h), He. case_decide; by eexists. Qed.

Lemma Take_ok amount peer self :
  line_ok self -> 0 <= amount ->
  ∃ self', let l := take (Z.to_nat (Z.min amount (Z.of_nat (size (pool self)))))
                         (filter (free_for peer (pool self)) (hashPool self)) in
    Take amount peer self = Ret (l, self') ∧ line_ok self' ∧ hashPool self' = hashPool self ∧
    td self' = td self ∧ asked peer l (pool self) (pool self').
Proof.
  intros Hok Ha. pose proof Hok as [Hnd Hin].
  destruct (take_loop_ok peer (Z.min amount (Z.of_nat (size (pool self)))) _ (pool self) Hnd Hin)
    as (p' & Hrun & Hask); [lia|].
  eexists. unfold Take. rewrite Hrun. cbn [mbind outcome_bind]. split; [done|].
  split; [apply line_ok_entries; [done|]; intros h; by eapply asked_some|done].
Qed.

(** * Handing over the blocks that are in line *)

(** The blocks at the head of the line, up to the first that has not come. *)
Fixpoint in_line (p : gmap bytes block) (hs : list bytes) : list Block :=
  match hs with
  | [] => []
  | h :: rest => match (p !! h) ≫= b_block with Some b => b :: in_line p rest | None => [] end
  end.

(** The pool without the first [n] of the line; when all of it goes, the line
    itself stays. *)
Definition handed_over (n : nat) (self : BlockPool) : BlockPool :=
  mkBlockPool (if decide (n < length (hashPool self))%nat then drop n (hashPool self) else hashPool self)
              (foldl (λ p h, delete h p) (pool self) (take n (hashPool self))) (td self).

(** The first block of the line has come and its parent is in the chain. *)
Definition linked `{Database D} (db : D) (self : BlockPool) : bool :=
  match in_line (pool self) (hashPool self) with b :: _ => HasBlock db (PrevHash b) | [] => false end.

Lemma deletes_lookup hs p (h : bytes) :
  foldl (λ (p : gmap bytes block) h, delete h p) p hs !! h = if decide (h ∈ hs) then None else p !! h.
Proof.
  revert p. induction hs as [|x hs IH]; intros p; cbn [foldl]; [by rewrite decide_False by set_solver|].
  rewrite IH. destruct (decide (h ∈ hs)); [by rewrite decide_True by (by right)|].
  destruct (decide (h = x)) as [->|Hne].
  - by rewrite lookup_delete_eq, decide_True by left.
  - rewrite lookup_delete_ne, decide_False by set_solver. done.
Qed.

Lemma in_line_delete h p hs : h ∉ hs -> in_line (delete h p) hs = in_line p hs.
Proof.
  induction hs as [|x hs IH]; intros Hh; [done|]. cbn. rewrite lookup_delete_ne by set_solver.
  destruct (p !! x ≫= b_block); [|done]. by rewrite IH by set_solver.
Qed.

Lemma in_line_length p hs : (length (in_line p hs) <= length hs)%nat.
Proof. induction hs as [|x hs IH]; [done|]. cbn. destruct (p !! x ≫= b_block); simpl; lia. Qed.

Section Linking.
Context `{Crypto} `{Secp256k1} {D : Type} `{Database D} `{MapOrder}.
Variable f : Block -> NM (D := D) unit.

Lemma link_loop_run hs self k :
  NoDup hs -> (∀ h, h ∈ hs -> is_Some (pool self !! h)) ->
  let n := length (in_line (pool self) hs) in
  link_loop f hs self k
  = (_ ← for_each f (in_line (pool self) hs);
     mret (bool_decide (n = length hs),
           mkBlockPool (if decide (n < length hs)%nat then drop n hs else hashPool self)
                       (foldl (λ p h, delete h p) (pool self) (take n hs)) (td self))) k.
Proof.
  revert self k. induction hs as [|h hs IH]; intros self k Hnd Hin; cbn [in_line].
  { cbn. by destruct self. }
  apply NoDup_cons in Hnd as [Hh Hnd]. destruct (Hin h ltac:(left)) as [e He].
  cbn [link_loop]. rewrite He. unfold deref. unfold mbind at 1, st_bind at 1, lift at 1.
  cbn [option_bind]. destruct (b_block e) as [b|] eqn:Eb; cbn [mbind option_bind]; rewrite Eb.
  - cbn [for_each length take]. unfold mbind, st_bind at 1. unfold mbind, st_bind.
    destruct (f b k) as [[[]| |] k']; [|done..].
    rewrite IH; [|done|]; cbn [pool hashPool td].
    2:{ intros h' Hh'. rewrite lookup_delete_ne by set_solver. apply Hin. by right. }
    rewrite in_line_delete by done. unfold mbind, st_bind.
    destruct (for_each f (in_line (pool self) hs) k') as [[[]| |] k'']; [|done..].
    unfold mret, st_ret. cbn [foldl drop]. do 2 f_equal. f_equal; [apply bool_decide_ext; lia|].
    f_equal. destruct (decide (_ < _)%nat), (decide (S _ < _)%nat); done || lia.
  - cbn. by rewrite decide_True by lia.
Qed.

(** What [IsLinked] answers of a pool that is in order. *)
Lemma IsLinked_ok db self : line_ok self -> IsLinked db self = Ret (linked db self).
Proof.
  intros [_ Hin]. unfold IsLinked, linked. destruct (hashPool self) as [|h hs]; [done|].
  destruct (Hin h ltac:(left)) as [e He]. cbn. rewrite He. cbn. by destruct (b_block e).
Qed.

Lemma handed_over_ok self :
  line_ok self -> (length (in_line (pool self) (hashPool self)) < length (hashPool self))%nat ->
  line_ok (handed_over (length (in_line (pool self) (hashPool self))) self).
Proof.
  intros [Hnd Hin] Hn. set (n := length _) in *. unfold handed_over. rewrite decide_True by done.
  rewrite <-(take_drop n (hashPool self)) in Hnd. apply NoDup_app in Hnd as (_ & Hdis & Hnd).
  split; [done|]. cbn. intros h Hh. rewrite deletes_lookup, decide_False; [|intros ?; by eapply Hdis].
  apply Hin. rewrite <-(take_drop n (hashPool self)), elem_of_app. by right.
Qed.

(** C34. The blocks of the pool are handed to the chain in line and once.  From a
    pool in order (every hash wanted has one entry), nothing is done unless the
    first block has come and its parent is in the chain; otherwise the blocks
    at the head of the line are processed in order, up to the first that has not
    come, their entries go, and the line starts at that one.  The pool is in
    order again, except when the whole line was processed: then the line is
    left as it was with all its entries gone, and the next call of [IsLinked], or
    of [CheckLinkAndProcess], panics, unless the block set in between happens to
    be the first of the old line. *)
Theorem CheckLinkAndProcess_spec (self : BlockPool) (k : Core D) :
  line_ok self ->
  let bs := in_line (pool self) (hashPool self) in
  let after := handed_over (length bs) self in
  let all := bool_decide (length bs = length (hashPool self)) in
  CheckLinkAndProcess f self k
  = (if linked (e_db (c_env (k_chain k))) self then (_ ← for_each f bs; mret (all, after)) k
     else (Ret (false, self), k)) ∧
  (all = false -> line_ok after) ∧
  (hashPool self ≠ [] -> all = true -> ∀ b hash after' k',
     block_Hash b = Ret hash -> head (hashPool self) ≠ Some hash -> SetBlock b after = Ret after' ->
     IsLinked (e_db (c_env (k_chain k'))) after = Panic ∧
     CheckLinkAndProcess f after' k' = (Panic, k')).
Proof.
  intros Hok bs after all. pose proof Hok as [Hnd Hin]. split; [|split].
  - unfold CheckLinkAndProcess, mbind at 1, st_bind at 1, get_core. rewrite IsLinked_ok by done.
    unfold mbind at 1, st_bind at 1, lift. destruct (linked _ _); [|done].
    rewrite link_loop_run by done. done.
  - intros Hall%bool_decide_eq_false. apply handed_over_ok; [done|].
    pose proof (in_line_length (pool self) (hashPool self)) as Hl. fold bs in Hl |- *. lia.
  - intros Hne Hall%bool_decide_eq_true b hash after' k' Hb Hhead Hset.
    destruct (hashPool self) as [|h hs] eqn:E; [done|].
    assert (hashPool after = h :: hs ∧ pool after !! h = None) as [E1 E2].
    { unfold after, handed_over. cbn [hashPool pool]. rewrite E, decide_False by lia. split; [done|].
      rewrite deletes_lookup, decide_True; [done|]. rewrite take_ge by lia. left. }
    clearbody after. split; [unfold IsLinked; by rewrite E1, E2|].
    unfold SetBlock in Hset. rewrite Hb in Hset. cbn [mbind outcome_bind] in Hset. injection Hset as <-.
    unfold CheckLinkAndProcess, mbind at 1, st_bind at 1, get_core, IsLinked. cbn [hashPool pool].
    rewrite E1, lookup_insert_ne, E2 by (cbn in Hhead; congruence). done.
Qed.

End Linking.

(** * A run *)

#[local] Existing Instances toy_crypto toy_curve list_order.

Definition next_block : Block := second_block 131072.

(** A pool that waits for the block after the head of the short chain, and has it. *)
Definition full_pool : BlockPool :=
  ret_or NewBlockPool (SetBlock next_block (AddHash (block_digest next_block) NewBlockPool)).

Lemma full_line_ok : line_ok full_pool.
Proof.
  apply (SetBlock_ok next_block (AddHash (block_digest next_block) NewBlockPool)).
  - apply AddHash_ok, NewBlockPool_ok.
  - vm_compute. reflexivity.
Qed.

(** Told of, in place of being processed. *)
Definition tell (b : Block) : NM (D := MemDatabase) unit := emit (PostBlock (asc "newBlock") b).

(** The block is handed over; after the next one has come the pool panics. *)
Lemma CheckLinkAndProcess_spec_witness :
  let k := node_with [] in
  let bs := in_line (pool full_pool) (hashPool full_pool) in
  let after := handed_over (length bs) full_pool in
  let all := bool_decide (length bs = length (hashPool full_pool)) in
  (bs = [next_block] ∧ linked (e_db (c_env (k_chain k))) full_pool = true ∧ all = true) ∧
  CheckLinkAndProcess tell full_pool k
  = (if linked (e_db (c_env (k_chain k))) full_pool then (_ ← for_each tell bs; mret (all, after)) k
     else (Ret (false, full_pool), k)) ∧
  (all = false -> line_ok after) ∧
  (hashPool full_pool ≠ [] -> all = true -> ∀ b hash after' k',
     block_Hash b = Ret hash -> head (hashPool full_pool) ≠ Some hash -> SetBlock b after = Ret after' ->
     IsLinked (e_db (c_env (k_chain k'))) after = Panic ∧
     CheckLinkAndProcess tell after' k' = (Panic, k')).
Proof.
  split; [vm_compute; auto|].
  apply (CheckLinkAndProcess_spec tell full_pool (node_with [])), full_line_ok.
Defined.
