(* ===== verification/Node.v ===== *)
(** The node and its peers: [ethereum.go] and the data of [peer.go].

    A peer is known by its place in the store of peers, so that a peer in the
    list, one that is being dialled and the one whose handler runs are the same
    object.  A handler runs to its end before another starts; a full output
    queue, for which a sender would wait, is left out, and so are the logs. *)

From S2P Require Import Prelude GoVal Big Bytes Errors Rlp Value Net Wire Db Crypto Nibbles Trie.
From S2P Require Import State Curve Transaction Block Pow Machine BlockChain Transition Core TxPool StateManager.
From S2P Require Import BlockPool.

(** peer.go 26-27, ProtocolVersion. *)
Definition ProtocolVersion : Z := 28.

(** * Reasons and capabilities *)

(** peer.go 49-59, discReasonToString. *)
Definition discReasonToString : list bytes :=
  map asc ["requested"; "TCP sys error"; "bad protocol"; "useless peer"; "too many peers";
           "already connected"; "wrong genesis block"; "incompatible network"; "quitting"]%string.

(** peer.go, DiscReason.String. The reason just past the last has no text and panics. *)
Definition DiscReason_String (d : Z) : outcome bytes :=
  if zlen discReasonToString <? d then Ret (asc "Unknown") else index discReasonToString d.

(** peer.go 69-78, Caps. *)
Definition CapPeerDiscTy : Z := 1.
Definition CapTxTy : Z := 2.
Definition CapChainTy : Z := 4.
Definition CapDefault : Z := Z.lor (Z.lor CapChainTy CapTxTy) CapPeerDiscTy.

(** peer.go 80-84, capsToString. *)
Definition capsToString (c : Z) : bytes :=
  if c =? CapPeerDiscTy then asc "Peer discovery"
  else if c =? CapTxTy then asc "Transaction relaying"
  else if c =? CapChainTy then asc "Block chain relaying"
  else [].

(** peer.go, Caps.IsCap. *)
Definition IsCap (c cap : Z) : bool := 0 <? Z.land c cap.

(** peer.go, Caps.String. *)
Definition Caps_String (c : Z) : bytes :=
  Join (concat (map (λ cap, if IsCap c cap then [capsToString cap] else [])
                    [CapPeerDiscTy; CapChainTy; CapTxTy])) (asc " | ").

(** * Data *)

(** A connection: its two addresses, whether writing to it fails, what has been
    written, and whether it is closed. *)
Record Conn := mkConn {
  LocalHost : bytes; LocalPort : bytes; RemoteHost : bytes; RemotePort : bytes;
  broken : bool;
  written : list bytes;
  closed : bool;
}.

Definition add_written (b : bytes) (c : Conn) : Conn :=
  mkConn (LocalHost c) (LocalPort c) (RemoteHost c) (RemotePort c) (broken c) (written c ++ [b]) (closed c).
Definition close_conn (c : Conn) : Conn :=
  mkConn (LocalHost c) (LocalPort c) (RemoteHost c) (RemotePort c) (broken c) (written c) true.

(** The text of the remote address. *)
Definition RemoteAddr (c : Conn) : bytes := JoinHostPort (RemoteHost c) (RemotePort c).

(** peer.go, Peer. Times are in nanoseconds; [p_quit] tells that the channel is
    closed; fields that nothing reads are left out. *)
Record Peer := mkPeer {
  p_conn : option Conn;
  outputQueue : list Msg;
  p_quit : bool;
  inbound : bool;
  connected : Z;
  disconnect : Z;
  lastSend : Z;
  versionKnown : bool;
  lastPong : Z;
  lastBlockReceived : Z;
  host : bytes;
  port : Z;
  caps : Z;
  p_td : option Z;
  bestHash : bytes;
  lastReceivedHash : bytes;
  pubkey : bytes;
  catchingUp : bool;
  blocksRequested : Z;
  p_version : bytes;
  pingTime : Z;
  pingStartTime : Z;
}.

Definition set_p_conn (x : option Conn) (s : Peer) : Peer :=
  mkPeer x (outputQueue s) (p_quit s) (inbound s) (connected s) (disconnect s) (lastSend s)
    (versionKnown s) (lastPong s) (lastBlockReceived s) (host s) (port s) (caps s) (p_td s)
    (bestHash s) (lastReceivedHash s) (pubkey s) (catchingUp s) (blocksRequested s) (p_version
    s) (pingTime s) (pingStartTime s).
Definition set_outputQueue (x : list Msg) (s : Peer) : Peer :=
  mkPeer (p_conn s) x (p_quit s) (inbound s) (connected s) (disconnect s) (lastSend s)
    (versionKnown s) (lastPong s) (lastBlockReceived s) (host s) (port s) (caps s) (p_td s)
    (bestHash s) (lastReceivedHash s) (pubkey s) (catchingUp s) (blocksRequested s) (p_version
    s) (pingTime s) (pingStartTime s).
Definition set_p_quit (x : bool) (s : Peer) : Peer :=
  mkPeer (p_conn s) (outputQueue s) x (inbound s) (connected s) (disconnect s) (lastSend s)
    (versionKnown s) (lastPong s) (lastBlockReceived s) (host s) (port s) (caps s) (p_td s)
    (bestHash s) (lastReceivedHash s) (pubkey s) (catchingUp s) (blocksRequested s) (p_version
    s) (pingTime s) (pingStartTime s).
Definition set_connected (x : Z) (s : Peer) : Peer :=
  mkPeer (p_conn s) (outputQueue s) (p_quit s) (inbound s) x (disconnect s) (lastSend s)
    (versionKnown s) (lastPong s) (lastBlockReceived s) (host s) (port s) (caps s) (p_td s)
    (bestHash s) (lastReceivedHash s) (pubkey s) (catchingUp s) (blocksRequested s) (p_version
    s) (pingTime s) (pingStartTime s).
Definition set_disconnect (x : Z) (s : Peer) : Peer :=
  mkPeer (p_conn s) (outputQueue s) (p_quit s) (inbound s) (connected s) x (lastSend s)
    (versionKnown s) (lastPong s) (lastBlockReceived s) (host s) (port s) (caps s) (p_td s)
    (bestHash s) (lastReceivedHash s) (pubkey s) (catchingUp s) (blocksRequested s) (p_version
    s) (pingTime s) (pingStartTime s).
Definition set_lastSend (x : Z) (s : Peer) : Peer :=
  mkPeer (p_conn s) (outputQueue s) (p_quit s) (inbound s) (connected s) (disconnect s) x
    (versionKnown s) (lastPong s) (lastBlockReceived s) (host s) (port s) (caps s) (p_td s)
    (bestHash s) (lastReceivedHash s) (pubkey s) (catchingUp s) (blocksRequested s) (p_version
    s) (pingTime s) (pingStartTime s).
Definition set_versionKnown (x : bool) (s : Peer) : Peer :=
  mkPeer (p_conn s) (outputQueue s) (p_quit s) (inbound s) (connected s) (disconnect s)
    (lastSend s) x (lastPong s) (lastBlockReceived s) (host s) (port s) (caps s) (p_td s)
    (bestHash s) (lastReceivedHash s) (pubkey s) (catchingUp s) (blocksRequested s) (p_version
    s) (pingTime s) (pingStartTime s).
Definition set_lastPong (x : Z) (s : Peer) : Peer :=
  mkPeer (p_conn s) (outputQueue s) (p_quit s) (inbound s) (connected s) (disconnect s)
    (lastSend s) (versionKnown s) x (lastBlockReceived s) (host s) (port s) (caps s) (p_td s)
    (bestHash s) (lastReceivedHash s) (pubkey s) (catchingUp s) (blocksRequested s) (p_version
    s) (pingTime s) (pingStartTime s).
Definition set_lastBlockReceived (x : Z) (s : Peer) : Peer :=
  mkPeer (p_conn s) (outputQueue s) (p_quit s) (inbound s) (connected s) (disconnect s)
    (lastSend s) (versionKnown s) (lastPong s) x (host s) (port s) (caps s) (p_td s) (bestHash
    s) (lastReceivedHash s) (pubkey s) (catchingUp s) (blocksRequested s) (p_version s)
    (pingTime s) (pingStartTime s).
Definition set_host (x : bytes) (s : Peer) : Peer :=
  mkPeer (p_conn s) (outputQueue s) (p_quit s) (inbound s) (connected s) (disconnect s)
    (lastSend s) (versionKnown s) (lastPong s) (lastBlockReceived s) x (port s) (caps s) (p_td
    s) (bestHash s) (lastReceivedHash s) (pubkey s) (catchingUp s) (blocksRequested s)
    (p_version s) (pingTime s) (pingStartTime s).
Definition set_port (x : Z) (s : Peer) : Peer :=
  mkPeer (p_conn s) (outputQueue s) (p_quit s) (inbound s) (connected s) (disconnect s)
    (lastSend s) (versionKnown s) (lastPong s) (lastBlockReceived s) (host s) x (caps s) (p_td
    s) (bestHash s) (lastReceivedHash s) (pubkey s) (catchingUp s) (blocksRequested s)
    (p_version s) (pingTime s) (pingStartTime s).
Definition set_caps (x : Z) (s : Peer) : Peer :=
  mkPeer (p_conn s) (outputQueue s) (p_quit s) (inbound s) (connected s) (disconnect s)
    (lastSend s) (versionKnown s) (lastPong s) (lastBlockReceived s) (host s) (port s) x (p_td
    s) (bestHash s) (lastReceivedHash s) (pubkey s) (catchingUp s) (blocksRequested s)
    (p_version s) (pingTime s) (pingStartTime s).
Definition set_p_td (x : option Z) (s : Peer) : Peer :=
  mkPeer (p_conn s) (outputQueue s) (p_quit s) (inbound s) (connected s) (disconnect s)
    (lastSend s) (versionKnown s) (lastPong s) (lastBlockReceived s) (host s) (port s) (caps s)
    x (bestHash s) (lastReceivedHash s) (pubkey s) (catchingUp s) (blocksRequested s) (p_version
    s) (pingTime s) (pingStartTime s).
Definition set_bestHash (x : bytes) (s : Peer) : Peer :=
  mkPeer (p_conn s) (outputQueue s) (p_quit s) (inbound s) (connected s) (disconnect s)
    (lastSend s) (versionKnown s) (lastPong s) (lastBlockReceived s) (host s) (port s) (caps s)
    (p_td s) x (lastReceivedHash s) (pubkey s) (catchingUp s) (blocksRequested s) (p_version s)
    (pingTime s) (pingStartTime s).
Definition set_lastReceivedHash (x : bytes) (s : Peer) : Peer :=
  mkPeer (p_conn s) (outputQueue s) (p_quit s) (inbound s) (connected s) (disconnect s)
    (lastSend s) (versionKnown s) (lastPong s) (lastBlockReceived s) (host s) (port s) (caps s)
    (p_td s) (bestHash s) x (pubkey s) (catchingUp s) (blocksRequested s) (p_version s)
    (pingTime s) (pingStartTime s).
Definition set_pubkey (x : bytes) (s : Peer) : Peer :=
  mkPeer (p_conn s) (outputQueue s) (p_quit s) (inbound s) (connected s) (disconnect s)
    (lastSend s) (versionKnown s) (lastPong s) (lastBlockReceived s) (host s) (port s) (caps s)
    (p_td s) (bestHash s) (lastReceivedHash s) x (catchingUp s) (blocksRequested s) (p_version
    s) (pingTime s) (pingStartTime s).
Definition set_catchingUp (x : bool) (s : Peer) : Peer :=
  mkPeer (p_conn s) (outputQueue s) (p_quit s) (inbound s) (connected s) (disconnect s)
    (lastSend s) (versionKnown s) (lastPong s) (lastBlockReceived s) (host s) (port s) (caps s)
    (p_td s) (bestHash s) (lastReceivedHash s) (pubkey s) x (blocksRequested s) (p_version s)
    (pingTime s) (pingStartTime s).
Definition set_blocksRequested (x : Z) (s : Peer) : Peer :=
  mkPeer (p_conn s) (outputQueue s) (p_quit s) (inbound s) (connected s) (disconnect s)
    (lastSend s) (versionKnown s) (lastPong s) (lastBlockReceived s) (host s) (port s) (caps s)
    (p_td s) (bestHash s) (lastReceivedHash s) (pubkey s) (catchingUp s) x (p_version s)
    (pingTime s) (pingStartTime s).
Definition set_p_version (x : bytes) (s : Peer) : Peer :=
  mkPeer (p_conn s) (outputQueue s) (p_quit s) (inbound s) (connected s) (disconnect s)
    (lastSend s) (versionKnown s) (lastPong s) (lastBlockReceived s) (host s) (port s) (caps s)
    (p_td s) (bestHash s) (lastReceivedHash s) (pubkey s) (catchingUp s) (blocksRequested s) x
    (pingTime s) (pingStartTime s).
Definition set_pingTime (x : Z) (s : Peer) : Peer :=
  mkPeer (p_conn s) (outputQueue s) (p_quit s) (inbound s) (connected s) (disconnect s)
    (lastSend s) (versionKnown s) (lastPong s) (lastBlockReceived s) (host s) (port s) (caps s)
    (p_td s) (bestHash s) (lastReceivedHash s) (pubkey s) (catchingUp s) (blocksRequested s)
    (p_version s) x (pingStartTime s).
Definition set_pingStartTime (x : Z) (s : Peer) : Peer :=
  mkPeer (p_conn s) (outputQueue s) (p_quit s) (inbound s) (connected s) (disconnect s)
    (lastSend s) (versionKnown s) (lastPong s) (lastBlockReceived s) (host s) (port s) (caps s)
    (p_td s) (bestHash s) (lastReceivedHash s) (pubkey s) (catchingUp s) (blocksRequested s)
    (p_version s) (pingTime s) x.

(** What the node posts for others, besides what its chain and pools do. *)
Inductive event :=
| ECore (e : effect)
| EPeerList (l : list nat)
| EChainSync (syncing : bool).

(** ethereum.go, Ethereum. The list of peers holds an element of the linked list and a peer
    each; [PublicKey] is the key manager's, [dialing] the peers that a
    connection is being made for. *)
Record Ethereum (D : Type) := mkEthereum {
  core : Core D;
  blockPool : BlockPool;
  peers : list (nat * nat);
  next_element : nat;
  heap : list Peer;
  txQueue : list Transaction;
  serverCaps : Z;
  MaxPeers : Z;
  PublicKey : bytes;
  clientIdentity : bytes;
  now : Z;
  events : list event;
  isUpToDate : bool;
  dialing : list (nat * bytes);
}.
Arguments mkEthereum {D}.
Arguments core {D}.
Arguments blockPool {D}.
Arguments peers {D}.
Arguments next_element {D}.
Arguments heap {D}.
Arguments txQueue {D}.
Arguments serverCaps {D}.
Arguments MaxPeers {D}.
Arguments PublicKey {D}.
Arguments clientIdentity {D}.
Arguments now {D}.
Arguments events {D}.
Arguments isUpToDate {D}.
Arguments dialing {D}.

Section Node.
Context `{Crypto} `{Secp256k1} {D : Type} `{Database D} `{MapOrder}.

Definition set_core (x : Core D) (s : Ethereum D) : Ethereum D :=
  mkEthereum x (blockPool s) (peers s) (next_element s) (heap s) (txQueue s) (serverCaps s)
    (MaxPeers s) (PublicKey s) (clientIdentity s) (now s) (events s) (isUpToDate s) (dialing s).
Definition set_blockPool (x : BlockPool) (s : Ethereum D) : Ethereum D :=
  mkEthereum (core s) x (peers s) (next_element s) (heap s) (txQueue s) (serverCaps s) (MaxPeers
    s) (PublicKey s) (clientIdentity s) (now s) (events s) (isUpToDate s) (dialing s).
Definition set_peers (x : list (nat * nat)) (s : Ethereum D) : Ethereum D :=
  mkEthereum (core s) (blockPool s) x (next_element s) (heap s) (txQueue s) (serverCaps s)
    (MaxPeers s) (PublicKey s) (clientIdentity s) (now s) (events s) (isUpToDate s) (dialing s).
Definition set_next_element (x : nat) (s : Ethereum D) : Ethereum D :=
  mkEthereum (core s) (blockPool s) (peers s) x (heap s) (txQueue s) (serverCaps s) (MaxPeers s)
    (PublicKey s) (clientIdentity s) (now s) (events s) (isUpToDate s) (dialing s).
Definition set_heap (x : list Peer) (s : Ethereum D) : Ethereum D :=
  mkEthereum (core s) (blockPool s) (peers s) (next_element s) x (txQueue s) (serverCaps s)
    (MaxPeers s) (PublicKey s) (clientIdentity s) (now s) (events s) (isUpToDate s) (dialing s).
Definition set_txQueue (x : list Transaction) (s : Ethereum D) : Ethereum D :=
  mkEthereum (core s) (blockPool s) (peers s) (next_element s) (heap s) x (serverCaps s)
    (MaxPeers s) (PublicKey s) (clientIdentity s) (now s) (events s) (isUpToDate s) (dialing s).
Definition set_now (x : Z) (s : Ethereum D) : Ethereum D :=
  mkEthereum (core s) (blockPool s) (peers s) (next_element s) (heap s) (txQueue s) (serverCaps
    s) (MaxPeers s) (PublicKey s) (clientIdentity s) x (events s) (isUpToDate s) (dialing s).
Definition set_events (x : list event) (s : Ethereum D) : Ethereum D :=
  mkEthereum (core s) (blockPool s) (peers s) (next_element s) (heap s) (txQueue s) (serverCaps
    s) (MaxPeers s) (PublicKey s) (clientIdentity s) (now s) x (isUpToDate s) (dialing s).
Definition set_isUpToDate (x : bool) (s : Ethereum D) : Ethereum D :=
  mkEthereum (core s) (blockPool s) (peers s) (next_element s) (heap s) (txQueue s) (serverCaps
    s) (MaxPeers s) (PublicKey s) (clientIdentity s) (now s) (events s) x (dialing s).
Definition set_dialing (x : list (nat * bytes)) (s : Ethereum D) : Ethereum D :=
  mkEthereum (core s) (blockPool s) (peers s) (next_element s) (heap s) (txQueue s) (serverCaps
    s) (MaxPeers s) (PublicKey s) (clientIdentity s) (now s) (events s) (isUpToDate s) x.


(** ethereum.go 93-128, New. Around the chain, the pool of transactions and the state
    manager ([core]); how many peers are wanted is set by the program later, and
    [now] is the clock. *)
Definition Eth_New (core : Core D) (identity publicKey : bytes) (caps now : Z) : Ethereum D :=
  mkEthereum core NewBlockPool [] 0 [] [] caps 0 publicKey identity now [] true [].

(** * Computations on the node *)

Definition EM : Type -> Type := st (Ethereum D).

Definition get_eth : EM (Ethereum D) := λ s, (Ret s, s).
Definition modify_eth (f : Ethereum D -> Ethereum D) : EM unit := λ s, (Ret tt, f s).

Definition get_peer (p : nat) : EM Peer := s ← get_eth; lift (deref (heap s !! p)).
Definition set_peer (p : nat) (pr : Peer) : EM unit := modify_eth (λ s, set_heap (<[p := pr]> (heap s)) s).
Definition modify_peer (p : nat) (f : Peer -> Peer) : EM unit := pr ← get_peer p; set_peer p (f pr).

Definition post_event (e : event) : EM unit := modify_eth (λ s, set_events (events s ++ [e]) s).

(** The chain. *)
Definition chain_of_node (s : Ethereum D) : BlockChain := c_bc (k_chain (core s)).
Definition db_of_node (s : Ethereum D) : D := e_db (c_env (k_chain (core s))).

(** [time.Since], a duration that is cut off at its bounds, and [Time.Unix]. *)
Definition since (now t : Z) : Z := Z.max (- 2 ^ 63) (Z.min (2 ^ 63 - 1) (now - t)).
Definition second : Z := 1000000000.
Definition unix (t : Z) : Z := t / second.

(** * The list of peers *)

(** The element after [e]; none when [e] is not in the list (any more), as
    [list.Element.Next] has it. *)
Fixpoint next_of (l : list (nat * nat)) (e : nat) : option (nat * nat) :=
  match l with
  | [] => None
  | (e', _) :: rest => if (e' =? e)%nat then head rest else next_of rest e
  end.

(** The walk from an element on, the list being read again after each call. *)
Fixpoint each_from (n : nat) (cur : option (nat * nat)) (callback : nat -> nat -> EM unit) : EM unit :=
  match cur with
  | None => mret tt
  | Some (e, p) =>
      match n with
      | O => st_nofuel
      | S n => _ ← callback p e; s ← get_eth; each_from n (next_of (peers s) e) callback
      end
  end.

(** ethereum.go, eachPeer. No callback adds peers, so the length of the list
    bounds the walk. *)
Definition eachPeer (callback : nat -> nat -> EM unit) : EM unit :=
  s ← get_eth; each_from (length (peers s)) (head (peers s)) callback.

(** ethereum.go, Ethereum.PushPeer. *)
Definition PushPeer (p : nat) : EM unit :=
  modify_eth (λ s, set_peers (peers s ++ [(next_element s, p)]) (set_next_element (S (next_element s)) s)).

(** ethereum.go, Ethereum.PeerCount. *)
Definition PeerCount (s : Ethereum D) : Z := zlen (peers s).

(** ethereum.go, Ethereum.removePeerElement. *)
Definition removePeerElement (e : nat) : EM unit :=
  _ ← modify_eth (λ s, set_peers (filter (λ q, negb (q.1 =? e)%nat) (peers s)) s);
  s ← get_eth; post_event (EPeerList (map snd (peers s))).

(** ethereum.go, Ethereum.RemovePeer. *)
Definition RemovePeer (p : nat) : EM unit :=
  eachPeer (λ q e, if (q =? p)%nat then removePeerElement e else mret tt).

(** ethereum.go, Ethereum.reapPeers. The time limit for pongs compares seconds with a
    duration, which counts nanoseconds. *)
Definition reapPeers : EM unit :=
  eachPeer (λ p e,
    pr ← get_peer p; s ← get_eth;
    if (disconnect pr =? 1) || (inbound pr && (5 * 60 * second <? s64 (unix (now s) - lastPong pr)))
    then removePeerElement e else mret tt).

(** The peers of the list that pass a test, in order. *)
Definition passes (f : Peer -> bool) (s : Ethereum D) (p : nat) : bool :=
  match heap s !! p with Some pr => f pr | None => false end.
Definition peers_with (f : Peer -> bool) : EM (list nat) := λ s,
  (Ret (filter (passes f s) (map snd (peers s))), s).

(** ethereum.go, Ethereum.OutboundPeers. *)
Definition OutboundPeers : EM (list nat) :=
  peers_with (λ pr, negb (inbound pr) && bool_decide (is_Some (p_conn pr))).

(** ethereum.go, Ethereum.InboundPeers. *)
Definition InboundPeers : EM (list nat) := peers_with inbound.

(** ethereum.go, Ethereum.InOutPeers. *)
Definition InOutPeers : EM (list nat) := _ ← reapPeers; peers_with (λ pr, 0 <? zlen (host pr)).

(** ethereum.go, Ethereum.IsUpToDate. *)
Definition IsUpToDate : EM bool :=
  l ← peers_with (λ pr, (connected pr =? 1) && catchingUp pr && versionKnown pr); mret (zlen l =? 0).

(** ethereum.go 524-531, Ethereum.update. One tick of the timer. *)
Definition eth_update_tick : EM unit :=
  up ← IsUpToDate;
  s ← get_eth;
  if up && negb (isUpToDate s) then
    _ ← post_event (EChainSync false); modify_eth (set_isUpToDate true)
  else if negb up && isUpToDate s then
    _ ← post_event (EChainSync true); modify_eth (set_isUpToDate false)
  else mret tt.

(** * Sending *)

(** peer.go, Peer.QueueMessage. *)
Definition QueueMessage (p : nat) (msg : Msg) : EM unit :=
  pr ← get_peer p;
  if connected pr =? 1 then set_peer p (set_outputQueue (outputQueue pr ++ [msg]) pr) else mret tt.

(** ethereum.go, Ethereum.BroadcastMsg. *)
Definition BroadcastMsg (msg : Msg) : EM unit := eachPeer (λ p _, QueueMessage p msg).

(** ethereum.go, Ethereum.Broadcast. *)
Definition Eth_Broadcast (msgType : MsgType) (data : list goval) : EM unit :=
  BroadcastMsg (NewMessage msgType (VList data)).

(** A computation of the chain, the pool or the state manager, and then what it
    told the peers and the event bus. *)
Definition on_core {A} (m : NM (D := D) A) : EM A := λ s,
  let k := core s in
  let '(o, k') := m (mkCore (k_chain k) (k_pool k) [] (k_manager k) (k_stuck k)) in
  let s' := set_events (events s ++ map ECore (k_effects k'))
              (set_core (mkCore (k_chain k') (k_pool k') [] (k_manager k') (k_stuck k')) s) in
  (a ← lift o;
   _ ← for_each (λ e, match e with Broadcast ty data => Eth_Broadcast ty data | _ => mret tt end) (k_effects k');
   mret a) s'.

(** peer.go 263-279, Peer.writeMessage. Up to the error of the connection. *)
Definition write (p : nat) (msg : Msg) : EM bool :=
  pr ← get_peer p;
  if negb (connected pr =? 1) then mret false
  else if negb (versionKnown pr) && negb (Msg_Type msg =? MsgHandshakeTy) then mret false
  else
    c ← lift (deref (p_conn pr));
    frame ← lift (WriteMessage msg);
    if broken c then mret true
    else _ ← set_peer p (set_p_conn (Some (add_written frame c)) pr); mret false.

(** [atomic.AddInt32(&p.disconnect, 1)]: the new value. *)
Definition add_disconnect (p : nat) : EM Z :=
  pr ← get_peer p; let d := s32 (disconnect pr + 1) in _ ← set_peer p (set_disconnect d pr); mret d.

(** peer.go, Peer.Stop. A closed channel cannot be closed again.  When the last message
    cannot be written, [writeMessage] calls [Stop] again, which only counts. *)
Definition Peer_Stop (p : nat) : EM unit :=
  d ← add_disconnect p;
  if negb (d =? 1) then mret tt
  else
    pr ← get_peer p;
    _ ← (if p_quit pr then lift Panic else set_peer p (set_p_quit true pr));
    pr ← get_peer p;
    _ ← (if connected pr =? 0 then mret tt
         else
           err ← write p (NewMessage MsgDiscTy (VStr []));
           _ ← (if err : bool then _ ← add_disconnect p; mret tt else mret tt);
           pr ← get_peer p;
           c ← lift (deref (p_conn pr));
           set_peer p (set_p_conn (Some (close_conn c)) pr));
    RemovePeer p.

(** peer.go, Peer.writeMessage. *)
Definition writeMessage (p : nat) (msg : Msg) : EM unit :=
  err ← write p msg; if err : bool then Peer_Stop p else mret tt.

End Node.
