(* ===== verification/Peer.v ===== *)
(** [peer.go]: what a peer sends and how its messages are handled, and the parts
    of [ethereum.go] that make connections. *)

From S2P Require Import Prelude GoVal Big Bytes Errors Rlp Value Net Wire Db Crypto Nibbles Trie.
From S2P Require Import State Curve Transaction Block Pow Machine BlockChain Transition Core TxPool StateManager.
From S2P Require Import BlockPool Node.

(** peer.go, Peer.RlpData. *)
Definition peer_RlpData (p : Peer) : goval :=
  VList [VBytes (host p); VInt Kuint16 (port p); VBytes (pubkey p)].

(** A new peer, of a connection or of none; the zero time is the year one. *)
Definition new_peer (conn : option Conn) (inbound : bool) (connected port caps blocksRequested : Z)
    (pubkey version : bytes) : Peer :=
  mkPeer conn [] false inbound connected 0 (- 62135596800 * second) false 0 (- 62135596800 * second) []
         port caps None [] [] pubkey false blocksRequested version 0 (- 62135596800 * second).

(** A computation that may fail, over a list. *)
Fixpoint mapM_outcome {A B} (f : A -> outcome B) (l : list A) : outcome (list B) :=
  match l with [] => Ret [] | x :: r => y ← f x; ys ← mapM_outcome f r; Ret (y :: ys) end.

(** peer.go, Peer.String. A peer without a connection panics. *)
Definition peer_String (p : Peer) : outcome bytes :=
  c ← deref (p_conn p);
  Ret (asc "[" ++ asc (if disconnect p =? 0 then "connected" else "disconnected") ++ asc "] ("
       ++ asc (if inbound p then "inbound" else "outbound") ++ asc ") " ++ RemoteAddr c ++ asc " "
       ++ p_version p ++ asc " [" ++ Caps_String (caps p) ++ asc "]").

Section Peer.
Context `{Crypto} `{Secp256k1} {D : Type} `{Database D} `{MapOrder}.

Notation EM := (EM (D := D)).

(** What the sockets and the clock of the process decide: the addresses of a host
    (or an error), the parser of IPv6 addresses and the random choice of one
    of several addresses. *)
Context (LookupIP : bytes -> error + list bytes) (parseIPv6 : bytes -> option (list Z)) (pick : nat -> nat).

(** The spare bytes behind the buffer of a read. *)
Context (spare : bytes).

Definition queue (p : nat) (ty : MsgType) (data : goval) : EM unit := QueueMessage p (NewMessage ty data).

Definition modify_pool (f : BlockPool -> BlockPool) : EM unit := modify_eth (λ s, set_blockPool (f (blockPool s)) s).

(** * Making connections *)

Definition alloc_peer (pr : Peer) : EM nat := λ s, (Ret (length (heap s)), set_heap (heap s ++ [pr]) s).

(** peer.go, NewPeer. The key of the node without its first byte. *)
Definition NewPeer (conn : Conn) (inbound : bool) : EM nat :=
  s ← get_eth;
  pk ← lift (slice (PublicKey s) 1 (zlen (PublicKey s)));
  alloc_peer (new_peer (Some conn) inbound 1 30303 (serverCaps s) 10 pk (clientIdentity s)).

(** peer.go, NewOutboundPeer. The connection is made by another goroutine. *)
Definition NewOutboundPeer (addr : bytes) (caps : Z) : EM nat :=
  s ← get_eth;
  p ← alloc_peer (new_peer None false 0 0 caps 0 [] (clientIdentity s));
  _ ← modify_eth (λ s, set_dialing (dialing s ++ [(p, addr)]) s);
  mret p.

(** peer.go, Peer.pushHandshake. *)
Definition pushHandshake (p : nat) : EM unit :=
  s ← get_eth; pr ← get_peer p;
  pk ← lift (slice (PublicKey s) 1 (zlen (PublicKey s)));
  b ← lift (deref (CurrentBlock (chain_of_node s)));
  hash ← lift (block_Hash b);
  queue p MsgHandshakeTy
    (VList [VInt Kuint32 ProtocolVersion; VInt Kuint32 0; VBytes (p_version pr); VInt Kuint8 (caps pr);
            VInt Kuint16 (port pr); VBytes pk; VInt Kuint64 (big_Uint64 (TD (chain_of_node s))); VBytes hash]).

(** peer.go 536-553, Peer.Start. Up to the start of its goroutines. *)
Definition Start (p : nat) : EM unit :=
  pr ← get_peer p;
  c ← lift (deref (p_conn pr));
  '(h, prt) ← lift (if inbound pr then packAddr (LocalHost c) (LocalPort c)
                    else packAddr (RemoteHost c) (RemotePort c));
  _ ← set_peer p (set_port prt (set_host h pr));
  pushHandshake p.

(** peer.go 561-566, Peer.Start. The ping after two seconds. *)
Definition Start_ping (p : nat) : EM unit :=
  _ ← writeMessage p (NewMessage MsgPingTy (VStr []));
  s ← get_eth; modify_peer p (set_pingStartTime (now s)).

(** peer.go 187-201, NewOutboundPeer. The goroutine that dials, when its attempts are
    over; no connection is an error. *)
Definition dialled (p : nat) (conn : option Conn) : EM unit :=
  _ ← modify_eth (λ s, set_dialing (filter (λ d, negb (d.1 =? p)%nat) (dialing s)) s);
  match conn with
  | None => Peer_Stop p
  | Some c =>
      _ ← modify_peer p (λ pr, set_disconnect 0 (set_connected 1 (set_p_conn (Some c) pr)));
      Start p
  end.

(** peer.go 208-218, Peer.Connect. The loop over the outcomes of dialling, from the attempt of that
    number on; with the seconds slept after those that failed. *)
Fixpoint dial_from (attempts : Z) (dials : list (error + Conn)) (err : option error) : (option error + Conn) * Z :=
  match dials with
  | [] => (inl err, 0)
  | inr conn :: _ => (inr conn, 0)
  | inl err :: rest => let '(r, slept) := dial_from (attempts + 1) rest (Some err) in (r, attempts * 20 + slept)
  end.

(** peer.go, Peer.Connect. Three attempts at most. *)
Definition Connect (dials : list (error + Conn)) : (option error + Conn) * Z := dial_from 0 (take 3 dials) None.

(** ethereum.go, Ethereum.AddPeer. *)
Definition AddPeer (conn : Conn) : EM unit :=
  p ← NewPeer conn true;
  s ← get_eth;
  if zlen (peers s) <? MaxPeers s then Start p else mret tt.

(** [strings.Contains] of a double colon. *)
Fixpoint has_double_colon (s : bytes) : bool :=
  match s with
  | a :: (b :: _) as rest => bool_decide (a = x3a ∧ b = x3a) || has_double_colon rest
  | _ => false
  end.

(** ethereum.go 216-243, Ethereum.ConnectToPeer. The address to connect to. *)
Definition choose_ip (ips : list bytes) : error + outcome bytes :=
  match ips with
  | [] => inl (Errorf (asc "[SERV] No IPs resolved for the given hostname"))
  | [ip] => inr (Ret ip)
  | _ =>
      let ipsv4 := filter (λ ip, negb (has_double_colon ip)) ips in
      if zlen ipsv4 =? 0 then inl (Errorf (asc "[SERV] No IPV4 addresses available for hostname"))
      else inr (deref (ipsv4 !! pick (length ipsv4)))
  end.

(** ethereum.go 245-256, Ethereum.ConnectToPeer. Whether a peer is connected to the host.
    The hosts of connections have no colons in them, or are in brackets. *)
Definition alreadyConnected (chost : bytes) : EM bool :=
  l ← peers_with (λ pr, match p_conn pr with
                        | Some c => bool_decide ((SplitHostPort (RemoteAddr c)).1 = chost)
                        | None => false
                        end);
  mret (negb (zlen l =? 0)).

(** ethereum.go, Ethereum.ConnectToPeer. *)
Definition ConnectToPeer (addr : bytes) : EM (option error) :=
  s ← get_eth;
  if zlen (peers s) <? MaxPeers s then
    match LookupIP (SplitHostPort addr).1 with
    | inl err => mret (Some err)
    | inr ips =>
        match choose_ip ips with
        | inl err => mret (Some err)
        | inr chost =>
            chost ← lift chost;
            already ← alreadyConnected chost;
            _ ← (if already : bool then mret tt else _ ← NewOutboundPeer addr (serverCaps s); mret tt);
            mret None
        end
    end
  else mret None.

(** ethereum.go, Ethereum.ProcessPeerList. *)
Definition ProcessPeerList (addrs : list bytes) : EM unit :=
  for_each (λ addr, _ ← ConnectToPeer addr; mret tt) addrs.

(** ethereum.go 25-25, seedNodeAddress. *)
Definition seedNodeAddress : bytes := asc "54.76.56.74:30303".

(** ethereum.go 413-430, Ethereum.Seed. The addresses of service records (a host and a
    port); a host that has none is left out. *)
Definition service_peers (LookupHost : bytes -> option (list bytes)) (nodes : list (bytes * Z)) : list bytes :=
  '(target, p) ← nodes;
  map (λ a, JoinHostPort a (decimal p)) (default [] (LookupHost target)).

(** ethereum.go, Ethereum.Seed. With the answer to the question for service records
    (none: an error), and the look-up of their hosts. *)
Definition Seed (service : option (list (bytes * Z))) (LookupHost : bytes -> option (list bytes)) : EM unit :=
  _ ← (match LookupIP (asc "seed.bysh.me") with
       | inl _ => mret tt
       | inr ips => ProcessPeerList (map (λ ip, ip ++ asc ":" ++ decimal 30303) ips)
       end);
  _ ← (match service with
       | None => mret tt
       | Some nodes => ProcessPeerList (service_peers LookupHost nodes)
       end);
  _ ← ConnectToPeer seedNodeAddress;
  mret tt.

(** ethereum.go, Ethereum.peerHandler. One round: a connection that is accepted has a peer,
    an error is noted in the log. *)
Definition peerHandler (accepted : error + Conn) : EM unit :=
  match accepted with inl _ => mret tt | inr conn => AddPeer conn end.

(** What [Start] of the node leaves running. *)
Inductive goroutine := GoPeerHandler | GoUpnpUpdate | GoReap | GoUpdate.

(** ethereum.go, Ethereum.Start. With the error of binding the port, whether there is a
    router, and the answers for [Seed]; the result is whether the node listens,
    and its goroutines. *)
Definition Eth_Start (bind : option error) (nat seed : bool) (service : option (list (bytes * Z)))
    (LookupHost : bytes -> option (list bytes)) : EM (bool * list goroutine) :=
  let listening := match bind with Some _ => false | None => true end in
  _ ← (if seed then Seed service LookupHost else mret tt);
  mret (listening, (if listening then [GoPeerHandler] else []) ++ (if nat then [GoUpnpUpdate] else [])
                   ++ [GoReap; GoUpdate]).

(** * Sending *)

(** peer.go, Peer.FetchBlocks. *)
Definition FetchBlocks (p : nat) : EM unit :=
  s ← get_eth;
  '(hashes, bp) ← lift (Take 100 p (blockPool s));
  _ ← modify_pool (λ _, bp);
  if 0 <? zlen hashes then queue p MsgGetBlocksTy (VList (ByteSliceToInterface hashes)) else mret tt.

(** peer.go, Peer.FetchHashes. A peer that has not said its difficulty has none: a nil
    pointer. *)
Definition FetchHashes (p : nat) : EM unit :=
  s ← get_eth; pr ← get_peer p;
  t ← lift (deref (p_td pr));
  if td (blockPool s) <=? t then
    latest ← lift (HasLatestHash (chain_of_node s) (blockPool s));
    if latest : bool then mret tt
    else queue p MsgGetBlockHashesTy (VList [VBytes (lastReceivedHash pr); VInt Kuint32 200])
  else mret tt.

(** peer.go 598-603, Peer.peersMessage. The slots, of which there are [n]. *)
Fixpoint peer_slots (n : nat) (l : list nat) : EM (list goval) :=
  match l, n with
  | [], _ => mret (replicate n VNil)
  | _, O => lift Panic
  | p :: rest, S n =>
      pr ← get_peer p;
      c ← lift (deref (p_conn pr));
      r ← peer_slots n rest;
      mret ((if IsLoopback (ParseIP parseIPv6 (RemoteAddr c)) then VNil else peer_RlpData pr) :: r)
  end.

(** peer.go, Peer.peersMessage. *)
Definition peersMessage : EM Msg :=
  l ← InOutPeers;
  l' ← InOutPeers;
  outPeers ← peer_slots (length l) l';
  mret (NewMessage MsgPeersTy (VList outPeers)).

(** peer.go, Peer.pushPeers. *)
Definition pushPeers (p : nat) : EM unit := msg ← peersMessage; QueueMessage p msg.

(** peer.go, Peer.CatchupWithPeer. *)
Definition CatchupWithPeer (p : nat) (blockHash : bytes) : EM unit :=
  pr ← get_peer p;
  if catchingUp pr then mret tt
  else
    _ ← set_peer p (set_catchingUp true pr);
    _ ← queue p MsgGetChainTy (VList [VBytes blockHash; VInt Kuint64 100]);
    queue p MsgGetTxsTy (VList []).

(** peer.go, Peer.SyncWithPeerToLastKnown. *)
Definition SyncWithPeerToLastKnown (p : nat) : EM unit :=
  _ ← modify_peer p (set_catchingUp false);
  s ← get_eth;
  b ← lift (deref (CurrentBlock (chain_of_node s)));
  hash ← lift (block_Hash b);
  CatchupWithPeer p hash.

(** peer.go, Peer.FindCommonParentBlock. *)
Definition FindCommonParentBlock (p : nat) : EM unit :=
  pr ← get_peer p;
  if catchingUp pr then mret tt
  else
    _ ← set_peer p (set_catchingUp true pr);
    _ ← modify_peer p (λ pr, if blocksRequested pr =? 0 then set_blocksRequested 20 pr else pr);
    s ← get_eth; pr ← get_peer p;
    b ← lift (deref (CurrentBlock (chain_of_node s)));
    hash ← lift (block_Hash b);
    blocks ← lift (GetChain (db_of_node s) (chain_of_node s) hash (blocksRequested pr));
    hashes ← for_collect (λ b, h ← lift (block_Hash b); mret [VBytes h]) blocks;
    queue p MsgGetChainTy (VList (hashes ++ [VInt Kuint64 (zlen hashes)])).

(** * Timers and the output queue *)

(** peer.go 297-299, Peer.HandleOutbound. The next message of the queue is written. *)
Definition outbound_message (p : nat) : EM unit :=
  pr ← get_peer p;
  match outputQueue pr with
  | [] => mret tt
  | msg :: rest =>
      _ ← set_peer p (set_outputQueue rest pr);
      _ ← writeMessage p msg;
      s ← get_eth; modify_peer p (set_lastSend (now s))
  end.

(** peer.go 302-312, Peer.HandleOutbound. The ping timer. *)
Definition outbound_ping (p : nat) : EM unit :=
  _ ← writeMessage p (NewMessage MsgPingTy (VStr []));
  s ← get_eth; modify_peer p (set_pingStartTime (now s)).

(** peer.go 316-320, Peer.HandleOutbound. The service timer. *)
Definition outbound_service (p : nat) : EM unit :=
  pr ← get_peer p;
  if 0 <? Z.land (caps pr) CapPeerDiscTy then msg ← peersMessage; BroadcastMsg msg else mret tt.

(** peer.go 322-338, Peer.HandleOutbound. The end: the queue is drained. *)
Definition outbound_quit (p : nat) : EM unit :=
  pr ← get_peer p; if p_quit pr then set_peer p (set_outputQueue [] pr) else mret tt.

(** peer.go 524-527, Peer.update. One tick of the timer. *)
Definition peer_update_tick (p : nat) : EM unit :=
  s ← get_eth; pr ← get_peer p;
  if 10 * second <? since (now s) (lastBlockReceived pr) then set_peer p (set_catchingUp false pr) else mret tt.

(** * Messages *)

Definition count_pubkey (pk : bytes) : EM Z :=
  l ← peers_with (λ pr, bool_decide (pk = pubkey pr)); mret (zlen l).

(** peer.go 664-695, Peer.handleHandshake. A handshake that is accepted so far. The keys
    compared have different lengths (one has its first byte, the other not). *)
Definition accept_handshake (p : nat) (c : goval) : EM unit :=
  _ ← modify_peer p (λ pr, let pr := set_caps (b2z (Value_Byte (Get c 3))) pr in
                           if 0 <? zlen (Value_Str (Get c 2)) then set_p_version (Value_Str (Get c 2)) pr else pr);
  let best := Value_Bytes (Get c 7) in
  _ ← modify_peer p (λ pr, set_lastReceivedHash best (set_bestHash best
                             (set_p_td (Some (Value_BigInt (Get c 6))) pr)));
  _ ← PushPeer p;
  s ← get_eth;
  _ ← post_event (EPeerList (map snd (peers s)));
  if TD (chain_of_node s) <? Value_BigInt (Get c 6) then
    _ ← modify_pool (AddHash best); FetchHashes p
  else mret tt.

(** peer.go, Peer.handleHandshake. The key is never nil: what is missing is an empty
    slice. *)
Definition handleHandshake (p : nat) (msg : Msg) : EM unit :=
  let c := Msg_Data msg in
  _ ← modify_peer p (set_pubkey (Value_Bytes (Get c 5)));
  usedPub ← count_pubkey (Value_Bytes (Get c 5));
  if 0 <? usedPub then Peer_Stop p
  else if negb (Value_Uint (Get c 0) =? ProtocolVersion) then Peer_Stop p
  else
    _ ← modify_peer p (set_versionKnown true);
    pr ← get_peer p; s ← get_eth;
    if inbound pr then
      _ ← set_peer p (set_port (u16 (Value_Uint (Get c 4))) pr);
      if bool_decide (PublicKey s = pubkey pr) then Peer_Stop p else accept_handshake p c
    else accept_handshake p c.

(** peer.go 363-365, Peer.HandleInbound. *)
Definition on_disconnect (p : nat) (msg : Msg) : EM unit := Peer_Stop p.

(** peer.go 369-374, Peer.HandleInbound. *)
Definition on_pong (p : nat) : EM unit :=
  s ← get_eth; pr ← get_peer p;
  set_peer p (set_pingTime (since (now s) (pingStartTime pr)) (set_lastPong (unix (now s)) pr)).

(** peer.go 375-382, Peer.HandleInbound. *)
Definition on_transactions (msg : Msg) : EM unit :=
  for_each (λ i, modify_eth (λ s, set_txQueue
                   (QueueTransaction (NewTransactionFromValue (Get (Msg_Data msg) (Z.of_nat i))) (txQueue s)) s))
           (seq 0 (Z.to_nat (Value_Len (Msg_Data msg)))).

(** peer.go 391-395, Peer.HandleInbound. The addresses of a message of peers. *)
Definition peer_addresses (data : goval) : outcome (list bytes) :=
  mapM_outcome (λ i, let value := Get data (Z.of_nat i) in unpackAddr (Get value 0) (Value_Uint (Get value 1)))
               (seq 0 (Z.to_nat (Value_Len data))).

(** peer.go 386-398, Peer.HandleInbound. *)
Definition on_peers (msg : Msg) : EM unit :=
  addrs ← lift (peer_addresses (Msg_Data msg)); ProcessPeerList addrs.

(** peer.go 399-408, Peer.HandleInbound. *)
Definition on_get_transactions (p : nat) : EM unit :=
  txs ← on_core CurrentTransactions; queue p MsgTxTy (VList (map tx_RlpData txs)).

(** peer.go 410-420, Peer.HandleInbound. Too short a message is only noted in the log. *)
Definition on_get_block_hashes (p : nat) (msg : Msg) : EM unit :=
  let hash := Value_Bytes (Get (Msg_Data msg) 0) in
  let amount := Value_Uint (Get (Msg_Data msg) 1) in
  s ← get_eth;
  hashes ← lift (GetChainHashesFromHash (db_of_node s) hash amount);
  queue p MsgBlockHashesTy (VList (ByteSliceToInterface hashes)).

(** peer.go 427-433, Peer.HandleInbound. The blocks for some hashes that the node has. *)
Fixpoint known_blocks (db : D) (hashes : list bytes) : outcome (list goval) :=
  match hashes with
  | [] => Ret []
  | hash :: rest =>
      b ← GetBlock db hash;
      match b with
      | None => known_blocks db rest
      | Some b => v ← block_Value b; r ← known_blocks db rest; Ret (Value_Raw v :: r)
      end
  end.

(** peer.go 422-435, Peer.HandleInbound. *)
Definition on_get_blocks (p : nat) (msg : Msg) : EM unit :=
  let max := Z.min (Value_Len (Msg_Data msg)) 300 in
  s ← get_eth;
  blocks ← lift (known_blocks (db_of_node s)
                  (map (λ i, Value_Bytes (Get (Msg_Data msg) (Z.of_nat i))) (seq 0 (Z.to_nat max))));
  queue p MsgBlockTy (VList blocks).

(** peer.go 445-458, Peer.HandleInbound. The loop over the hashes; whether it met one of a
    block in the chain. *)
Fixpoint take_hashes (p : nat) (hashes : list goval) : EM bool :=
  match hashes with
  | [] => mret false
  | v :: rest =>
      let hash := Value_Bytes v in
      s ← get_eth;
      common ← lift (HasCommonHash (db_of_node s) hash);
      if common : bool then mret true
      else
        _ ← modify_pool (AddHash hash);
        _ ← modify_peer p (λ pr, set_lastBlockReceived (now s) (set_lastReceivedHash hash pr));
        take_hashes p rest
  end.

(** peer.go 437-465, Peer.HandleInbound. *)
Definition on_block_hashes (p : nat) (msg : Msg) : EM unit :=
  _ ← modify_peer p (set_catchingUp true);
  hashes ← lift (Value_items (Msg_Data msg));
  foundCommonHash ← take_hashes p hashes;
  if foundCommonHash : bool then FetchBlocks p else FetchHashes p.

(** A computation that works on the pool of blocks and the chain. *)
Definition on_pool {A} (m : BlockPool -> NM (D := D) (A * BlockPool)) : EM A :=
  s ← get_eth;
  '(a, bp) ← on_core (m (blockPool s));
  _ ← modify_pool (λ _, bp);
  mret a.

(** peer.go 474-480, Peer.HandleInbound. *)
Definition take_blocks (p : nat) (blocks : list goval) : EM unit :=
  for_each (λ v, s ← get_eth;
                 bp ← lift (SetBlock (NewBlockFromRlpValue v) (blockPool s));
                 _ ← modify_pool (λ _, bp);
                 modify_peer p (set_lastBlockReceived (now s))) blocks.

(** peer.go 467-488, Peer.HandleInbound. *)
Definition on_blocks (p : nat) (msg : Msg) : EM unit :=
  _ ← modify_peer p (set_catchingUp true);
  blocks ← lift (Value_items (Msg_Data msg));
  _ ← take_blocks p blocks;
  linked ← on_pool (CheckLinkAndProcess (λ b, _ ← Process b false; mret tt));
  if linked : bool then mret tt else FetchBlocks p.

(** peer.go 354-490, Peer.HandleInbound. One message. *)
Definition handle_message (p : nat) (msg : Msg) : EM unit :=
  let ty := Msg_Type msg in
  if ty =? MsgHandshakeTy then
    _ ← handleHandshake p msg;
    pr ← get_peer p;
    if IsCap (caps pr) CapPeerDiscTy then queue p MsgGetPeersTy (VStr []) else mret tt
  else if ty =? MsgDiscTy then on_disconnect p msg
  else if ty =? MsgPingTy then queue p MsgPongTy (VStr [])
  else if ty =? MsgPongTy then on_pong p
  else if ty =? MsgTxTy then on_transactions msg
  else if ty =? MsgGetPeersTy then pushPeers p
  else if ty =? MsgPeersTy then on_peers msg
  else if ty =? MsgGetTxsTy then on_get_transactions p
  else if ty =? MsgGetBlockHashesTy then on_get_block_hashes p msg
  else if ty =? MsgGetBlocksTy then on_get_blocks p msg
  else if ty =? MsgBlockHashesTy then on_block_hashes p msg
  else if ty =? MsgBlockTy then on_blocks p msg
  else mret tt.

(** peer.go, Peer.HandleInbound. Until the peer is disconnected, or the list of what the
    connection will give is over (the handler waits then).  An error of the
    reading is only logged. *)
Fixpoint HandleInbound (p : nat) (batches : list (list bytes)) : EM unit :=
  pr ← get_peer p;
  if negb (disconnect pr =? 0) then Peer_Stop p
  else match batches with
       | [] => mret tt
       | reads :: rest =>
           '(msgs, _) ← lift (ReadMessages spare reads);
           _ ← for_each (handle_message p) msgs;
           HandleInbound p rest
       end.

(** ethereum.go 456-465, Ethereum.Stop. The peers, and the pool of transactions; the rest are
    channels, the remote procedure calls and the event engine. *)
Definition Eth_Stop : EM unit :=
  _ ← eachPeer (λ p _, Peer_Stop p);
  on_core TxPool_Stop.

End Peer.
