(* ===== verification/PeerSpec.v ===== *)
(** Properties of the node's peers: the list of peers and the walks over it, the
    handshake, what a peer may send, and how peers are stopped. *)

From S2P Require Import Prelude GoVal Big Bytes Errors Rlp Value Net Wire Db Crypto Nibbles Trie.
From S2P Require Import State Curve Transaction Block Pow Machine BlockChain Transition Core TxPool StateManager.
From S2P Require Import BlockPool Node Peer.

(** * Walks over the list *)

Lemma next_of_at pre e p rest :
  e ∉ map fst pre -> next_of (pre ++ (e, p) :: rest) e = head rest.
Proof.
  induction pre as [|[e' p'] pre IH]; cbn; intros He; [by rewrite Nat.eqb_refl|].
  destruct (Nat.eqb_spec e' e) as [->|]; [set_solver|]. apply IH. set_solver.
Qed.

Lemma next_of_absent l e : e ∉ map fst l -> next_of l e = None.
Proof.
  induction l as [|[e' p'] l IH]; cbn; intros He; [done|].
  destruct (Nat.eqb_spec e' e) as [->|]; [set_solver|]. apply IH. set_solver.
Qed.

(** The list without the first element whose peer passes the test. *)
Fixpoint remove_first (t : nat -> bool) (l : list (nat * nat)) : list (nat * nat) :=
  match l with
  | [] => []
  | (e, p) :: rest => if t p then rest else (e, p) :: remove_first t rest
  end.

Lemma filter_other pre e p rest :
  NoDup (map fst (pre ++ (e, p) :: rest)) ->
  filter (λ q : nat * nat, negb (q.1 =? e)%nat) (pre ++ (e, p) :: rest) = pre ++ rest.
Proof.
  rewrite map_app. cbn. intros (_ & Hpre & [He _]%NoDup_cons)%NoDup_app.
  rewrite filter_app, filter_cons_False by (cbn; rewrite Nat.eqb_refl; by intros []).
  assert (∀ l : list (nat * nat), e ∉ map fst l -> filter (λ q : nat * nat, negb (q.1 =? e)%nat) l = l) as Hid.
  { intros l Hl. apply filter_all. intros [e' p'] Hin. cbn.
    destruct (Nat.eqb_spec e' e) as [->|]; [|done]. destruct Hl. apply list_elem_of_In, in_map_iff.
    exists (e, p'). split; [done|by apply list_elem_of_In]. }
  rewrite !Hid; [done|done|]. intros Hin. apply (Hpre e Hin). left.
Qed.

Section Walks.
Context {D : Type}.

(** The state with a shorter list of peers, which is posted. *)
Definition with_peers (l : list (nat * nat)) (s : Ethereum D) : Ethereum D :=
  set_events (events s ++ [EPeerList (map snd l)]) (set_peers l s).

(** What a walk that removes the peers that pass a test does. *)
Definition removes (t : nat -> bool) (s : Ethereum D) : Ethereum D :=
  if existsb t (map snd (peers s)) then with_peers (remove_first t (peers s)) s else s.

Lemma each_from_removes (t : nat -> bool) (cb : nat -> nat -> EM (D := D) unit) s :
  NoDup (map fst (peers s)) ->
  (∀ p e, p ∈ map snd (peers s) ->
     cb p e s = if t p then removePeerElement e s else (Ret tt, s)) ->
  eachPeer cb s = (Ret tt, removes t s).
Proof.
  intros Hnd Hcb. unfold eachPeer, mbind, st_bind, get_eth, removes.
  assert (∀ rest pre, peers s = pre ++ rest -> existsb t (map snd pre) = false ->
    each_from (length rest) (head rest) cb s
    = (Ret tt, if existsb t (map snd rest) then with_peers (pre ++ remove_first t rest) s else s)) as Hwalk.
  { induction rest as [|[e p] rest IH]; intros pre Hs Hpre; [done|].
    assert (p ∈ map snd (peers s)) as Hin by (rewrite Hs, map_app; set_solver).
    rewrite Hs in Hnd. pose proof Hnd as Hnd'. rewrite map_app in Hnd'. cbn in Hnd'.
    apply NoDup_app in Hnd' as (_ & Hpre' & Hrest%NoDup_cons).
    assert (e ∉ map fst pre) as He by (intros Hin'; apply (Hpre' e Hin'); left).
    cbn [head length each_from map existsb remove_first snd]. unfold mbind, st_bind at 1. rewrite Hcb by done.
    destruct (t p) eqn:Ht; cbn [orb].
    - unfold removePeerElement, mbind, st_bind, modify_eth, get_eth, post_event, modify_eth. cbn [peers set_peers].
      rewrite Hs, filter_other by done. cbn [peers set_events set_peers].
      rewrite next_of_absent; [by destruct (length rest)|].
      rewrite map_app, not_elem_of_app. split; [done|apply Hrest].
    - unfold st_bind, get_eth. rewrite Hs, next_of_at by done.
      rewrite (IH (pre ++ [(e, p)])); [|by rewrite Hs, <-app_assoc|].
      + by rewrite <-app_assoc.
      + rewrite map_app, existsb_app, Hpre. cbn. by rewrite Ht. }
  by rewrite (Hwalk (peers s) []).
Qed.

End Walks.

(** * What holds of the list *)

Section Invariant.
Context `{Crypto} `{Secp256k1} {D : Type} `{Database D} `{MapOrder}.
Context (LookupIP : bytes -> error + list bytes) (parseIPv6 : bytes -> option (list Z)) (pick : nat -> nat).

Definition listed (s : Ethereum D) : list nat := map snd (peers s).

(** The elements of the list are distinct, and so are its peers; each has
    finished its handshake; those that have not been stopped have different keys;
    and whoever has not been stopped has not been counted as disconnected. *)
Record peers_ok (s : Ethereum D) : Prop := {
  po_elements : NoDup (map fst (peers s));
  po_fresh : ∀ e, e ∈ map fst (peers s) -> (e < next_element s)%nat;
  po_peers : NoDup (listed s);
  po_known : ∀ p, p ∈ listed s -> ∃ pr, heap s !! p = Some pr ∧ versionKnown pr = true ∧ is_Some (p_td pr);
  po_keys : ∀ p q pr qr, p ∈ listed s -> q ∈ listed s -> heap s !! p = Some pr -> heap s !! q = Some qr ->
    p_quit pr = false -> p_quit qr = false -> pubkey pr = pubkey qr -> p = q;
  po_live : ∀ p pr, heap s !! p = Some pr -> p_quit pr = false -> disconnect pr = 0;
}.

(** A change of a peer that does not matter to the list. *)
Definition benign (pr pr' : Peer) : Prop :=
  versionKnown pr' = versionKnown pr ∧ p_td pr' = p_td pr ∧
  (p_quit pr' = false -> p_quit pr = false ∧ disconnect pr' = disconnect pr ∧ pubkey pr' = pubkey pr).

(** A state with the same list in which the peers have changed in such ways,
    and maybe new ones been made. *)
Lemma peers_ok_benign s s' :
  peers_ok s -> peers s' = peers s -> next_element s' = next_element s ->
  (∀ p pr, heap s !! p = Some pr -> ∃ pr', heap s' !! p = Some pr' ∧ benign pr pr') ->
  (∀ p pr, heap s !! p = None -> heap s' !! p = Some pr -> p_quit pr = false -> disconnect pr = 0) ->
  peers_ok s'.
Proof.
  intros [H1' H2' H3' H4' H5' H6'] Hp Hn Hh Hnew. split; unfold listed in *; rewrite ?Hp, ?Hn; try done.
  - intros p Hin. destruct (H4' p Hin) as (pr & Hpr & Hv & Ht).
    destruct (Hh p pr Hpr) as (pr' & Hpr' & E & E' & _). exists pr'. by rewrite E, E'.
  - intros p q pr qr Hin1 Hin2 Hpr Hqr Hq1 Hq2 Hk.
    destruct (H4' p Hin1) as (pr0 & Hpr0 & _). destruct (H4' q Hin2) as (qr0 & Hqr0 & _).
    destruct (Hh p pr0 Hpr0) as (pr' & E & _ & _ & Hp'). destruct (Hh q qr0 Hqr0) as (qr' & E' & _ & _ & Hq').
    simplify_eq. destruct (Hp' Hq1) as (? & _ & Ep), (Hq' Hq2) as (? & _ & Eq).
    apply (H5' p q pr0 qr0); try done. congruence.
  - intros p pr Hpr Hq. destruct (heap s !! p) as [pr0|] eqn:E; [|by eapply Hnew].
    destruct (Hh p pr0 E) as (pr' & E' & _ & _ & Hb). simplify_eq. destruct (Hb Hq) as (Hq0 & -> & _). by eapply H6'.
Qed.

Lemma benign_refl pr : benign pr pr.
Proof. done. Qed.

Lemma peers_ok_set s p pr pr' :
  peers_ok s -> heap s !! p = Some pr -> benign pr pr' -> peers_ok (set_heap (<[p := pr']> (heap s)) s).
Proof.
  intros Hok Hpr Hb. apply (peers_ok_benign s); try done; cbn.
  - intros q qr Hqr. destruct (decide (q = p)) as [->|Hne].
    + exists pr'. rewrite list_lookup_insert_eq by by eapply lookup_lt_Some. by simplify_eq.
    + exists qr. by rewrite list_lookup_insert_ne.
  - intros q qr Hq Hq'. destruct (decide (q = p)) as [->|Hne]; [congruence|].
    rewrite list_lookup_insert_ne in Hq' by done. congruence.
Qed.

(** The list is shorter, or other parts of the node have changed. *)
Lemma peers_ok_same s s' :
  peers_ok s -> peers s' = peers s -> next_element s' = next_element s -> heap s' = heap s -> peers_ok s'.
Proof.
  intros Hok Hp Hn Hh. apply (peers_ok_benign s); try done; rewrite Hh.
  - intros p pr Hpr. by exists pr.
  - congruence.
Qed.

Lemma remove_first_sub t l q : q ∈ remove_first t l -> q ∈ l.
Proof.
  induction l as [|[e p] l IH]; cbn; [done|]. destruct (t p); [by right|].
  rewrite !elem_of_cons. intuition.
Qed.

Lemma remove_first_sublist t l : remove_first t l `sublist_of` l.
Proof.
  induction l as [|[e p] l IH]; cbn; [constructor|]. destruct (t p); [by apply sublist_cons|by apply sublist_skip].
Qed.

Lemma peers_ok_removes t s : peers_ok s -> peers_ok (removes t s).
Proof.
  intros [H1' H2' H3' H4' H5' H6']. unfold removes. destruct (existsb _ _); [|by split].
  assert (∀ p, p ∈ map snd (remove_first t (peers s)) -> p ∈ listed s) as Hsub.
  { intros p. unfold listed. rewrite !list_elem_of_In, !in_map_iff. intros (q & <- & Hq%list_elem_of_In).
    exists q. split; [done|]. by eapply list_elem_of_In, remove_first_sub. }
  split; unfold listed in *; cbn; try done.
  - eapply sublist_NoDup; [exact H1'|]. apply (fmap_sublist fst), remove_first_sublist.
  - intros e. rewrite list_elem_of_In, in_map_iff. intros (q & <- & Hq%list_elem_of_In). apply H2'.
    apply list_elem_of_In, in_map_iff. exists q. split; [done|]. by eapply list_elem_of_In, remove_first_sub.
  - eapply sublist_NoDup; [exact H3'|]. apply (fmap_sublist snd), remove_first_sublist.
  - intros p Hp. by apply H4', Hsub.
  - intros p q pr qr Hp Hq. by apply H5'; apply Hsub.
Qed.

(** [keeps m]: the computation, when it returns, leaves the list in order. *)
Definition keeps {A} (m : EM (D := D) A) : Prop := ∀ s, peers_ok s -> wlp m (λ _ s', peers_ok s') s.


(** The state with another record for a peer. *)
Definition upd (p : nat) (pr : Peer) (s : Ethereum D) : Ethereum D := set_heap (<[p := pr]> (heap s)) s.

Lemma upd_upd p pr pr' s : upd p pr (upd p pr' s) = upd p pr s.
Proof. unfold upd. cbn. by rewrite list_insert_insert_eq. Qed.

Lemma heap_upd p pr pr' s : heap s !! p = Some pr -> heap (upd p pr' s) !! p = Some pr'.
Proof. intros Hp. cbn. rewrite list_lookup_insert_eq; [done|by eapply lookup_lt_Some]. Qed.

Lemma wlp_get_peer p (Q : Peer -> Ethereum D -> Prop) s :
  (∀ pr, heap s !! p = Some pr -> Q pr s) -> wlp (get_peer p) Q s.
Proof.
  intros HQ a s'. unfold get_peer, mbind, st_bind, get_eth, lift.
  destruct (heap s !! p) as [pr|]; [|done]. cbn. intros [= <- <-]. by apply HQ.
Qed.

Lemma wlp_set_peer p pr (Q : unit -> Ethereum D -> Prop) s : Q tt (upd p pr s) -> wlp (set_peer p pr) Q s.
Proof. by intros HQ ? ? [= <- <-]. Qed.

Lemma wlp_modify_peer p f (Q : unit -> Ethereum D -> Prop) s :
  (∀ pr, heap s !! p = Some pr -> Q tt (upd p (f pr) s)) -> wlp (modify_peer p f) Q s.
Proof. intros HQ. apply wlp_bind, wlp_get_peer. intros pr Hpr. by apply wlp_set_peer, HQ. Qed.

Lemma wlp_get_eth (Q : Ethereum D -> Ethereum D -> Prop) s : Q s s -> wlp get_eth Q s.
Proof. by intros HQ ? ? [= <- <-]. Qed.

Lemma wlp_modify_eth f (Q : unit -> Ethereum D -> Prop) s : Q tt (f s) -> wlp (modify_eth f) Q s.
Proof. by intros HQ ? ? [= <- <-]. Qed.

Lemma wlp_panic {A} (Q : A -> Ethereum D -> Prop) s : wlp (lift Panic) Q s.
Proof. by intros ? ?. Qed.

Lemma wlp_keeps {A} (m : EM (D := D) A) (Q : A -> Ethereum D -> Prop) s :
  keeps m -> peers_ok s -> (∀ a s', peers_ok s' -> Q a s') -> wlp m Q s.
Proof. intros Hm Hok HQ a s' E. by apply HQ, (Hm s Hok a s'). Qed.

(** [walk]: go through a computation, reading the records of peers as they are. *)
Ltac walk_step :=
  lazymatch goal with
  | |- wlp (mret _) _ _ => apply wlp_ret
  | |- wlp (_ ≫= _) _ _ => apply wlp_bind
  | |- wlp (lift Panic) _ _ => apply wlp_panic
  | |- wlp (lift _) _ _ => apply wlp_lift; intros ? ?
  | |- wlp (get_peer _) _ _ => apply wlp_get_peer; intros ? ?
  | |- wlp (set_peer _ _) _ _ => apply wlp_set_peer
  | |- wlp (modify_peer _ _) _ _ => apply wlp_modify_peer; intros ? ?
  | |- wlp get_eth _ _ => apply wlp_get_eth
  | |- wlp (modify_eth _) _ _ => apply wlp_modify_eth
  | |- wlp (post_event _) _ _ => apply wlp_modify_eth
  | |- wlp (modify_pool _) _ _ => apply wlp_modify_eth
  | |- wlp (let '(_, _) := ?x in _) _ _ => destruct x eqn:?
  | |- wlp (if ?x then _ else _) _ _ => destruct x eqn:?
  | |- wlp (match ?x with _ => _ end) _ _ => destruct x eqn:?
  end.

(** [settle]: the list is in order after a change that does not touch it. *)
Ltac settle :=
  first
    [ assumption
    | by eapply peers_ok_set; [eassumption|eassumption|done]
    | by eapply peers_ok_same; [eassumption|done..] ].

Ltac walk := repeat walk_step; try settle.

Lemma keeps_ret {A} (a : A) : keeps (mret a).
Proof. intros s Hok. by apply wlp_ret. Qed.

Lemma keeps_bind {A B} (m : EM (D := D) A) (f : A -> EM B) : keeps m -> (∀ a, keeps (f a)) -> keeps (m ≫= f).
Proof. intros Hm Hf s Hok. apply wlp_bind, wlp_keeps; [done..|]. intros a s' Hok'. by apply Hf. Qed.

Lemma keeps_lift {A} (o : outcome A) : keeps (lift o).
Proof. intros s Hok. by apply wlp_lift. Qed.

Lemma keeps_for_each {A} (f : A -> EM (D := D) unit) l : (∀ x, keeps (f x)) -> keeps (for_each f l).
Proof. intros Hf. induction l as [|x l IH]; [apply keeps_ret|]. by apply keeps_bind. Qed.

Lemma keeps_QueueMessage p msg : keeps (QueueMessage p msg).
Proof. intros s Hok. unfold QueueMessage. walk. Qed.

Lemma keeps_each_from n cur cb : (∀ p e, keeps (cb p e)) -> keeps (each_from n cur cb).
Proof.
  intros Hcb. revert cur. induction n as [|n IH]; intros [[e p]|]; try apply keeps_ret; [by intros ? ? ? ?|].
  cbn. apply keeps_bind; [done|]. intros _ s Hok. apply wlp_bind, wlp_get_eth. by apply IH.
Qed.

Lemma keeps_eachPeer cb : (∀ p e, keeps (cb p e)) -> keeps (eachPeer cb).
Proof. intros Hcb s Hok. apply wlp_bind, wlp_get_eth. by apply keeps_each_from. Qed.

Lemma keeps_BroadcastMsg msg : keeps (BroadcastMsg msg).
Proof. apply keeps_eachPeer. intros p _. apply keeps_QueueMessage. Qed.

Lemma keeps_on_core {A} (m : NM (D := D) A) : keeps (on_core m).
Proof.
  intros s Hok a s' Hrun. unfold on_core in Hrun.
  match type of Hrun with context [m ?k] => destruct (m k) as [o k'] end.
  match type of Hrun with ?m1 ?s0 = _ => set (s1 := s0) in Hrun;
    enough (wlp m1 (λ _ s', peers_ok s') s1) as Hw by by apply (Hw a s') end.
  assert (peers_ok s1) as Hok1 by (subst s1; settle). clearbody s1. clear Hrun.
  apply wlp_bind, wlp_lift. intros x _. apply wlp_bind, wlp_keeps; [|done|intros _ s2 Hok'; by apply wlp_ret].
  apply keeps_for_each. intros []; try apply keeps_ret. apply keeps_BroadcastMsg.
Qed.

(** * Stopping and removing *)

Lemma RemovePeer_run p s :
  peers_ok s -> RemovePeer p s = (Ret tt, removes (λ q, (q =? p)%nat) s).
Proof.
  intros Hok. apply each_from_removes; [apply Hok|]. intros q e _. by destruct (q =? p)%nat.
Qed.

Lemma keeps_RemovePeer p : keeps (RemovePeer p).
Proof. intros s Hok a s'. rewrite RemovePeer_run by done. intros [= <- <-]. by apply peers_ok_removes. Qed.

(** Who is taken out by [reapPeers]. *)
Definition dead (s : Ethereum D) (p : nat) : bool :=
  match heap s !! p with
  | Some pr => (disconnect pr =? 1) || (inbound pr && (5 * 60 * second <? s64 (unix (now s) - lastPong pr)))
  | None => false
  end.

Lemma reapPeers_run s : peers_ok s -> reapPeers s = (Ret tt, removes (dead s) s).
Proof.
  intros Hok. apply each_from_removes; [apply Hok|]. intros p e Hp.
  destruct (po_known s Hok p Hp) as (pr & Hpr & _). unfold get_peer, mbind, st_bind, get_eth, lift, dead.
  rewrite Hpr. cbn. by destruct (_ || _).
Qed.

Lemma keeps_reapPeers : keeps (reapPeers (D := D)).
Proof. intros s Hok a s'. rewrite reapPeers_run by done. intros [= <- <-]. by apply peers_ok_removes. Qed.

Lemma keeps_write p msg : keeps (write p msg).
Proof. intros s Hok. unfold write. walk. Qed.

(** What [write] may do. *)
Lemma write_wlp p msg s :
  wlp (write p msg) (λ _ s', s' = s ∨ ∃ pr c, heap s !! p = Some pr ∧ s' = upd p (set_p_conn c pr) s) s.
Proof.
  unfold write. repeat walk_step; try (by left). right.
  match goal with Hpr : heap s !! p = Some ?pr |- _ => exists pr end. eexists. split; [eassumption|done].
Qed.

(** A peer that has been told to quit may be counted again. *)
Lemma wlp_add_disconnect_quit p s pr (Q : Z -> Ethereum D -> Prop) :
  peers_ok s -> heap s !! p = Some pr -> p_quit pr = true ->
  (∀ d, peers_ok (upd p (set_disconnect d pr) s) -> Q d (upd p (set_disconnect d pr) s)) ->
  wlp (add_disconnect p) Q s.
Proof.
  intros Hok Hpr Hq HQ. unfold add_disconnect. repeat walk_step. simplify_eq. apply HQ.
  eapply peers_ok_set; [done..|]. unfold benign. cbn. by rewrite Hq.
Qed.

(** The end of [Stop]: the connection is closed and the peer leaves the list. *)
Lemma keeps_close p s :
  peers_ok s ->
  wlp (pr ← get_peer p; c ← lift (deref (p_conn pr)); set_peer p (set_p_conn (Some (close_conn c)) pr))
      (λ _ s1, wlp (RemovePeer p) (λ _ s2, peers_ok s2) s1) s.
Proof.
  intros Hok. repeat walk_step. eapply wlp_keeps; [apply keeps_RemovePeer|settle|done].
Qed.

(** Stopping a peer of which only the key, or what the list does not look at, has changed
    since the list was in order. *)
Lemma Stop_from p s pr0 pr :
  peers_ok s -> heap s !! p = Some pr0 -> versionKnown pr = versionKnown pr0 -> p_td pr = p_td pr0 ->
  p_quit pr = p_quit pr0 -> disconnect pr = disconnect pr0 ->
  wlp (Peer_Stop p) (λ _ s', peers_ok s') (upd p pr s).
Proof.
  intros Hok Hpr0 Ev Et Eq Ed. unfold Peer_Stop, add_disconnect at 1. apply wlp_bind, wlp_bind, wlp_get_peer.
  intros pr' Hpr'. rewrite (heap_upd p pr0) in Hpr' by done. injection Hpr' as <-.
  apply wlp_bind, wlp_set_peer, wlp_ret. rewrite upd_upd. set (d := s32 (disconnect pr + 1)).
  pose proof (po_live s Hok p pr0 Hpr0) as Hlive.
  destruct (negb (d =? 1)) eqn:Hd.
  { apply wlp_ret. eapply peers_ok_set; [done..|]. unfold benign. cbn. do 2 (split; [done|]). intros Hq.
    exfalso. subst d. by rewrite Ed, Hlive in Hd by congruence. }
  apply wlp_bind, wlp_get_peer. intros pr1 Hpr1. rewrite (heap_upd p pr0) in Hpr1 by done. injection Hpr1 as <-.
  apply wlp_bind. cbn [p_quit set_disconnect]. destruct (p_quit pr) eqn:Hq; [apply wlp_panic|].
  apply wlp_set_peer. rewrite upd_upd. set (pr2 := set_p_quit true (set_disconnect d pr)).
  assert (peers_ok (upd p pr2 s)) as Hok2 by (eapply peers_ok_set; [done..|]; by split_and!).
  apply wlp_bind, wlp_get_peer. intros pr3 Hpr3. pose proof (heap_upd p pr0 pr2 s Hpr0) as Hpr2.
  assert (pr3 = pr2) as -> by congruence. clear Hpr3.
  destruct (connected pr2 =? 0).
  { apply wlp_bind, wlp_ret. by apply keeps_RemovePeer. }
  apply wlp_bind, wlp_bind. eapply wlp_mono; [|apply wlp_and; [by apply keeps_write|apply write_wlp]].
  intros err s3 [Hok3 Hs3]. cbn beta.
  assert (∃ pr4, heap s3 !! p = Some pr4 ∧ p_quit pr4 = true) as (pr4 & Hpr4 & Hq4).
  { destruct Hs3 as [->|(pr3 & c & Hpr3 & ->)]; [by exists pr2|]. assert (pr3 = pr2) as -> by congruence.
    exists (set_p_conn c pr2). split; [by eapply heap_upd|done]. }
  apply wlp_bind. destruct err; [|by apply wlp_ret, keeps_close].
  apply wlp_bind. eapply wlp_add_disconnect_quit; [done..|]. intros d' Hok4. by apply wlp_ret, keeps_close.
Qed.

Lemma keeps_Stop p : keeps (Peer_Stop p).
Proof.
  intros s Hok. destruct (heap s !! p) as [pr|] eqn:E.
  - replace s with (upd p pr s) by (unfold upd; rewrite list_insert_id by done; by destruct s).
    by eapply Stop_from.
  - unfold Peer_Stop, add_disconnect at 1. apply wlp_bind, wlp_bind, wlp_get_peer. congruence.
Qed.

Lemma keeps_writeMessage p msg : keeps (writeMessage p msg).
Proof. apply keeps_bind; [apply keeps_write|]. intros []; [apply keeps_Stop|apply keeps_ret]. Qed.


(** * The handlers *)

Lemma keeps_get_eth : keeps (get_eth (D := D)).
Proof. intros s Hok. by apply wlp_get_eth. Qed.

Lemma keeps_get_peer p : keeps (get_peer (D := D) p).
Proof. intros s Hok. by apply wlp_get_peer. Qed.

Lemma keeps_modify_pool f : keeps (modify_pool (D := D) f).
Proof. intros s Hok. apply wlp_modify_eth. settle. Qed.

Lemma keeps_post_event e : keeps (post_event (D := D) e).
Proof. intros s Hok. apply wlp_modify_eth. settle. Qed.

Lemma keeps_modify_peer p f : (∀ pr, benign pr (f pr)) -> keeps (modify_peer (D := D) p f).
Proof. intros Hf s Hok. apply wlp_modify_peer. intros pr Hpr. by eapply peers_ok_set. Qed.

Lemma keeps_peers_with f : keeps (peers_with (D := D) f).
Proof. by intros s Hok a s' [= <- <-]. Qed.

Lemma keeps_queue p ty data : keeps (queue (D := D) p ty data).
Proof. apply keeps_QueueMessage. Qed.

Lemma keeps_Process b : keeps (on_core (D := D) (Process b false)).
Proof. apply keeps_on_core. Qed.

Lemma keeps_alloc pr : (p_quit pr = false -> disconnect pr = 0) -> keeps (alloc_peer (D := D) pr).
Proof.
  intros Hpr s Hok a s' [= <- <-]. apply (peers_ok_benign s); try done; cbn.
  - intros p q Hq. exists q. split; [|done]. by apply lookup_app_l_Some.
  - intros p q Hp Hq. rewrite lookup_app_r in Hq by by apply lookup_ge_None.
    apply list_lookup_singleton_Some in Hq as [_ <-]. done.
Qed.

#[local] Hint Resolve keeps_ret keeps_lift keeps_get_eth keeps_get_peer keeps_modify_pool keeps_post_event
  keeps_peers_with keeps_queue keeps_QueueMessage keeps_Stop keeps_writeMessage keeps_reapPeers
  keeps_BroadcastMsg keeps_on_core keeps_for_each : peers.
#[local] Hint Extern 5 (keeps (modify_peer _ _)) => apply keeps_modify_peer; done : peers.
#[local] Hint Extern 5 (keeps (modify_eth _)) => intros ? ?; apply wlp_modify_eth; settle : peers.

(** [keeping]: every operation of the computation leaves the list in order. *)
Ltac keeping :=
  repeat lazymatch goal with
  | |- keeps (_ ≫= _) => apply keeps_bind; [|intros ?]
  | |- keeps (let '(_, _) := ?x in _) => destruct x
  | |- keeps (match ?x with _ => _ end) => destruct x
  | |- keeps (for_each _ _) => apply keeps_for_each; intros ?
  | |- keeps _ => solve [eauto with peers]
  end.

Lemma keeps_FetchBlocks p : keeps (FetchBlocks (D := D) p).
Proof. unfold FetchBlocks. keeping. Qed.

Lemma keeps_FetchHashes p : keeps (FetchHashes (D := D) p).
Proof. unfold FetchHashes. keeping. Qed.

Lemma keeps_slots n l : keeps (peer_slots (D := D) parseIPv6 n l).
Proof.
  revert n. induction l as [|p l IH]; intros [|n]; cbn [peer_slots]; keeping; apply IH.
Qed.

Lemma keeps_pushPeers p : keeps (pushPeers (D := D) parseIPv6 p).
Proof. unfold pushPeers, peersMessage, InOutPeers. keeping; try apply keeps_slots. Qed.

#[local] Hint Resolve keeps_FetchBlocks keeps_FetchHashes keeps_slots keeps_pushPeers : peers.

Lemma keeps_ConnectToPeer addr : keeps (ConnectToPeer (D := D) LookupIP pick addr).
Proof.
  unfold ConnectToPeer, alreadyConnected, NewOutboundPeer. keeping. by apply keeps_alloc.
Qed.

Lemma keeps_take_hashes p l : keeps (take_hashes (D := D) p l).
Proof. induction l as [|v l IH]; cbn [take_hashes]; keeping; apply IH. Qed.

#[local] Hint Resolve keeps_ConnectToPeer keeps_take_hashes : peers.

Lemma keeps_messages p msg :
  keeps (on_pong (D := D) p) ∧ keeps (on_transactions (D := D) msg) ∧
  keeps (on_peers (D := D) LookupIP pick msg) ∧ keeps (on_get_transactions (D := D) p) ∧
  keeps (on_get_block_hashes (D := D) p msg) ∧ keeps (on_get_blocks (D := D) p msg) ∧
  keeps (on_block_hashes (D := D) p msg) ∧ keeps (on_blocks (D := D) p msg).
Proof.
  split_and!.
  - intros s Hok. unfold on_pong. walk.
  - unfold on_transactions. keeping.
  - unfold on_peers, ProcessPeerList. keeping.
  - unfold on_get_transactions. keeping.
  - unfold on_get_block_hashes. keeping.
  - unfold on_get_blocks. keeping.
  - unfold on_block_hashes. keeping.
  - unfold on_blocks, take_blocks, on_pool. keeping.
Qed.

(** A peer that is not in the list may change. *)
Lemma peers_ok_unlisted s p pr :
  peers_ok s -> p ∉ listed s -> (p_quit pr = false -> disconnect pr = 0) -> peers_ok (upd p pr s).
Proof.
  intros [H1' H2' H3' H4' H5' H6'] Hp Hpr. split; unfold listed in *; cbn; try done.
  - intros q Hq. destruct (H4' q Hq) as (qr & Hqr & Hk). exists qr.
    rewrite list_lookup_insert_ne by (by intros ->). done.
  - intros q1 q2 qr1 qr2 Hq1 Hq2. rewrite !list_lookup_insert_ne by (by intros ->). by apply H5'.
  - intros q qr. destruct (decide (q = p)) as [->|Hne].
    + intros Hqr. assert (p < length (heap s))%nat.
      { apply lookup_lt_Some in Hqr. by rewrite length_insert in Hqr. }
      rewrite list_lookup_insert_eq in Hqr by done. by injection Hqr as <-.
    + rewrite list_lookup_insert_ne by done. apply H6'.
Qed.

(** A peer that is not in the list yet joins it. *)
Lemma peers_ok_push s p pr :
  peers_ok s -> p ∉ listed s -> heap s !! p = Some pr -> versionKnown pr = true -> is_Some (p_td pr) ->
  (∀ q qr, q ∈ listed s -> heap s !! q = Some qr -> pubkey qr ≠ pubkey pr) ->
  peers_ok (set_peers (peers s ++ [(next_element s, p)]) (set_next_element (S (next_element s)) s)).
Proof.
  intros [H1' H2' H3' H4' H5' H6'] Hp Hpr Hv Ht Hk. split; unfold listed in *; cbn; try done.
  - rewrite map_app. apply NoDup_app. split; [done|]. split; [|by apply NoDup_singleton].
    intros e He%H2' ->%list_elem_of_singleton. cbn in *; lia.
  - intros e. rewrite map_app, elem_of_app. intros [He%H2'| ->%list_elem_of_singleton]; cbn; lia.
  - rewrite map_app. apply NoDup_app. split; [done|]. split; [|by apply NoDup_singleton].
    by intros q Hq ->%list_elem_of_singleton.
  - intros q. rewrite map_app, elem_of_app. intros [Hq| ->%list_elem_of_singleton]; [by apply H4'|]. by exists pr.
  - intros q1 q2 qr1 qr2. rewrite map_app, !elem_of_app.
    intros [Hq1| ->%list_elem_of_singleton] [Hq2| ->%list_elem_of_singleton]; cbn; intros Hr1 Hr2 ?? E; simplify_eq.
    + by apply (H5' q1 q2 qr1 qr2).
    + by destruct (Hk q1 qr1).
    + by destruct (Hk q2 qr2).
    + done.
Qed.

Lemma count_pubkey_wlp k (Q : Z -> Ethereum D -> Prop) s :
  Q (zlen (filter (passes (λ pr, bool_decide (k = pubkey pr)) s) (listed s))) s -> wlp (count_pubkey k) Q s.
Proof. intros HQ. apply wlp_bind. intros a s' [= <- <-]. by apply wlp_ret. Qed.

Lemma count_zero k s q qr :
  (0 <? zlen (filter (passes (λ pr, bool_decide (k = pubkey pr)) s) (listed s))) = false ->
  q ∈ listed s -> heap s !! q = Some qr -> pubkey qr ≠ k.
Proof.
  intros Hz%Z.ltb_ge Hq Hqr <-. set (l := filter _ _) in *. assert (q ∈ l) as Hin.
  { apply list_elem_of_filter. split; [|done]. unfold passes. by rewrite Hqr, bool_decide_eq_true_2. }
  destruct l; [by apply elem_of_nil in Hin|]. lenlia.
Qed.

Lemma keeps_accept p c s pr :
  peers_ok s -> p ∉ listed s -> heap s !! p = Some pr -> versionKnown pr = true ->
  (p_quit pr = false -> disconnect pr = 0) ->
  (∀ q qr, q ∈ listed s -> heap s !! q = Some qr -> pubkey qr ≠ pubkey pr) ->
  wlp (accept_handshake p c) (λ _ s', peers_ok s') s.
Proof.
  intros Hok Hp Hpr Hv Hl Hk. unfold accept_handshake.
  apply wlp_bind, wlp_modify_peer. intros pr1 Hpr1. assert (pr1 = pr) as -> by congruence. clear Hpr1.
  cbn zeta. set (pr1 := if 0 <? _ then _ else _). apply wlp_bind, wlp_modify_peer. intros pr2 Hpr2.
  rewrite (heap_upd p pr) in Hpr2 by done. injection Hpr2 as <-. rewrite upd_upd. set (pr2 := set_lastReceivedHash _ _).
  assert (versionKnown pr2 = true ∧ is_Some (p_td pr2) ∧ pubkey pr2 = pubkey pr ∧
          p_quit pr2 = p_quit pr ∧ disconnect pr2 = disconnect pr) as (E1 & E2 & E3 & E4 & E5).
  { subst pr2 pr1. cbn. destruct (0 <? _); cbn; by split_and!. }
  assert (peers_ok (upd p pr2 s)) as Hok2 by (apply peers_ok_unlisted; [done..|by rewrite E4, E5]).
  pose proof (heap_upd p pr pr2 s Hpr) as Hpr2. clearbody pr2.
  apply wlp_bind, wlp_modify_eth. set (s3 := set_peers _ _). assert (peers_ok s3) as Hok3.
  { apply (peers_ok_push _ p pr2); try done. intros q qr Hq Hqr. rewrite E3. apply (Hk q); [done|].
    cbn in Hqr. by rewrite list_lookup_insert_ne in Hqr by (by intros ->). }
  clearbody s3. apply wlp_bind, wlp_get_eth, wlp_bind, wlp_modify_eth.
  assert (peers_ok (set_events (events s3 ++ [EPeerList (map snd (peers s3))]) s3)) as Hok4 by settle.
  destruct (TD (chain_of_node s3) <? Value_BigInt (Get c 6)); [|by apply wlp_ret]. revert Hok4. generalize (set_events (events s3 ++ [EPeerList (map snd (peers s3))]) s3).
  intros s4 Hok4. assert (keeps (_ ← modify_pool (AddHash (Value_Bytes (Get c 7))); FetchHashes p)) as Hkeep by keeping.
  by apply Hkeep.
Qed.

Lemma keeps_handshake p msg : keeps (handleHandshake p msg).
Proof.
  intros s Hok. unfold handleHandshake. set (k := Value_Bytes (Get (Msg_Data msg) 5)).
  apply wlp_bind, wlp_modify_peer. intros pr Hpr. apply wlp_bind, count_pubkey_wlp.
  change (listed (upd p (set_pubkey k pr) s)) with (listed s). pose proof (heap_upd p pr (set_pubkey k pr) s Hpr) as Hpr1.
  destruct (0 <? _) eqn:Hcount; [by eapply Stop_from|].
  assert (p ∉ listed s) as Hp.
  { intros Hin. by destruct (count_zero k (upd p (set_pubkey k pr) s) p _ Hcount Hin Hpr1). }
  pose proof (po_live s Hok p pr Hpr) as Hlive.
  destruct (negb _); [by eapply Stop_from|].
  apply wlp_bind, wlp_modify_peer. intros pr2 Hpr2. assert (pr2 = set_pubkey k pr) as -> by congruence.
  rewrite upd_upd. set (pr2 := set_versionKnown true (set_pubkey k pr)).
  assert (∀ q qr, q ∈ listed s -> heap s !! q = Some qr -> pubkey qr ≠ k) as Hk.
  { intros q qr Hq Hqr. eapply (count_zero k (upd p (set_pubkey k pr) s) q); [done..|]. cbn.
    by rewrite list_lookup_insert_ne by (by intros ->). }
  assert (∀ pr', pubkey pr' = k -> versionKnown pr' = true -> p_quit pr' = p_quit pr -> disconnect pr' = disconnect pr ->
    peers_ok (upd p pr' s) ∧ wlp (accept_handshake p (Msg_Data msg)) (λ _ s', peers_ok s') (upd p pr' s)) as Hacc.
  { intros pr' Ek Ev Eq Ed. assert (peers_ok (upd p pr' s)) as Hok' by (apply peers_ok_unlisted; [done..|by rewrite Eq, Ed]).
    split; [done|]. apply (keeps_accept p _ _ pr'); try done; [by eapply heap_upd|by rewrite Eq, Ed|].
    intros q qr Hq Hqr. rewrite Ek. apply (Hk q); [done|]. cbn in Hqr.
    by rewrite list_lookup_insert_ne in Hqr by (by intros ->). }
  apply wlp_bind, wlp_get_peer. intros pr3 Hpr3. rewrite (heap_upd p pr) in Hpr3 by done. injection Hpr3 as <-.
  apply wlp_bind, wlp_get_eth. destruct (inbound pr2); [|by apply Hacc].
  apply wlp_bind, wlp_set_peer. rewrite upd_upd. destruct (bool_decide _); [|by apply Hacc].
  apply keeps_Stop. by apply Hacc.
Qed.

#[local] Hint Resolve keeps_handshake keeps_RemovePeer : peers.

Lemma keeps_handle_message p msg : keeps (handle_message (D := D) LookupIP parseIPv6 pick p msg).
Proof.
  destruct (keeps_messages p msg) as (? & ? & ? & ? & ? & ? & ? & ?). unfold handle_message, on_disconnect.
  keeping.
Qed.

Lemma keeps_NewPeer conn b : keeps (NewPeer (D := D) conn b).
Proof. unfold NewPeer. keeping. by apply keeps_alloc. Qed.

Lemma keeps_pushHandshake p : keeps (pushHandshake (D := D) p).
Proof. unfold pushHandshake. keeping. Qed.

Lemma keeps_Start p : keeps (Start (D := D) p).
Proof.
  intros s Hok. unfold Start. repeat walk_step; (eapply wlp_keeps; [apply keeps_pushHandshake|settle|done]).
Qed.

Lemma keeps_dialled p conn : keeps (dialled (D := D) p conn).
Proof.
  intros s Hok. unfold dialled. apply wlp_bind, wlp_modify_eth.
  assert (peers_ok (set_dialing (filter (λ d, negb (d.1 =? p)%nat) (dialing s)) s)) as Hok1 by settle.
  revert Hok1. generalize (set_dialing (filter (λ d, negb (d.1 =? p)%nat) (dialing s)) s). clear s Hok. intros s Hok.
  destruct conn as [c|]; [|by apply keeps_Stop]. apply wlp_bind, wlp_modify_peer. intros pr Hpr.
  apply keeps_Start. eapply peers_ok_set; [done..|]. unfold benign. cbn. do 2 (split; [done|]).
  intros Hq. by rewrite (po_live s Hok p pr Hpr Hq).
Qed.

#[local] Hint Resolve keeps_handle_message keeps_NewPeer keeps_Start keeps_dialled : peers.

(** What may happen to the node: a message of some peer, a connection made or
    asked for, a message written, a tick of one of the timers, a peer stopped,
    the passing of time. *)
Inductive node_step (s s' : Ethereum D) : Prop :=
| step_message p msg : handle_message LookupIP parseIPv6 pick p msg s = (Ret tt, s') -> node_step s s'
| step_accept conn : AddPeer conn s = (Ret tt, s') -> node_step s s'
| step_connect addr r : ConnectToPeer LookupIP pick addr s = (Ret r, s') -> node_step s s'
| step_dialled p conn : dialled p conn s = (Ret tt, s') -> node_step s s'
| step_first_ping p : Start_ping p s = (Ret tt, s') -> node_step s s'
| step_write p : outbound_message p s = (Ret tt, s') -> node_step s s'
| step_ping p : outbound_ping p s = (Ret tt, s') -> node_step s s'
| step_service p : outbound_service parseIPv6 p s = (Ret tt, s') -> node_step s s'
| step_drain p : outbound_quit p s = (Ret tt, s') -> node_step s s'
| step_tick p : peer_update_tick p s = (Ret tt, s') -> node_step s s'
| step_sync : eth_update_tick s = (Ret tt, s') -> node_step s s'
| step_reap : reapPeers s = (Ret tt, s') -> node_step s s'
| step_stop p : Peer_Stop p s = (Ret tt, s') -> node_step s s'
| step_core (m : NM (D := D) unit) : on_core m s = (Ret tt, s') -> node_step s s'
| step_seed service hosts : Seed LookupIP pick service hosts s = (Ret tt, s') -> node_step s s'
| step_shutdown : Eth_Stop s = (Ret tt, s') -> node_step s s'
| step_clock t : s' = set_now t s -> node_step s s'.

Lemma node_step_ok s s' : peers_ok s -> node_step s s' -> peers_ok s'.
Proof.
  intros Hok Hstep.
  assert (∀ A (m : EM (D := D) A) a, keeps m -> m s = (Ret a, s') -> peers_ok s') as Hrun.
  { intros A m a Hm. by apply Hm. }
  destruct Hstep; try (eapply Hrun; [|eassumption]).
  - apply keeps_handle_message.
  - unfold AddPeer. keeping.
  - keeping.
  - keeping.
  - unfold Start_ping. keeping.
  - intros s0 Hok0. unfold outbound_message. repeat walk_step; try settle.
    eapply wlp_keeps; [apply keeps_writeMessage|settle|]. intros _ s1 Hok1. walk.
  - unfold outbound_ping. keeping.
  - unfold outbound_service, peersMessage, InOutPeers. keeping.
  - intros s0 Hok0. unfold outbound_quit. walk.
  - intros s0 Hok0. unfold peer_update_tick. walk.
  - unfold eth_update_tick, IsUpToDate. keeping.
  - keeping.
  - keeping.
  - keeping.
  - unfold Seed, ProcessPeerList. keeping.
  - unfold Eth_Stop. keeping. apply keeps_eachPeer. intros p e. keeping.
  - subst. settle.
Qed.

Lemma no_peers_ok (s : Ethereum D) : peers s = [] -> heap s = [] -> peers_ok s.
Proof.
  intros Hp Hh. split; unfold listed; rewrite ?Hp, ?Hh; try done; try constructor; by intros ? ?%elem_of_nil.
Qed.

Lemma reachable_peers_ok (s0 s : Ethereum D) : peers_ok s0 -> rtc node_step s0 s -> peers_ok s.
Proof. intros Hok Hsteps. induction Hsteps as [|s0 s1 s Hstep _ IH]; [done|]. by eapply IH, node_step_ok. Qed.

(** C13. The list of peers is in order however the node runs: whatever messages its
    peers send and in whatever order connections, timers and stops interleave, no
    peer is in the list twice, every peer in it has finished its handshake and
    said its difficulty (so that asking it for hashes cannot fail for lack of
    one), and of those that have not been stopped no two have the same key.  This
    holds of every state that a node without peers can reach. *)
Theorem peer_list_invariant (s0 s : Ethereum D) :
  peers s0 = [] -> heap s0 = [] -> rtc node_step s0 s -> peers_ok s.
Proof.
  intros Hp Hh Hsteps. by eapply reachable_peers_ok, Hsteps; apply no_peers_ok.
Qed.

(** * What a peer can do to the node *)

Lemma run_modify_peer p f pr s :
  heap s !! p = Some pr -> modify_peer (D := D) p f s = (Ret tt, upd p (f pr) s).
Proof. intros Hpr. unfold modify_peer, get_peer, mbind, st_bind, get_eth, lift, deref. by rewrite Hpr. Qed.

Lemma run_get_peer p pr s : heap s !! p = Some pr -> get_peer (D := D) p s = (Ret pr, s).
Proof. intros Hpr. unfold get_peer, mbind, st_bind, get_eth, lift, deref. by rewrite Hpr. Qed.

(** Hashes that the chain does not know are all added. *)
Lemma take_hashes_unknown p l s pr :
  heap s !! p = Some pr ->
  Forall (λ v, GetBlock (db_of_node s) (Value_Bytes v) = Ret None) l ->
  ∃ s' pr', take_hashes p l s = (Ret false, s') ∧ heap s' !! p = Some pr' ∧ p_td pr' = p_td pr.
Proof.
  revert s pr. induction l as [|v l IH]; intros s pr Hpr Hl; [by exists s, pr|].
  apply Forall_cons in Hl as [Hv Hl]. cbn [take_hashes].
  rewrite (st_bind_run get_eth _ _ s s) by done. unfold HasCommonHash. rewrite Hv. cbn [mbind outcome_bind].
  rewrite (st_bind_run (lift (Ret _)) _ _ _ s) by done. rewrite bool_decide_eq_false_2 by (by intros []).
  set (s1 := set_blockPool (AddHash (Value_Bytes v) (blockPool s)) s).
  rewrite (st_bind_run _ _ s tt s1) by done.
  rewrite (st_bind_run _ _ s1 tt _ (run_modify_peer p _ pr s1 Hpr)).
  edestruct (IH (upd p (set_lastBlockReceived (now s) (set_lastReceivedHash (Value_Bytes v) pr)) s1))
    as (s' & pr' & Hrun & Hpr' & Htd); [by eapply (heap_upd p pr)|done|].
  exists s', pr'. by rewrite Hrun.
Qed.

(** Anyone who connects can bring the node down: a message of block hashes
    (an empty one will do) from a peer that has not sent its handshake panics,
    because the peer's total difficulty is not known yet and is a nil pointer. *)
Theorem hashes_before_handshake_panic (s : Ethereum D) (p : nat) (pr : Peer) (hashes : list goval) :
  heap s !! p = Some pr -> p_td pr = None ->
  Forall (λ v, GetBlock (db_of_node s) (Value_Bytes (NewValue v)) = Ret None) hashes ->
  (handle_message LookupIP parseIPv6 pick p (mkMsg MsgBlockHashesTy (VList hashes)) s).1 = Panic.
Proof.
  intros Hpr Htd Hl.
  change (handle_message LookupIP parseIPv6 pick p (mkMsg MsgBlockHashesTy (VList hashes)))
    with (on_block_hashes (D := D) p (mkMsg MsgBlockHashesTy (VList hashes))).
  unfold on_block_hashes. rewrite (st_bind_run _ _ s tt _ (run_modify_peer p _ pr s Hpr)).
  set (s1 := upd p (set_catchingUp true pr) s). cbn [Msg_Data]. rewrite Value_items_list.
  rewrite (st_bind_run (lift (Ret _)) _ _ _ s1) by done.
  destruct (take_hashes_unknown p (map NewValue hashes) s1 (set_catchingUp true pr)) as (s' & pr' & Hrun & Hpr' & Htd').
  { by eapply heap_upd. }
  { by apply Forall_map. }
  rewrite (st_bind_run _ _ _ _ _ Hrun). unfold FetchHashes.
  rewrite (st_bind_run get_eth _ _ s' s') by done. rewrite (st_bind_run _ _ _ _ _ (run_get_peer p pr' s' Hpr')).
  rewrite Htd'. cbn [p_td set_catchingUp]. by rewrite Htd.
Qed.

(** * Stopping the node *)

Lemma write_run p pr c msg frame s :
  heap s !! p = Some pr -> p_conn pr = Some c -> connected pr = 1 -> WriteMessage msg = Ret frame ->
  ∃ err c', write (D := D) p msg s = (Ret err, upd p (set_p_conn (Some c') pr) s).
Proof.
  intros Hpr Hc H1' Hmsg. unfold write. rewrite (st_bind_run _ _ _ _ _ (run_get_peer p pr s Hpr)), H1'.
  assert (s = upd p (set_p_conn (Some c) pr) s) as Hsame.
  { unfold upd. rewrite list_insert_id; [by destruct s|]. rewrite Hpr. f_equal. destruct pr. cbn in Hc. by subst. }
  change (negb (1 =? 1)) with false. cbn match. destruct (_ && _).
  { exists false, c. by rewrite <-Hsame. }
  rewrite Hc, Hmsg. cbn [deref]. rewrite !(st_bind_run (lift (Ret _)) _ _ _ s) by done. destruct (broken c).
  { exists true, c. by rewrite <-Hsame. }
  by exists false, (add_written frame c).
Qed.

Lemma disconnect_frame : ∃ frame, WriteMessage (NewMessage MsgDiscTy (VStr [])) = Ret frame.
Proof. eexists. vm_compute. reflexivity. Qed.

(** A connected peer is stopped and leaves the list; other peers do not change. *)
Lemma Peer_Stop_run p pr c s :
  peers_ok s -> heap s !! p = Some pr -> p_quit pr = false -> connected pr = 1 -> p_conn pr = Some c ->
  ∃ pr', Peer_Stop p s = (Ret tt, removes (λ q, (q =? p)%nat) (upd p pr' s)) ∧
    p_quit pr' = true ∧ option_map closed (p_conn pr') = Some true.
Proof.
  intros Hok Hpr Hq H1' Hc. pose proof (po_live s Hok p pr Hpr Hq) as Hd.
  unfold Peer_Stop.
  set (pr1 := set_disconnect 1 pr). set (pr2 := set_p_quit true pr1).
  rewrite (st_bind_run _ _ s 1 (upd p pr1 s)).
  2:{ unfold add_disconnect. rewrite (st_bind_run _ _ _ _ _ (run_get_peer p pr s Hpr)). by rewrite Hd. }
  change (negb (1 =? 1)) with false. cbn match.
  rewrite (st_bind_run _ _ _ _ _ (run_get_peer p pr1 (upd p pr1 s) ltac:(by eapply heap_upd))).
  cbn [p_quit pr1 set_disconnect]. rewrite Hq.
  rewrite (st_bind_run (set_peer p _) _ _ tt (upd p pr2 (upd p pr1 s))) by done. rewrite upd_upd.
  rewrite (st_bind_run _ _ _ _ _ (run_get_peer p pr2 (upd p pr2 s) ltac:(by eapply heap_upd))).
  change (connected pr2) with (connected pr). rewrite H1'. cbn match.
  destruct disconnect_frame as [frame Hframe].
  destruct (write_run p pr2 c (NewMessage MsgDiscTy (VStr [])) frame (upd p pr2 s)) as (err & c' & Hw);
    [by eapply heap_upd|done..|].
  rewrite upd_upd in Hw. set (pr3 := set_p_conn (Some c') pr2) in *.
  assert (∃ d, (if err : bool then (_ ← add_disconnect p; mret tt) else mret tt : EM unit) (upd p pr3 s)
          = (Ret tt, upd p (set_disconnect d pr3) s)) as [d Hadd].
  { destruct err; [|by exists (disconnect pr3)].
    exists (s32 (disconnect pr3 + 1)). rewrite (st_bind_run _ _ (upd p pr3 s) (s32 (disconnect pr3 + 1))
      (upd p (set_disconnect (s32 (disconnect pr3 + 1)) pr3) s)); [done|]. unfold add_disconnect.
    rewrite (st_bind_run _ _ _ _ _ (run_get_peer p pr3 (upd p pr3 s) ltac:(by eapply heap_upd))).
    by rewrite (st_bind_run (set_peer p _) _ _ tt (upd p (set_disconnect (s32 (disconnect pr3 + 1)) pr3) (upd p pr3 s))),
      upd_upd by done. }
  set (pr4 := set_disconnect d pr3) in *. exists (set_p_conn (Some (close_conn c')) pr4).
  split; [|done]. set (pr5 := set_p_conn (Some (close_conn c')) pr4).
  assert (peers_ok (upd p pr5 s)) as Hok5 by (eapply peers_ok_set; [done..|]; done).
  unfold mbind at 1, st_bind at 1. change (1 =? 0) with false. cbn match.
  rewrite (st_bind_run _ _ _ _ _ Hw), (st_bind_run _ _ _ _ _ Hadd).
  rewrite (st_bind_run _ _ _ _ _ (run_get_peer p pr4 (upd p pr4 s) ltac:(by eapply heap_upd))).
  rewrite (st_bind_run (lift (deref (p_conn pr4))) _ _ c' (upd p pr4 s)) by done.
  unfold set_peer, modify_eth. fold pr5. change (set_heap (<[p:=pr5]> (heap ?s0)) ?s0) with (upd p pr5 s0).
  rewrite upd_upd. by apply RemovePeer_run.
Qed.

(** Stopping the node disconnects one peer only.  The walk over the list ends
    when its element is taken out of the list, which is what stopping a peer
    does: the first peer is told to quit, its connection closed and its element
    removed; every other peer is left as it was, connected and in the list. *)
Theorem Eth_Stop_stops_one (s : Ethereum D) (e p : nat) (rest : list (nat * nat)) (pr : Peer) (c : Conn) :
  peers_ok s -> peers s = (e, p) :: rest -> heap s !! p = Some pr ->
  p_quit pr = false -> connected pr = 1 -> p_conn pr = Some c ->
  ∃ s' pr', Eth_Stop s = (Ret tt, s') ∧ peers s' = rest ∧
    heap s' !! p = Some pr' ∧ p_quit pr' = true ∧ option_map closed (p_conn pr') = Some true ∧
    ∀ q, q ≠ p -> heap s' !! q = heap s !! q.
Proof.
  intros Hok Hl Hpr Hq H1' Hc. destruct (Peer_Stop_run p pr c s Hok Hpr Hq H1' Hc) as (pr' & Hrun & Hq' & Hc').
  assert (removes (λ q, (q =? p)%nat) (upd p pr' s) = with_peers rest (upd p pr' s)) as Hrem.
  { unfold removes. cbn [peers upd set_heap]. rewrite Hl. cbn. by rewrite Nat.eqb_refl. }
  rewrite Hrem in Hrun. unfold Eth_Stop, eachPeer.
  rewrite (st_bind_run _ _ s tt (with_peers rest (upd p pr' s))).
  2:{ rewrite (st_bind_run get_eth _ _ s s) by done. rewrite Hl. cbn [length head each_from].
      rewrite (st_bind_run _ _ _ _ _ Hrun).
      rewrite (st_bind_run get_eth _ _ (with_peers rest (upd p pr' s)) (with_peers rest (upd p pr' s))) by done.
      cbn [peers with_peers set_events set_peers].
      pose proof (po_elements s Hok) as Hnd. rewrite Hl in Hnd. apply NoDup_cons in Hnd as [He _].
      rewrite next_of_absent by exact He. by destruct (length rest). }
  eexists _, pr'. split; [reflexivity|]. cbn. split; [done|]. split; [by eapply (heap_upd p pr)|].
  split; [done|]. split; [done|]. intros q Hne. by rewrite list_lookup_insert_ne.
Qed.
(** * Reaping *)

(** Reaping removes one dead peer at most.  However many peers have been
    stopped, only the first of the list that has been counted exactly once goes
    (the walk ends with it), and the limit on the time since the last pong is
    never met by any clock before the year 2262: five minutes are compared, as
    300 billion nanoseconds, with a number of seconds. *)
Theorem reapPeers_spec (s : Ethereum D) :
  peers_ok s -> 0 <= now s < 2 ^ 63 ->
  (∀ p pr, heap s !! p = Some pr -> 0 <= lastPong pr < 2 ^ 62) ->
  reapPeers s = (Ret tt, removes (λ p, match heap s !! p with Some pr => disconnect pr =? 1 | None => false end) s).
Proof.
  intros Hok Hnow Hpong. rewrite reapPeers_run by done. f_equal.
  assert (∀ p, dead s p = match heap s !! p with Some pr => disconnect pr =? 1 | None => false end) as Hdead.
  { intros p. unfold dead. destruct (heap s !! p) as [pr|] eqn:E; [|done]. specialize (Hpong p pr E).
    assert (0 <= unix (now s) < 9223372037).
    { unfold unix, second. split; [apply Z.div_pos; lia|]. apply Z.div_lt_upper_bound; lia. }
    rewrite s64_small by lia. unfold second. destruct (Z.ltb_spec (5 * 60 * 1000000000) (unix (now s) - lastPong pr)); [lia|].
    by rewrite andb_false_r, orb_false_r. }
  unfold removes. assert (∀ l, existsb (dead s) l = existsb (λ p, match heap s !! p with Some pr => disconnect pr =? 1 | None => false end) l) as Hex.
  { induction l as [|p l IH]; [done|]. cbn. by rewrite IH, Hdead. }
  rewrite Hex. assert (∀ l, remove_first (dead s) l = remove_first (λ p, match heap s !! p with Some pr => disconnect pr =? 1 | None => false end) l) as Hrem.
  { induction l as [|[e p] l IH]; [done|]. cbn. by rewrite IH, Hdead. }
  by rewrite Hrem.
Qed.

End Invariant.

(** * Runs *)

#[local] Existing Instances toy_crypto toy_curve list_order.

(** A node on the short chain, without peers. *)
Definition lone_node : Ethereum MemDatabase :=
  mkEthereum (node_with []) NewBlockPool [] 0 [] [] CapDefault 10 (x04 :: repeat x33 64) (asc "eth")
             (1400000100 * second) [] true [].

Definition ex_lookup (host : bytes) : error + list bytes := inr [host].
Definition ex_parse6 (s : bytes) : option (list Z) := None.
Definition ex_pick (n : nat) : nat := 0.

(** A connection from a host, and a handshake with a key. *)
Definition conn_from (a : Z) : Conn :=
  mkConn (dotted 10 0 0 1) (asc "30303") (dotted 10 0 0 a) (asc "1234") false [] false.
Definition hello (key : byte) (caps difficulty : Z) : Msg :=
  mkMsg MsgHandshakeTy (VList [VInt Kuint8 28; VBytes []; VBytes (asc "peer"); VInt Kuint8 caps; VBytes [x12; x34];
                               VBytes (repeat key 64); VBytes (big_Bytes difficulty);
                               VBytes (block_digest genesis_decoded)]).

Definition handle (p : nat) (msg : Msg) : EM unit :=
  handle_message (D := MemDatabase) ex_lookup ex_parse6 ex_pick p msg.

(** Two peers connect and shake hands. *)
Definition one_connected : Ethereum MemDatabase := (AddPeer (conn_from 2) lone_node).2.
Definition two_connected : Ethereum MemDatabase := (AddPeer (conn_from 3) one_connected).2.
Definition one_peer : Ethereum MemDatabase := (handle 0 (hello x44 0 5) two_connected).2.
Definition two_peers : Ethereum MemDatabase := (handle 1 (hello x55 0 5) one_peer).2.

Lemma two_peers_reached : rtc (node_step ex_lookup ex_parse6 ex_pick) lone_node two_peers.
Proof.
  apply (rtc_l _ _ one_connected); [eapply (step_accept _ _ _ _ _ (conn_from 2)); vm_compute; reflexivity|].
  apply (rtc_l _ _ two_connected); [eapply (step_accept _ _ _ _ _ (conn_from 3)); vm_compute; reflexivity|].
  apply (rtc_l _ _ one_peer); [eapply (step_message _ _ _ _ _ 0 (hello x44 0 5)); vm_compute; reflexivity|].
  apply rtc_once. eapply (step_message _ _ _ _ _ 1 (hello x55 0 5)). vm_compute. reflexivity.
Qed.

Lemma two_peers_ok : peers_ok two_peers.
Proof. eapply reachable_peers_ok, two_peers_reached. by apply no_peers_ok. Qed.

Lemma peer_list_invariant_witness : listed two_peers = [0; 1]%nat ∧ peers_ok two_peers.
Proof.
  split; [vm_compute; reflexivity|].
  apply (peer_list_invariant ex_lookup ex_parse6 ex_pick lone_node two_peers); [reflexivity..|].
  exact two_peers_reached.
Defined.

Lemma hashes_before_handshake_panic_witness :
  (handle_message ex_lookup ex_parse6 ex_pick 0 (mkMsg MsgBlockHashesTy (VList [])) one_connected).1 = Panic.
Proof.
  destruct (heap one_connected !! 0%nat) as [pr|] eqn:E; [|by vm_compute in E].
  apply (hashes_before_handshake_panic ex_lookup ex_parse6 ex_pick one_connected 0 pr []); [exact E| |constructor].
  vm_compute in E. by injection E as <-.
Defined.

Lemma Eth_Stop_stops_one_witness :
  ∃ s' pr', Eth_Stop two_peers = (Ret tt, s') ∧ peers s' = [(1, 1)]%nat ∧
    heap s' !! 0%nat = Some pr' ∧ p_quit pr' = true ∧ option_map closed (p_conn pr') = Some true ∧
    ∀ q, q ≠ 0%nat -> heap s' !! q = heap two_peers !! q.
Proof.
  destruct (heap two_peers !! 0%nat) as [pr|] eqn:E; [|by vm_compute in E].
  assert (p_quit pr = false ∧ connected pr = 1 ∧ is_Some (p_conn pr)) as (H1 & H2 & c & H3).
  { vm_compute in E. injection E as <-. split_and!; [reflexivity..|]. eexists. reflexivity. }
  apply (Eth_Stop_stops_one two_peers 0 0 [(1, 1)]%nat pr c two_peers_ok); [vm_compute; reflexivity|assumption..].
Defined.

(** A peer that says goodbye and then hello, in one batch: it enters the list
    after it has been stopped, the end of its handler counts it once more, and
    no reaping finds it (that looks for a count of exactly one). *)
Definition goodbye_hello : list bytes :=
  [ret_or [] (WriteMessage (mkMsg MsgDiscTy (VList [VInt Kuint8 0])));
   ret_or [] (WriteMessage (hello x66 0 5)); []].

Definition after_goodbye : Ethereum MemDatabase :=
  (HandleInbound ex_lookup ex_parse6 ex_pick [] 0 [goodbye_hello] one_connected).2.

Lemma stopped_peer_stays_listed :
  (HandleInbound ex_lookup ex_parse6 ex_pick [] 0 [goodbye_hello] one_connected).1 = Ret tt ∧
  listed after_goodbye = [0%nat] ∧
  disconnect <$> (heap after_goodbye !! 0%nat) = Some 2 ∧
  option_map closed (heap after_goodbye !! 0%nat ≫= p_conn) = Some true ∧
  reapPeers after_goodbye = (Ret tt, after_goodbye).
Proof. vm_compute. repeat split. Qed.

(** A node that is told its own key takes the peer: the key it compares with has
    one byte more. *)
Definition own_hello : Msg := hello x33 0 5.

Lemma self_connection_accepted :
  drop 1 (PublicKey one_connected) = Value_Bytes (Get (Msg_Data own_hello) 5) ∧
  (handle 0 own_hello one_connected).1 = Ret tt ∧
  listed (handle 0 own_hello one_connected).2 = [0%nat].
Proof. vm_compute. repeat split. Qed.

Lemma reapPeers_spec_witness :
  reapPeers two_peers
  = (Ret tt, removes (λ p, match heap two_peers !! p with Some pr => disconnect pr =? 1 | None => false end) two_peers).
Proof.
  assert ((0 <=? now two_peers) && (now two_peers <? 2 ^ 63) = true) as Hnow by (vm_compute; reflexivity).
  assert (forallb (λ pr, (0 <=? lastPong pr) && (lastPong pr <? 2 ^ 62)) (heap two_peers) = true) as Hall
    by (vm_compute; reflexivity).
  apply (reapPeers_spec two_peers two_peers_ok); [lia|].
  intros p pr Hp. rewrite forallb_forall in Hall.
  specialize (Hall pr (proj1 (list_elem_of_In _ _) (list_elem_of_lookup_2 _ _ _ Hp))). lia.
Defined.
