(* ===== verification/Gossip.v ===== *)
(** How a transaction gets from the pool of one node into the queue of another:
    the pool's broadcast, the output queues of the peers, the bytes of the
    connection, and the handler of the other side. *)

From S2P Require Import Prelude GoVal Big Bytes Errors Rlp Value Net Wire Db Crypto Nibbles Trie.
From S2P Require Import State Curve Transaction Block Pow Machine BlockChain Transition Core TxPool StateManager.
From S2P Require Import BlockPool Node Peer PeerSpec.

(** * What is sent *)

(** The message of a transaction, and its data as an item. *)
Definition tx_message (tx : Transaction) : Msg := NewMessage MsgTxTy (VList [tx_RlpData tx]).

Definition tx_sendable (tx : Transaction) : Prop :=
  tx_ok tx ∧ zlen (payload MsgTxTy [tx_item tx]) < 2 ^ 32.

Definition tx_frame (tx : Transaction) : bytes := frame (tx_message tx) [tx_item tx].

Lemma tx_message_sendable tx : tx_sendable tx -> sendable (tx_message tx) [tx_item tx].
Proof.
  intros [Hok Hl]. split; [done|]. split; [|done]. exists [tx_RlpData tx]. split; [done|].
  cbn [mapM]. by rewrite to_item_tx by apply Hok.
Qed.

(** A peer once a message is queued for it. *)
Definition queued (msg : Msg) (pr : Peer) : Peer :=
  if connected pr =? 1 then set_outputQueue (outputQueue pr ++ [msg]) pr else pr.

Section Sending.
Context `{Crypto} `{Secp256k1} {D : Type} `{Database D} `{MapOrder}.

Lemma QueueMessage_run p pr msg s :
  heap s !! p = Some pr -> QueueMessage (D := D) p msg s = (Ret tt, upd p (queued msg pr) s).
Proof.
  intros Hpr. unfold QueueMessage. rewrite (st_bind_run _ _ _ _ _ (run_get_peer p pr s Hpr)).
  unfold queued. destruct (connected pr =? 1); [done|].
  unfold upd. rewrite list_insert_id by done. by destruct s.
Qed.

(** A walk whose callback does not touch the list visits its elements in order. *)
Lemma eachPeer_visits cb s :
  NoDup (map fst (peers s)) -> (∀ p e s0, peers (cb p e s0).2 = peers s0) ->
  eachPeer (D := D) cb s = for_each (λ q, cb q.2 q.1) (peers s) s.
Proof.
  intros Hnd Hcb. unfold eachPeer. rewrite (st_bind_run get_eth _ s s s) by done.
  assert (∀ rest pre s0, peers s0 = peers s -> peers s = pre ++ rest ->
    each_from (length rest) (head rest) cb s0 = for_each (λ q, cb q.2 q.1) rest s0) as Hwalk.
  { induction rest as [|[e p] rest IH]; intros pre s0 Hs0 Hs; [done|].
    cbn [head length each_from for_each fst snd]. unfold mbind, st_bind.
    pose proof (Hcb p e s0) as Hc. destruct (cb p e s0) as [[[]| |] s1] eqn:E; [|done|done]. cbn in Hc.
    unfold get_eth. rewrite Hc, Hs0, Hs, next_of_at.
    - apply (IH (pre ++ [(e, p)])); [congruence|]. by rewrite Hs, <-app_assoc.
    - rewrite Hs, map_app in Hnd. apply NoDup_app in Hnd as (_ & Hpre & _). intros Hin. apply (Hpre e Hin). left. }
  by apply (Hwalk (peers s) []).
Qed.

Lemma QueueMessage_list p msg s : peers (QueueMessage (D := D) p msg s).2 = peers s.
Proof.
  unfold QueueMessage, get_peer, mbind, st_bind, get_eth, lift. destruct (heap s !! p) as [pr|]; [|done].
  cbn. by destruct (connected pr =? 1).
Qed.

(** A broadcast queues the message once for every peer of the list. *)
Lemma BroadcastMsg_run msg s :
  peers_ok s ->
  ∃ h, BroadcastMsg (D := D) msg s = (Ret tt, set_heap h s) ∧
       ∀ p, p ∈ listed s -> h !! p = queued msg <$> heap s !! p.
Proof.
  intros Hok. unfold BroadcastMsg. rewrite eachPeer_visits; [|apply Hok|intros; apply QueueMessage_list].
  assert (∀ l s0, NoDup (map snd l) -> (∀ p, p ∈ map snd l -> is_Some (heap s0 !! p)) ->
    ∃ h, for_each (λ q : nat * nat, QueueMessage (D := D) q.2 msg) l s0 = (Ret tt, set_heap h s0) ∧
         (∀ p, p ∈ map snd l -> h !! p = queued msg <$> heap s0 !! p) ∧
         ∀ p, p ∉ map snd l -> h !! p = heap s0 !! p) as Hall.
  { induction l as [|[e p] l IH]; intros s0 Hnd Hin.
    { exists (heap s0). split; [by destruct s0|]. split; [by intros p ?%elem_of_nil|done]. }
    cbn in Hnd. apply NoDup_cons in Hnd as [Hp Hnd]. destruct (Hin p) as [pr Hpr]; [left|].
    cbn [for_each snd]. rewrite (st_bind_run _ _ _ _ _ (QueueMessage_run p pr msg s0 Hpr)).
    destruct (IH (upd p (queued msg pr) s0)) as (h & Hrun & Hin' & Hout'); [done| |].
    { intros q Hq. assert (q ≠ p) by congruence. cbn. rewrite list_lookup_insert_ne by done. apply Hin. by right. }
    exists h. rewrite Hrun. split; [by destruct s0|]. split.
    - intros q. cbn [map snd]. intros [->|Hq]%elem_of_cons.
      { rewrite Hout', Hpr by done. by apply (heap_upd p pr). }
      assert (q ≠ p) by congruence. rewrite Hin' by done. cbn. by rewrite list_lookup_insert_ne.
    - intros q. cbn [map snd]. intros [Hne Hq]%not_elem_of_cons. rewrite Hout' by done. cbn. by rewrite list_lookup_insert_ne. }
  destruct (Hall (peers s) s) as (h & Hrun & Hh & _); [apply Hok| |by exists h].
  intros p Hp. destruct (po_known s Hok p Hp) as (pr & Hpr & _). by exists pr.
Qed.

(** Adding a transaction to the pool: it is in the pool, and its message waits
    for every peer of the list. *)
Lemma addTransaction_run tx s :
  peers_ok s ->
  ∃ s', on_core (D := D) (addTransaction tx) s = (Ret tt, s') ∧ peers_ok s' ∧ peers s' = peers s ∧
    k_pool (core s') = k_pool (core s) ++ [tx] ∧
    ∀ p, p ∈ listed s -> heap s' !! p = queued (tx_message tx) <$> heap s !! p.
Proof.
  intros Hok.
  set (s1 := set_events (events s ++ map ECore [Broadcast MsgTxTy [tx_RlpData tx]])
               (set_core (mkCore (k_chain (core s)) (k_pool (core s) ++ [tx]) [] (k_manager (core s)) (k_stuck (core s))) s)).
  assert (peers_ok s1) as Hok1 by by apply (peers_ok_same s).
  destruct (BroadcastMsg_run (tx_message tx) s1 Hok1) as (h & Hrun & Hh).
  assert (on_core (D := D) (addTransaction tx) s = (Ret tt, set_heap h s1)) as Hcore.
  { transitivity ((_ ← (_ ← BroadcastMsg (D := D) (tx_message tx); mret tt); mret tt : EM unit) s1); [reflexivity|].
    unfold mbind, st_bind. by rewrite Hrun. }
  exists (set_heap h s1). split; [done|]. split; [|by split].
  exact (keeps_on_core (addTransaction tx) s Hok _ _ Hcore).
Qed.

(** A list of transactions: a connected peer's queue gets their messages, in
    order. *)
Lemma addTransactions_run txs : ∀ s p pr,
  peers_ok s -> p ∈ listed s -> heap s !! p = Some pr -> connected pr = 1 ->
  ∃ s', for_each (λ tx, on_core (D := D) (addTransaction tx)) txs s = (Ret tt, s') ∧ peers_ok s' ∧
    k_pool (core s') = k_pool (core s) ++ txs ∧
    heap s' !! p = Some (set_outputQueue (outputQueue pr ++ map tx_message txs) pr).
Proof.
  induction txs as [|tx txs IH]; intros s p pr Hok Hp Hpr Hc.
  { exists s. split; [done|]. split; [done|]. rewrite !app_nil_r. split; [done|]. rewrite Hpr. by destruct pr. }
  destruct (addTransaction_run tx s Hok) as (s1 & Hrun1 & Hok1 & Hl & Hpool & Hheap).
  destruct (IH s1 p (queued (tx_message tx) pr)) as (s' & Hrun & Hok' & Hpool' & Hheap').
  - done.
  - unfold listed. by rewrite Hl.
  - by rewrite Hheap, Hpr.
  - unfold queued. by rewrite Hc.
  - exists s'. cbn [for_each map]. rewrite (st_bind_run _ _ _ _ _ Hrun1), Hrun, Hpool', Hpool, Hheap', <-app_assoc.
    split; [done|]. split; [done|]. split; [done|]. unfold queued. rewrite Hc. cbn. by rewrite <-app_assoc.
Qed.

(** The writer takes a message from the queue and puts its frame on the wire. *)
Lemma outbound_message_run p pr c msg rest bs s :
  heap s !! p = Some pr -> connected pr = 1 -> versionKnown pr = true -> p_conn pr = Some c -> broken c = false ->
  outputQueue pr = msg :: rest -> WriteMessage msg = Ret bs ->
  outbound_message (D := D) p s
  = (Ret tt, upd p (set_lastSend (now s) (set_p_conn (Some (add_written bs c)) (set_outputQueue rest pr))) s).
Proof.
  intros Hpr Hc Hv Hconn Hb Hq Hw. unfold outbound_message.
  rewrite (st_bind_run _ _ _ _ _ (run_get_peer p pr s Hpr)), Hq.
  set (pr1 := set_outputQueue rest pr). rewrite (st_bind_run (set_peer p pr1) _ s tt (upd p pr1 s)) by done.
  assert (heap (upd p pr1 s) !! p = Some pr1) as Hpr1 by by eapply heap_upd.
  set (pr2 := set_p_conn (Some (add_written bs c)) pr1).
  assert (writeMessage (D := D) p msg (upd p pr1 s) = (Ret tt, upd p pr2 s)) as Hrun.
  { unfold writeMessage. rewrite (st_bind_run _ _ _ false (upd p pr2 s)); [done|]. unfold write.
    rewrite (st_bind_run _ _ _ _ _ (run_get_peer p pr1 _ Hpr1)). cbn [pr1 connected versionKnown p_conn set_outputQueue].
    rewrite Hc, Hv, Hconn, Hw. change (negb (1 =? 1)) with false. cbn [negb andb deref]. rewrite !(st_bind_run (lift (Ret _)) _ _ _ (upd p pr1 s)) by done.
    rewrite Hb. rewrite (st_bind_run (set_peer p _) _ _ tt (upd p pr2 s)); [done|].
    unfold set_peer, modify_eth. f_equal. apply (upd_upd p pr2 pr1 s). }
  rewrite (st_bind_run _ _ _ _ _ Hrun), (st_bind_run get_eth _ _ (upd p pr2 s) (upd p pr2 s)) by done.
  rewrite (run_modify_peer p _ pr2) by by eapply heap_upd. by rewrite upd_upd.
Qed.

(** The whole queue of a peer goes out, frame after frame. *)
Lemma outbound_queue_run p txs : ∀ s pr c,
  heap s !! p = Some pr -> connected pr = 1 -> versionKnown pr = true -> p_conn pr = Some c -> broken c = false ->
  outputQueue pr = map tx_message txs -> Forall tx_sendable txs ->
  ∃ s' pr' c', for_each (λ _, outbound_message (D := D) p) txs s = (Ret tt, s') ∧
    heap s' !! p = Some pr' ∧ outputQueue pr' = [] ∧ p_conn pr' = Some c' ∧
    written c' = written c ++ map tx_frame txs.
Proof.
  induction txs as [|tx txs IH]; intros s pr c Hpr Hc Hv Hconn Hb Hq Hs.
  { exists s, pr, c. rewrite app_nil_r. by repeat split. }
  apply Forall_cons in Hs as [Htx Hs].
  assert (WriteMessage (tx_message tx) = Ret (tx_frame tx)) as Hw by by apply WriteMessage_frame, tx_message_sendable.
  pose proof (outbound_message_run p pr c (tx_message tx) (map tx_message txs) _ s Hpr Hc Hv Hconn Hb Hq Hw) as Hrun.
  edestruct (IH (upd p (set_lastSend (now s) (set_p_conn (Some (add_written (tx_frame tx) c))
                   (set_outputQueue (map tx_message txs) pr))) s)) as (s' & pr' & c' & Hrun' & H1' & H2' & H3' & H4');
    [by eapply heap_upd|done..|].
  exists s', pr', c'. cbn [for_each]. rewrite (st_bind_run _ _ _ _ _ Hrun), Hrun'.
  repeat split; [done..|]. rewrite H4'. cbn [written add_written map]. by rewrite <-app_assoc.
Qed.

End Sending.

(** * Receiving *)

Section Receiving.
Context `{Crypto} `{Secp256k1} {D : Type} `{Database D} `{MapOrder}.
Context (LookupIP : bytes -> error + list bytes) (parseIPv6 : bytes -> option (list Z)) (pick : nat -> nat).

(** The handler puts what the message holds into the queue. *)
Lemma handle_tx_message p tx s :
  tx_sendable tx ->
  handle_message (D := D) LookupIP parseIPv6 pick p (received (tx_message tx) [tx_item tx]) s
  = (Ret tt, set_txQueue (QueueTransaction (tx_wire tx) (txQueue s)) s).
Proof.
  intros [Hok _].
  transitivity (on_transactions (D := D) (received (tx_message tx) [tx_item tx]) s); [done|].
  unfold on_transactions, received. cbn [Msg_Data].
  change (VList (map of_item [tx_item tx])) with (of_item (RList [tx_item tx])).
  change (seq 0 (Z.to_nat (Value_Len (of_item (RList [tx_item tx]))))) with [0%nat]. cbn [for_each].
  get_fields. rewrite tx_decode by done. done.
Qed.

Lemma handle_tx_messages p txs : ∀ s,
  Forall tx_sendable txs ->
  for_each (handle_message (D := D) LookupIP parseIPv6 pick p) (map (λ tx, received (tx_message tx) [tx_item tx]) txs) s
  = (Ret tt, set_txQueue (txQueue s ++ map tx_wire txs) s).
Proof.
  induction txs as [|tx txs IH]; intros s Hs.
  { cbn. rewrite app_nil_r. by destruct s. }
  apply Forall_cons in Hs as [Htx Hs]. cbn [map for_each].
  rewrite (st_bind_run _ _ _ _ _ (handle_tx_message p tx s Htx)), IH by done.
  unfold QueueTransaction. cbn [txQueue set_txQueue]. by rewrite <-app_assoc.
Qed.

(** A batch of reads that hold the frames of some transactions. *)
Lemma HandleInbound_txs spare p pr txs chunks s :
  heap s !! p = Some pr -> disconnect pr = 0 -> Forall tx_sendable txs ->
  Forall (λ b, b ≠ []) chunks -> zlen (concat chunks) < 2 ^ 62 -> concat chunks = concat (map tx_frame txs) ->
  HandleInbound (D := D) LookupIP parseIPv6 pick spare p [chunks ++ [[]]] s
  = (Ret tt, set_txQueue (txQueue s ++ map tx_wire txs) s).
Proof.
  intros Hpr Hd Hs Hch Hlen Hcat. cbn [HandleInbound].
  rewrite (st_bind_run _ _ _ _ _ (run_get_peer p pr s Hpr)), Hd. change (negb (0 =? 0)) with false. cbn match.
  assert (ReadMessages spare (chunks ++ [[]]) = Ret (map (λ tx, received (tx_message tx) [tx_item tx]) txs, None)) as Hread.
  { set (sent := map (λ tx, (tx_message tx, [tx_item tx])) txs).
    assert (concat (map tx_frame txs) = concat (map (λ p, frame p.1 p.2) sent) ++ []) as E.
    { rewrite app_nil_r. unfold sent. by rewrite map_map. }
    unfold ReadMessages. rewrite (read_all_chunks _ _ Hch), Hcat, E.
    rewrite (split_messages_stream spare [] sent _ []).
    - unfold sent. rewrite map_map. done.
    - unfold sent. apply Forall_map. eapply Forall_impl; [exact Hs|]. intros tx. apply tx_message_sendable.
    - left. done.
    - by rewrite <-E, <-Hcat.
    - lia. }
  rewrite Hread. rewrite (st_bind_run (lift (Ret _)) _ s _ s) by done. cbn beta iota.
  rewrite (st_bind_run _ _ _ _ _ (handle_tx_messages p txs s Hs)).
  rewrite (st_bind_run _ _ _ _ _ (run_get_peer p pr (set_txQueue _ s) Hpr)), Hd. done.
Qed.

End Receiving.

(** * From one node to another *)

Section Gossip.
Context `{Crypto} `{Secp256k1} {D : Type} `{Database D} {D' : Type} `{Database D'} `{MapOrder}.
Context (LookupIP : bytes -> error + list bytes) (parseIPv6 : bytes -> option (list Z)) (pick : nat -> nat).

Lemma tx_frames_length txs :
  Forall tx_sendable txs -> zlen txs < 2 ^ 29 -> zlen (concat (map tx_frame txs)) < 2 ^ 62.
Proof.
  intros Hs Hl. enough (zlen (concat (map tx_frame txs)) <= 4294967304 * zlen txs) as Hsum.
  { revert Hsum Hl. generalize (zlen (concat (map tx_frame txs))), (zlen txs). clear. intros; lia. }
  clear Hl. induction Hs as [|tx txs [_ Htx] _ IH]; [done|]. cbn [map concat].
  assert (zlen (tx_frame tx) = 8 + zlen (payload MsgTxTy [tx_item tx])) 
    by exact (frame_length (tx_message tx) [tx_item tx]).
  lenlia.
Qed.

(** C7. A transaction that enters the pool of one node reaches the queue of the next.
    Node A adds transactions to its pool one after the other; the broadcast of
    each goes to the output queue of every peer in the list, so a connected peer
    with an empty queue gets one message each, in order; its writer puts one
    frame for each message on the connection.  However these bytes are cut into
    pieces on their way, the handler of a peer of node B that is not
    disconnected reads them all and appends the transactions, each once and in
    the order in which A's pool took them, to the queue of B's pool: as they
    look after decoding, with the same hash; nothing else of B changes. *)
Theorem transactions_are_gossiped (txs : list Transaction)
    (sA : Ethereum D) (pa : nat) (prA : Peer) (c : Conn) (sB : Ethereum D') (pb : nat) (prB : Peer) :
  peers_ok sA -> pa ∈ listed sA -> heap sA !! pa = Some prA -> connected prA = 1 -> outputQueue prA = [] ->
  p_conn prA = Some c -> broken c = false -> Forall tx_sendable txs -> zlen txs < 2 ^ 29 ->
  heap sB !! pb = Some prB -> disconnect prB = 0 ->
  ∃ sA1 sA2 prA' c' frames,
    for_each (λ tx, on_core (addTransaction tx)) txs sA = (Ret tt, sA1) ∧
    k_pool (core sA1) = k_pool (core sA) ++ txs ∧
    for_each (λ _, outbound_message pa) txs sA1 = (Ret tt, sA2) ∧
    heap sA2 !! pa = Some prA' ∧ outputQueue prA' = [] ∧
    p_conn prA' = Some c' ∧ written c' = written c ++ frames ∧
    map tx_Hash (map tx_wire txs) = map tx_Hash txs ∧
    ∀ spare chunks, Forall (λ b, b ≠ []) chunks -> concat chunks = concat frames ->
      HandleInbound LookupIP parseIPv6 pick spare pb [chunks ++ [[]]] sB
      = (Ret tt, set_txQueue (txQueue sB ++ map tx_wire txs) sB).
Proof.
  intros Hok Hpa HprA Hc Hq Hconn Hb Hs Hlen HprB Hd.
  destruct (addTransactions_run txs sA pa prA Hok Hpa HprA Hc) as (sA1 & Hrun1 & Hok1 & Hpool & Hheap1).
  rewrite Hq in Hheap1. cbn [app] in Hheap1.
  assert (versionKnown prA = true) as Hv by (destruct (po_known sA Hok pa Hpa) as (? & ? & ? & _); by simplify_eq).
  destruct (outbound_queue_run pa txs sA1 _ c Hheap1 Hc Hv Hconn Hb eq_refl Hs)
    as (sA2 & prA' & c' & Hrun2 & Hheap2 & Hq' & Hconn' & Hw).
  exists sA1, sA2, prA', c', (map tx_frame txs). do 7 (split; [done|]). split.
  { rewrite map_map. apply map_ext. apply tx_Hash_wire. }
  intros spare chunks Hch Hcat. eapply HandleInbound_txs; try done. rewrite Hcat. by apply tx_frames_length.
Qed.

End Gossip.

(** ** A run *)

#[local] Existing Instances toy_crypto toy_curve list_order.

(** The node with two peers, once the queue of the first one has been written. *)
Definition idle : Ethereum MemDatabase := (for_each (λ _, outbound_message 0) [1; 2] two_peers).2.
Definition example_txs : list Transaction := [free_tx 500; free_tx 700].

Lemma sending_ok (l : list Z) : ∀ s : Ethereum MemDatabase,
  peers_ok s -> (for_each (λ _, outbound_message 0) l s).1 = Ret tt ->
  peers_ok (for_each (λ _, outbound_message 0) l s).2.
Proof.
  induction l as [|n l IH]; intros s Hok; [done|]. cbn [for_each].
  unfold mbind, st_bind. destruct (outbound_message 0 s) as [[[]| |] s1] eqn:E; [|done|done].
  apply IH. eapply (node_step_ok ex_lookup ex_parse6 ex_pick); [exact Hok|]. by eapply step_write.
Qed.

Lemma idle_ok : peers_ok idle.
Proof. apply sending_ok; [exact two_peers_ok|]. vm_compute. reflexivity. Qed.

Lemma transactions_are_gossiped_witness :
  ∃ sA1 sA2 prA' c' frames,
    for_each (λ tx, on_core (addTransaction tx)) example_txs idle = (Ret tt, sA1) ∧
    for_each (λ _, outbound_message 0) example_txs sA1 = (Ret tt, sA2) ∧
    heap sA2 !! 0%nat = Some prA' ∧ p_conn prA' = Some c' ∧
    written c' = (match heap idle !! 0%nat ≫= p_conn with Some c => written c | None => [] end) ++ frames ∧
    ∀ chunks, Forall (λ b, b ≠ []) chunks -> concat chunks = concat frames ->
      HandleInbound ex_lookup ex_parse6 ex_pick [] 1 [chunks ++ [[]]] two_peers
      = (Ret tt, set_txQueue (map tx_wire example_txs) two_peers).
Proof.
  destruct (heap idle !! 0%nat) as [prA|] eqn:EA; [|by vm_compute in EA].
  destruct (heap two_peers !! 1%nat) as [prB|] eqn:EB; [|by vm_compute in EB].
  destruct (p_conn prA) as [c|] eqn:Ec; [|by vm_compute in EA; injection EA as <-].
  assert (connected prA = 1 ∧ outputQueue prA = [] ∧ broken c = false) as (H1 & H2 & H3).
  { vm_compute in EA. injection EA as <-. injection Ec as <-. repeat split. }
  assert (disconnect prB = 0) as H4 by (vm_compute in EB; injection EB as <-; reflexivity).
  destruct (transactions_are_gossiped ex_lookup ex_parse6 ex_pick example_txs idle 0 prA c two_peers 1 prB idle_ok)
    as (sA1 & sA2 & prA' & c' & frames & R1 & _ & R2 & R3 & _ & R4 & R5 & _ & R6); try assumption.
  - vm_compute. left.
  - repeat constructor; vm_compute; congruence.
  - reflexivity.
  - exists sA1, sA2, prA', c', frames. cbn [mbind option_bind]. rewrite Ec. do 5 (split; [assumption|]).
    intros chunks Hch Hcat. exact (R6 [] chunks Hch Hcat).
Defined.
