(* ===== verification/StateSpec.v ===== *)
(** What the world state of [State] guarantees: the encoding of accounts, the
    isolation of a copy, and that an account written to the state trie is read
    back, code included. *)

From S2P Require Import Prelude GoVal Big Bytes Errors Rlp Value Db Crypto Nibbles Trie TrieSpec.
From S2P Require Import State Curve Transaction Block TrieRoot.

#[export] Instance world_hashing D : Hashing (World D) := λ w, e_hashed (w_env w).

(** * The encoding of an account *)

Section Encoding.
Context `{HC : Crypto} {D : Type} `{HD : Database D}.

(** An account that can be encoded. *)
Definition object_ok (o : StateObject) : Prop :=
  0 <= Nonce o < 2 ^ 63 ∧ 0 <= Balance o ∧ root_ok (tr_Root (so_Trie o)).

Definition object_item (o : StateObject) : item :=
  RList [RStr (big_Bytes (Nonce o)); RStr (big_Bytes (Balance o));
         RStr (Value_Bytes (tr_Root (so_Trie o))); RStr (Sha3Bin (Code o))].

Lemma to_item_object o :
  object_ok o ->
  to_item (VList [VInt Kuint64 (Nonce o); VBig (Balance o); tr_Root (so_Trie o);
                  VBytes (Sha3Bin (Code o))]) = Some (object_item o).
Proof.
  intros (Hn & Hb & Hr). rewrite to_item_list. cbn [mapM]. rewrite (to_item_root _ Hr). simpl.
  by rewrite s64_small by lia.
Qed.

Lemma object_encoding o : object_ok o -> StateObject_RlpEncode o = enc (object_item o).
Proof. intros Ho. apply Encode_item. by apply to_item_object. Qed.

Lemma of_str_sha b : of_str (Sha3Bin b) = VBytes (Sha3Bin b).
Proof.
  pose proof (Sha3Bin_len b). destruct (Sha3Bin b) as [|x [|y l]]; [done| |done].
  rewrite zlen_cons in *. lenlia.
Qed.

(** What is read back: a new trie object at the same root, and empty caches. *)
Definition object_read (addr : bytes) (o : StateObject) : StateObject :=
  mkObject addr (Balance o) (Sha3Bin (Code o)) (Nonce o)
           (Trie_New (VBytes (Value_Bytes (tr_Root (so_Trie o))))) (Code o) [] ∅ 0 false.

Lemma object_decode (e : Env D) addr o :
  object_ok o -> zlen (enc (object_item o)) < 2 ^ 64 ->
  db_data (e_db e) (Sha3Bin (Code o)) = Code o ->
  NewStateObjectFromBytes e addr (enc (object_item o)) = Ret (object_read addr o).
Proof.
  intros Ho Hl Hc. pose proof Ho as (Hn & Hb & Hr).
  unfold NewStateObjectFromBytes, StateObject_RlpDecode.
  rewrite NewValueFromBytes_enc by done. cbn [mbind outcome_bind].
  unfold object_item. get_fields. cbn [of_item]. unfold Value_Interface, object_read.
  rewrite BigInt_big, Uint_big, (of_str_root _ Hr), of_str_sha by lia. cbn [Value_Bytes].
  by rewrite Hc.
Qed.

Lemma object_item_len o : object_ok o -> Balance o < 2 ^ 256 -> zlen (enc (object_item o)) < 2 ^ 64.
Proof.
  intros (Hn & Hb & (r & Hr & Hlen)) Hb256. unfold object_item. rewrite enc_list.
  assert (zlen (big_Bytes (Nonce o)) <= 8).
  { apply Bytes_len_le; [lia|]. change (256 ^ 8) with (2 ^ 64). lia. }
  assert (zlen (big_Bytes (Balance o)) <= 32).
  { apply Bytes_len_le; [lia|]. change (256 ^ 32) with (2 ^ 256). lia. }
  assert (zlen (Value_Bytes (tr_Root (so_Trie o))) <= 32).
  { destruct Hr as [-> | ->]; cbn [Value_Bytes]; destruct Hlen as [->|]; [done|lia|done|lia]. }
  pose proof (Sha3Bin_len (Code o)).
  pose proof (encode_bytes_le (big_Bytes (Nonce o)) ltac:(lia)).
  pose proof (encode_bytes_le (big_Bytes (Balance o)) ltac:(lia)).
  pose proof (encode_bytes_le (Value_Bytes (tr_Root (so_Trie o))) ltac:(lia)).
  assert (zlen (encode_bytes (Sha3Bin (Code o))) <= 41) by (rewrite encode_bytes_le; lia).
  cbn [map concat enc]. set (c := encode_bytes _ ++ _).
  assert (zlen c < 200) by (unfold c; lenlia).
  pose proof (header_le (zlen c) ltac:(lenlia)). lenlia.
Qed.

End Encoding.

(** * Copies *)

Section Copy.
Context `{HC : Crypto} {D : Type} `{HD : Database D} `{HM : MapOrder}.

(** Every pointer of the state is to an allocated object. *)
Definition pointers_ok (w : World D) : Prop :=
  ∀ a p, stateObjects (w_state w) !! a = Some p -> is_Some (w_heap w !! p).

Lemma copy_loop (l : list (bytes * nat)) : ∀ w : World D,
  (∀ kv, kv ∈ l -> is_Some (w_heap w !! kv.2)) ->
  ∃ os, Forall2 (λ kv o, w_heap w !! kv.2 = Some o) l os ∧
    for_collect copy_object l w =
    (Ret (imap (λ i kv, (kv.1, (length (w_heap w) + i)%nat)) l),
     mkWorld (w_env w) (w_heap w ++ map StateObject_Copy os) (w_state w)).
Proof.
  induction l as [|[a p] l IH]; intros w Hl.
  - exists []. split; [constructor|]. cbn. rewrite app_nil_r. by destruct w.
  - destruct (Hl (a, p)) as [o Ho]; [by left|]. cbn [snd] in Ho.
    set (w1 := mkWorld (w_env w) (w_heap w ++ [StateObject_Copy o]) (w_state w)).
    destruct (IH w1) as (os & Hos & Hrun).
    { intros kv Hkv. destruct (Hl kv) as [x Hx]; [by right|]. exists x. cbn.
      by apply lookup_app_l_Some. }
    exists (o :: os). split.
    { constructor; [done|]. rewrite Forall2_lookup in Hos |- *. intros i. specialize (Hos i).
      destruct (l !! i) as [kv|] eqn:E; [|inversion Hos; constructor].
      destruct (Hl kv) as [x Hx]; [right; by eapply list_elem_of_lookup_2|].
      inversion Hos as [? y Hy|]; subst. constructor. cbn in Hy.
      rewrite lookup_app_l in Hy by (by eapply lookup_lt_Some). done. }
    cbn [for_collect].
    rewrite (st_bind_run _ _ w [(a, length (w_heap w))] w1).
    2:{ unfold copy_object. rewrite (st_bind_run _ _ w o w); [done|].
        unfold get_object. cbn [snd]. by rewrite Ho. }
    erewrite st_bind_run by exact Hrun. cbn [w_env w_heap w_state w1 mret st_ret].
    unfold mret, st_ret. rewrite <-app_assoc. cbn [map app imap].
    f_equal. f_equal. f_equal; [by rewrite Nat.add_0_r|].
    apply imap_ext. intros i kv _. cbn. rewrite length_app. cbn. f_equal. lia.
Qed.

Lemma imap_fst_lookup (l : list (bytes * nat)) (f : nat -> nat) a n :
  NoDup l.*1 -> list_to_map (M := gmap bytes nat) (imap (λ i kv, (kv.1, f i)) l) !! a = Some n ->
  ∃ i p, l !! i = Some (a, p) ∧ n = f i.
Proof.
  intros _ Hn%elem_of_list_to_map_2. apply elem_of_lookup_imap in Hn as (i & [k p] & [= -> ->] & Hi).
  eauto.
Qed.

Lemma State_Copy_run (w : World D) :
  pointers_ok w ->
  ∃ s' news, State_Copy w = (Ret s', mkWorld (w_env w) (w_heap w ++ news) (w_state w)).
Proof.
  intros Hp. destruct (copy_loop (map_order (stateObjects (w_state w))) w) as (os & _ & Hrun).
  { intros [a p] Hkv. apply (Hp a). rewrite map_order_perm in Hkv. by apply elem_of_map_to_list. }
  do 2 eexists. unfold State_Copy. rewrite (st_bind_run _ _ w (w_state w) w) by done.
  erewrite st_bind_run by exact Hrun. done.
Qed.

(** C33. A copy of the state is isolated: it has the same root, the same
    addresses, and for each of them a new object (no pointer into the old
    heap) that is a copy of the original, so that no change to the objects of
    either can be seen in the other; the original state, its objects and the
    database are left as they were. *)
Theorem State_Copy_isolated (w : World D) :
  pointers_ok w ->
  ∃ s' news, State_Copy w = (Ret s', mkWorld (w_env w) (w_heap w ++ news) (w_state w)) ∧
    tr_Root (s_Trie s') = tr_Root (s_Trie (w_state w)) ∧
    s_manifest s' = NewManifest ∧
    dom (stateObjects s') = dom (stateObjects (w_state w)) ∧
    ∀ a p', stateObjects s' !! a = Some p' ->
      (length (w_heap w) <= p')%nat ∧
      ∃ p o, stateObjects (w_state w) !! a = Some p ∧ w_heap w !! p = Some o ∧
             (w_heap w ++ news) !! p' = Some (StateObject_Copy o).
Proof.
  intros Hp. set (m := stateObjects (w_state w)) in *. set (l := map_order m).
  assert (l ≡ₚ map_to_list m) as Hperm by apply map_order_perm.
  assert (NoDup l.*1) as Hnd by (rewrite Hperm; apply NoDup_fst_map_to_list).
  assert (∀ kv, kv ∈ l <-> m !! kv.1 = Some kv.2) as Hin.
  { intros [a p]. rewrite Hperm. apply elem_of_map_to_list. }
  destruct (copy_loop l w) as (os & Hos & Hrun).
  { intros kv Hkv%Hin. by eapply Hp. }
  set (s' := mkState (Trie_Copy (s_Trie (w_state w)))
    (list_to_map (imap (λ i kv, (kv.1, (length (w_heap w) + i)%nat)) l)) NewManifest).
  exists s', (map StateObject_Copy os). split.
  { unfold State_Copy. rewrite (st_bind_run _ _ w (w_state w) w) by done.
    erewrite st_bind_run by exact Hrun. done. }
  split; [apply copyRoot_eq|]. split; [done|]. split.
  - apply set_eq. intros a. cbn [s' stateObjects]. rewrite dom_list_to_map_L, elem_of_dom.
    rewrite elem_of_list_to_set, list_elem_of_fmap. split.
    + intros ([k n] & -> & (i & [k' p] & [= -> ->] & Hi)%elem_of_lookup_imap).
      exists p. apply (Hin (k', p)). by eapply list_elem_of_lookup_2.
    + intros [p Hpa]. apply (Hin (a, p)), list_elem_of_lookup in Hpa as [i Hi].
      exists (a, (length (w_heap w) + i)%nat). split; [done|].
      apply elem_of_lookup_imap. by exists i, (a, p).
  - intros a p' Ha. apply (imap_fst_lookup _ (λ i, (length (w_heap w) + i)%nat)) in Ha
      as (i & p & Hi & ->); [|done].
    split; [lia|]. destruct (Forall2_lookup_l _ _ _ _ _ Hos Hi) as (o & Ho & Hpo). cbn in Hpo.
    exists p, o. split; [by apply (Hin (a, p)), (list_elem_of_lookup_2 _ i)|]. split; [done|].
    rewrite lookup_app_r by lia. replace (_ + i - _)%nat with i by lia.
    by rewrite list_lookup_fmap, Ho.
Qed.

End Copy.

(** * Accounts in the state trie *)

Section Accounts.
Context `{HC : Crypto} {D : Type} `{HD : Database D} `{HL : !DatabaseLaws D}.

(** The trie operations only read the database. *)
Definition keeps_db {A} (m : TrieM (D := D) A) : Prop := ∀ te, e_db (m te).2.2 = e_db te.2.

Lemma keeps_db_bind {A B} (m : TrieM (D := D) A) (f : A -> TrieM (D := D) B) :
  keeps_db m -> (∀ a, keeps_db (f a)) -> keeps_db (m ≫= f).
Proof.
  intros Hm Hf te. unfold mbind, st_bind. specialize (Hm te).
  destruct (m te) as [[a| |] te']; [|done|done]. cbn in *. by rewrite Hf, Hm.
Qed.

Lemma keeps_db_run {A} (m : TM D A) : tame m -> keeps_db (run m).
Proof.
  intros [_ Hm] [t e]. unfold run. specialize (Hm (mkStore (tr_cache t) e)).
  by destruct (m _) as [o s].
Qed.

Lemma keeps_db_Update key w : keeps_db (Update key w).
Proof.
  unfold Update. apply keeps_db_bind; [by intros ?|]. intros r.
  apply keeps_db_bind; [apply keeps_db_run, tame_InsertState|]. intros v.
  apply keeps_db_bind; [|by intros ? [??]]. apply keeps_db_run.
  unfold root_type. case_match; apply tame_PutValue || apply tame_ret.
Qed.

Lemma keeps_db_Get key : keeps_db (Trie_Get key).
Proof.
  unfold Trie_Get. apply keeps_db_bind; [by intros ?|]. intros r.
  apply keeps_db_bind; [apply keeps_db_run, tame_getState|by intros ? ?].
Qed.

(** Storing a byte string under its digest does not disturb a trie. *)
Lemma trie_ok_put t (e : Env D) M M0 code :
  trie_ok (t, e) M M0 -> collision_free (code :: e_hashed e) ->
  trie_ok (t, mkEnv (db_Put (e_db e) (Sha3Bin code) code) (code :: e_hashed e)) M M0.
Proof.
  intros (S & S0 & [Hh Hs Hd] & HM & Hsub & Hdur & H0) [Hcf _].
  assert (∀ h it, S !! h = Some it ->
    db_data (e_db e) h = enc it -> db_data (db_Put (e_db e) (Sha3Bin code) code) h = enc it) as Hput.
  { intros h it Hit Hdb. destruct (decide (Sha3Bin code = h)) as [<-|Hne].
    - rewrite db_get_put_eq. destruct (Hh _ _ Hit) as (Heq & _ & Hin).
      apply Hcf; [by left|by right|done].
    - by rewrite db_get_put_ne. }
  exists S, S0. split; [split|].
  - intros h it Hit. destruct (Hh h it Hit) as (? & ? & ?). repeat split; [done|done|by right].
  - intros h it Hit. specialize (Hs h it Hit). unfold stored, cached, disk in *. cbn in *.
    destruct (nodes (tr_cache t) !! h) as [n|]; [|by apply Hput].
    destruct Hs as [Hv Hdisk]. split; [done|]. intros Hn. apply Hput; auto.
  - intros h n Hn Hdirty. destruct (Hd h n Hn Hdirty) as (? & ? & ?). repeat split; [done|by right|done].
  - split; [done|]. split; [done|]. split; [|done]. intros h it Hit. cbn.
    apply Hput; [by eapply lookup_weaken|by apply Hdur].
Qed.

(** The state trie of a world holds the content [M], and [M0] once synced. *)
Definition state_holds (w : World D) (M M0 : gmap bytes bytes) : Prop :=
  trie_ok (s_Trie (w_state w), w_env w) M M0.

Lemma grows_on_state_trie {A} (m : TrieM (D := D) A) : grows m -> grows (on_state_trie m).
Proof.
  intros Hm w. unfold on_state_trie, get_state, get_env, mbind, st_bind. cbn.
  specialize (Hm (s_Trie (w_state w), w_env w)). by destruct (m _) as [o [t e]].
Qed.

Lemma on_state_trie_wp {A} (m : TrieM (D := D) A) (Q : A -> World D -> Prop) w :
  hwp m (λ a te, Q a (mkWorld te.2 (w_heap w) (set_s_Trie te.1 (w_state w)))) 
    (s_Trie (w_state w), w_env w) ->
  hwp (on_state_trie m) Q w.
Proof.
  unfold hwp, on_state_trie, get_state, get_env, mbind, st_bind. cbn.
  destruct (m _) as [o [t e]]. cbn. intros Hm Hc. by apply Hm.
Qed.

Lemma hwp_keeps_db {A} (m : TrieM (D := D) A) Q te :
  keeps_db m -> hwp m (λ a te', e_db te'.2 = e_db te.2 -> Q a te') te -> hwp m Q te.
Proof. intros Hdb Hm Hc. destruct (Hm Hc) as (a & Ha & Hq). eauto. Qed.

Lemma UpdateStateObject_ok (w : World D) M M0 loc o :
  w_heap w !! loc = Some o -> object_ok o -> Balance o < 2 ^ 256 -> state_holds w M M0 ->
  hwp (UpdateStateObject loc)
    (λ _ w', state_holds w' (<[so_address o := enc (object_item o)]> M) M0 ∧
             db_data (e_db (w_env w')) (Sha3Bin (Code o)) = Code o ∧
             w_heap w' = w_heap w ∧ stateObjects (w_state w') = stateObjects (w_state w)) w.
Proof.
  intros Hloc Ho Hb Hw. unfold UpdateStateObject.
  set (e' := mkEnv (db_Put (e_db (w_env w)) (Sha3Bin (Code o)) (Code o))
                   (Code o :: e_hashed (w_env w))).
  eapply (hwp_run (get_object loc)); [unfold get_object; by rewrite Hloc|].
  eapply (hwp_run get_env); [done|]. eapply (hwp_run (put_env e')); [done|].
  rewrite (object_encoding o Ho).
  apply on_state_trie_wp. apply hwp_assume; [apply grows_Update|]. intros Hc.
  apply hwp_keeps_db; [apply keeps_db_Update|].
  eapply hwp_mono; [|apply Update_ok].
  - intros [] te Hte Hdb. cbn in *. split; [by destruct te|].
    split; [rewrite Hdb; apply db_get_put_eq|done].
  - by apply trie_ok_put.
  - apply enc_list_storable. apply object_item_len; done.
Qed.

(** Reading an account that is not among the state's objects. *)
Lemma GetStateObject_stored (w : World D) M M0 addr o :
  state_holds w M M0 -> stateObjects (w_state w) !! Address addr = None ->
  content M (Address addr) = enc (object_item o) -> object_ok o -> Balance o < 2 ^ 256 ->
  db_data (e_db (w_env w)) (Sha3Bin (Code o)) = Code o ->
  hwp (GetStateObject addr)
    (λ p w', ∃ l, p = Some l ∧ w_heap w' !! l = Some (object_read (Address addr) o)) w.
Proof.
  intros Hw Hnone Hcont Ho Hb Hcode. unfold GetStateObject.
  eapply (hwp_run get_state); [done|]. rewrite Hnone.
  apply hwp_bind.
  { intros data. case_match; [by intros ? ?|]. apply grows_bind; [by intros ? ?|]. intros e.
    apply grows_bind; [apply grows_lift|]. intros x. apply grows_bind; [by intros ? ?|]. intros l.
    apply grows_bind; [by intros ? ?|]. intros s. apply grows_bind; [by intros ? ?|by intros ? ? ?]. }
  apply on_state_trie_wp. apply hwp_keeps_db; [apply keeps_db_Get|].
  eapply hwp_mono; [|by apply Get_ok]. intros v te [-> Hte] Hdb. rewrite Hcont. cbn in Hdb.
  pose proof (enc_pos (object_item o)).
  destruct (Z.eqb_spec (zlen (enc (object_item o))) 0); [lia|].
  intros _. unfold mbind, st_bind, get_env, lift, new_object, get_state, put_state, mret, st_ret.
  cbn [w_env w_heap w_state].
  rewrite object_decode; [|done|by apply object_item_len|by rewrite Hdb].
  eexists. split; [done|]. eexists. split; [done|]. cbn. by rewrite list_lookup_middle.
Qed.

Lemma grows_UpdateStateObject loc : grows (UpdateStateObject (D := D) loc).
Proof.
  unfold UpdateStateObject. apply grows_bind; [unfold get_object; intros w; by case_match|].
  intros o w. unfold mbind, st_bind, get_env, put_env. cbn.
  etrans; [|apply grows_on_state_trie, grows_Update]. cbn. set_solver.
Qed.

Lemma grows_GetStateObject addr : grows (GetStateObject (D := D) addr).
Proof.
  unfold GetStateObject. apply grows_bind; [by intros ? ?|]. intros s. case_match; [by intros ? ?|].
  apply grows_bind; [apply grows_on_state_trie, grows_Trie_Get|].
  intros data. case_match; [by intros ? ?|]. apply grows_bind; [by intros ? ?|]. intros e.
  apply grows_bind; [apply grows_lift|]. intros x. apply grows_bind; [by intros ? ?|]. intros l.
  apply grows_bind; [by intros ? ?|]. intros s'. apply grows_bind; [by intros ? ?|by intros ? ? ?].
Qed.

(** C30. An account survives the state: writing an account to the state trie,
    dropping the objects in memory and looking the address up again gives an
    object with the same balance, nonce, code and storage root (read through
    the code's hash and the trie).  The account has an address of 20 bytes, a
    nonce below 2^63 (a larger one is written as another number), a balance of at
    least zero and below 2^256, and a storage root that is empty or a hash; the
    state trie is one that represents a map of contents over the database, which
    is so after any sequence of updates, syncs, undos and restarts; and the hash
    function does not collide on what the run hashes. *)
Theorem account_persists (w : World D) (M M0 : gmap bytes bytes) (loc : nat) (o : StateObject) :
  w_heap w !! loc = Some o -> object_ok o -> Balance o < 2 ^ 256 -> zlen (so_address o) = 20 ->
  state_holds w M M0 ->
  let r := (_ ← UpdateStateObject loc; _ ← State_Empty; GetStateObject (so_address o)) w in
  collision_free (e_hashed (w_env r.2)) ->
  ∃ l, r.1 = Ret (Some l) ∧ w_heap r.2 !! l = Some (object_read (so_address o) o).
Proof.
  intros Hloc Ho Hb Haddr Hw r Hc.
  assert (hwp (_ ← UpdateStateObject loc; _ ← State_Empty; GetStateObject (so_address o))
            (λ p w', ∃ l, p = Some l ∧ w_heap w' !! l = Some (object_read (so_address o) o)) w) as H.
  - apply hwp_bind; [intros u; apply grows_bind; [by intros ? ?|intros; apply grows_GetStateObject]|].
    eapply hwp_mono; [|by apply (UpdateStateObject_ok w M M0 loc o)].
    intros [] w1 (Hw1 & Hcode & _ & _). eapply (hwp_run State_Empty); [done|].
    match goal with |- hwp _ _ ?w2 =>
      pose proof (GetStateObject_stored w2 (<[so_address o := enc (object_item o)]> M) M0 (so_address o) o) as HG
    end.
    rewrite (Address_id (so_address o)) in HG by done. apply HG; try done.
    unfold content. by rewrite lookup_insert_eq.
  - destruct (H Hc) as (p & Hp & l & -> & Hl). by exists l.
Qed.

End Accounts.

(** ** Runs *)

#[local] Existing Instance toy_crypto.
#[local] Existing Instance list_order.

Definition example_account : StateObject :=
  set_Nonce 3 (set_Code [x60; x01; x00] (set_Balance 1000 (NewStateObject [x2a]))).

Definition example_world : World MemDatabase :=
  mkWorld (mkEnv NewMemDatabase []) [example_account]
    (set_objects {[ Address [x2a] := 0%nat ]} (State_New (Trie_New (VStr [])))).

Lemma example_account_ok : object_ok example_account.
Proof. split; [done|]. split; [done|]. exists []. auto. Qed.

Lemma State_Copy_isolated_witness :
  ∃ s' news, State_Copy example_world
      = (Ret s', mkWorld (w_env example_world) (w_heap example_world ++ news) (w_state example_world)) ∧
    tr_Root (s_Trie s') = tr_Root (s_Trie (w_state example_world)) ∧
    s_manifest s' = NewManifest ∧
    dom (stateObjects s') = dom (stateObjects (w_state example_world)) ∧
    ∀ a p', stateObjects s' !! a = Some p' ->
      (length (w_heap example_world) <= p')%nat ∧
      ∃ p o, stateObjects (w_state example_world) !! a = Some p ∧ w_heap example_world !! p = Some o ∧
             (w_heap example_world ++ news) !! p' = Some (StateObject_Copy o).
Proof.
  apply (State_Copy_isolated example_world). intros a p. cbn.
  intros [<- <-]%lookup_singleton_Some. by eexists.
Defined.

Lemma account_persists_witness :
  let r := (_ ← UpdateStateObject 0; _ ← State_Empty; GetStateObject (so_address example_account))
             example_world in
  ∃ l, r.1 = Ret (Some l) ∧
       w_heap r.2 !! l = Some (object_read (so_address example_account) example_account).
Proof.
  cbn zeta. apply (account_persists example_world ∅ ∅ 0 example_account).
  - reflexivity.
  - exact example_account_ok.
  - reflexivity.
  - reflexivity.
  - apply New_ok.
  - apply cf_check_ok. vm_compute. reflexivity.
Defined.
