(* ===== verification/TransitionSpec.v ===== *)
(** What applying a transaction does ([Transition]): the exact effect of a
    transfer, the rejections of the check, the bound on the gas, termination,
    and runs that show where gas and refunds go when the code fails. *)

From S2P Require Import Prelude GoVal Big Bytes Errors Rlp Value Db Crypto Nibbles Trie TrieSpec.
From S2P Require Import State StateSpec Machine Vm VmSpec Curve Transaction Block Transition.

Section Runs.
Context `{HC : Crypto} `{HS : Secp256k1} {D : Type} `{HD : Database D} `{HM : MapOrder}.

(** * Single operations on a world with an explicit heap *)

Lemma insert_alter_list (f : StateObject -> StateObject) (h : list StateObject) i o :
  h !! i = Some o -> <[i := f o]> h = alter f i h.
Proof.
  intros Ho. pose proof (lookup_lt_Some _ _ _ Ho). apply list_eq. intros l.
  destruct (decide (l = i)) as [->|Hne].
  - by rewrite list_lookup_insert_eq, list_lookup_alter_eq, Ho.
  - by rewrite list_lookup_insert_ne, list_lookup_alter_ne.
Qed.

Lemma lookup_alter_list (f : StateObject -> StateObject) (h : list StateObject) i l :
  alter f i h !! l = if decide (l = i) then f <$> h !! l else h !! l.
Proof.
  case_decide as Hl; [subst l; apply list_lookup_alter_eq|by apply list_lookup_alter_ne].
Qed.

(** The second heap has the addresses and the code of the first. *)
Definition same_code (h h' : list StateObject) : Prop := ∀ l o o',
  h !! l = Some o -> h' !! l = Some o' -> so_address o' = so_address o ∧ Code o' = Code o.

Lemma same_code_refl h : same_code h h.
Proof. intros l o o' -> [= ->]. done. Qed.

Lemma same_code_alter f i h h' :
  (∀ o, so_address (f o) = so_address o ∧ Code (f o) = Code o) ->
  same_code h h' -> same_code h (alter f i h').
Proof.
  intros Hf Hs l o o' Ho. destruct (decide (l = i)) as [->|Hne].
  - rewrite list_lookup_alter_eq. intros (x & Hx & ->)%fmap_Some.
    destruct (Hf x) as [-> ->]. by apply (Hs i).
  - rewrite list_lookup_alter_ne by done. by apply Hs.
Qed.

Lemma same_code_app h h' news : length h' = length h -> same_code h h' -> same_code h (h' ++ news).
Proof.
  intros Hlen Hs l o o' Ho. pose proof (lookup_lt_Some _ _ _ Ho).
  rewrite lookup_app_l by lia. by apply Hs.
Qed.

Definition vworld (e : Env D) (b : bool) (h : list StateObject) (s : State) : VWorld D :=
  mkVWorld (mkWorld e h s) b.

Section World.
Variables (e : Env D) (b : bool).
Notation V := (vworld e b).

Lemma twp_get_st Q T w : Q T (T, w) -> twp (get_st (D := D)) Q (T, w).
Proof. intros HQ. by exists T, (T, w). Qed.

Lemma twp_put_st f Q T w : Q tt (f T, w) -> twp (put_st (D := D) f) Q (T, w).
Proof. intros HQ. by exists tt, (f T, w). Qed.

Lemma twp_lift {A} (o : outcome A) a Q (tw : StateTransition * VWorld D) :
  o = Ret a -> Q a tw -> twp (lift o) Q tw.
Proof. intros -> HQ. by exists a, tw. Qed.

Lemma twp_get Q T h s l o :
  h !! l = Some o -> Q o (T, V h s) -> twp (world (get_object l)) Q (T, V h s).
Proof.
  intros Hl HQ. exists o, (T, V h s). split; [|done].
  unfold world, on_vworld, in_world, get_object. cbn. by rewrite Hl.
Qed.

Lemma twp_put Q T h s l o :
  Q tt (T, V (<[l:=o]> h) s) -> twp (world (put_object l o)) Q (T, V h s).
Proof. intros HQ. by exists tt, (T, V (<[l:=o]> h) s). Qed.

Lemma twp_modify Q T h s l f o :
  h !! l = Some o -> Q tt (T, V (<[l:=f o]> h) s) -> twp (world (modify_object l f)) Q (T, V h s).
Proof.
  intros Hl HQ. exists tt, (T, V (<[l:=f o]> h) s). split; [|done].
  unfold world, on_vworld, in_world, modify_object, mbind, st_bind, get_object.
  cbn. by rewrite Hl.
Qed.

Lemma twp_get_some Q T h s l :
  is_Some (h !! l) -> (∀ o, h !! l = Some o -> Q o (T, V h s)) -> twp (world (get_object l)) Q (T, V h s).
Proof. intros [o Ho] HQ. by eapply twp_get; [|apply HQ]. Qed.

Lemma twp_alter Q T h s l f :
  is_Some (h !! l) -> Q tt (T, V (alter f l h) s) -> twp (world (modify_object l f)) Q (T, V h s).
Proof. intros [o Ho] HQ. eapply twp_modify; [done|]. by rewrite (insert_alter_list f h l o Ho). Qed.

Lemma twp_lookup Q T h s a p :
  stateObjects s !! Address a = Some p -> Q p (T, V h s) ->
  twp (world (GetOrNewStateObject a)) Q (T, V h s).
Proof.
  intros Ha HQ. exists p, (T, V h s). split; [|done].
  unfold world, on_vworld, in_world, GetOrNewStateObject, GetStateObject, get_state,
    mbind, st_bind. cbn. by rewrite Ha.
Qed.

Lemma twp_copy Q T h s :
  (∀ a p, stateObjects s !! a = Some p -> is_Some (h !! p)) ->
  (∀ s' news, Q s' (T, V (h ++ news) s)) -> twp (world State_Copy) Q (T, V h s).
Proof.
  intros Hp HQ. destruct (State_Copy_run (mkWorld e h s)) as (s' & news & Hr); [exact Hp|].
  exists s', (T, V (h ++ news) s). split; [|done].
  unfold world, on_vworld, in_world. cbn [vworld vw_world vw_stuck]. by rewrite Hr.
Qed.

Lemma twp_message Q T h s m :
  Q (length (Messages (s_manifest s)))
    (T, V h (set_manifest (mkManifest (Messages (s_manifest s) ++ [m])) s)) ->
  twp (world (AddMessage m)) Q (T, V h s).
Proof. intros HQ. by do 2 eexists. Qed.

Lemma twp_deferred {A} (d : TXM unit) (m : TXM A) Q (tw : StateTransition * VWorld D) :
  twp m (λ a tw', twp d (λ _ tw'', Q a tw'') tw') tw -> twp (deferred d m) Q tw.
Proof.
  intros (a & tw' & Hm & [] & tw'' & Hd & HQ). exists a, tw''. split; [|done].
  unfold deferred. by rewrite Hm, Hd.
Qed.

Lemma twp_Sender_first Q T h s addr sn :
  st_sen T = None -> Sender (st_tx T) = Ret addr -> stateObjects s !! Address addr = Some sn ->
  Q sn (set_sen (Some sn) T, V h s) -> twp st_Sender Q (T, V h s).
Proof.
  intros HT Ha Hs HQ. unfold st_Sender. apply twp_bind, twp_get_st. rewrite HT.
  apply twp_bind. eapply twp_lift; [done|]. apply twp_bind. eapply twp_lookup; [done|].
  apply twp_bind, twp_put_st. by apply twp_ret.
Qed.

Lemma twp_Sender_again Q T w sn :
  st_sen T = Some sn -> Q sn (T, w) -> twp (st_Sender (D := D)) Q (T, w).
Proof.
  intros HT HQ. unfold st_Sender. apply twp_bind, twp_get_st. rewrite HT. by apply twp_ret.
Qed.

Lemma twp_Coinbase Q T w c :
  st_cb T = Some c -> Q c (T, w) -> twp (st_Coinbase (D := D)) Q (T, w).
Proof.
  intros HT HQ. unfold st_Coinbase. apply twp_bind, twp_get_st. rewrite HT. by apply twp_ret.
Qed.

End World.

End Runs.

(** Lookups in an updated heap whose pointers are known to be different. *)
Ltac len :=
  rewrite ?length_insert, ?length_app, ?length_insert, ?length_app, ?length_insert; lia.
Ltac lk :=
  repeat first
    [ eassumption
    | rewrite list_lookup_insert_ne by congruence
    | rewrite list_lookup_insert_eq by len
    | rewrite lookup_app_l by len ];
  first [eassumption | reflexivity].

(** A position that holds an object still does. *)
Ltac somewhere :=
  repeat match goal with H : _ !! _ = Some _ |- _ => apply lookup_lt_Some in H end;
  repeat match goal with H : is_Some (_ !! _) |- _ => apply lookup_lt_is_Some_1 in H end;
  apply lookup_lt_is_Some_2; rewrite ?length_alter, ?length_app, ?length_alter in *; lia.

(** One step of a run. *)
Ltac tstep :=
  lazymatch goal with
  | |- twp (_ ≫= _) _ _ => apply twp_bind
  | |- twp (mret _) _ _ => apply twp_ret
  | |- twp get_st _ _ => apply twp_get_st
  | |- twp (put_st _) _ _ => apply twp_put_st
  | |- twp (world (get_object _)) _ _ => eapply twp_get; [lk|]
  | |- twp (world (put_object _ _)) _ _ => apply twp_put
  | |- twp (world (modify_object _ _)) _ _ => eapply twp_modify; [lk|]
  | |- twp (world (GetOrNewStateObject _)) _ _ => eapply twp_lookup; [eassumption|]
  | |- twp (world (AddMessage _)) _ _ => apply twp_message
  | |- twp (deferred _ _) _ _ => apply twp_deferred
  | |- twp st_Sender _ _ => eapply twp_Sender_again; [reflexivity|]
  | |- twp st_Coinbase _ _ => eapply twp_Coinbase; [reflexivity|]
  end.

(** * Transfers *)

(** The gas a transfer uses. *)
Definition transfer_gas (tx : Transaction) : Z := GasTx + zlen (tx_Data tx) * GasData.

(** The transition that [NewStateTransition] makes. *)
Definition fresh_transition (tx : Transaction) (block : Block) (c : nat) (co : StateObject)
    : StateTransition :=
  mkTransition (so_address co) (tx_Recipient tx) tx 0 (tx_GasPrice tx) (tx_Value tx) (tx_Data tx)
               block (Some c) None None.

(** What the check leaves: the gas is bought. *)
Definition bought (T : StateTransition) (gas : Z) (sn : nat) : StateTransition :=
  set_st_gas gas (set_sen (Some sn) T).

(** The fields of a transition that a run has built. *)
Ltac fields :=
  cbn [bought set_st_gas set_st_data set_cb set_rec set_sen fresh_transition st_coinbase st_receiver
       st_tx st_gas st_gasPrice st_value st_data st_block st_cb st_rec st_sen].

Section Transfer.
Context `{HC : Crypto} `{HS : Secp256k1} {D : Type} `{HD : Database D} `{HM : MapOrder}.

(** A transaction that creates no contract, on a state that has its sender and
    its receiver (which has no code) in memory; the coinbase, the sender and the
    receiver may be one account. *)
Record transfer_scene (h : list StateObject) (s : State) (tx : Transaction)
    (c sn r : nat) (co so ro : StateObject) : Prop := {
  sc_sender : ∃ addr, Sender tx = Ret addr ∧ stateObjects s !! Address addr = Some sn;
  sc_receiver : stateObjects s !! Address (tx_Recipient tx) = Some r;
  sc_co : h !! c = Some co;
  sc_so : h !! sn = Some so;
  sc_ro : h !! r = Some ro;
  sc_pointers : ∀ a p, stateObjects s !! a = Some p -> is_Some (h !! p);
  sc_message : CreatesContract tx = false ∧ IsContractAddr (tx_Recipient tx) = false;
  sc_code : Code ro = [];
}.

(** What is left of the sender's balance when the gas limit has been bought. *)
Definition after_gas (tx : Transaction) (c sn : nat) (so : StateObject) : Z :=
  if decide (c = sn) then Balance so else Balance so - GasValue tx.

(** An account after the transfer: the object [o] at position [l]. *)
Definition transferred (tx : Transaction) (c sn r : nat) (l : nat) (o : StateObject) : StateObject :=
  let fee := transfer_gas tx * tx_GasPrice tx in
  let paid := if decide (l = sn) then fee + tx_Value tx else 0 in
  let earned := if decide (l = c) then fee else 0 in
  let received := if decide (l = r) then tx_Value tx else 0 in
  set_Balance (Balance o - paid + earned + received)
    (set_Nonce (if decide (l = sn) then u64 (Nonce o + 1) else Nonce o)
       (set_gasPool (gasPool o + if decide (l = c) then tx_Gas tx - transfer_gas tx else 0) o)).

(** The message that the transfer leaves. *)
Definition transfer_message (tx : Transaction) (block : Block) (hash : bytes) (so ro : StateObject) : Message :=
  mkMessage (so_address ro) (so_address so) (tx_Data tx) [] 0 (so_address so) (Time block)
            (b_Coinbase block) hash (b_Number block) (tx_Value tx) [].

Lemma preCheck_ok (e : Env D) b h s tx block c sn r co so ro Q :
  transfer_scene h s tx c sn r co so ro ->
  Nonce so = tx_Nonce tx -> GasValue tx <= Balance so -> tx_Gas tx <= gasPool co ->
  Q None (bought (fresh_transition tx block c co) (tx_Gas tx) sn,
          vworld e b (alter (SubAmount (GasValue tx)) sn (alter (AddAmount (GasValue tx)) c h)) s) ->
  twp preCheck Q (fresh_transition tx block c co, vworld e b h s).
Proof.
  intros [ (addr & Hsend & Hsn) Hr Hco Hso Hro ? ? ?] Hn Hfunds Hpool HQ.
  unfold preCheck. do 3 tstep.
  eapply twp_Sender_first; [done|done|done|]. repeat tstep. cbn [fresh_transition st_tx].
  rewrite Hn, Z.eqb_refl. cbn [negb]. unfold st_BuyGas. repeat tstep.
  cbn [fresh_transition st_tx set_sen].
  destruct (Z.ltb_spec (Balance so) (GasValue tx)); [lia|]. repeat tstep.
  unfold BuyGas. destruct (Z.ltb_spec (gasPool co) (tx_Gas tx)); [lia|].
  unfold st_AddGas. repeat tstep.
  rewrite (insert_alter_list (AddAmount (tx_Gas tx * tx_GasPrice tx)) h c co Hco).
  apply twp_alter; [somewhere|].
  repeat tstep. exact HQ.
Qed.

(** The heap when the value has moved, and when the refund is paid. *)
Definition moved (tx : Transaction) (sn r : nat) (h : list StateObject) : list StateObject :=
  alter (AddAmount (tx_Value tx)) r
    (alter (SubAmount (tx_Value tx)) sn (alter (λ o, set_Nonce (u64 (Nonce o + 1)) o) sn h)).

Lemma length_moved tx sn r h : length (moved tx sn r h) = length h.
Proof. unfold moved. by rewrite !length_alter. Qed.

Lemma same_code_moved tx sn r h h' news :
  length h' = length h -> same_code h h' -> same_code h (moved tx sn r h' ++ news).
Proof.
  intros Hlen Hs. apply same_code_app; [by rewrite length_moved|].
  unfold moved. by repeat (apply same_code_alter; [done|]).
Qed.

Lemma body_ok (e : Env D) b h h1 s tx block c sn r co so ro Q :
  transfer_scene h s tx c sn r co so ro ->
  transfer_gas tx <= tx_Gas tx -> length h1 = length h -> same_code h h1 ->
  (∀ o, h1 !! sn = Some o -> tx_Value tx <= Balance o) ->
  (∀ news hash, block_Hash block = Ret hash ->
    Q None (set_rec (Some r)
              (bought (fresh_transition tx block c co) (tx_Gas tx - transfer_gas tx) sn),
            vworld e b (moved tx sn r h1 ++ news)
              (set_manifest (mkManifest (Messages (s_manifest s) ++ [transfer_message tx block hash so ro])) s))) ->
  twp transition_body Q (bought (fresh_transition tx block c co) (tx_Gas tx) sn, vworld e b h1 s).
Proof.
  intros [ (addr & Hsend & Hsn) Hr Hco Hso Hro Hp [Hcc Hca] Hcode] Hgas Hlen Hsame Hval HQ.
  destruct (block_Hash_Ret block) as [hash Hbh].
  unfold transition_body. repeat tstep. apply twp_alter; [somewhere|].
  repeat tstep. unfold st_UseGas at 1. repeat tstep.
  unfold transfer_gas in *. pose proof (zlen_nonneg (tx_Data tx)).
  fields. unfold GasTx, GasData in *.
  destruct (Z.ltb_spec (tx_Gas tx) 500); [lia|]. repeat tstep.
  unfold st_UseGas. repeat tstep. fields.
  destruct (Z.ltb_spec (tx_Gas tx - 500) (zlen (tx_Data tx) * 5)); [lia|]. repeat tstep.
  apply twp_get_some; [somewhere|]. intros o1 Ho1. fields.
  assert (tx_Value tx <= Balance o1) as Hv.
  { rewrite list_lookup_alter_eq in Ho1. apply fmap_Some in Ho1 as (o & Ho & ->). exact (Hval o Ho). }
  clear Ho1. destruct (Z.ltb_spec (Balance o1) (tx_Value tx)); [lia|]. repeat tstep.
  unfold move_value. repeat tstep. fields. rewrite Hcc.
  unfold st_Receiver. repeat tstep. fields. rewrite Hcc.
  repeat tstep. do 2 (apply twp_alter; [somewhere|]; repeat tstep). eapply twp_copy.
  { intros a p Ha. specialize (Hp a p Ha). somewhere. }
  fold (moved tx sn r h1). intros snap news. repeat tstep.
  assert (same_code h (moved tx sn r h1 ++ news)) as Hsame' by (by apply same_code_moved).
  unfold transition_message. repeat tstep.
  apply twp_get_some; [unfold moved; somewhere|]. intros or Hor. repeat tstep.
  apply twp_get_some; [unfold moved; somewhere|]. intros os Hos. repeat tstep. fields.
  eapply twp_lift; [exact Hbh|]. repeat tstep.
  destruct (Hsame' r ro or Hro Hor) as [Har Hcr]. destruct (Hsame' sn so os Hso Hos) as [Has _].
  unfold run_code. repeat tstep.
  fields. rewrite Hca, Hcr, Hcode. change (0 <? zlen []) with false. cbv iota. repeat tstep.
  replace (tx_Gas tx - (500 + zlen (tx_Data tx) * 5)) with (tx_Gas tx - 500 - zlen (tx_Data tx) * 5) in HQ by lia.
  rewrite Har, Has. by apply HQ.
Qed.

Lemma object_eq a b ch n t c i st g r b' g' :
  b = b' -> g = g' -> mkObject a b ch n t c i st g r = mkObject a b' ch n t c i st g' r.
Proof. by intros -> ->. Qed.

(** The heap after a transfer. *)
Lemma transferred_heap tx c sn r h news so co ro :
  h !! c = Some co -> h !! sn = Some so -> h !! r = Some ro ->
  alter (AddAmount ((tx_Gas tx - transfer_gas tx) * tx_GasPrice tx)) sn
    (alter (RefundGas (tx_Gas tx - transfer_gas tx) (tx_GasPrice tx)) c
       (moved tx sn r (alter (SubAmount (GasValue tx)) sn (alter (AddAmount (GasValue tx)) c h)) ++ news))
  = imap (transferred tx c sn r) h ++ news.
Proof.
  intros Hco Hso Hro. apply list_eq. intros l. rewrite !lookup_alter_list.
  destruct (decide (l < length h)%nat) as [Hl|Hl].
  - rewrite !lookup_app_l by (rewrite ?length_moved, ?length_alter, ?length_imap; lia).
    unfold moved. rewrite !lookup_alter_list, list_lookup_imap.
    destruct (lookup_lt_is_Some_2 h l Hl) as [o ->]. cbn. f_equal. 
    unfold transferred, GasValue, RefundGas, AddAmount, SubAmount, SetBalance, set_Balance, set_Nonce, set_gasPool.
    generalize (transfer_gas tx). intros used. destruct o.
    repeat case_decide; cbn -[Z.mul Z.add Z.sub u64]; apply f_equal, object_eq; lia.
  - rewrite !lookup_app_r by (rewrite ?length_moved, ?length_alter, ?length_imap; lia).
    rewrite length_moved, !length_alter, length_imap.
    apply lookup_lt_Some in Hco, Hso.
    by rewrite !decide_False by lia.
Qed.

(** C3. The exact effect of a transfer.  Take a message that creates no contract, with a
    state that has the sender and the receiver in memory and points to no missing object,
    a receiver without code, the expected nonce, a
    gas limit between what the message uses (500 and 5 per byte of data) and the coinbase's pool, and a
    sender who can pay for the gas limit and then the value.  [TransitionState]
    succeeds; the sender has paid the value and the gas used and its nonce is
    one more, the receiver has the value, the coinbase the price of the gas
    used, whether these are three accounts or fewer.  The transition is left with the unused gas.  Every other object, the
    state's trie, its map of objects and the database are as before; one message is added to
    the manifest, and the snapshot leaves fresh objects in memory.  (The
    coinbase's gas pool, which should shrink by the gas used, grows by the gas
    refunded, because buying gas does not take it from the pool.) *)
Theorem transfer_effect (e : Env D) (b : bool) (h : list StateObject) (s : State) (tx : Transaction)
    (block : Block) (c sn r : nat) (co so ro : StateObject) :
  transfer_scene h s tx c sn r co so ro ->
  Nonce so = tx_Nonce tx -> transfer_gas tx <= tx_Gas tx <= gasPool co ->
  GasValue tx <= Balance so -> tx_Value tx <= after_gas tx c sn so ->
  ∃ T' news hash,
    block_Hash block = Ret hash ∧ st_gas T' = tx_Gas tx - transfer_gas tx ∧
    TransitionState (fresh_transition tx block c co, vworld e b h s)
    = (Ret None, (T', vworld e b (imap (transferred tx c sn r) h ++ news)
        (set_manifest (mkManifest (Messages (s_manifest s) ++ [transfer_message tx block hash so ro])) s))).
Proof.
  intros Hsc Hn Hgas Hfunds Hval.
  set (s' := λ hash, set_manifest (mkManifest (Messages (s_manifest s)
               ++ [transfer_message tx block hash so ro])) s).
  cut (twp TransitionState (λ err tw, err = None ∧ ∃ T' news hash,
    block_Hash block = Ret hash ∧ st_gas T' = tx_Gas tx - transfer_gas tx ∧
    tw = (T', vworld e b (imap (transferred tx c sn r) h ++ news) (s' hash)))
    (fresh_transition tx block c co, vworld e b h s)).
  { intros (err & tw & Hrun & -> & T' & news & hash & Hh & Hg & ->). by exists T', news, hash. }
  unfold TransitionState. apply twp_bind. eapply preCheck_ok; [done..|lia|]. apply twp_deferred.
  pose proof (sc_co _ _ _ _ _ _ _ _ _ Hsc). pose proof (sc_so _ _ _ _ _ _ _ _ _ Hsc) as Hso.
  pose proof (sc_ro _ _ _ _ _ _ _ _ _ Hsc).
  eapply body_ok; [done|lia|by rewrite !length_alter| | |].
  - do 2 (apply same_code_alter; [done|]). apply same_code_refl.
  - intros o Ho. rewrite list_lookup_alter_eq in Ho. apply fmap_Some in Ho as (o1 & Ho1 & ->).
    unfold after_gas in Hval. case_decide as Hcs.
    + subst sn. rewrite list_lookup_alter_eq, Hso in Ho1. injection Ho1 as <-. cbn. lia.
    + rewrite list_lookup_alter_ne, Hso in Ho1 by done. injection Ho1 as <-. cbn. lia.
  - intros news hash Hhash. unfold st_RefundGas. repeat tstep.
    apply twp_alter; [unfold moved; somewhere|]. repeat tstep.
    apply twp_alter; [unfold moved; somewhere|]. fields. split; [done|].
    exists (set_rec (Some r) (bought (fresh_transition tx block c co) (tx_Gas tx - transfer_gas tx) sn)), news, hash.
    split; [done|]. split; [done|]. by rewrite (transferred_heap tx c sn r h news so co ro).
Qed.

(** The error of a check that fails. *)
Definition check_error (tx : Transaction) (co so : StateObject) : option error :=
  if negb (Nonce so =? tx_Nonce tx) then Some (NonceError (tx_Nonce tx) (Nonce so))
  else if Balance so <? GasValue tx
  then Some (insufficient_funds (asc "pre-pay gas") (GasValue tx) (Balance so))
  else if gasPool co <? tx_Gas tx then Some (StateGasLimitError (gasPool co) (tx_Gas tx))
  else None.

(** A transaction that the check rejects leaves the world alone.  With a wrong
    nonce, too little money for the gas, or more gas than the coinbase's pool
    has left (tested in this order), [TransitionState] returns the corresponding error and
    changes no account, no state and no data.  None of these errors is one that
    [IsGasLimitErr] recognises: the one for the pool is of the type of the same name of
    another package. *)
Theorem rejected_transaction (e : Env D) (b : bool) (h : list StateObject) (s : State)
    (tx : Transaction) (block : Block) (addr : bytes) (c sn : nat) (co so : StateObject) (err : error) :
  Sender tx = Ret addr -> stateObjects s !! Address addr = Some sn ->
  h !! c = Some co -> h !! sn = Some so -> check_error tx co so = Some err ->
  TransitionState (fresh_transition tx block c co, vworld e b h s)
  = (Ret (Some err), (set_sen (Some sn) (fresh_transition tx block c co), vworld e b h s)) ∧
  IsGasLimitErr err = false.
Proof.
  intros Hsend Hsn Hco Hso Hchk.
  assert (IsGasLimitErr err = false) as Herr.
  { unfold check_error in Hchk. by repeat (case_match; simplify_eq). }
  split; [|done].
  cut (twp TransitionState (λ r tw, r = Some err ∧
         tw = (set_sen (Some sn) (fresh_transition tx block c co), vworld e b h s))
       (fresh_transition tx block c co, vworld e b h s)).
  { by intros (r & tw & Hrun & -> & ->). }
  pose proof (lookup_lt_Some _ _ _ Hco). pose proof (lookup_lt_Some _ _ _ Hso).
  unfold TransitionState, preCheck. do 4 tstep.
  eapply twp_Sender_first; [done|done|done|]. repeat tstep. fields. unfold check_error in Hchk.
  destruct (negb (Nonce so =? tx_Nonce tx)); [injection Hchk as <-; by repeat tstep|].
  unfold st_BuyGas. repeat tstep. fields.
  destruct (Balance so <? GasValue tx); [injection Hchk as <-; by repeat tstep|].
  repeat tstep. unfold BuyGas.
  destruct (gasPool co <? tx_Gas tx); [|done]. injection Hchk as <-.
  repeat tstep. rewrite list_insert_id by done. repeat tstep. done.
Qed.

End Transfer.

(** * Every transaction *)

Section Always.
Context `{HC : Crypto} `{HS : Secp256k1} {D : Type} `{HD : Database D} `{HM : MapOrder}.

(** From a transition with the property [P], a computation runs out of fuel
    only in an operation on the state that does not end, and the transition keeps the
    property. *)
Definition tame_tx {A} (P : StateTransition -> Prop) (m : TXM (D := D) A) : Prop :=
  ∀ tw, P tw.1 -> ((m tw).1 = NoFuel -> vw_stuck (m tw).2.2 = true) ∧ P (m tw).2.1.

Section Tame.
Variable P : StateTransition -> Prop.
Notation tame := (tame_tx P).

Lemma tame_tx_ret {A} (a : A) : tame (mret a).
Proof. by intros [??]. Qed.

Lemma tame_tx_bind {A B} (m : TXM A) (f : A -> TXM B) :
  tame m -> (∀ a, tame (f a)) -> tame (m ≫= f).
Proof.
  intros Hm Hf tw HP. unfold mbind, st_bind. destruct (Hm tw HP) as [Hs Hk].
  destruct (m tw) as [[a| |] tw']; [by apply Hf|done|]. split; [intros _; by apply Hs|done].
Qed.

(** The code after reading the transition may use that it has the property. *)
Lemma tame_tx_get {A} (k : StateTransition -> TXM A) :
  (∀ T, P T -> tame (k T)) -> tame (get_st ≫= k).
Proof. intros Hk [T vw] HP. by apply (Hk T HP (T, vw)). Qed.

Lemma tame_tx_world {A} (m : SM A) : tame (world m).
Proof.
  intros [T vw] HP. unfold world, on_vworld, in_world. cbn. by destruct (m _) as [[| |] w].
Qed.

Lemma tame_tx_lift {A} (o : outcome A) : o ≠ NoFuel -> tame (lift o).
Proof. by intros Ho [??]. Qed.

Lemma tame_tx_panic {A} : tame (@st_panic _ A).
Proof. by intros [??]. Qed.

Lemma tame_tx_put f : (∀ T, P T -> P (f T)) -> tame (put_st f).
Proof. intros Hf [T vw] HP. split; [done|]. by apply Hf. Qed.

Lemma tame_tx_deferred {A} (d : TXM unit) (m : TXM A) :
  tame d -> tame m -> tame (deferred d m).
Proof.
  intros Hd Hm tw HP. unfold deferred. destruct (Hm tw HP) as [Hms Hmk].
  destruct (m tw) as [o tw1]. destruct (Hd tw1 Hmk) as [Hds Hdk].
  destruct (d tw1) as [o' tw2]. cbn in *. destruct o, o'; split; try done; auto.
Qed.

End Tame.

(** ** Functions that always end *)

Lemma Sender_fuel tx : Sender tx ≠ NoFuel.
Proof.
  unfold Sender. apply bind_fuel; [apply index_fuel|]. intros p _. case_match; [done|].
  apply bind_fuel; [apply slice_fuel|done].
Qed.

Lemma block_Hash_fuel b : block_Hash b ≠ NoFuel.
Proof. by destruct (block_Hash_Ret b) as [hash ->]. Qed.

Lemma NewEnv_fuel tx b : NewEnv tx b ≠ NoFuel.
Proof.
  unfold NewEnv. apply bind_fuel; [apply Sender_fuel|]. intros o _.
  by apply bind_fuel; [apply block_Hash_fuel|].
Qed.

#[local] Hint Resolve Sender_fuel block_Hash_fuel NewEnv_fuel : fuel.

(** ** The gas *)

(** One step of an operation that does not touch the gas. *)
Ltac ttstep :=
  lazymatch goal with
  | |- tame_tx _ (get_st ≫= _) => apply tame_tx_get; intros
  | |- tame_tx _ (_ ≫= _) => apply tame_tx_bind; [|intros]
  | |- tame_tx _ (mret _) => apply tame_tx_ret
  | |- tame_tx _ (world _) => apply tame_tx_world
  | |- tame_tx _ (lift _) => apply tame_tx_lift; auto with fuel
  | |- tame_tx _ st_panic => apply tame_tx_panic
  | |- tame_tx _ (put_st _) => apply tame_tx_put; try done
  | |- tame_tx _ (deferred _ _) => apply tame_tx_deferred
  | |- tame_tx _ (match ?x with _ => _ end) => destruct x eqn:?
  end.
Ltac tt := repeat (first [solve [eauto with tame] | ttstep]).

(** A property of the gas counter and the transaction. *)
Definition of_gas (R : Z -> Transaction -> Prop) (T : StateTransition) : Prop := R (st_gas T) (st_tx T).

Section Stable.
Variable R : Z -> Transaction -> Prop.
Notation tame := (tame_tx (of_gas R)).

Lemma tame_Sender : tame st_Sender.
Proof. unfold st_Sender. tt. Qed.

Lemma tame_Coinbase : tame st_Coinbase.
Proof. unfold st_Coinbase. tt. Qed.

Lemma tame_Receiver : tame st_Receiver.
Proof. unfold st_Receiver. tt. Qed.

End Stable.

#[local] Hint Resolve tame_Sender tame_Coinbase tame_Receiver : tame.

Section Gas.
(** The gas left is at most [g]. *)
Variable g : Z.
Notation tame := (tame_tx (of_gas (λ gas _, Z.max 0 gas <= g))).

Lemma tame_RefundGas : tame st_RefundGas.
Proof. unfold st_RefundGas. tt. Qed.

Lemma tame_UseGas amount : 0 <= amount -> tame (st_UseGas amount).
Proof.
  intros Ha. unfold st_UseGas. apply tame_tx_get. intros T HT.
  destruct (Z.ltb_spec (st_gas T) amount); [tt|].
  apply tame_tx_bind; [apply tame_tx_put|intros; tt].
  intros T2 _. unfold of_gas in *. cbn. lia.
Qed.

Lemma tame_Eval msg script context : tame (st_Eval msg script context).
Proof.
  unfold st_Eval. apply tame_tx_bind; [tt|]. intros transactor. apply tame_tx_get. intros T0 HT0.
  apply tame_tx_bind; [tt|]. intros caller. apply tame_tx_bind; [tt|]. intros env [T vw] HT.
  unfold mbind, st_bind, on_vworld.
  set (c0 := set_Args _ _). destruct (RunClosure_ok (Vm_New env) (run_fuel (st_gas T0)) c0 vw) as [Hg Hn].
  destruct (RunClosure (run_fuel (st_gas T0)) (Vm_New env) c0 vw) as [o [c vw']]. cbn in Hg, Hn.
  assert (pos_gas c0 = Z.max 0 (st_gas T0)) as Hc0 by done. unfold pos_gas in *. rewrite Hc0 in *.
  destruct o as [[ret err]| |]; cbn.
  - split; [done|]. unfold of_gas in *. cbn. lia.
  - done.
  - split; [|done]. intros _. apply Hn; [|done]. unfold run_fuel. lia.
Qed.

#[local] Hint Resolve tame_RefundGas tame_Eval : tame.

Lemma tame_move_value sender : tame (move_value sender).
Proof. unfold move_value. tt. Qed.

Lemma tame_transition_message sender receiver : tame (transition_message sender receiver).
Proof. unfold transition_message. tt. Qed.

Lemma tame_run_code msg receiver snapshot : tame (run_code msg receiver snapshot).
Proof. unfold run_code, revert_to. tt. Qed.

#[local] Hint Resolve tame_move_value tame_transition_message tame_run_code : tame.

Lemma tame_body : tame transition_body.
Proof.
  unfold transition_body. apply tame_tx_bind; [tt|]. intros sender. apply tame_tx_bind; [tt|]. intros _.
  apply tame_tx_bind; [by apply tame_UseGas|]. intros [?|]; [tt|]. apply tame_tx_get. intros T HT.
  apply tame_tx_bind; [apply tame_UseGas; unfold GasData; pose proof (zlen_nonneg (st_data T)); lia|].
  intros [?|]; tt.
Qed.

End Gas.

(** ** Buying the gas *)

(** From one property to another, which it implies. *)
Definition from_to {A} (P Q : StateTransition -> Prop) (m : TXM (D := D) A) : Prop :=
  ∀ tw, P tw.1 -> ((m tw).1 = NoFuel -> vw_stuck (m tw).2.2 = true) ∧ Q (m tw).2.1.

Section FromTo.
Variables P Q : StateTransition -> Prop.
Hypothesis HPQ : ∀ T, P T -> Q T.

Lemma from_to_tame {A} (m : TXM A) : tame_tx P m -> from_to P Q m.
Proof. intros Hm tw HP. destruct (Hm tw HP). auto. Qed.

Lemma from_to_bind {A B} (m : TXM A) (f : A -> TXM B) :
  tame_tx P m -> (∀ a, from_to P Q (f a)) -> from_to P Q (m ≫= f).
Proof.
  intros Hm Hf tw HP. unfold mbind, st_bind. destruct (Hm tw HP) as [Hs Hk].
  destruct (m tw) as [[a| |] tw']; [by apply Hf|by split; auto|by split; auto].
Qed.

Lemma from_to_get {A} (k : StateTransition -> TXM A) :
  (∀ T, P T -> from_to P Q (k T)) -> from_to P Q (get_st ≫= k).
Proof. intros Hk [T vw] HP. by apply (Hk T HP (T, vw)). Qed.

Lemma from_to_then {A B} (m : TXM A) (f : A -> TXM B) :
  from_to P Q m -> (∀ a, tame_tx Q (f a)) -> from_to P Q (m ≫= f).
Proof.
  intros Hm Hf tw HP. unfold mbind, st_bind. destruct (Hm tw HP) as [Hs Hk].
  destruct (m tw) as [[a| |] tw']; [by apply Hf|done|by split; auto].
Qed.

End FromTo.

(** Before and after the gas of [tx] is bought. *)
Definition unpaid (tx : Transaction) : StateTransition -> Prop :=
  of_gas (λ gas tx', gas = 0 ∧ tx' = tx).
Definition within (tx : Transaction) : StateTransition -> Prop :=
  of_gas (λ gas _, Z.max 0 gas <= Z.max 0 (tx_Gas tx)).

Lemma unpaid_within tx T : unpaid tx T -> within tx T.
Proof. unfold unpaid, within, of_gas. lia. Qed.

#[local] Hint Resolve unpaid_within : tame.

Lemma BuyGas_from_to tx : from_to (unpaid tx) (within tx) st_BuyGas.
Proof.
  unfold st_BuyGas. apply from_to_bind; [apply unpaid_within|apply tame_Sender|]. intros sender.
  apply from_to_get. intros T [HT Htx]. apply from_to_bind; [apply unpaid_within|tt|]. intros o.
  case_match; [apply from_to_tame; [apply unpaid_within|tt]|].
  apply from_to_bind; [apply unpaid_within|apply tame_Coinbase|]. intros coinbase.
  apply from_to_bind; [apply unpaid_within|tt|]. intros co.
  destruct (BuyGas _ _ co) as [co' err]. apply from_to_bind; [apply unpaid_within|tt|]. intros _.
  destruct err as [e|]; [apply from_to_tame; [apply unpaid_within|tt]|].
  apply from_to_then; [|intros; tt].
  intros [T1 vw] [HT1 _]. split; [done|]. unfold within, of_gas. unfold st_AddGas, mbind, st_bind. cbn in *. rewrite Htx. lia.
Qed.

Lemma TransitionState_from_to tx : from_to (unpaid tx) (within tx) TransitionState.
Proof.
  unfold TransitionState. apply from_to_then.
  - unfold preCheck. apply from_to_get. intros T _.
    apply from_to_bind; [apply unpaid_within|apply tame_Sender|]. intros sender.
    apply from_to_bind; [apply unpaid_within|tt|]. intros o.
    case_match; [apply from_to_tame; [apply unpaid_within|tt]|apply BuyGas_from_to].
  - intros [e|]; [tt|]. apply tame_tx_deferred; [apply tame_RefundGas|apply tame_body].
Qed.

(** C37. Applying a transaction always ends and uses its gas at most: for every
    transaction, with any code, on any world, [TransitionState] leaves a
    transition whose remaining gas is no more than the gas limit of the transaction, and it
    runs out of fuel only if an operation on the state (a walk over a
    malformed trie, or the address search of CREATE) does not end. *)
Theorem transition_gas_bounded (w : VWorld D) (tx : Transaction) (block : Block) (c : nat)
    (co : StateObject) :
  let r := TransitionState (fresh_transition tx block c co, w) in
  Z.max 0 (st_gas r.2.1) <= Z.max 0 (tx_Gas tx) ∧
  (r.1 = NoFuel -> vw_stuck r.2.2 = true).
Proof.
  destruct (TransitionState_from_to tx (fresh_transition tx block c co, w)) as [Hs Hw]; [done|].
  by split.
Qed.

(** A signature that the curve library cannot recover a key from brings the
    process down: [Sender] indexes the nil key, so the transition panics
    instead of rejecting the transaction, and nothing in it recovers. *)
Theorem unrecoverable_signature_panics (w : VWorld D) (tx : Transaction) (block : Block) (c : nat)
    (co : StateObject) :
  PublicKey tx = [] ->
  (TransitionState (fresh_transition tx block c co, w)).1 = Panic.
Proof.
  intros Hk. unfold TransitionState, preCheck, st_Sender, Sender, mbind, st_bind. cbn.
  by rewrite Hk.
Qed.

End Always.

(** * Runs on a small world

    Three accounts: the miner, a sender with a key, and a receiver. *)

#[local] Existing Instances toy_crypto toy_curve list_order.

Definition signed (tx : Transaction) : Transaction := ret_or tx (Sign tx example_key).
Definition sender_address : bytes := ret_or [] (Sender (signed example_tx)).
Definition receiver_address : bytes := tx_Recipient example_tx.

Definition miner : StateObject := SetGasPool 10000 (NewStateObject [xcc]).
Definition rich_sender : StateObject := set_Balance 100000 (NewStateObject sender_address).

Definition small_heap (code : bytes) : list StateObject :=
  [miner; rich_sender; set_Code code (NewStateObject receiver_address)].

Definition small_state : State :=
  set_objects (<[Address [xcc] := 0%nat]> (<[Address sender_address := 1%nat]>
                 (<[Address receiver_address := 2%nat]> ∅)))
    (State_New (Trie_New (VStr []))).

(** A transfer of 1000 with 600 units of gas at price 10. *)
Definition small_tx : Transaction :=
  signed (NewTransactionMessage receiver_address 1000 600 10 [x01; x02]).

Lemma small_scene :
  transfer_scene (small_heap []) small_state small_tx 0 1 2 miner rich_sender
    (NewStateObject receiver_address).
Proof.
  split.
  - exists sender_address. split; vm_compute; reflexivity.
  - vm_compute. reflexivity.
  - reflexivity.
  - reflexivity.
  - reflexivity.
  - intros a p. cbn [small_state set_objects stateObjects].
    rewrite !lookup_insert_Some. intros [[_ <-]|[_ [[_ <-]|[_ [[_ <-]|[_ Hp]]]]]];
      [by eexists..|by rewrite lookup_empty in Hp].
  - split; vm_compute; reflexivity.
  - reflexivity.
Qed.

Lemma transfer_effect_witness :
  map (λ o, (Balance o, Nonce o)) (imap (transferred small_tx 0 1 2) (small_heap []))
    = [(5100, 0); (100000 - 5100 - 1000, 1); (1000, 0)] ∧
  ∃ T' news hash,
    block_Hash example_block = Ret hash ∧ st_gas T' = 600 - 510 ∧
    TransitionState (fresh_transition small_tx example_block 0 miner,
                     vworld (mkEnv NewMemDatabase []) false (small_heap []) small_state)
    = (Ret None, (T', vworld (mkEnv NewMemDatabase []) false
        (imap (transferred small_tx 0 1 2) (small_heap []) ++ news)
        (set_manifest (mkManifest ([] ++ [transfer_message small_tx example_block hash rich_sender
                                            (NewStateObject receiver_address)])) small_state))).
Proof.
  split; [vm_compute; reflexivity|].
  apply (transfer_effect (mkEnv NewMemDatabase []) false (small_heap []) small_state small_tx
           example_block 0 1 2 miner rich_sender (NewStateObject receiver_address) small_scene);
    vm_compute; try reflexivity; try (split; discriminate); discriminate.
Defined.

Lemma rejected_transaction_witness :
  let tx := signed (NewTransactionMessage receiver_address 1000 20000 1 []) in
  TransitionState (fresh_transition tx example_block 0 miner,
    vworld (mkEnv NewMemDatabase []) false (small_heap []) small_state)
  = (Ret (Some (StateGasLimitError 10000 20000)),
     (set_sen (Some 1%nat) (fresh_transition tx example_block 0 miner),
      vworld (mkEnv NewMemDatabase []) false (small_heap []) small_state)) ∧
  IsGasLimitErr (StateGasLimitError 10000 20000) = false.
Proof.
  cbn zeta.
  apply (rejected_transaction (mkEnv NewMemDatabase []) false (small_heap []) small_state
           (signed (NewTransactionMessage receiver_address 1000 20000 1 []))
           example_block sender_address 0 1 miner rich_sender);
    vm_compute; reflexivity.
Defined.

Lemma unrecoverable_signature_panics_witness :
  (TransitionState (H0 := mkSecp256k1 (λ _ _, []) (λ _ _, []) (λ _, None))
    (fresh_transition small_tx example_block 0 miner,
     vworld (mkEnv NewMemDatabase []) false (small_heap []) small_state)).1 = Panic.
Proof.
  apply (unrecoverable_signature_panics (HS := mkSecp256k1 (λ _ _, []) (λ _ _, []) (λ _, None))).
  reflexivity.
Defined.

(** What the world says of an account after a run. *)
Definition account_after (code : bytes) (addr : bytes) : option (Z * Z) :=
  let r := TransitionState (fresh_transition small_tx example_block 0 miner,
             vworld (mkEnv NewMemDatabase []) false (small_heap code) small_state) in
  let w := vw_world r.2.2 in
  p ← stateObjects (w_state w) !! Address addr;
  o ← w_heap w !! p;
  Some (Balance o, Nonce o).

Definition outcome_of (code : bytes) : bool :=
  match (TransitionState (fresh_transition small_tx example_block 0 miner,
             vworld (mkEnv NewMemDatabase []) false (small_heap code) small_state)).1 with
  | Ret None => true
  | _ => false
  end.

(** When the code fails, the value has moved and the whole gas limit is
    spent, in spite of the refund: the snapshot is taken after the transfer,
    and the refund, which comes after the state has been set back, goes to
    objects that are no longer in it.  The sender pays 600 x 10 and the 1000
    although the failed run (an invalid instruction) used one unit; with a receiver whose
    code stops at once, it pays 510 x 10 and the 1000. *)
Theorem failed_code_loses_refund :
  outcome_of [x00; x00] = true ∧
  account_after [x00; x00] sender_address = Some (100000 - 5100 - 1000, 1) ∧
  account_after [x00; x00] [xcc] = Some (5100, 0) ∧
  account_after [x00; x00] receiver_address = Some (1000, 0) ∧
  outcome_of [x21; x21] = false ∧
  account_after [x21; x21] sender_address = Some (100000 - 6000 - 1000, 1) ∧
  account_after [x21; x21] [xcc] = Some (6000, 0) ∧
  account_after [x21; x21] receiver_address = Some (1000, 0).
Proof. vm_compute. repeat split. Qed.
