(* ===== verification/WriteSpec.v ===== *)
(** What processing writes to the database.  The tries of a state and of the receipts
    are written only when they are synced; before that, the one write is the code of a
    contract, under its digest ([State.UpdateStateObject]).  So whatever the code that runs,
    every record of the database stays as it is, or becomes data stored
    under its own digest: no block, no index and no total difficulty is touched, unless a
    contract's code has been made to hash to the record's key. *)

From S2P Require Import Prelude GoVal Big Bytes Errors Rlp Value Db Crypto Nibbles Trie TrieSpec.
From S2P Require Import Opcodes State Machine Vm Curve Transaction Block BlockChain Transition.

(** The database of a state of a computation. *)
Class HasDb (D S : Type) := db_of : S -> D.

#[export] Instance store_db {D} : HasDb D (Store D) := λ s, e_db (st_env s).
#[export] Instance env_db {D} : HasDb D (Env D) := λ e, e_db e.
#[export] Instance trie_db {D} : HasDb D (Trie * Env D) := λ te, e_db te.2.
#[export] Instance world_db {D} : HasDb D (World D) := λ w, e_db (w_env w).
#[export] Instance vworld_db {D} : HasDb D (VWorld D) := λ vw, db_of (vw_world vw).
#[export] Instance vstate_db {D} : HasDb D (VState D) := λ s, db_of (v_world s).
#[export] Instance transition_db {D} : HasDb D (StateTransition * VWorld D) := λ tw, db_of tw.2.
#[export] Instance chain_db {D} : HasDb D (Chain D) := λ c, e_db (c_env c).

Section Records.
Context `{HC : Crypto} {D : Type} `{HD : Database D} `{HL : !DatabaseLaws D}.

(** The record has been replaced by data of which its key is the digest. *)
Definition overwritten (d d' : D) (key : bytes) : Prop :=
  db_data d' key ≠ db_data d key ∧ Sha3Bin (db_data d' key) = key.

(** Every record that has changed has been overwritten so. *)
Definition only_digests (d d' : D) : Prop :=
  ∀ key, db_data d' key = db_data d key ∨ overwritten d d' key.

#[export] Instance only_digests_order : PreOrder only_digests.
Proof.
  split; [by left|]. intros d1 d2 d3 H12 H23 key.
  destruct (decide (db_data d3 key = db_data d1 key)) as [|Hne]; [by left|]. right. split; [done|].
  destruct (H23 key) as [E|[_ E]]; [|done].
  destruct (H12 key) as [E'|[_ E']]; congruence.
Qed.

Lemma only_digests_put d x : only_digests d (db_Put d (Sha3Bin x) x).
Proof.
  intros key. destruct (decide (Sha3Bin x = key)) as [<-|Hne]; [|left; by apply db_get_put_ne].
  destruct (decide (x = db_data d (Sha3Bin x))) as [E|Hx]; [left; by rewrite db_get_put_eq|].
  right. split; by rewrite db_get_put_eq.
Qed.

(** The relation between the states of a computation. *)
Definition records {S} `{HasDb D S} : relation S := λ s s', only_digests (db_of s) (db_of s').

#[export] Instance records_order {S} `{HasDb D S} : PreOrder (records (S := S)).
Proof.
  split; [intros s; unfold records; reflexivity|]. intros s1 s2 s3 H12 H23. unfold records in *. by etrans.
Qed.

Lemma records_same {S} `{HasDb D S} (s s' : S) : db_of s' = db_of s -> records s s'.
Proof. intros E. unfold records. rewrite E. reflexivity. Qed.

Lemma steps_for_collect_records {S A B} `{HasDb D S} (f : A -> st S (list B)) l :
  (∀ x, steps records (f x)) -> steps records (for_collect f l).
Proof.
  intros Hf. induction l as [|x l IH]; [by intros s|]. cbn [for_collect].
  apply (steps_bind records); [apply Hf|]. intros a. by apply (steps_bind records); [|by intros ? ?].
Qed.

Lemma records_fmap {S A B} `{HasDb D S} (f : A -> B) (m : st S A) : steps records m -> steps records (f <$> m).
Proof. intros Hm s. specialize (Hm s). unfold fmap, st_fmap. by destruct (m s). Qed.

(** A block that is found after such writes is the one that was there, or its record has been overwritten. *)
Lemma GetBlock_after (d d' : D) key : only_digests d d' ->
  GetBlock d' key = GetBlock d key ∨ overwritten d d' key.
Proof. intros Hd. destruct (Hd key) as [E|]; [|by right]. left. unfold GetBlock. by rewrite E. Qed.

End Records.

(** [recording]: peel a computation into operations that are known to write nothing else. *)
Ltac recording :=
  repeat first
  [ apply (steps_ret records) | apply (steps_lift records) | solve [eauto 4 with records]
  | by intros ?; apply records_same
  | apply records_fmap
  | apply (steps_bind records); [|intros ?]
  | apply (steps_for_each records); intros ? | apply steps_for_collect_records; intros ?
  | match goal with |- steps _ (let '(_, _) := ?x in _) => destruct x end
  | match goal with |- steps _ (match ?x with _ => _ end) => destruct x end ].

Section Writes.
Context `{HC : Crypto} `{HS : Secp256k1} {D : Type} `{HD : Database D} `{HL : !DatabaseLaws D} `{HM : MapOrder}.

(** * Tries *)

Lemma records_tame {A} (m : TM D A) : tame m -> steps records m.
Proof. intros [_ Hm] s. by apply records_same, Hm. Qed.

Lemma records_run {A} (m : TM D A) : steps records m -> steps records (run m).
Proof.
  intros Hm [t e]. unfold run. specialize (Hm (mkStore (tr_cache t) e)). by destruct (m _) as [o s].
Qed.

#[local] Hint Resolve records_run records_tame tame_getNode tame_PutValue tame_Cache_Get tame_getState
  tame_InsertState : records.

Lemma records_deleteState f : ∀ spare v k, steps records (deleteState (D := D) f spare v k).
Proof.
  induction f as [|f IH]; intros spare v k; cbn [deleteState]; [by intros s; apply records_same|].
  unfold Trie_Put, Cache_Put. recording.
Qed.

Lemma records_iterateNode f : ∀ p v, steps records (iterateNode (D := D) f p v).
Proof.
  induction f as [|f IH]; intros p v; cbn [iterateNode]; [by intros s; apply records_same|]. recording.
Qed.

#[local] Hint Resolve records_deleteState records_iterateNode : records.

Lemma records_root_type v : steps records (root_type (D := D) v).
Proof. unfold root_type. recording. Qed.

#[local] Hint Resolve records_root_type : records.

Lemma records_set_root v : steps records (set_Root (D := D) v).
Proof. intros [t e]. by apply records_same. Qed.

#[local] Hint Resolve records_set_root : records.

Lemma records_Update k v : steps records (Update (D := D) k v).
Proof. unfold Update, UpdateState. recording. Qed.

Lemma records_Get k : steps records (Trie_Get (D := D) k).
Proof. unfold Trie_Get. recording. Qed.

Lemma records_Delete spare k : steps records (Trie_Delete (D := D) spare k).
Proof. unfold Trie_Delete. recording. Qed.

Lemma records_Each fuel : steps records (Each (D := D) fuel).
Proof. unfold Each. recording. apply records_run. unfold fetchNode. recording. Qed.

#[local] Hint Resolve records_Update records_Get records_Delete records_Each : records.

Lemma records_paranoia : steps records (paranoia (D := D)).
Proof.
  unfold paranoia. apply (steps_bind records); [|intros [valid t2]; destruct valid; [recording|]].
  2: { intros [t e]. by apply records_same. }
  intros [t e]. unfold ParanoiaCheck. pose proof (records_Each walk_fuel (t, e)) as He.
  destruct (Each walk_fuel (t, e)) as [[l| |] [t' e']]; [|done|done].
  assert (steps records (for_each (λ '(key, v), Update (D := D) key (Value_Str v)) l)) as Hl.
  { apply (steps_for_each records). intros [key v]. recording. }
  specialize (Hl (Trie_New (VStr []), e')).
  destruct (for_each _ l _) as [[u| |] [t2 e2]]; by etrans.
Qed.

Lemma records_receipts rs : ∀ i, steps records (update_receipts (D := D) i rs).
Proof. induction rs as [|r rs IH]; intros i; cbn [update_receipts]; [recording|]. unfold update_receipt. recording. Qed.

Lemma records_CreateTxSha rs : steps records (CreateTxSha (D := D) rs).
Proof.
  intros e. unfold CreateTxSha. pose proof (records_receipts rs 0 (Trie_New (VStr []), e)) as Hr.
  destruct (update_receipts 0 rs _) as [[u| |] [t e']]; [|done|done]. by destruct (tr_Root t).
Qed.

(** * States *)

Lemma records_object l : steps records (get_object (D := D) l).
Proof. intros w. unfold get_object. by destruct (w_heap w !! l). Qed.

Lemma records_on_object {A} l (m : TrieM (D := D) A) : steps records m -> steps records (on_object_trie l m).
Proof.
  intros Hm w. unfold on_object_trie, get_object, get_env, put_object, put_env, lift, mbind, st_bind.
  destruct (w_heap w !! l) as [o|]; [|done]. cbn. specialize (Hm (so_Trie o, w_env w)).
  by destruct (m (so_Trie o, w_env w)) as [r [t e']].
Qed.

Lemma records_on_state {A} (m : TrieM (D := D) A) : steps records m -> steps records (on_state_trie m).
Proof.
  intros Hm w. unfold on_state_trie, get_state, get_env, put_state, put_env, lift, mbind, st_bind. cbn.
  specialize (Hm (s_Trie (w_state w), w_env w)). by destruct (m _) as [r [t e']].
Qed.

#[local] Hint Resolve records_paranoia records_object records_on_object records_on_state : records.

Lemma records_modify l f : steps records (modify_object (D := D) l f).
Proof. unfold modify_object. recording. Qed.

#[local] Hint Resolve records_modify : records.

Lemma records_write l : steps records (UpdateStateObject (D := D) l).
Proof.
  unfold UpdateStateObject. apply (steps_bind records); [recording|]. intros o.
  intros w. unfold get_env, put_env, mbind, st_bind. cbn.
  etrans; [|by eapply records_on_state, records_Update].
  apply only_digests_put.
Qed.

#[local] Hint Resolve records_write : records.

Lemma records_lookup addr : steps records (GetStateObject (D := D) addr).
Proof. unfold GetStateObject. recording. Qed.

#[local] Hint Resolve records_lookup : records.

Lemma records_account addr : steps records (GetOrNewStateObject (D := D) addr).
Proof. unfold GetOrNewStateObject, State_NewStateObject. recording. Qed.

Lemma records_Copy : steps records (State_Copy (D := D)).
Proof. unfold State_Copy, copy_object. recording. Qed.

#[local] Hint Resolve records_account records_Copy : records.

Lemma records_State_Update : steps records (State_Update (D := D)).
Proof.
  unfold State_Update, update_object, DeleteStateObject, StateObject_Sync, sync_storage, SetAddr. recording.
Qed.

(** * The virtual machine *)

Lemma records_on_world {A} (m : SM (D := D) A) : steps records m -> steps records (on_world m).
Proof.
  intros Hm s. unfold on_world. specialize (Hm (vw_world (v_world s))). by destruct (m _) as [o w].
Qed.

#[local] Hint Resolve records_on_world : records.

(** What a nested run writes. *)
Definition run_records (run : runner (D := D)) : Prop := ∀ c vw, records vw (run c vw).2.2.

Lemma records_call run child args : run_records run -> steps records (Closure_Call (D := D) run child args).
Proof.
  intros Hr s. unfold Closure_Call. specialize (Hr (set_Args args child) (v_world s)).
  by destruct (run _ _) as [o [c' w']].
Qed.

#[local] Hint Resolve records_call : records.

Lemma records_storage x : steps records (closure_GetStorage (D := D) x).
Proof. unfold closure_GetStorage, GetStorage, getStorage, GetAddr. recording. apply records_on_world. recording. Qed.

#[local] Hint Resolve records_storage : records.

Lemma records_step_gas op : steps records (step_gas (D := D) op).
Proof.
  unfold step_gas, sstore_gas, require, peek, from_top. recording.
Qed.

Lemma records_exec_arith op : steps records (exec_arith (D := D) op).
Proof. unfold exec_arith, binop, require, popn, pop, push. recording. Qed.

Lemma records_exec_compare op : steps records (exec_compare (D := D) op).
Proof. unfold exec_compare, compare, push_bool, require, popn, pop, push. recording. Qed.

Lemma records_exec_bits op : steps records (exec_bits (D := D) op).
Proof. unfold exec_bits, binop, require, popn, pop, push. recording. Qed.

Lemma records_exec_env vm op : steps records (exec_env (D := D) vm op).
Proof.
  unfold exec_env, copy_range, closure_Address, GetBalance, require, popn, pop, push. recording.
  all: apply records_on_world; recording.
Qed.

Lemma records_exec_stack op : steps records (exec_stack (D := D) op).
Proof. unfold exec_stack, require, popn, pop, push. recording. Qed.

Lemma records_exec_mem op : steps records (exec_mem (D := D) op).
Proof.
  unfold exec_mem, closure_SetStorage, SetStorage, setStorage, modify_message, push_bool, require, popn, pop, push.
  recording. all: apply records_on_world; recording.
Qed.

Lemma records_find_address f addr : steps records (find_address (D := D) f addr).
Proof. induction f as [|f IH]; cbn [find_address]; recording. Qed.

#[local] Hint Resolve records_step_gas records_exec_arith records_exec_compare records_exec_bits
  records_exec_env records_exec_stack records_exec_mem records_find_address : records.

Lemma records_message m : steps records (AddMessage (D := D) m).
Proof. by intros w; apply records_same. Qed.

Lemma records_modify_message i f : steps records (modify_message (D := D) i f).
Proof. by intros w; apply records_same. Qed.

Lemma records_new addr : steps records (State_NewStateObject (D := D) addr).
Proof. by intros w; apply records_same. Qed.

Lemma records_Set s : steps records (State_Set (D := D) s).
Proof. by intros w; apply records_same. Qed.

#[local] Hint Resolve records_message records_modify_message records_new records_Set : records.

Lemma records_exec_create vm run : run_records run -> steps records (exec_create (D := D) vm run).
Proof.
  intros Hr. unfold exec_create, create_contract, closure_Address, require, popn, pop, push. recording.
  all: apply records_on_world; recording.
Qed.

Lemma records_exec_call vm run : run_records run -> steps records (exec_call (D := D) vm run).
Proof.
  intros Hr. unfold exec_call, call_with_gas, closure_Address, require, popn, pop, push. recording.
  all: apply records_on_world; recording.
Qed.

Lemma records_exec_suicide : steps records (exec_suicide (D := D)).
Proof. unfold exec_suicide, require, pop. recording. Qed.

#[local] Hint Resolve records_exec_create records_exec_call records_exec_suicide : records.

Lemma records_exec vm run op : run_records run -> steps records (exec (D := D) vm run op).
Proof. intros Hr. unfold exec, require, popn. recording. Qed.

#[local] Hint Resolve records_exec : records.

Lemma records_vm_step vm run : run_records run -> steps records (step (D := D) vm run).
Proof. intros Hr. unfold step. recording. Qed.

Lemma run_records_with vm loop : steps records loop -> run_records (run_with (D := D) vm loop).
Proof.
  intros Hl c vw. unfold run_with. case_match; [done|].
  specialize (Hl (mkVState c [] [] 0 vw)). by destruct (loop _) as [o s].
Qed.

#[local] Hint Resolve records_vm_step run_records_with : records.

Lemma records_vm_loop f vm : steps records (vm_loop (D := D) f vm).
Proof. induction f as [|f IH]; cbn [vm_loop]; recording. Qed.

Lemma run_records_RunClosure f vm : run_records (RunClosure (D := D) f vm).
Proof. apply run_records_with, records_vm_loop. Qed.

(** * Transitions *)

Lemma records_world {A} (m : SM (D := D) A) : steps records m -> steps records (world m).
Proof.
  intros Hm [T vw]. unfold world, on_vworld, in_world. specialize (Hm (vw_world vw)).
  by destruct (m _) as [o w].
Qed.

Lemma records_put_st f : steps records (put_st (D := D) f).
Proof. intros [T vw]. by apply records_same. Qed.

#[local] Hint Resolve records_world records_put_st : records.

Lemma records_Sender : steps records (st_Sender (D := D)).
Proof. unfold st_Sender. recording. Qed.

Lemma records_Coinbase : steps records (st_Coinbase (D := D)).
Proof. unfold st_Coinbase. recording. Qed.

#[local] Hint Resolve records_Sender records_Coinbase : records.

Lemma records_put l o : steps records (put_object (D := D) l o).
Proof. by intros w; apply records_same. Qed.

#[local] Hint Resolve records_put : records.

Lemma records_deferred {A} (d : TXM (D := D) unit) (m : TXM A) :
  steps records d -> steps records m -> steps records (deferred d m).
Proof.
  intros Hd Hm s. unfold deferred. specialize (Hm s). destruct (m s) as [o s1]. specialize (Hd s1).
  destruct o, (d s1) as [[| |] s2]; try done; by etrans.
Qed.

Lemma records_preCheck : steps records (preCheck (D := D)).
Proof. unfold preCheck, st_BuyGas, st_AddGas. recording. Qed.

Lemma records_RefundGas : steps records (st_RefundGas (D := D)).
Proof. unfold st_RefundGas. recording. Qed.

Lemma records_Eval msg script context : steps records (st_Eval (D := D) msg script context).
Proof.
  unfold st_Eval. recording. intros [T vw]. cbn.
  match goal with |- context [RunClosure ?f ?vm ?c vw] => pose proof (run_records_RunClosure f vm c vw) as Hr;
    destruct (RunClosure f vm c vw) as [o [c' vw']] end. done.
Qed.

#[local] Hint Resolve records_preCheck records_RefundGas records_Eval : records.

Lemma records_MakeStateObject tx : steps records (MakeStateObject (D := D) tx).
Proof. unfold MakeStateObject, MakeContract. recording. Qed.

#[local] Hint Resolve records_MakeStateObject : records.

Lemma records_body : steps records (transition_body (D := D)).
Proof.
  unfold transition_body, st_UseGas, move_value, st_Receiver, transition_message, run_code, revert_to.
  recording.
Qed.

(** A transition writes nothing but code. *)
Lemma records_TransitionState : steps records (TransitionState (D := D)).
Proof.
  unfold TransitionState. recording. apply records_deferred; [apply records_RefundGas|apply records_body].
Qed.

End Writes.
