(* ===== verification/StateManagerSpec.v ===== *)
(** What [Process] guarantees: which blocks become the head, what a rejected block
    leaves behind, the receipts of the transactions, and the rewards. *)

From S2P Require Import Prelude GoVal Big Bytes Errors Rlp Value Wire Db Crypto Nibbles Trie TrieSpec.
From S2P Require Import State Curve Transaction Block Bloom Pow Machine Vm BlockChain Transition.
From S2P Require Import StateSpec TransitionSpec WriteSpec Core TxPool StateManager.

#[export] Instance core_db {D} : HasDb D (Core D) := λ k, db_of (k_chain k).

(** * Which blocks are taken *)

Section Accept.
Context `{HC : Crypto} `{HS : Secp256k1} {D : Type} `{HD : Database D} `{HM : MapOrder}.

Definition is_post (e : effect) : Prop := ∃ tx, e = PostTx (asc "newTx:post") tx.

(** Nothing happens to the chain and the pool, and the only news are about
    transactions. *)
Definition quiet (k k' : Core D) : Prop :=
  c_bc (k_chain k') = c_bc (k_chain k) ∧ k_pool k' = k_pool k ∧
  ∃ es, k_effects k' = k_effects k ++ es ∧ Forall is_post es.

#[local] Instance quiet_preorder : PreOrder quiet.
Proof.
  split.
  - intros k. split; [done|]. split; [done|]. exists []. by rewrite app_nil_r.
  - intros k1 k2 k3 (Hb & Hp & es & He & Hes) (Hb' & Hp' & es' & He' & Hes').
    split; [congruence|]. split; [congruence|]. exists (es ++ es').
    rewrite He', He, <-app_assoc. split; [done|]. by apply Forall_app.
Qed.

(** A change of the environment, the heap, the manager's states or the mark. *)
Lemma quiet_same (k k' : Core D) :
  c_bc (k_chain k') = c_bc (k_chain k) -> k_pool k' = k_pool k -> k_effects k' = k_effects k ->
  quiet k k'.
Proof. intros Hb Hp He. split; [done|]. split; [done|]. exists []. by rewrite app_nil_r. Qed.

Lemma quiet_state {A} s (m : SM (D := D) A) : steps quiet (with_state s m).
Proof.
  intros k. unfold with_state, on_chain, on_state. by destruct (m _); apply quiet_same.
Qed.

Lemma quiet_env {A} (m : st (Env D) A) : steps quiet (on_env m).
Proof. intros k. unfold on_env. by destruct (m _); apply quiet_same. Qed.

Lemma quiet_core : steps quiet get_core.
Proof. by intros k. Qed.

Lemma quiet_attempted b : steps quiet (set_attempted (D := D) b).
Proof. intros k. by apply quiet_same. Qed.

Lemma quiet_transition T s : steps quiet (run_transition (D := D) T s).
Proof.
  intros k. unfold run_transition. destruct (TransitionState _) as [o [T' vw]]. by apply quiet_same.
Qed.

Lemma quiet_post tx : steps quiet (emit (D := D) (PostTx (asc "newTx:post") tx)).
Proof.
  intros k. split; [done|]. split; [done|]. eexists. split; [done|].
  apply Forall_singleton. by exists tx.
Qed.

#[local] Hint Resolve steps_ret steps_lift quiet_state quiet_env quiet_core quiet_attempted
  quiet_transition quiet_post : quiet.

(** [quietly]: every operation of the computation is quiet. *)
Ltac quietly :=
  repeat match goal with
  | |- steps _ (_ ≫= _) => apply steps_bind; [exact _| |intros ?]
  | |- steps _ (let '(_, _) := ?x in _) => destruct x
  | |- steps _ (match ?x with _ => _ end) => destruct x
  | |- steps _ _ => solve [eauto with quiet typeclass_instances]
  end.

Lemma quiet_loop coinbase block parent txs : ∀ i rs handled total s,
  steps quiet (process_loop (D := D) coinbase block parent i txs rs handled total s).
Proof.
  induction txs as [|tx txs IH]; intros i rs handled total s; cbn [process_loop]; [quietly|].
  unfold apply_transaction.
  repeat (first [apply IH | progress quietly | apply steps_ret; exact _]).
Qed.

#[local] Hint Resolve quiet_loop : quiet.

Lemma quiet_ApplyDiff s parent block : steps quiet (ApplyDiff (D := D) s parent block).
Proof. unfold ApplyDiff, ProcessTransactions. quietly. Qed.

Lemma quiet_ValidateBlock block : steps quiet (ValidateBlock (D := D) block).
Proof. unfold ValidateBlock. quietly. all: by intros ?. Qed.

#[local] Hint Resolve quiet_ApplyDiff quiet_ValidateBlock : quiet.

(** What [ValidateBlock] checks, against the parent it finds. *)
Definition sealed_on (previous block : Block) : Prop :=
  Forall (λ uncle, PrevHash uncle = PrevHash previous) (Uncles block) ∧
  0 <= s64 (Time block - Time previous) ∧
  ∃ hash, HashNoNonce block = Ret hash ∧
          Pow_Verify hash (b_Difficulty block) (b_Nonce block) = Ret true.

Lemma check_uncles_None p us :
  check_uncles p us = None -> Forall (λ uncle, PrevHash uncle = PrevHash p) us.
Proof.
  induction us as [|u us IH]; [constructor|]. cbn. case_bool_decide as E; [|done].
  intros H. constructor; auto.
Qed.

Lemma ValidateBlock_ok block k :
  wlp (ValidateBlock block) (λ err k', k' = k ∧ (err = None -> ∃ previous,
    GetBlock (db_of k) (PrevHash block) = Ret (Some previous) ∧
    sealed_on previous block)) k.
Proof.
  unfold ValidateBlock. apply wlp_bind. intros ? ? [= <- <-]. apply wlp_bind, wlp_lift. intros found Hf.
  assert (∀ p, found = Some p -> check_uncles p (Uncles block) = None ->
    wlp (previous ← lift (deref found);
      if s64 (Time block - Time previous) <? 0
      then cur ← lift (deref (CurrentBlock (c_bc (k_chain k))));
           mret (Some (ValidationError (asc "Block timestamp less then prev block "
             ++ decimal (s64 (Time block - Time previous))
             ++ asc " (" ++ decimal (Time block) ++ asc " - " ++ decimal (Time cur) ++ asc ")")))
      else hash ← lift (HashNoNonce block);
           ok ← lift (Pow_Verify hash (b_Difficulty block) (b_Nonce block));
           mret (if ok : bool then None
                 else Some (ValidationError (asc "Block's nonce is invalid (= "
                              ++ Bytes2Hex (b_Nonce block) ++ asc ")"))))
      (λ err k', k' = k ∧ (err = None -> ∃ previous,
         GetBlock (db_of k) (PrevHash block) = Ret (Some previous) ∧
         sealed_on previous block)) k) as Hmain.
  { intros p -> Hus. wlp_steps; [done|]. split; [done|].
    match goal with |- (if ?ok then _ else _) = None -> _ => destruct ok; [|done] end.
    intros _. match goal with H : deref (Some p) = Ret _ |- _ => injection H as <- end. exists p. split; [done|]. split; [by apply check_uncles_None|].
    split; [lia|]. by eexists. }
  destruct found as [p|]; destruct (Uncles block) as [|u us] eqn:Hu.
  - by apply (Hmain p).
  - destruct (check_uncles p (u :: us)) eqn:Hc; [by wlp_steps|by apply (Hmain p)].
  - by cbn.
  - by intros ? ?.
Qed.

(** The chain with the block as its new head. *)
Definition extends (bc : BlockChain) (block : Block) (hash : bytes) (bc' : BlockChain) : Prop :=
  ∃ s, bc' = mkBlockChain (genesisBlock bc) (TD bc + CalculateBlockTD block)
               (u64 (LastBlockNumber bc + 1)) (Some (set_b_state s block)) hash.

(** The chain is the same, up to the objects that the head's state holds. *)
Definition head_state (k k' : Core D) : Prop :=
  c_bc (k_chain k') = c_bc (k_chain k) ∨
  ∃ b s, CurrentBlock (c_bc (k_chain k)) = Some b ∧
    c_bc (k_chain k') = set_head (set_b_state s b) (LastBlockHash (c_bc (k_chain k))) (c_bc (k_chain k)).

#[local] Instance head_state_preorder : PreOrder head_state.
Proof.
  split; [by left|].
  intros k1 k2 k3 [H12 | (b & s & Hb & H12)] [H23 | (b' & s' & Hb' & H23)].
  - left. congruence.
  - right. rewrite H12 in Hb', H23. by exists b', s'.
  - right. exists b, s. split; [done|]. congruence.
  - right. rewrite H12 in Hb', H23. cbn in Hb'. injection Hb' as <-. by exists b, s'.
Qed.

Lemma head_same (k k' : Core D) : c_bc (k_chain k') = c_bc (k_chain k) -> head_state k k'.
Proof. by left. Qed.

Lemma head_current {A} (m : SM (D := D) A) : steps head_state (on_current m).
Proof.
  intros k. unfold on_current, mbind, st_bind. cbn [get_core].
  destruct (CurrentBlock (c_bc (k_chain k))) as [b|] eqn:Hb; cbn; [|by left].
  unfold on_chain, on_state. destruct (m _) as [[a| |] w]; cbn; [|by left..].
  right. by exists b, (w_state w).
Qed.

Lemma quiet_head {A} (m : NM (D := D) A) : steps quiet m -> steps head_state m.
Proof. intros Hm k. destruct (Hm k) as (Hb & _). by apply head_same. Qed.

Lemma head_emit e : steps head_state (emit (D := D) e).
Proof. intros k. by apply head_same. Qed.

Lemma head_pool p : steps head_state (set_pool (D := D) p).
Proof. intros k. by apply head_same. Qed.

Lemma head_db f : steps head_state (on_chain (D := D) (modify_db f)).
Proof. intros k. by apply head_same. Qed.

#[local] Hint Resolve head_current head_emit head_pool head_db : quiet.
#[local] Hint Extern 2 (steps head_state _) => apply quiet_head; solve [eauto with quiet] : quiet.

Lemma head_Validate tx : steps head_state (ValidateTransaction (D := D) tx).
Proof. unfold ValidateTransaction. quietly. Qed.

#[local] Hint Resolve head_Validate : quiet.

Lemma head_remove_loop rest : ∀ s kept, steps head_state (remove_loop (D := D) s kept rest).
Proof.
  induction rest as [|tx rest IH]; intros s kept; cbn [remove_loop];
    repeat (first [apply IH | progress quietly | apply steps_ret; exact _]).
Qed.

Lemma head_RemoveInvalid s : steps head_state (RemoveInvalid (D := D) s).
Proof. unfold RemoveInvalid. apply steps_bind; [exact _|quietly|]. intros k. apply head_remove_loop. Qed.

Lemma head_bloom s : steps head_state (createBloomFilter (D := D) s).
Proof. unfold createBloomFilter. quietly. Qed.

#[local] Hint Resolve head_RemoveInvalid head_bloom : quiet.

Lemma Add_head block k :
  wlp (on_chain (Add (D := D) block)) (λ _ k', ∃ hash, block_Hash block = Ret hash ∧
    c_bc (k_chain k') = set_head block hash
      (set_number (u64 (LastBlockNumber (c_bc (k_chain k)) + 1)) (c_bc (k_chain k)))) k.
Proof.
  intros [] k'. unfold on_chain, Add, writeBlockInfo, mbind, st_bind. cbn.
  destruct (block_Hash block) as [hash| |]; [|done|done]. cbn.
  destruct (block_RlpEncode block) as [data| |]; [|done|done]. cbn.
  intros [= <-]. by exists hash.
Qed.

Lemma CalculateTD_ok block k :
  wlp (CalculateTD (D := D) block) (λ heavier k',
    let bc := c_bc (k_chain k) in
    if heavier : bool
    then 0 < CalculateBlockTD block ∧
         c_bc (k_chain k') = set_TD (TD bc + CalculateBlockTD block) bc
    else CalculateBlockTD block <= 0 ∧ k' = k) k.
Proof.
  unfold CalculateTD, CalculateBlockTD. apply wlp_bind. intros ? ? [= <- <-].
  set (u := fold_left _ (Uncles block) 0).
  destruct (Z.ltb_spec (TD (c_bc (k_chain k))) (TD (c_bc (k_chain k)) + u + b_Difficulty block)).
  - intros h k' [= <- <-]. cbn. split; [lia|]. f_equal. lia.
  - apply wlp_ret. split; [lia|done].
Qed.

(** The node with the block as the last one that has been tried. *)
Definition attempted (block : Block) (k : Core D) : Core D :=
  mkCore (k_chain k) (k_pool k) (k_effects k)
         (mkManager (transState (k_manager k)) (miningState (k_manager k)) (Some block)) (k_stuck k).

(** The steps by which a block proves valid on its parent, from the node [k]: its
    transactions apply to the parent's state, their receipts have its transaction root,
    it passes the checks against the block [previous] that is then found in the database [d] as its parent, and
    the state after the rewards has its root. *)
Inductive valid_block (k : Core D) (parent previous : Block) (d : D) (block : Block) : Prop :=
| valid_steps receipts state state' k1 k2 k3 :
    ApplyDiff (b_state parent) parent block k = (Ret (receipts, None, state), k1) ->
    on_env (CreateTxSha receipts) k1 = (Ret (TxSha block), k2) -> d = db_of k2 ->
    GetBlock d (PrevHash block) = Ret (Some previous) ->
    sealed_on previous block ->
    with_state state (AccumelateRewards block) k2 = (Ret (tt, state'), k3) ->
    State_Cmp (b_state block) state' = true ->
    valid_block k parent previous d block.

Lemma accept_block_ok s block dontReact k :
  wlp (accept_block (D := D) s block dontReact) (λ _ k',
    if 0 <? CalculateBlockTD block
    then ∃ hash, block_Hash block = Ret hash ∧
           extends (c_bc (k_chain k)) block hash (c_bc (k_chain k'))
    else k' = k) k.
Proof.
  unfold accept_block. apply wlp_bind. eapply wlp_mono; [|apply CalculateTD_ok].
  intros [] k1 [Htd Hbc1]; destruct (Z.ltb_spec 0 (CalculateBlockTD block)); try lia;
    [|by apply wlp_ret].
  apply wlp_bind. eapply steps_wlp; [apply quiet_state|]. intros [[] s2] k2 (Hbc2 & _).
  apply wlp_bind. eapply wlp_mono; [|apply Add_head]. intros [] k3 (hash & Hhash & Hbc3).
  apply (steps_wlp head_state); [quietly|]. intros s' k' [Hk' | (b & s'' & Hb & Hk')];
    exists hash; (split; [done|]); rewrite Hk'.
  - exists (b_state block). rewrite Hbc3, Hbc2, Hbc1. by destruct block.
  - exists s''. rewrite Hbc3 in *. cbn in Hb. injection Hb as <-. by rewrite Hbc2, Hbc1.
Qed.

Lemma steps_run {S A} (R : relation S) (m : st S A) k o k' :
  steps R m -> m k = (o, k') -> R k k'.
Proof. intros Hm E. specialize (Hm k). by rewrite E in Hm. Qed.

Lemma process_block_ok parent block dontReact k :
  wlp (process_block (D := D) (b_state parent) parent block dontReact) (λ r k',
    match r.1 with
    | Some _ => quiet k k'
    | None => (∃ previous d, valid_block k parent previous d block) ∧
        if 0 <? CalculateBlockTD block
        then ∃ hash, block_Hash block = Ret hash ∧
               extends (c_bc (k_chain k)) block hash (c_bc (k_chain k'))
        else quiet k k'
    end) k.
Proof.
  unfold process_block. apply wlp_bind. intros [[receipts err] s1] k1 E1.
  pose proof (steps_run _ _ _ _ _ (quiet_ApplyDiff _ _ _) E1) as Hq1.
  destruct err as [e|]; [by wlp_steps|].
  apply wlp_bind. intros txSha k2 E2.
  pose proof (steps_run _ _ _ _ _ (quiet_env _) E2) as Hq2.
  assert (quiet k k2) as Hq by by etrans.
  case_bool_decide as Hsha; cbn [negb]; [|by apply wlp_ret]. subst txSha.
  apply wlp_bind. eapply wlp_mono; [|apply ValidateBlock_ok]. intros err k3 [-> Hv].
  destruct err as [e|]; [by apply wlp_ret|].
  destruct (Hv eq_refl) as (previous & Hget & Hsealed).
  apply wlp_bind. intros [[] s2] k3 E3.
  pose proof (steps_run _ _ _ _ _ (quiet_state _ _) E3) as Hq3.
  assert (quiet k k3) as Hq' by by etrans.
  destruct (State_Cmp (b_state block) s2) eqn:Hroot; cbn [negb]; [|by apply wlp_ret].
  apply wlp_bind. eapply wlp_mono; [|apply accept_block_ok]. intros s' k' Hacc. apply wlp_ret. cbn [fst].
  split; [exists previous, (db_of k2); by econstructor|]. destruct Hq' as (Hbc & Hrest). rewrite <-Hbc.
  destruct (0 <? CalculateBlockTD block); [done|]. subst k'. by split.
Qed.

Lemma Process_ok (k : Core D) (block : Block) (dontReact : bool) :
  let bc := c_bc (k_chain k) in
  wlp (Process (D := D) block dontReact) (λ err k', match err with
  | Some _ => quiet k k'
  | None => ∃ hash, block_Hash block = Ret hash ∧
      (HasBlock (db_of k) hash = true ∧ k' = k ∨
       ∃ parent previous d, GetBlock (db_of k) (PrevHash block) = Ret (Some parent) ∧
         valid_block (attempted block k) parent previous d block ∧
         if 0 <? CalculateBlockTD block
         then extends bc block hash (c_bc (k_chain k')) ∧
              TD (c_bc (k_chain k')) = TD bc + CalculateBlockTD block ∧
              TD bc < TD (c_bc (k_chain k'))
         else quiet k k')
  end) k.
Proof.
  intros bc. unfold Process. apply wlp_bind. intros ? ? [= <- <-].
  change (e_db (c_env (k_chain k))) with (db_of k).
  apply wlp_bind, wlp_lift. intros hash Hhash.
  destruct (HasBlock (db_of k) hash) eqn:Hhas; [apply wlp_ret; exists hash; by auto|].
  destruct (HasBlock (db_of k) (PrevHash block)); cbn [negb]; [|by apply wlp_ret].
  apply wlp_bind. intros [] k0 E0. pose proof (steps_run _ _ _ _ _ (quiet_attempted _) E0) as Hq0.
  assert (k0 = attempted block k) as -> by (by injection E0 as <-).
  apply wlp_bind, wlp_lift. intros found Hfound. apply wlp_bind, wlp_lift. intros parent Hparent.
  destruct found as [p|]; [|done]. injection Hparent as ->.
  apply wlp_bind. eapply wlp_mono; [|apply process_block_ok]. intros [err s] k1 Hk1. cbn [fst] in Hk1.
  apply wlp_bind. eapply steps_wlp; [apply quiet_state|]. intros [[] s'] k2 Hq2. apply wlp_ret.
  destruct err as [e|]; [by do 2 (etrans; [eassumption|])|].
  destruct Hk1 as [(previous & d & Hvalid) Hk1]. exists hash. split; [done|]. right. exists parent, previous, d.
  split; [done|]. split; [done|].
  destruct (0 <? CalculateBlockTD block) eqn:Hpos; [|by do 2 (etrans; [eassumption|])].
  destruct Hk1 as (h & Hh & sx & Hext). assert (h = hash) as -> by congruence.
  destruct Hq2 as (Hbc2 & _). change (c_bc (k_chain (attempted block k))) with bc in Hext.
  rewrite Hbc2, Hext. cbn [TD]. split; [by exists sx|]. split; [done|lia].
Qed.

(** ** What is written *)

Context `{HL : !DatabaseLaws D}.

#[local] Hint Resolve records_lookup records_account records_modify records_write records_State_Update
  records_CreateTxSha records_on_state : records.

Lemma records_with_state {A} s (m : SM (D := D) A) : steps records m -> steps records (with_state s m).
Proof.
  intros Hm k. unfold with_state, on_chain, on_state.
  specialize (Hm (mkWorld (c_env (k_chain k)) (c_heap (k_chain k)) s)). by destruct (m _) as [o w].
Qed.

Lemma records_on_env {A} (m : st (Env D) A) : steps records m -> steps records (on_env m).
Proof. intros Hm k. unfold on_env. specialize (Hm (c_env (k_chain k))). by destruct (m _) as [o e]. Qed.

Lemma records_transition T s : steps records (run_transition (D := D) T s).
Proof.
  intros k. unfold run_transition.
  pose proof (records_TransitionState (T, mkVWorld (mkWorld (c_env (k_chain k)) (c_heap (k_chain k)) s) (k_stuck k))) as Ht.
  by destruct (TransitionState _) as [o [T' vw]].
Qed.

#[local] Hint Resolve records_with_state records_on_env records_transition records_object : records.

Lemma records_loop coinbase block parent txs : ∀ i rs handled total s,
  steps records (process_loop (D := D) coinbase block parent i txs rs handled total s).
Proof.
  induction txs as [|tx txs IH]; intros i rs handled total s; cbn [process_loop]; [recording|].
  unfold apply_transaction, NewStateTransition. recording. apply records_with_state. recording.
Qed.

#[local] Hint Resolve records_loop : records.

Lemma records_ApplyDiff s parent block : steps records (ApplyDiff (D := D) s parent block).
Proof. unfold ApplyDiff, ProcessTransactions. recording. Qed.

Lemma records_rewards block : steps records (AccumelateRewards (D := D) block).
Proof. unfold AccumelateRewards, reward, GetAccount. recording. Qed.

Lemma records_Reset : steps records (State_Reset (D := D)).
Proof.
  unfold State_Reset, StateObject_Reset, State_Empty. recording.
Qed.

#[local] Hint Resolve records_ApplyDiff records_rewards records_Reset : records.

(** The block that [ValidateBlock] compares with is the parent, unless its record has been overwritten. *)
Lemma valid_block_parent k parent previous d block :
  GetBlock (db_of k) (PrevHash block) = Ret (Some parent) -> valid_block k parent previous d block ->
  only_digests (db_of k) d ∧ (previous = parent ∨ overwritten (db_of k) d (PrevHash block)).
Proof.
  intros Hp [rs s s' k1 k2 k3 E1 E2 -> Hg _ _ _].
  assert (only_digests (db_of k) (db_of k2)) as Hd.
  { etrans; [exact (steps_run _ _ _ _ _ (records_ApplyDiff _ _ _) E1)|].
    exact (steps_run _ _ _ _ _ (records_on_env _ (records_CreateTxSha _)) E2). }
  split; [done|]. destruct (GetBlock_after _ _ (PrevHash block) Hd) as [E|]; [|by right].
  left. congruence.
Qed.

(** A block that is not taken leaves the database alone in the same way. *)
Lemma process_block_records s parent block dontReact k :
  wlp (process_block (D := D) s parent block dontReact) (λ r k',
    r.1 ≠ None ∨ CalculateBlockTD block <= 0 -> records k k') k.
Proof.
  unfold process_block. apply wlp_bind. intros [[rs err] s1] k1 E1.
  pose proof (steps_run _ _ _ _ _ (records_ApplyDiff _ _ _) E1) as H1.
  destruct err as [e|]; [by apply wlp_ret|].
  apply wlp_bind. intros sha k2 E2.
  pose proof (steps_run _ _ _ _ _ (records_on_env _ (records_CreateTxSha _)) E2) as H2.
  assert (records k k2) as H12 by by etrans.
  case_bool_decide; cbn [negb]; [|by apply wlp_ret].
  apply wlp_bind. eapply wlp_mono; [|apply ValidateBlock_ok]. intros [e|] k3 [-> _]; [by apply wlp_ret|].
  apply wlp_bind. intros [[] s2] k3 E3.
  pose proof (steps_run _ _ _ _ _ (records_with_state _ _ (records_rewards _)) E3) as H3.
  assert (records k k3) as H13 by by etrans.
  destruct (State_Cmp _ _); cbn [negb]; [|by apply wlp_ret].
  apply wlp_bind. eapply wlp_mono; [|apply accept_block_ok]. intros s3 k4 H4. apply wlp_ret.
  cbn [fst]. intros [?|Hneg]; [done|]. destruct (Z.ltb_spec 0 (CalculateBlockTD block)); [lia|]. by subst k4.
Qed.

Lemma Process_records block dontReact k :
  wlp (Process (D := D) block dontReact) (λ err k',
    err ≠ None ∨ CalculateBlockTD block <= 0 -> records k k') k.
Proof.
  unfold Process. apply wlp_bind. intros ? ? [= <- <-]. apply wlp_bind, wlp_lift. intros hash _.
  destruct (HasBlock _ hash); [by apply wlp_ret|]. destruct (HasBlock _ (PrevHash block)); cbn [negb]; [|by apply wlp_ret].
  apply wlp_bind. intros [] k0 E0. assert (k0 = attempted block k) as -> by (by injection E0 as <-).
  apply wlp_bind, wlp_lift. intros found _. apply wlp_bind, wlp_lift. intros parent _.
  apply wlp_bind. eapply wlp_mono; [|apply process_block_records]. intros [err s] k1 H1. cbn [fst] in H1.
  apply wlp_bind. intros [[] s'] k2 E2.
  pose proof (steps_run _ _ _ _ _ (records_with_state _ _ records_Reset) E2) as H2. apply wlp_ret.
  intros Hr. specialize (H1 Hr). by etrans.
Qed.

(** What [Process] leaves when it does not take the block: the chain, the pool and the
    database, but for code under its digest, are as before, and only transactions are announced. *)
Definition untaken (k k' : Core D) : Prop := quiet k k' ∧ records k k'.

(** C1. Only valid blocks become the head.  Whatever block [Process] is given, in any
    node: when it reports an error, the chain, the pool and the database (but for contract code
    stored under its digest) are as before and nothing has been announced but transactions.
    When it reports none, the block was already known; or its parent is in the database, and
    from the node as it is, with the block noted as attempted, its transactions apply to the
    parent's state, the receipts have the block's transaction root, its uncles are children of its
    grandparent, it is not older than its parent, its nonce is valid, and the state after the
    rewards has the block's root.  (The parent is read again for the checks: it is the same block,
    unless code stored meanwhile has its hash.)  Then, if its difficulty and its uncles' add up to
    more than zero, it is the new head, and the total difficulty has grown by exactly that sum;
    otherwise chain and pool are as before. *)
Theorem Process_sound (k k' : Core D) (block : Block) (dontReact : bool) (err : option error) :
  Process block dontReact k = (Ret err, k') ->
  let bc := c_bc (k_chain k) in
  let bc' := c_bc (k_chain k') in
  match err with
  | Some _ => untaken k k'
  | None => ∃ hash, block_Hash block = Ret hash ∧
      (HasBlock (db_of k) hash = true ∧ k' = k ∨
       ∃ parent previous d, GetBlock (db_of k) (PrevHash block) = Ret (Some parent) ∧
         valid_block (attempted block k) parent previous d block ∧
         (previous = parent ∨ overwritten (db_of k) d (PrevHash block)) ∧
         if 0 <? CalculateBlockTD block
         then extends bc block hash bc' ∧ TD bc' = TD bc + CalculateBlockTD block ∧ TD bc < TD bc'
         else untaken k k')
  end.
Proof.
  intros E bc bc'. pose proof (Process_ok k block dontReact err k' E) as Hok.
  pose proof (Process_records block dontReact k err k' E) as Hr. destruct err as [e|]; [split; auto|].
  destruct Hok as (hash & Hh & Hcase). exists hash. split; [done|].
  destruct Hcase as [|(parent & previous & d & Hp & Hv & Hcase)]; [by left|]. right.
  exists parent, previous, d. split; [done|]. split; [done|].
  split; [by apply (valid_block_parent (attempted block k) parent previous d block)|].
  destruct (Z.ltb_spec 0 (CalculateBlockTD block)); [done|]. split; [done|]. apply Hr. by right.
Qed.

End Accept.

(** * Transactions and receipts *)

Section Receipts.
Context `{HC : Crypto} `{HS : Secp256k1} {D : Type} `{HD : Database D} `{HM : MapOrder}.

(** Errors of a computation that [IsGasLimitErr] does not recognise. *)
Definition other_error (err : option error) : Prop :=
  match err with Some e => IsGasLimitErr e = false | None => True end.
Definition no_gas_limit {S} (m : st S (option error)) : Prop := ∀ s, wlp m (λ err _, other_error err) s.

Lemma no_gas_ret {S} err : other_error err -> no_gas_limit (S := S) (mret err).
Proof. intros He s. by apply wlp_ret. Qed.

Lemma no_gas_bind {S A} (m : st S A) (f : A -> st S (option error)) :
  (∀ a, no_gas_limit (f a)) -> no_gas_limit (m ≫= f).
Proof. intros Hf s. apply wlp_bind. intros a s' _. apply Hf. Qed.

Lemma no_gas_bind_err {S} (m : st S (option error)) (f : option error -> st S (option error)) :
  no_gas_limit m -> (∀ err, other_error err -> no_gas_limit (f err)) -> no_gas_limit (m ≫= f).
Proof.
  intros Hm Hf s. apply wlp_bind. eapply wlp_mono; [|apply Hm]. intros err s' He. by apply Hf.
Qed.

Lemma no_gas_deferred d (m : TXM (D := D) (option error)) : no_gas_limit m -> no_gas_limit (deferred d m).
Proof.
  intros Hm s err s'. unfold deferred. destruct (m s) as [o s1] eqn:E.
  destruct o as [e| |]; [|destruct (d s1) as [[| |] ?]; cbn; congruence|congruence].
  destruct (d s1) as [[| |] s2]; cbn; [|congruence..]. intros [= <- <-]. by apply (Hm s e s1).
Qed.

(** [no_gas]: the error of every branch. *)
Ltac no_gas :=
  repeat match goal with
  | |- no_gas_limit (mret _) => apply no_gas_ret; done
  | H : other_error ?e |- no_gas_limit (mret ?e) => apply no_gas_ret; exact H
  | |- no_gas_limit (deferred _ _) => apply no_gas_deferred
  | |- no_gas_limit (let '(_, _) := ?x in _) => destruct x
  | |- no_gas_limit (match ?x with _ => _ end) => destruct x
  | |- no_gas_limit (_ ≫= _) => apply no_gas_bind; intros ?
  | |- no_gas_limit _ => by intros ? ? ?
  end.

Lemma no_gas_BuyGas : no_gas_limit (st_BuyGas (D := D)).
Proof.
  unfold st_BuyGas. do 3 (apply no_gas_bind; intros ?). case_match; [by no_gas|].
  do 2 (apply no_gas_bind; intros ?). destruct (BuyGas _ _ _) as [co' err] eqn:E.
  assert (other_error err).
  { unfold BuyGas in E. case_match; by injection E as <- <-. }
  no_gas.
Qed.

Lemma no_gas_UseGas g : no_gas_limit (st_UseGas (D := D) g).
Proof. unfold st_UseGas. no_gas. Qed.

Lemma no_gas_preCheck : no_gas_limit (preCheck (D := D)).
Proof.
  unfold preCheck. do 3 (apply no_gas_bind; intros ?).
  destruct (negb _); [apply no_gas_ret; done|apply no_gas_BuyGas].
Qed.

Lemma no_gas_run_code msg r snapshot : no_gas_limit (run_code (D := D) msg r snapshot).
Proof. unfold run_code. no_gas. Qed.

Lemma no_gas_body : no_gas_limit (transition_body (D := D)).
Proof.
  unfold transition_body. do 2 (apply no_gas_bind; intros ?).
  apply no_gas_bind_err; [apply no_gas_UseGas|]. intros [e|] He; [by apply no_gas_ret|].
  apply no_gas_bind; intros ?. apply no_gas_bind_err; [apply no_gas_UseGas|].
  intros [e|] He'; [by apply no_gas_ret|]. no_gas. all: apply no_gas_run_code.
Qed.

Lemma no_gas_TransitionState : no_gas_limit (TransitionState (D := D)).
Proof.
  unfold TransitionState. apply no_gas_bind_err; [apply no_gas_preCheck|].
  intros [e|] He; [by apply no_gas_ret|]. apply no_gas_deferred, no_gas_body.
Qed.

Lemma with_state_wlp {A} s (m : SM (D := D) A) (Q : A -> Prop) k :
  (∀ w, wlp m (λ a _, Q a) w) -> wlp (with_state s m) (λ r _, Q r.1) k.
Proof.
  intros Hm r k'. unfold with_state, on_chain, on_state.
  set (w := mkWorld _ _ _). specialize (Hm w). destruct (m w) as [[a| |] w'] eqn:E; [|done..].
  intros [= <- <-]. by apply (Hm a w').
Qed.

Lemma apply_transaction_ok coinbase block tx s k :
  wlp (apply_transaction (D := D) coinbase block tx s)
    (λ r _, other_error r.1.1 ∧ Z.max 0 r.1.2 <= Z.max 0 (tx_Gas tx)) k.
Proof.
  unfold apply_transaction. apply wlp_bind.
  eapply wlp_mono; [|apply (with_state_wlp _ _ (unpaid tx))].
  - intros [T s'] k1 HT. cbn [fst] in HT. intros r k'. unfold run_transition.
    set (tw := (T, _)). pose proof (TransitionState_from_to tx tw HT) as [_ Hg].
    pose proof (no_gas_TransitionState tw) as He.
    destruct (TransitionState tw) as [o [T' vw]] eqn:E. destruct o as [err| |]; [|done..].
    intros [= <- <-]. cbn [fst snd]. split; [by apply (He err (T', vw))|exact Hg].
  - intros w. apply wlp_bind. eapply wlp_mono; [|apply wlp_any]. intros [cb|] w' _; [|by intros ? ?].
    unfold NewStateTransition. apply wlp_bind. eapply wlp_mono; [|apply wlp_any]. intros o w2 _.
    by apply wlp_ret.
Qed.

(** Receipts whose gas adds up from [t]. *)
Fixpoint cumulative (t : Z) (rs : list Receipt) : Prop :=
  match rs with
  | [] => True
  | r :: rest => t <= CumulativeGasUsed r ∧ cumulative (CumulativeGasUsed r) rest
  end.

Definition gas_total (t : Z) (rs : list Receipt) : Z := fold_left (λ _ r, CumulativeGasUsed r) rs t.

Lemma gas_total_snoc t rs r : gas_total t (rs ++ [r]) = CumulativeGasUsed r.
Proof. unfold gas_total. by rewrite fold_left_app. Qed.

(** The transition gave the error for a wrong nonce. *)
Definition nonce_error (err : option error) : bool :=
  match err with Some e => IsNonceErr e | None => false end.

(** A transaction is left out: its transition gives that error. *)
Definition skips (coinbase : bytes) (block : Block) (tx : Transaction) (s : State) (k : Core D)
    (s' : State) (k' : Core D) : Prop :=
  ∃ err gas, apply_transaction coinbase block tx s k = (Ret (err, gas, s'), k') ∧ nonce_error err = true.

(** A transaction is handled: its transition ends in any other way, it is announced, the state is
    updated, and its receipt has the new root and counts the gas that the transition did not
    leave on top of the total. *)
Definition handles (coinbase : bytes) (block : Block) (total : Z) (tx : Transaction) (s : State) (k : Core D)
    (r : Receipt) (s' : State) (k' : Core D) : Prop :=
  ∃ err gas s1 k1 k2 root,
    apply_transaction coinbase block tx s k = (Ret (err, gas, s1), k1) ∧ nonce_error err = false ∧
    emit (PostTx (asc "newTx:post") tx) k1 = (Ret tt, k2) ∧
    with_state s1 State_Update k2 = (Ret (tt, s'), k') ∧ root_bytes s' = Ret root ∧
    r = mkReceipt tx (CopyBytes root) (total + (tx_Gas tx - gas)).

(** The block's receipt at a position, if it has one, is this one. *)
Definition agrees (block : Block) (n : nat) (r : Receipt) : Prop :=
  ∀ original, receipts block !! n = Some original -> receipt_Cmp original r = true.

(** The transactions, from position [n] of the block on, one after the other: the receipts. *)
Inductive processes (coinbase : bytes) (block : Block) :
    nat -> Z -> list Transaction -> State -> Core D -> list Receipt -> State -> Core D -> Prop :=
| processes_nil n total s k : processes coinbase block n total [] s k [] s k
| processes_skip n total tx txs s k s1 k1 rs s' k' :
    skips coinbase block tx s k s1 k1 ->
    processes coinbase block (S n) total txs s1 k1 rs s' k' ->
    processes coinbase block n total (tx :: txs) s k rs s' k'
| processes_handle n total tx txs s k r s1 k1 rs s' k' :
    handles coinbase block total tx s k r s1 k1 -> agrees block n r ->
    processes coinbase block (S n) (CumulativeGasUsed r) txs s1 k1 rs s' k' ->
    processes coinbase block n total (tx :: txs) s k (r :: rs) s' k'.

(** Processing stops at a transaction whose receipt is not the block's. *)
Definition disagrees (coinbase : bytes) (block : Block) (n : nat) (total : Z) (txs : list Transaction)
    (s : State) (k : Core D) (e : error) (s' : State) (k' : Core D) : Prop :=
  ∃ before tx after rs s1 k1 original r,
    txs = before ++ tx :: after ∧ processes coinbase block n total before s k rs s1 k1 ∧
    handles coinbase block (gas_total total rs) tx s1 k1 r s' k' ∧
    receipts block !! (n + length before)%nat = Some original ∧ receipt_Cmp original r = false ∧
    receipt_error (Z.of_nat (n + length before)) original r = Ret e.

Lemma processes_sublist coinbase block n total txs s k rs s' k' :
  processes coinbase block n total txs s k rs s' k' -> map r_Tx rs `sublist_of` txs.
Proof.
  induction 1 as [|n total tx txs s k s1 k1 rs s' k' _ _ IH|n total tx txs s k r s1 k1 rs s' k' Hh _ _ IH]; [done|by constructor|].
  destruct Hh as (? & ? & ? & ? & ? & ? & _ & _ & _ & _ & _ & ->). by constructor.
Qed.

Lemma processes_cumulative coinbase block n total txs s k rs s' k' :
  processes coinbase block n total txs s k rs s' k' -> Forall (λ tx, 0 <= tx_Gas tx) txs -> cumulative total rs.
Proof.
  induction 1 as [|n total tx txs s k s1 k1 rs s' k' _ _ IH|n total tx txs s k r s1 k1 rs s' k' Hh _ _ IH]; [done| |];
    intros [Htx Htxs]%Forall_cons; [by apply IH|]. split; [|by apply IH].
  destruct Hh as (err & gas & s2 & k2 & k3 & root & E & _ & _ & _ & _ & ->).
  apply apply_transaction_ok in E as [_ Hg]. cbn [fst snd] in Hg. cbn [CumulativeGasUsed]. lia.
Qed.

(** What the loop adds to what it has. *)
Definition loop_ok (coinbase : bytes) (block parent : Block) (n : nat) (txs : list Transaction)
    (rs : list Receipt) (handled : list Transaction) (total : Z) (s : State) (k : Core D)
    (p : processed) (k' : Core D) : Prop :=
  p_unhandled p = [] ∧
  match p_err p with
  | None => ∃ rs', processes coinbase block n total txs s k rs' (p_state p) k' ∧
      p_receipts p = rs ++ rs' ∧ p_handled p = handled ++ map r_Tx rs' ∧
      p_parent p = set_b_GasUsed (gas_total total rs') parent
  | Some e => p_receipts p = [] ∧ p_handled p = [] ∧ p_parent p = parent ∧
      disagrees coinbase block n total txs s k e (p_state p) k'
  end.

Lemma loop_ok_skip coinbase block parent n tx txs rs handled total s k s1 k1 p k' :
  skips coinbase block tx s k s1 k1 -> loop_ok coinbase block parent (S n) txs rs handled total s1 k1 p k' ->
  loop_ok coinbase block parent n (tx :: txs) rs handled total s k p k'.
Proof.
  intros Hs [Hu Hp]. split; [done|]. destruct (p_err p) as [e|].
  - destruct Hp as (Hr & Hh & Hpar & before & tx' & after & rs' & s2 & k2 & o & r & -> & Hb & Hrest).
    do 3 (split; [done|]). exists (tx :: before), tx', after, rs', s2, k2, o, r. split; [done|].
    split; [by eapply processes_skip|]. cbn [length]. by rewrite Nat.add_succ_r.
  - destruct Hp as (rs' & Hb & Hrest). exists rs'. split; [by eapply processes_skip|done].
Qed.

Lemma loop_ok_handle coinbase block parent n tx txs rs handled total s k r s1 k1 p k' :
  handles coinbase block total tx s k r s1 k1 -> agrees block n r ->
  loop_ok coinbase block parent (S n) txs (rs ++ [r]) (handled ++ [tx]) (CumulativeGasUsed r) s1 k1 p k' ->
  loop_ok coinbase block parent n (tx :: txs) rs handled total s k p k'.
Proof.
  intros Hs Ha [Hu Hp]. split; [done|]. destruct (p_err p) as [e|].
  - destruct Hp as (Hr & Hh & Hpar & before & tx' & after & rs' & s2 & k2 & o & r' & -> & Hb & Hrest).
    do 3 (split; [done|]). exists (tx :: before), tx', after, (r :: rs'), s2, k2, o, r'. split; [done|].
    split; [by eapply processes_handle|]. cbn [length]. by rewrite Nat.add_succ_r.
  - destruct Hp as (rs' & Hb & Hr & Hh & Hpar). exists (r :: rs'). split; [by eapply processes_handle|].
    rewrite Hr, Hh, <-!app_assoc. assert (r_Tx r = tx) as <-; [|done].
    by destruct Hs as (? & ? & ? & ? & ? & ? & _ & _ & _ & _ & _ & ->).
Qed.

Lemma process_loop_ok coinbase block parent txs : ∀ n rs handled total s k,
  wlp (process_loop (D := D) coinbase block parent (Z.of_nat n) txs rs handled total s)
    (loop_ok coinbase block parent n txs rs handled total s k) k.
Proof.
  induction txs as [|tx txs IH]; intros n rs handled total s k; cbn [process_loop].
  { apply wlp_ret. split; [done|]. exists []. rewrite !app_nil_r. split; [constructor|done]. }
  replace (Z.of_nat n + 1) with (Z.of_nat (S n)) by lia. rewrite Nat2Z.id.
  apply wlp_bind. intros [[err gas] s1] k1 E1.
  pose proof (apply_transaction_ok _ _ _ _ _ _ _ E1) as [He _]. cbn [fst] in He.
  fold (nonce_error err). destruct (nonce_error err) eqn:Hn.
  { eapply wlp_mono; [|apply IH]. intros p k'. apply loop_ok_skip. by exists err, gas. }
  assert ((match err with Some e => IsGasLimitErr e | None => false end) = false) as ->
    by (by destruct err).
  apply wlp_bind. intros [] k2 E2. apply wlp_bind. intros [[] s2] k3 E3.
  apply wlp_bind, wlp_lift. intros root Hroot.
  set (r := mkReceipt tx (CopyBytes root) (total + (tx_Gas tx - gas))).
  assert (handles coinbase block total tx s k r s2 k3) as Hh by (by exists err, gas, s1, k1, k2, root).
  assert (agrees block n r ->
    wlp (process_loop coinbase block parent (Z.of_nat (S n)) txs (rs ++ [r]) (handled ++ [tx])
           (total + (tx_Gas tx - gas)) s2)
      (loop_ok coinbase block parent n (tx :: txs) rs handled total s k) k3) as Hnext.
  { intros Ha. eapply wlp_mono; [|apply IH]. intros p k'. by apply loop_ok_handle. }
  destruct (receipts block !! n) as [original|] eqn:Ho; [|apply Hnext; intros o; congruence].
  destruct (receipt_Cmp original r) eqn:Hcmp; cbn [negb]; [apply Hnext; intros o; congruence|].
  apply wlp_bind, wlp_lift. intros e Herr. apply wlp_ret. split; [done|]. do 3 (split; [done|]).
  exists [], tx, txs, [], s, k, original, r. split; [done|]. split; [constructor|].
  cbn [length gas_total fold_left]. by rewrite Nat.add_0_r.
Qed.

(** What the answer of [ProcessTransactions] says. *)
Definition processed_ok (coinbase : bytes) (s : State) (block parent : Block) (txs : list Transaction)
    (k : Core D) (p : processed) (k' : Core D) : Prop :=
  p_unhandled p = [] ∧
  match p_err p with
  | None => processes coinbase block 0 0 txs s k (p_receipts p) (p_state p) k' ∧
      p_handled p = map r_Tx (p_receipts p) ∧ p_handled p `sublist_of` txs ∧
      (Forall (λ tx, 0 <= tx_Gas tx) txs -> cumulative 0 (p_receipts p)) ∧
      p_parent p = set_b_GasUsed (gas_total 0 (p_receipts p)) parent
  | Some e => p_receipts p = [] ∧ p_handled p = [] ∧ p_parent p = parent ∧
      disagrees coinbase block 0 0 txs s k e (p_state p) k'
  end.

(** C26. The receipts of a block: whatever the node, the state and the transactions,
    [ProcessTransactions] takes them in their order and leaves out exactly those whose
    transition gives the nonce error.  Each other one, even if its transition fails, is handled: it is announced and gets a receipt,
    with the state's root after it and the total of the gas up to it (which never decreases, for
    gas limits that are not negative).  It fails exactly on the first
    receipt that is not the one the block has at that position, and then returns no receipts and leaves
    the parent alone; when it succeeds, the parent's used gas is the total.
    The list of unhandled transactions is always empty, since
    the case that fills it tests for an error that the transition never gives. *)
Theorem ProcessTransactions_receipts (coinbase : nat) (s : State) (block parent : Block)
    (txs : list Transaction) (k k' : Core D) (p : processed) :
  ProcessTransactions coinbase s block parent txs k = (Ret p, k') ->
  ∃ o, c_heap (k_chain k) !! coinbase = Some o ∧
    processed_ok (so_address o) s block parent txs k p k'.
Proof.
  unfold ProcessTransactions, mbind, st_bind.
  assert (with_state s (get_object coinbase) k = match c_heap (k_chain k) !! coinbase with
    | Some o => (Ret (o, s), k) | None => (Panic, k) end) as ->.
  { destruct k as [[e h bc] pl es m b]. unfold with_state, on_chain, on_state, get_object. cbn.
    by destruct (h !! coinbase). }
  destruct (c_heap (k_chain k) !! coinbase) as [o|]; [|done]. intros E. exists o. split; [done|].
  apply (process_loop_ok (so_address o) block parent txs 0) in E as [Hu Hp]. split; [done|].
  destruct (p_err p) as [e|]; [done|]. destruct Hp as (rs & Hrun & Hr & Hh & Hpar). cbn [app] in Hr, Hh. subst rs.
  rewrite Hh. repeat (split; [done|]). split; [by eapply processes_sublist|].
  split; [by eapply processes_cumulative|done].
Qed.

End Receipts.

(** * Runs *)

#[local] Existing Instances toy_crypto toy_curve list_order.

(** A node whose chain is that of [BlockChain]. *)
Definition short_node : Core MemDatabase := node_with [].

(** The state root of an empty block of the coinbase [cc] on its head. *)
Definition empty_block (root : goval) : Block :=
  mkBlock (block_digest first_block) [] (zeros 32) [xcc] (State_New (Trie_New root))
          1 1400000010 (Some 2) 10 1000000 0 [] [] [] [] [].

Definition empty_block_root : goval :=
  let '(o, k) := ApplyDiff (b_state (block_wire first_block)) (block_wire first_block)
                   (empty_block VNil) short_node in
  match o with
  | Ret (_, _, s) =>
      match (with_state s (AccumelateRewards (empty_block VNil)) k).1 with
      | Ret (_, s') => State_Root s'
      | _ => VNil
      end
  | _ => VNil
  end.

Definition mined_block : Block := empty_block empty_block_root.

Lemma Process_sound_witness :
  let k := short_node in
  let k' := (Process mined_block false k).2 in
  let bc := c_bc (k_chain k) in
  let bc' := c_bc (k_chain k') in
  (LastBlockNumber bc' = 3 ∧ TD bc' = 1) ∧
  ∃ hash, block_Hash mined_block = Ret hash ∧
      (HasBlock (db_of k) hash = true ∧ k' = k ∨
       ∃ parent previous d, GetBlock (db_of k) (PrevHash mined_block) = Ret (Some parent) ∧
         valid_block (attempted mined_block k) parent previous d mined_block ∧
         (previous = parent ∨ overwritten (db_of k) d (PrevHash mined_block)) ∧
         if 0 <? CalculateBlockTD mined_block
         then extends bc mined_block hash bc' ∧ TD bc' = TD bc + CalculateBlockTD mined_block ∧ TD bc < TD bc'
         else untaken k k').
Proof.
  split; [vm_compute; split; reflexivity|].
  apply (Process_sound short_node (Process mined_block false short_node).2 mined_block false None).
  vm_compute. reflexivity.
Defined.

(** The world of [TransitionSpec] as a node. *)
Definition small_node : Core MemDatabase :=
  mkCore (mkChain (mkEnv NewMemDatabase []) (small_heap []) (c_bc short_chain)) [] []
         (mkManager zero_state zero_state None) false.

Definition process_small (txs : list Transaction) : outcome processed * Core MemDatabase :=
  ProcessTransactions 0 small_state (SetReceipts [] [] example_block) example_block txs small_node.

Definition no_answer : processed := mkProcessed [] [] [] small_state example_block None.

Lemma ProcessTransactions_receipts_witness :
  let r := process_small [small_tx; small_tx] in
  map CumulativeGasUsed (p_receipts (ret_or no_answer r.1)) = [510] ∧
  ∃ o, c_heap (k_chain small_node) !! 0%nat = Some o ∧
    processed_ok (so_address o) small_state (SetReceipts [] [] example_block) example_block
      [small_tx; small_tx] small_node (ret_or no_answer r.1) r.2.
Proof.
  split; [vm_compute; reflexivity|].
  apply (ProcessTransactions_receipts 0 small_state (SetReceipts [] [] example_block) example_block
           [small_tx; small_tx] small_node (process_small [small_tx; small_tx]).2).
  vm_compute. reflexivity.
Defined.

(** A transaction with more gas than the coinbase's pool has left. *)
Definition greedy_tx : Transaction :=
  signed (NewTransactionMessage receiver_address 1000 20000 1 []).

(** What the state of an answer says of an account. *)
Definition account_in (r : outcome processed * Core MemDatabase) (addr : bytes) : option (Z * Z) :=
  match r.1 with
  | Ret p => l ← stateObjects (p_state p) !! Address addr;
             o ← c_heap (k_chain r.2) !! l; Some (Balance o, Nonce o)
  | _ => None
  end.

(** A rejected transaction is still part of the block: one whose gas the
    coinbase's pool does not have is not executed and not paid for, and its
    nonce is not used, but it is handled, gets a receipt, and its whole gas
    limit counts as used. *)
Theorem rejected_transaction_gets_receipt :
  let r := process_small [greedy_tx] in
  let p := ret_or no_answer r.1 in
  p_handled p = [greedy_tx] ∧ p_unhandled p = [] ∧ p_err p = None ∧
  map r_Tx (p_receipts p) = [greedy_tx] ∧ map CumulativeGasUsed (p_receipts p) = [20000] ∧
  b_GasUsed (p_parent p) = 20000 ∧
  account_in r sender_address = Some (100000, 0) ∧
  account_in r receiver_address = Some (0, 0) ∧
  account_in r [xcc] = Some (0, 0).
Proof. vm_compute. repeat split. Qed.
