(* ===== verification/Pipe.v ===== *)
(** [ethpipe]: what user interfaces see of the node ([pipe.go], [world.go],
    [object.go], [config.go], [vm_env.go], [ethutil/script.go]).

    A state object is a pointer: [World] hands out those of the current block's
    state, and makes one for an address that has none.  Executing code runs on
    a copy of the state that the pipe keeps.  The Mutan compiler is not part of
    the repository; it is an argument. *)

From S2P Require Import Prelude GoVal Big Bytes Errors Rlp Value Net Text Wire Db Crypto Nibbles Trie.
From S2P Require Import State Curve Transaction Block Bloom Pow Machine Vm BlockChain Transition.
From S2P Require Import Core TxPool StateManager.

(** ** Compiling *)

(** ethutil/script.go, Compile. [mutan] answers with the code and the errors, of
    which some may be nil; a script with another language's mark gives nothing. *)
Definition Compile (mutan : bytes -> bytes * list (option bytes)) (script : bytes) : error + bytes :=
  if 2 <? zlen script then
    let line := default [] (head (Split script x0a)) in
    if (1 <? zlen line) && bool_decide (take 2 line = asc "#!") then inr []
    else
      let '(byteCode, errors) := mutan script in
      match errors with
      | [] => inr byteCode
      | _ => inl (Errorf (concat (map (default []) errors)))
      end
  else inr [].

Section Pipe.
Context `{Crypto} `{Secp256k1} {D : Type} `{Database D} `{MapOrder}.
Variable mutan : bytes -> bytes * list (option bytes).

(** ethpipe/pipe.go, Pipe. The node, the state that executions run on, and the
    queue of the transaction pool. *)
Record Pipe := mkPipe {
  p_node : Core D;
  Vm_State : option State;
  p_queue : list Transaction;
}.

Definition PM : Type -> Type := st Pipe.

Definition get_pipe : PM Pipe := λ p, (Ret p, p).
Definition on_pnode {A} (m : NM (D := D) A) : PM A := λ p,
  let '(o, k) := m (p_node p) in (o, mkPipe k (Vm_State p) (p_queue p)).
Definition set_Vm_State (s : State) : PM unit := λ p, (Ret tt, mkPipe (p_node p) (Some s) (p_queue p)).
Definition queue (tx : Transaction) : PM unit := λ p,
  (Ret tt, mkPipe (p_node p) (Vm_State p) (QueueTransaction tx (p_queue p))).

(** An operation on the current state, which is that of [World.State]. *)
Definition on_world_state {A} (m : SM A) : PM A := on_pnode (on_current m).

(** ** The world *)

(** ethpipe/world.go, World.Get. The pointer to an object that holds the pointer:
    it is never nil itself. *)
Definition World_Get (addr : bytes) : PM (option nat) := on_world_state (GetStateObject addr).

(** ethpipe/world.go, World.safeGet. *)
Definition safeGet (addr : bytes) : PM nat :=
  object ← on_world_state (GetStateObject addr);
  match object with
  | Some o => mret o
  | None => on_world_state (new_object (NewStateObject addr))
  end.

(** ethpipe/object.go, Object.Storage. *)
Definition Storage (object : nat) (addr : bytes) : PM goval := on_world_state (GetStorage object (BigD addr)).

(** ethpipe/object.go, Object.StorageString. *)
Definition StorageString (object : nat) (str : bytes) : PM goval :=
  if IsHex str then Storage object (Hex2Bytes (drop 2 str)) else Storage object (RightPadBytes str 32).

(** ethpipe/object.go, Object.StorageValue. *)
Definition StorageValue (object : nat) (addr : goval) : PM goval := Storage object (Value_Bytes addr).

(** ethpipe/config.go 5-5, cnfCtr. *)
Definition cnfCtr : bytes := Hex2Bytes (asc "661005d2720d855f1d9976f88bb10c1a3398c77f").

(** ethpipe/config.go, Config.Get. *)
Definition Config_Get (name : bytes) : PM nat :=
  configCtrl ← safeGet cnfCtr;
  if bool_decide (name = asc "DnsReg") then
    objectAddr ← on_world_state (GetStorage configCtrl (BigD [x00]));
    object ← safeGet (Value_Bytes objectAddr);
    domainAddr ← StorageString object (asc "DnsReg");
    safeGet (Value_Bytes domainAddr)
  else
    let addr := if bool_decide (name = asc "NameReg") then [x00] else RightPadBytes name 32 in
    objectAddr ← on_world_state (GetStorage configCtrl (BigD addr));
    safeGet (Value_Bytes objectAddr).

(** ethpipe/config.go, Config.Exist. *)
Definition Config_Exist : PM bool := _ ← World_Get cnfCtr; mret true.

(** ** Accounts *)

(** ethpipe/pipe.go, Pipe.Balance. *)
Definition Pipe_Balance (addr : bytes) : PM goval :=
  object ← safeGet addr; o ← on_world_state (get_object object); mret (NewValue (VBig (Balance o))).

(** ethpipe/pipe.go, Pipe.Nonce. *)
Definition Pipe_Nonce (addr : bytes) : PM Z :=
  object ← safeGet addr; o ← on_world_state (get_object object); mret (Nonce o).

(** ethpipe/pipe.go, Pipe.Storage. *)
Definition Pipe_Storage (addr storageAddr : bytes) : PM goval :=
  object ← safeGet addr; on_world_state (GetStorage object (BigD storageAddr)).

(** ethpipe/pipe.go, Pipe.Exists. *)
Definition Exists (addr : bytes) : PM bool := _ ← World_Get addr; mret true.

(** ethpipe/pipe.go, Pipe.Block. *)
Definition Pipe_Block (hash : bytes) : PM (option Block) :=
  k ← on_pnode get_core; lift (GetBlock (e_db (c_env (k_chain k))) hash).

(** ethpipe/pipe.go, Pipe.ToAddress. *)
Definition ToAddress (priv : bytes) : outcome bytes :=
  match NewKeyPairFromSec priv with None => Ret [] | Some kp => KeyPair_Address kp end.

(** ** Executing *)

(** ethpipe/vm_env.go 16-34, NewEnv. What the environment answers. *)
Definition pipe_NewEnv (block : Block) (value : Z) (sender : bytes) : outcome Environment :=
  hash ← block_Hash block;
  Ret (mkEnvironment sender (b_Number block) (PrevHash block) (b_Coinbase block) (Time block) (b_Difficulty block) value hash).

Definition empty_message : Message := mkMessage [] [] [] [] 0 [] 0 [] [] None 0 [].

(** A run on the pipe's state.  Its message belongs to no manifest: it is put
    behind the others for the run and taken away after it. *)
Definition run_closure (env : Environment) (caller : bytes) (object : nat) (code data : bytes) (gas price : Z)
    (state : State) : PM (bytes * option error) := λ p,
  let k := p_node p in
  let c := k_chain k in
  let n := length (Messages (s_manifest state)) in
  let state := set_manifest (mkManifest (Messages (s_manifest state) ++ [empty_message])) state in
  let closure := set_Args data (NewClosure n caller object code gas price) in
  let '(o, (_, vw)) := RunClosure (run_fuel gas) (Vm_New env) closure
                         (mkVWorld (mkWorld (c_env c) (c_heap c) state) (k_stuck k)) in
  let w := vw_world vw in
  let state := set_manifest (mkManifest (delete n (Messages (s_manifest (w_state w))))) (w_state w) in
  (o, mkPipe (mkCore (mkChain (w_env w) (w_heap w) (c_bc c)) (k_pool k) (k_effects k) (k_manager k) (vw_stuck vw))
             (Some state) (p_queue p)).

(** ethpipe/pipe.go, Pipe.ExecuteObject. The state is copied once; the object
    stays the one of the current state. *)
Definition ExecuteObject (object : nat) (data : bytes) (value gas price : goval) : PM (bytes * option error) :=
  k ← on_pnode get_core;
  block ← lift (deref (CurrentBlock (c_bc (k_chain k))));
  p ← get_pipe;
  state ← (match Vm_State p with Some s => mret s | None => on_pnode copy_current end);
  let initiator := so_address (NewStateObject [x00]) in
  env ← lift (pipe_NewEnv block (Value_BigInt value) initiator);
  o ← on_world_state (get_object object);
  run_closure env initiator object (Code o) data (Value_BigInt gas) (Value_BigInt price) state.

(** ethpipe/pipe.go, Pipe.Execute. *)
Definition Execute (addr data : bytes) (value gas price : goval) : PM (bytes * option error) :=
  object ← safeGet addr; ExecuteObject object data value gas price.

(** ** Transactions *)

(** An operation on the manager's state for transactions. *)
Definition on_trans {A} (m : SM A) : PM A := on_pnode (
  state ← TransState;
  '(a, state) ← with_state state m;
  _ ← set_manager (λ m, mkManager state (miningState m) (lastAttemptedBlock m));
  mret a).

(** The items of a message, one to a line. *)
Fixpoint format_lines (lines : list bytes) : outcome bytes :=
  match lines with
  | [] => Ret []
  | line :: r => d ← FormatData line; rest ← format_lines r; Ret (d ++ rest)
  end.

(** ethpipe/pipe.go 102-125, Pipe.Transact. The transaction; a nil recipient
    creates a contract. *)
Definition make_transaction (rec : option bytes) (value gas price : goval) (data : bytes) : outcome (error + Transaction) :=
  match rec with
  | None =>
      Ret (match Compile mutan data with
           | inl err => inl err
           | inr script => inr (NewContractCreationTx (Value_BigInt value) (Value_BigInt gas) (Value_BigInt price) script)
           end)
  | Some _ =>
      data ← StringToByteFunc data (λ s, format_lines (Split s x0a));
      Ret (inr (NewTransactionMessage [] (Value_BigInt value) (Value_BigInt gas) (Value_BigInt price) data))
  end.

Definition set_tx_Nonce (n : Z) (tx : Transaction) : Transaction :=
  mkTx n (tx_Recipient tx) (tx_Value tx) (tx_Gas tx) (tx_GasPrice tx) (tx_Data tx) (tx_v tx) (tx_r tx) (tx_s tx)
       (tx_contractCreation tx).

(** ethpipe/pipe.go 127-134, Pipe.Transact. The nonce, the signature, the queue. *)
Definition send (key : KeyPair) (tx : Transaction) : PM Transaction :=
  addr ← lift (KeyPair_Address key);
  acc ← on_trans (GetOrNewStateObject addr);
  o ← on_trans (get_object acc);
  let tx := set_tx_Nonce (Nonce o) tx in
  _ ← on_trans (modify_object acc (λ o, set_Nonce (u64 (Nonce o + 1)) o));
  _ ← on_trans (UpdateStateObject acc);
  tx ← lift (Sign tx (PrivateKey key));
  _ ← queue tx;
  mret tx.

(** ethpipe/pipe.go, Pipe.Transact. *)
Definition Transact (key : KeyPair) (rec : option bytes) (value gas price : goval) (data : bytes) : PM (error + bytes) :=
  tx ← lift (make_transaction rec value gas price data);
  match tx with
  | inl err => mret (inl err)
  | inr tx =>
      tx ← send key tx;
      match rec with
      | None => addr ← lift (CreationAddress tx); mret (inr addr)
      | Some _ => mret (inr (tx_Hash tx))
      end
  end.

(** ethpipe/pipe.go, Pipe.TransactString. Hex digits that do not decode are a nil
    slice. *)
Definition TransactString (key : KeyPair) (rec : bytes) (value gas price : goval) (data : bytes) : PM (error + bytes) :=
  reg ← Config_Get (asc "NameReg");
  v ← StorageString reg rec;
  let addr := Value_Bytes v in
  let hash := if 0 <? zlen addr then Some addr
              else if IsHex rec then hex_decode (drop 2 rec) else hex_decode rec in
  Transact key hash value gas price data.

(** ethpipe/pipe.go, Pipe.CompileMutan. *)
Definition CompileMutan (code : bytes) : error + bytes := Compile mutan code.

End Pipe.
Arguments Pipe D : clear implicits.
Arguments mkPipe {D}.
Arguments p_node {D}.
Arguments Vm_State {D}.
Arguments p_queue {D}.
