(* ===== verification/JSPipe.v ===== *)
(** The pipe for scripts, [ethpipe/js_pipe.go] and [js_types.go]: the same
    operations with texts in and out.  The structures that are handed out are
    records of texts, with their encoding as JSON.  The goroutine of a
    filter is a function from the event it receives to its calls. *)

From S2P Require Import Prelude GoVal Big Bytes Errors Rlp Value Net Text Json Wire Db Crypto Nibbles Trie Opcodes.
From S2P Require Import State Curve Transaction Block Bloom Pow Machine Vm BlockChain Transition.
From S2P Require Import Core TxPool StateManager Filter Pipe.

(** * Data *)

(** ethpipe/js_types.go, JSTransaction. *)
Record JSTransaction := mkJSTransaction {
  jt_ref : Transaction;
  jt_Value : bytes; jt_Gas : bytes; jt_GasPrice : bytes;
  jt_Hash : bytes; jt_Address : bytes; jt_Sender : bytes;
  jt_RawData : bytes; jt_Data : bytes;
  jt_Contract : bool; jt_CreatesContract : bool;
  jt_Confirmations : Z;
}.

(** ethpipe/js_types.go, JSBlock. The transactions are a text of their own. *)
Record JSBlock := mkJSBlock {
  jb_ref : Block;
  jb_Number : Z;
  jb_Hash : bytes;
  jb_Transactions : bytes;
  jb_Time : Z;
  jb_Coinbase : bytes;
  jb_Name : bytes;
  jb_GasLimit : bytes;
  jb_GasUsed : bytes;
}.

(** ethpipe/js_types.go, JSKey. *)
Record JSKey := mkJSKey { jk_Address : bytes; jk_PrivateKey : bytes; jk_PublicKey : bytes }.

(** ethpipe/js_types.go, JSReceipt. *)
Record JSReceipt := mkJSReceipt { jr_CreatedContract : bool; jr_Address : bytes; jr_Hash : bytes; jr_Sender : bytes }.

(** ethpipe/js_types.go, JSMessage. *)
Record JSMessage := mkJSMessage {
  jm_To : bytes; jm_From : bytes; jm_Input : bytes; jm_Output : bytes; jm_Path : Z; jm_Origin : bytes;
  jm_Timestamp : Z; jm_Coinbase : bytes; jm_Block : bytes; jm_Number : Z; jm_Value : bytes;
}.

(** ethpipe/js_types.go, NewJSMessage. The coinbase is the origin. A message without a
    number panics. *)
Definition NewJSMessage (message : Message) : outcome JSMessage :=
  number ← deref (m_Number message);
  Ret (mkJSMessage (Bytes2Hex (m_To message)) (Bytes2Hex (m_From message)) (Bytes2Hex (m_Input message))
    (Bytes2Hex (m_Output message)) (s32 (m_Path message)) (Bytes2Hex (m_Origin message))
    (s32 (m_Timestamp message)) (Bytes2Hex (m_Origin message)) (Bytes2Hex (m_Block message))
    (s32 (big_Int64 number)) (decimal (m_Value message))).

(** The names of the fields in the texts; what a structure refers to has none. *)
Definition tx_json (t : JSTransaction) : json :=
  JObj [(asc "value", JStr (jt_Value t)); (asc "gas", JStr (jt_Gas t)); (asc "gasPrice", JStr (jt_GasPrice t));
        (asc "hash", JStr (jt_Hash t)); (asc "address", JStr (jt_Address t)); (asc "sender", JStr (jt_Sender t));
        (asc "rawData", JStr (jt_RawData t)); (asc "data", JStr (jt_Data t));
        (asc "isContract", JBool (jt_Contract t)); (asc "createsContract", JBool (jt_CreatesContract t));
        (asc "confirmations", JNum (jt_Confirmations t))].

Definition block_json (b : JSBlock) : json :=
  JObj [(asc "number", JNum (jb_Number b)); (asc "hash", JStr (jb_Hash b));
        (asc "transactions", JStr (jb_Transactions b)); (asc "time", JNum (jb_Time b));
        (asc "coinbase", JStr (jb_Coinbase b)); (asc "name", JStr (jb_Name b));
        (asc "gasLimit", JStr (jb_GasLimit b)); (asc "gasUsed", JStr (jb_GasUsed b))].

Definition key_json (k : JSKey) : json :=
  JObj [(asc "address", JStr (jk_Address k)); (asc "privateKey", JStr (jk_PrivateKey k));
        (asc "publicKey", JStr (jk_PublicKey k))].

Definition receipt_json (r : JSReceipt) : json :=
  JObj [(asc "createdContract", JBool (jr_CreatedContract r)); (asc "address", JStr (jr_Address r));
        (asc "hash", JStr (jr_Hash r)); (asc "sender", JStr (jr_Sender r))].

Definition message_json (m : JSMessage) : json :=
  JObj [(asc "to", JStr (jm_To m)); (asc "from", JStr (jm_From m)); (asc "input", JStr (jm_Input m));
        (asc "output", JStr (jm_Output m)); (asc "path", JNum (jm_Path m)); (asc "origin", JStr (jm_Origin m));
        (asc "timestamp", JNum (jm_Timestamp m)); (asc "coinbase", JStr (jm_Coinbase m));
        (asc "block", JStr (jm_Block m)); (asc "number", JNum (jm_Number m)); (asc "value", JStr (jm_Value m))].

(** ethpipe/js_types.go, NewJSReciept. *)
Definition NewJSReciept (contractCreation : bool) (creationAddress hash address : bytes) : JSReceipt :=
  mkJSReceipt contractCreation (Bytes2Hex creationAddress) (Bytes2Hex hash) (Bytes2Hex address).

(** ethpipe/js_types.go, PReceipt. *)
Record PReceipt := mkPReceipt { pr_CreatedContract : bool; pr_Address : bytes; pr_Hash : bytes; pr_Sender : bytes }.

(** ethpipe/js_types.go, NewPReciept. *)
Definition NewPReciept (contractCreation : bool) (creationAddress hash address : bytes) : PReceipt :=
  mkPReceipt contractCreation (Bytes2Hex creationAddress) (Bytes2Hex hash) (Bytes2Hex address).

(** ethchain/state_manager.go 25-34, Peer. What a peer answers; the time of the last message
    in seconds. *)
Record ChainPeer := mkChainPeer {
  cp_Inbound : bool; cp_LastSend : Z; cp_LastPong : Z; cp_Host : bytes; cp_Port : Z; cp_Version : bytes;
  cp_PingTime : bytes; cp_Connected : Z;
}.

(** What the pipe for scripts asks the node for, besides the chain. *)
Record EthManager := mkEthManager {
  em_KeyPair : option KeyPair;
  em_PeerCount : Z;
  em_IsMining : bool;
  em_IsListening : bool;
  em_Peers : list ChainPeer;
}.

(** ethpipe/js_types.go 137-147, JSPeer. *)
Record JSPeer := mkJSPeer {
  jp_ref : ChainPeer; jp_Inbound : bool; jp_LastSend : Z; jp_LastPong : Z; jp_Ip : bytes; jp_Port : Z;
  jp_Version : bytes; jp_Latency : bytes;
}.

(** ethpipe/js_types.go, NewJSPeer. *)
Definition NewJSPeer (peer : ChainPeer) : JSPeer :=
  let ipAddress := Join (map (λ i, decimal (b2z i)) (cp_Host peer)) (asc ".") in
  mkJSPeer peer (cp_Inbound peer) (cp_LastSend peer) (cp_LastPong peer) ipAddress (cp_Port peer)
    (cp_Version peer) (cp_PingTime peer).

(** ethpipe/js_pipe.go, JSPipe.Peers. Those that are connected. *)
Definition JS_Peers (obj : EthManager) : list JSPeer :=
  map NewJSPeer (filter (λ p, cp_Connected p ≠ 0) (em_Peers obj)).

(** ethpipe/js_pipe.go, JSPipe.PeerCount. *)
Definition PeerCount (obj : EthManager) : Z := em_PeerCount obj.

(** ethpipe/js_pipe.go, JSPipe.IsMining. *)
Definition IsMining (obj : EthManager) : bool := em_IsMining obj.

(** ethpipe/js_pipe.go, JSPipe.IsListening. *)
Definition IsListening (obj : EthManager) : bool := em_IsListening obj.

(** [bytes.Trim] of zero bytes. *)
Fixpoint trim_left (b : bytes) : bytes :=
  match b with [] => [] | c :: r => if bool_decide (c = x00) then trim_left r else b end.
Definition trim_zeros (b : bytes) : bytes := reverse (trim_left (reverse (trim_left b))).

(** ethpipe/js_pipe.go, JSPipe.ToAscii. *)
Definition ToAscii (str : bytes) : bytes := asc "0x" ++ Bytes2Hex (RightPadBytes str 32).

(** ethpipe/js_pipe.go, JSPipe.FromAscii. *)
Definition FromAscii (str : bytes) : bytes :=
  let str := if IsHex str then drop 2 str else str in
  trim_zeros (Hex2Bytes str).

(** ethpipe/js_pipe.go, JSPipe.FromNumber. *)
Definition FromNumber (str : bytes) : bytes :=
  let str := if IsHex str then drop 2 str else str in
  decimal (BigD (Hex2Bytes str)).

(** ethpipe/js_pipe.go, JSPipe.NumberToHuman. *)
Definition NumberToHuman (balance : bytes) : bytes := CurrencyToString (Big balance).

Section JSPipe.
Context `{Crypto} `{Secp256k1} {D : Type} `{Database D} `{MapOrder}.
Variable mutan : bytes -> bytes * list (option bytes).
Variable pubkey_error : bytes -> error.

(** ethpipe/js_types.go, NewJSTx. *)
Definition NewJSTx (tx : Transaction) : outcome JSTransaction :=
  let receiver := Bytes2Hex (tx_Recipient tx) in
  receiver ← (if bool_decide (receiver = Bytes2Hex (zeros 20))
              then Bytes2Hex <$> CreationAddress tx else Ret receiver);
  sender ← Sender tx;
  data ← (if CreatesContract tx
          then asm ← Disassemble (tx_Data tx); Ret (Join (default [] asm) [x0a])
          else Ret (Bytes2Hex (tx_Data tx)));
  Ret (mkJSTransaction tx (CurrencyToString (tx_Value tx)) (decimal (tx_Gas tx)) (decimal (tx_GasPrice tx))
         (Bytes2Hex (tx_Hash tx)) receiver (Bytes2Hex sender) (Bytes2Hex (tx_Data tx)) data
         (CreatesContract tx) (CreatesContract tx) 0).

Fixpoint js_txs (txs : list Transaction) : outcome (list JSTransaction) :=
  match txs with [] => Ret [] | tx :: r => t ← NewJSTx tx; ts ← js_txs r; Ret (t :: ts) end.

(** ethpipe/js_types.go, NewJSBlock. *)
Definition NewJSBlock (block : option Block) : outcome (option JSBlock) :=
  match block with
  | None => Ret None
  | Some block =>
      ptxs ← js_txs (transactions block);
      number ← deref (b_Number block);
      hash ← block_Hash block;
      let txJson := Marshal (JSlice (map tx_json ptxs)) in
      Ret (Some (mkJSBlock block (s64 (big_Uint64 number)) (Bytes2Hex hash) txJson (Time block)
                   (Bytes2Hex (b_Coinbase block)) [] (decimal (GasLimit block)) (decimal (b_GasUsed block))))
  end.

(** ethpipe/js_types.go, JSBlock.GetTransaction. *)
Definition JSBlock_GetTransaction (self : JSBlock) (hash : bytes) : outcome (option JSTransaction) :=
  match GetTransaction (jb_ref self) (Hex2Bytes hash) with
  | None => Ret None
  | Some tx => t ← NewJSTx tx; Ret (Some t)
  end.

(** ethpipe/js_types.go, NewJSKey. *)
Definition NewJSKey (key : KeyPair) : outcome JSKey :=
  a ← KeyPair_Address key; Ret (mkJSKey (Bytes2Hex a) (Bytes2Hex (PrivateKey key)) (Bytes2Hex (kp_PublicKey key))).

(** ethpipe/js_pipe.go, JSPipe.Key. A manager without a key has a nil pair. *)
Definition JS_Key (obj : EthManager) : outcome JSKey := key ← deref (em_KeyPair obj); NewJSKey key.

(** ethpipe/js_pipe.go, JSPipe.CoinBase. *)
Definition CoinBase (obj : EthManager) : outcome bytes :=
  key ← deref (em_KeyPair obj); Bytes2Hex <$> KeyPair_Address key.

(** ethpipe/js_pipe.go, JSPipe.BlockByHash. *)
Definition BlockByHash (strHash : bytes) : PM (D := D) (option JSBlock) :=
  block ← Pipe_Block (Hex2Bytes strHash); lift (NewJSBlock block).

(** ethpipe/js_pipe.go, JSPipe.BlockByNumber. With fuel for the walk down the
    chain; a negative number other than -1 is a large one. *)
Definition BlockByNumber (fuel : nat) (num : Z) : PM (D := D) (option JSBlock) :=
  k ← on_pnode get_core;
  let bc := c_bc (k_chain k) in
  if num =? -1 then lift (NewJSBlock (CurrentBlock bc))
  else
    block ← lift (GetBlockByNumber fuel (e_db (c_env (k_chain k))) bc (u64 num));
    lift (NewJSBlock block).

(** What scripts pass as a block: a number of one of two types (a float with its
    integer part), a hash, or something else. *)
Inductive block_arg := BInt32 (n : Z) | BFloat64 (n : Z) | BString (s : bytes) | BOther.

(** ethpipe/js_pipe.go, JSPipe.Block. *)
Definition JS_Block (fuel : nat) (v : block_arg) : PM (D := D) (option JSBlock) :=
  match v with
  | BInt32 n => BlockByNumber fuel n
  | BString str => BlockByHash str
  | BFloat64 f => BlockByNumber fuel (s32 f)
  | BOther => mret None
  end.

(** ethpipe/js_pipe.go, JSPipe.StateObject. *)
Definition JS_StateObject (addr : bytes) : PM (D := D) nat := safeGet (Hex2Bytes addr).

(** ethpipe/js_pipe.go, JSPipe.BalanceAt. *)
Definition BalanceAt (addr : bytes) : PM (D := D) bytes :=
  object ← safeGet (Hex2Bytes addr); o ← on_world_state (get_object object); mret (decimal (Balance o)).

(** ethpipe/js_pipe.go, JSPipe.StorageAt. *)
Definition StorageAt (addr storageAddr : bytes) : PM (D := D) bytes :=
  object ← safeGet (Hex2Bytes addr);
  storage ← Storage object (Hex2Bytes storageAddr);
  mret (decimal (Value_BigInt storage)).

(** ethpipe/js_pipe.go, JSPipe.TxCountAt. *)
Definition TxCountAt (address : bytes) : PM (D := D) Z :=
  object ← safeGet (Hex2Bytes address); o ← on_world_state (get_object object); mret (s64 (Nonce o)).

(** ethpipe/js_pipe.go, JSPipe.IsContract. *)
Definition JS_IsContract (address : bytes) : PM (D := D) bool :=
  object ← safeGet (Hex2Bytes address); o ← on_world_state (get_object object); mret (0 <? zlen (Code o)).

(** ethpipe/js_pipe.go, JSPipe.SecretToAddress. *)
Definition SecretToAddress (key : bytes) : outcome bytes :=
  match NewKeyPairFromSec (Hex2Bytes key) with
  | None => Ret []
  | Some kp => Bytes2Hex <$> KeyPair_Address kp
  end.

(** ethpipe/js_pipe.go 122-125, KeyVal. *)
Record KeyVal := mkKeyVal { kv_Key : bytes; kv_Value : bytes }.

Definition keyval_json (kv : KeyVal) : json :=
  JObj [(asc "key", JStr (kv_Key kv)); (asc "value", JStr (kv_Value kv))].

(** ethpipe/js_pipe.go 130-133, JSPipe.EachStorage. The pairs; a value is decoded again. *)
Definition storage_pairs (kvs : list (bytes * goval)) : outcome (list KeyVal) :=
  foldr (λ kv acc, v ← Value_Decode kv.2; rest ← acc;
                   Ret (mkKeyVal (Bytes2Hex kv.1) (Bytes2Hex (Value_Bytes v)) :: rest)) (Ret []) kvs.

(** ethpipe/js_pipe.go, JSPipe.EachStorage. The text; no pairs are null. *)
Definition JS_EachStorage (addr : bytes) : PM (D := D) bytes :=
  object ← safeGet (Hex2Bytes addr);
  kvs ← on_world_state (EachStorage walk_fuel object);
  values ← lift (storage_pairs kvs);
  mret (Marshal (JSlice (map keyval_json values))).

Definition strip_hex (s : bytes) : bytes := if IsHex s then Hex2Bytes (drop 2 s) else Hex2Bytes s.

(** ethpipe/js_pipe.go 172-173, JSPipe.Transact. The address that the registry of names has
    for a name. *)
Definition registered (toStr : bytes) : PM (D := D) bytes :=
  reg ← Config_Get (asc "NameReg"); v ← StorageString reg toStr; mret (Value_Bytes v).

(** ethpipe/js_pipe.go, JSPipe.Transact. *)
Definition JS_Transact (key toStr valueStr gasStr gasPriceStr codeStr : bytes) : PM (D := D) (error + JSReceipt) :=
  let contractCreation := zlen toStr =? 0 in
  hash ← (if contractCreation then mret []
          else
            addr ← registered toStr;
            mret (if 0 <? zlen addr then addr else Hex2Bytes toStr));
  match NewKeyPairFromSec (strip_hex key) with
  | None => mret (inl (pubkey_error (strip_hex key)))
  | Some keyPair =>
      let value := Big valueStr in
      let gas := Big gasStr in
      let gasPrice := Big gasPriceStr in
      let data := strip_hex codeStr in
      let tx := if contractCreation then NewContractCreationTx value gas gasPrice data
                else NewTransactionMessage hash value gas gasPrice data in
      tx ← send keyPair tx;
      creation ← lift (CreationAddress tx);
      address ← lift (KeyPair_Address keyPair);
      mret (inr (NewJSReciept contractCreation creation (tx_Hash tx) address))
  end.

(** ethpipe/js_pipe.go, JSPipe.CompileMutan. *)
Definition JS_CompileMutan (code : bytes) : bytes :=
  match CompileMutan mutan code with inl err => Error err | inr data => Bytes2Hex data end.

(** ethpipe/js_pipe.go 273-277, JSFilter.MessagesToJson. The loop. *)
Fixpoint js_messages (messages : list Message) : outcome (list JSMessage) :=
  match messages with [] => Ret [] | m :: r => j ← NewJSMessage m; js ← js_messages r; Ret (j :: js) end.

(** ethpipe/js_pipe.go, JSFilter.MessagesToJson. *)
Definition MessagesToJson (messages : list Message) : outcome bytes :=
  msgs ← js_messages messages;
  Ret (if zlen msgs =? 0 then asc "[]" else Marshal (JSlice (map message_json msgs))).

Section Watching.
Context {Q : Type} (list_Convert : Q -> list (obj Q)) (map_Convert : Q -> list (bytes * obj Q)).

(** ethpipe/js_pipe.go, JSPipe.Watch. The filter; its goroutine is [on_event]. *)
Definition Watch (fuel : nat) (object : list (bytes * obj Q)) : PM (D := D) Filter :=
  k ← on_pnode get_core; lift (NewFilterFromMap list_Convert map_Convert fuel (c_bc (k_chain k)) object).

(** ethpipe/js_pipe.go, JSFilter.Messages. *)
Definition JSFilter_Messages (fuel : nat) (filter : Filter) : PM (D := D) bytes :=
  messages ← on_pnode (Find fuel filter); lift (MessagesToJson messages).

(** ethpipe/js_pipe.go, JSPipe.Messages. *)
Definition JS_Messages (fuel : nat) (object : list (bytes * obj Q)) : PM (D := D) bytes :=
  filter ← Watch fuel object; JSFilter_Messages fuel filter.

End Watching.

(** What arrives on the two channels of a filter, by the type of its resource
    (none when it is another type), and what a filter calls. *)
Inductive watched := OnBlock (b : option Block) | OnMessages (l : option (list Message)).
Inductive callback := CBlock (b : Block) | CMessages (l : list Message).

(** ethpipe/js_pipe.go 303-327, JSFilter.mainLoop. The calls for one event, when the callbacks
    are set as the two flags say. *)
Definition on_event (filter : Filter) (BlockCallback MessageCallback : bool) (event : watched) : list callback :=
  match event with
  | OnBlock (Some block) => if BlockCallback then [CBlock block] else []
  | OnMessages (Some messages) =>
      if MessageCallback then
        let msgs := FilterMessages filter messages in
        if 0 <? zlen msgs then [CMessages msgs] else []
      else []
  | _ => []
  end.

End JSPipe.

(** * Texts there and back *)

Lemma trim_left_zeros n b : trim_left (replicate n x00 ++ b) = trim_left b.
Proof. induction n as [|n IH]; [done|]. exact IH. Qed.

Lemma trim_left_id b : head b ≠ Some x00 -> trim_left b = b.
Proof. destruct b as [|c b]; [done|]. intros Hc. cbn. rewrite bool_decide_eq_false_2; [done|]. cbn in Hc. congruence. Qed.

(** Texts go to scripts' words and back: a text of at most 32 bytes that
    neither begins nor ends with a zero byte survives [ToAscii] and [FromAscii]. *)
Theorem FromAscii_ToAscii (str : bytes) :
  zlen str <= 32 -> head str ≠ Some x00 -> last str ≠ Some x00 -> FromAscii (ToAscii str) = str.
Proof.
  intros Hl Hh Ht. unfold FromAscii, ToAscii. set (w := RightPadBytes str 32).
  assert (zlen (asc "0x" ++ Bytes2Hex w) = 66) as H66.
  { rewrite zlen_app, Bytes2Hex_len. unfold w. rewrite RightPadBytes_len. change (zlen (asc "0x")) with 2. lia. }
  assert (IsHex (asc "0x" ++ Bytes2Hex w) = true) as ->.
  { unfold IsHex. rewrite H66. reflexivity. }
  rewrite drop_app_length' by done. rewrite Hex2Bytes_Bytes2Hex. unfold w, RightPadBytes, trim_zeros.
  destruct (Z.ltb_spec 32 (zlen str)); [lia|]. unfold zeros.
  destruct (decide (str = [])) as [->|Hne].
  { cbn [app]. rewrite <-(app_nil_r (replicate _ _)), trim_left_zeros. done. }
  rewrite (trim_left_id (str ++ _)) by (destruct str; done).
  rewrite reverse_app, reverse_replicate, trim_left_zeros, trim_left_id, reverse_involutive; [done|].
  by rewrite head_reverse.
Qed.

Lemma FromAscii_ToAscii_witness : FromAscii (ToAscii (asc "NameReg")) = asc "NameReg".
Proof. apply FromAscii_ToAscii; vm_compute; discriminate. Defined.
