(* ===== verification/Display.v ===== *)
(** The texts that the program prints of its transactions, receipts and blocks:
    the methods [String] of [ethchain/transaction.go] and [block.go], and
    [ToString] of [ethpipe/js_types.go]. *)

From S2P Require Import Prelude GoVal Big Bytes Errors Rlp Value Net Text Json Wire Db Crypto Nibbles Trie Opcodes.
From S2P Require Import State Curve Transaction Block Bloom Pow Machine Vm BlockChain Transition.
From S2P Require Import Core TxPool StateManager Filter Pipe JSPipe.

(** A line of a text: a name, and what is printed under it. *)
Definition line (name value : bytes) : bytes := [x0a; x09] ++ name ++ value.

Definition print_bool (b : bool) : bytes := asc (if b then "true" else "false").

(** [%v] of a pointer to a number. *)
Definition print_big (z : option Z) : bytes := match z with Some z => decimal z | None => asc "<nil>" end.

(** [%x] of the root of a trie, which is a string of one of two types. *)
Definition print_root (v : goval) : bytes :=
  match v with VNil => asc "%!x(<nil>)" | _ => Bytes2Hex (Value_Bytes v) end.

Section Display.
Context `{Crypto} `{Secp256k1}.

(** ethchain/transaction.go, Transaction.String. *)
Definition tx_String (tx : Transaction) : outcome bytes :=
  sender ← Sender tx;
  Ret (line (asc "TX(") (Bytes2Hex (tx_Hash tx) ++ asc ")") ++
       line (asc "Contract: ") (print_bool (zlen (tx_Recipient tx) =? 0)) ++
       line (asc "From:     ") (Bytes2Hex sender) ++
       line (asc "To:       ") (Bytes2Hex (tx_Recipient tx)) ++
       line (asc "Nonce:    ") (decimal (tx_Nonce tx)) ++
       line (asc "GasPrice: ") (decimal (tx_GasPrice tx)) ++
       line (asc "Gas:      ") (decimal (tx_Gas tx)) ++
       line (asc "Value:    ") (decimal (tx_Value tx)) ++
       line (asc "Data:     0x") (Bytes2Hex (tx_Data tx)) ++
       line (asc "V:        0x") (hexadecimal (b2z (tx_v tx))) ++
       line (asc "R:        0x") (Bytes2Hex (tx_r tx)) ++
       line (asc "S:        0x") (Bytes2Hex (tx_s tx)) ++ line [] []).

(** ethchain/transaction.go, Receipt.String. *)
Definition receipt_String (r : Receipt) : outcome bytes :=
  tx ← tx_String (r_Tx r);
  Ret (line (asc "R") [] ++
       line (asc "Tx:[                 ") (tx ++ asc "]") ++
       line (asc "PostState:           0x") (Bytes2Hex (PostState r)) ++
       line (asc "CumulativeGasUsed:   ") (decimal (CumulativeGasUsed r)) ++ line [] []).

(** ethchain/block.go, Block.String. *)
Definition block_String (block : Block) : outcome bytes :=
  hash ← block_Hash block;
  Ret (line (asc "BLOCK(") (Bytes2Hex hash ++ asc "):") ++
       line (asc "PrevHash:   ") (Bytes2Hex (PrevHash block)) ++
       line (asc "UncleSha:   ") (Bytes2Hex (UncleSha block)) ++
       line (asc "Coinbase:   ") (Bytes2Hex (b_Coinbase block)) ++
       line (asc "Root:       ") (print_root (tr_Root (s_Trie (b_state block)))) ++
       line (asc "TxSha:      ") (Bytes2Hex (TxSha block)) ++
       line (asc "Difficulty: ") (decimal (b_Difficulty block)) ++
       line (asc "Number:     ") (print_big (b_Number block)) ++
       line (asc "MinGas:     ") (decimal (MinGasPrice block)) ++
       line (asc "MaxLimit:   ") (decimal (GasLimit block)) ++
       line (asc "GasUsed:    ") (decimal (b_GasUsed block)) ++
       line (asc "Time:       ") (decimal (Time block)) ++
       line (asc "Extra:      ") (Extra block) ++
       line (asc "Nonce:      ") (Bytes2Hex (b_Nonce block)) ++
       line (asc "NumTx:      ") (decimal (zlen (transactions block))) ++ [x0a]).

(** ethpipe/js_types.go, JSBlock.ToString. *)
Definition JSBlock_ToString (self : JSBlock) : outcome bytes := block_String (jb_ref self).

(** ethpipe/js_types.go, JSTransaction.ToString. *)
Definition JSTransaction_ToString (self : JSTransaction) : outcome bytes := tx_String (jt_ref self).

End Display.
