(* ===== verification/PipeSpec.v ===== *)
(** What a transaction made through the pipe is: signed with the key that is
    given, numbered after the one before it, and without a recipient. *)

From S2P Require Import Prelude GoVal Big Bytes Errors Rlp Value Net Text Wire Db Crypto Nibbles Trie TrieIter.
From S2P Require Import State Curve Transaction Block Bloom Pow Machine Vm BlockChain Transition.
From S2P Require Import Core TxPool StateManager Pipe.

Section PipeSpec.
Context `{HC : Crypto} `{HS : Secp256k1} `{HL : !Secp256k1Laws} {D : Type} `{HD : Database D} `{HM : MapOrder}.
Variable mutan : bytes -> bytes * list (option bytes).

(** The world of the state for transactions. *)
Definition trans_world (p : Pipe D) : World D :=
  mkWorld (c_env (k_chain (p_node p))) (c_heap (k_chain (p_node p))) (transState (k_manager (p_node p))).

(** The rest of the node stays. *)
Definition only_accounts (p p' : Pipe D) : Prop :=
  c_bc (k_chain (p_node p')) = c_bc (k_chain (p_node p)) ∧ k_pool (p_node p') = k_pool (p_node p) ∧
  k_effects (p_node p') = k_effects (p_node p) ∧ Vm_State p' = Vm_State p.

#[local] Instance only_accounts_preorder : PreOrder only_accounts.
Proof.
  split; [by intros p|]. intros p1 p2 p3 (Ha & Hb & Hc & Hd) (Ha' & Hb' & Hc' & Hd'). split_and!; congruence.
Qed.

Lemma wlp_on_trans {A} (m : SM (D := D) A) (Q : A -> World D -> Prop) p :
  wlp m Q (trans_world p) ->
  wlp (on_trans m) (λ a p', Q a (trans_world p') ∧ only_accounts p p' ∧ p_queue p' = p_queue p) p.
Proof.
  intros Hm a p'. unfold on_trans, on_pnode, TransState, mbind, st_bind, with_state, on_chain, on_state, set_manager.
  cbn [get_core mret st_ret]. change (mkWorld _ _ _) with (trans_world p).
  destruct (m (trans_world p)) as [[b| |] w] eqn:E; cbn [fmap outcome_fmap]; [|done..].
  intros [= <- <-]. split; [|done]. apply Hm in E. by destruct w.
Qed.

(** An account of the state, by its address. *)
Definition account_at (addr : bytes) (loc : nat) (w : World D) : Prop :=
  stateObjects (w_state w) !! Address addr = Some loc.

Definition has_nonce (addr : bytes) (n : Z) (w : World D) : Prop :=
  ∃ loc o, account_at addr loc w ∧ w_heap w !! loc = Some o ∧ Nonce o = n.

(** The nonce of what the state trie stores for an account: the first item; an
    account that it does not store begins at zero. *)
Definition stored_nonce (data : bytes) : outcome Z :=
  if zlen data =? 0 then Ret 0 else d ← NewValueFromBytes data; Ret (Value_Uint (Get d 0)).

(** The nonce of an address: of the object in memory, or else of the account in the
    state trie, or else zero. *)
Definition account_nonce (addr : bytes) (n : Z) (w : World D) : Prop :=
  match stateObjects (w_state w) !! Address addr with
  | Some loc => ∀ o, w_heap w !! loc = Some o -> Nonce o = n
  | None => ∃ data, (Trie_Get (Address addr) (s_Trie (w_state w), w_env w)).1 = Ret data ∧ stored_nonce data = Ret n
  end.

(** Looking at the state trie gives what it stores, and moves no object. *)
Lemma on_state_trie_Get key w :
  wlp (on_state_trie (D := D) (Trie_Get key)) (λ data w',
    (Trie_Get key (s_Trie (w_state w), w_env w)).1 = Ret data ∧ w_env w' = w_env w ∧ w_heap w' = w_heap w ∧
    stateObjects (w_state w') = stateObjects (w_state w)) w.
Proof.
  intros data w'. unfold on_state_trie, mbind, st_bind. cbn [get_state get_env].
  pose proof (Trie_Get_env key (s_Trie (w_state w)) (w_env w)) as He.
  destruct (Trie_Get key (s_Trie (w_state w), w_env w)) as [r [t e]]. cbn in *. subst e.
  intros [= -> <-]. by destruct w as [e h [t0 objs m]].
Qed.

(** The object that is found, or made, has the nonce of the account. *)
Definition found_nonce (addr : bytes) (w : World D) (loc : nat) (w' : World D) : Prop :=
  ∀ o, w_heap w' !! loc = Some o -> account_nonce addr (Nonce o) w.

Lemma GetStateObject_nonce addr w :
  wlp (GetStateObject (D := D) addr) (λ r w',
    match r with
    | Some loc => found_nonce addr w loc w'
    | None => account_nonce addr 0 w
    end) w.
Proof.
  unfold GetStateObject, found_nonce, account_nonce. apply wlp_bind. intros s w1 [= <- <-].
  destruct (stateObjects (w_state w) !! Address addr) as [l|] eqn:E; [apply wlp_ret; intros o Ho o'; congruence|].
  apply wlp_bind. eapply wlp_mono; [|apply on_state_trie_Get]. intros data w2 (Hd & He & Hh & Hs).
  unfold stored_nonce. destruct (zlen data =? 0) eqn:Ez; [apply wlp_ret; exists data; by rewrite Ez|].
  apply wlp_bind. intros e w3 [= <- <-]. apply wlp_bind, wlp_lift. intros o Ho.
  unfold NewStateObjectFromBytes, StateObject_RlpDecode in Ho. inv_bind Ho. injection Ho as <-.
  apply wlp_bind. intros l w4 [= <- <-]. apply wlp_bind. intros s w6 [= <- <-].
  apply wlp_bind. intros [] w7 [= <-]. apply wlp_ret. cbn [w_heap]. rewrite list_lookup_middle by done.
  intros o [= <-]. exists data. rewrite Ez. split; [done|]. cbn [Nonce].
  match goal with H : NewValueFromBytes data = Ret _ |- _ => by rewrite H end.
Qed.

Lemma GetOrNewStateObject_nonce addr w :
  wlp (GetOrNewStateObject (D := D) addr) (λ loc w', found_nonce addr w loc w') w.
Proof.
  unfold GetOrNewStateObject. apply wlp_bind. eapply wlp_mono; [|apply GetStateObject_nonce].
  intros [l|] w1 H1; [by apply wlp_ret|]. unfold State_NewStateObject.
  apply wlp_bind. intros l w2 [= <- <-]. apply wlp_bind. intros s w3 [= <- <-]. apply wlp_bind. intros [] w4 [= <-].
  apply wlp_ret. intros o. cbn [w_heap]. rewrite list_lookup_middle by done. by intros [= <-].
Qed.

Lemma GetStateObject_at addr w :
  wlp (GetStateObject (D := D) addr) (λ r w', ∀ loc, r = Some loc -> account_at addr loc w') w.
Proof.
  unfold GetStateObject. apply wlp_bind. intros s w1 [= <- <-].
  destruct (stateObjects (w_state w) !! Address addr) as [l|] eqn:E; [apply wlp_ret; by intros ? [= <-]|].
  apply wlp_bind. intros data w2 _. case_match; [by apply wlp_ret|].
  apply wlp_bind. intros e w3 _. apply wlp_bind. intros o w4 _. apply wlp_bind. intros l w5 _.
  apply wlp_bind. intros s w6 _. apply wlp_bind. intros [] w7 [= <-]. apply wlp_ret. intros loc [= <-].
  apply lookup_insert_eq.
Qed.

Lemma GetOrNewStateObject_at addr w :
  wlp (GetOrNewStateObject (D := D) addr) (λ loc w', account_at addr loc w') w.
Proof.
  unfold GetOrNewStateObject. apply wlp_bind. eapply wlp_mono; [|apply GetStateObject_at].
  intros [l|] w1 H1; [apply wlp_ret; by apply H1|]. unfold State_NewStateObject.
  apply wlp_bind. intros l w2 _. apply wlp_bind. intros s w3 _. apply wlp_bind. intros [] w4 [= <-].
  apply wlp_ret. apply lookup_insert_eq.
Qed.

(** Writing an account leaves the objects as they are. *)
Lemma UpdateStateObject_objects loc w :
  wlp (UpdateStateObject (D := D) loc) (λ _ w', w_heap w' = w_heap w ∧ stateObjects (w_state w') = stateObjects (w_state w)) w.
Proof.
  unfold UpdateStateObject. apply wlp_bind. intros o w1 E1.
  assert (w1 = w) as -> by (unfold get_object in E1; destruct (w_heap w !! loc); by injection E1).
  apply wlp_bind. intros e w2 [= <- <-]. apply wlp_bind. intros [] w3 [= <-].
  unfold on_state_trie. apply wlp_bind. intros s w4 [= <- <-]. apply wlp_bind. intros e w5 [= <- <-].
  cbn [w_env w_state]. destruct (Update _ _ _) as [r [t e']].
  apply wlp_bind. intros [] w6 [= <-]. apply wlp_bind. intros [] w7 [= <-]. by apply wlp_lift.
Qed.

(** Sending: the nonce is that of the key's account, which is then one more. *)
Lemma send_ok key addr tx p :
  NewKeyPairFromSec (PrivateKey key) = Some key -> KeyPair_Address key = Ret addr ->
  wlp (send key tx) (λ tx' p', ∃ n, p_queue p' = p_queue p ++ [tx'] ∧ same_content (set_tx_Nonce n tx) tx' ∧
    Sender tx' = Ret addr ∧ has_nonce addr (u64 (n + 1)) (trans_world p') ∧ only_accounts p p' ∧
    account_nonce addr n (trans_world p)) p.
Proof.
  intros Hk Ha. unfold send. apply wlp_bind, wlp_lift. intros a Ea. assert (a = addr) as -> by congruence.
  set (Q1 := λ (loc : nat) (w' : World D), account_at addr loc w' ∧ found_nonce addr (trans_world p) loc w').
  apply wlp_bind. eapply wlp_mono; [|apply (wlp_on_trans _ Q1)].
  2: { apply wlp_and; [apply GetOrNewStateObject_at|apply GetOrNewStateObject_nonce]. }
  intros acc p1 ([Hat Hnonce] & O1 & Hq1).
  apply wlp_bind. eapply wlp_mono; [|apply (wlp_on_trans _ (λ o w', w' = trans_world p1 ∧ w_heap w' !! acc = Some o))].
  2: { intros o w'. unfold get_object. destruct (w_heap (trans_world p1) !! acc) as [o'|] eqn:E; [by intros [= -> <-]|done]. }
  intros o p2 ([Hw2 Ho] & O2 & Hq2). rewrite Hw2 in Ho.
  apply wlp_bind. eapply wlp_mono; [|apply (wlp_on_trans _ (λ _ w', account_at addr acc w' ∧
    w_heap w' !! acc = Some (set_Nonce (u64 (Nonce o + 1)) o)))].
  2: { rewrite Hw2. unfold modify_object. apply wlp_bind. intros ? ?. unfold get_object. rewrite Ho. intros [= <- <-].
       intros [] w' [= <-]. cbn [w_heap w_state]. split; [exact Hat|].
       apply list_lookup_insert_eq. by eapply lookup_lt_Some. }
  intros [] p3 ([Hat3 Ho3] & O3 & Hq3).
  apply wlp_bind. eapply wlp_mono; [|apply (wlp_on_trans _ _ _ (UpdateStateObject_objects acc _))].
  intros [] p4 ([Hh4 Hs4] & O4 & Hq4).
  apply wlp_bind, wlp_lift. intros tx' Htx. apply wlp_bind. intros [] p5 [= <-]. apply wlp_ret.
  destruct (Sign_ok (set_tx_Nonce (Nonce o) tx) (PrivateKey key) key Hk) as (tx'' & Hsign & Hc & _ & _ & Hsend).
  assert (tx'' = tx') as -> by congruence.
  exists (Nonce o). cbn [p_queue p_node]. unfold QueueTransaction. rewrite Hq4, Hq3, Hq2, Hq1.
  split; [done|]. split; [done|]. split; [congruence|]. split; [|split].
  - exists acc, (set_Nonce (u64 (Nonce o + 1)) o). unfold account_at in *. unfold trans_world in *. cbn [p_node w_state w_heap] in *.
    rewrite Hs4, Hh4. done.
  - by do 3 (etrans; [eassumption|]).
  - by apply Hnonce.
Qed.

(** What a transaction carries, before it is numbered and signed. *)
Lemma make_transaction_ok rec value gas price data tx :
  make_transaction mutan rec value gas price data = Ret (inr tx) ->
  tx_Value tx = Value_BigInt value ∧ tx_Gas tx = Value_BigInt gas ∧ tx_GasPrice tx = Value_BigInt price ∧
  match rec with
  | Some _ => tx_Recipient tx = [] ∧ CreatesContract tx = false
  | None => Compile mutan data = inr (tx_Data tx) ∧ CreatesContract tx = true
  end.
Proof.
  destruct rec as [r|]; cbn [make_transaction].
  - intros H. inv_bind H. by injection H as <-.
  - destruct (Compile mutan data) as [e|script]; [done|]. by intros [= <-].
Qed.

Lemma same_content_fields tx tx' :
  same_content tx tx' ->
  tx_Nonce tx' = tx_Nonce tx ∧ tx_Recipient tx' = tx_Recipient tx ∧ tx_Value tx' = tx_Value tx ∧
  tx_Gas tx' = tx_Gas tx ∧ tx_GasPrice tx' = tx_GasPrice tx ∧ tx_Data tx' = tx_Data tx ∧
  CreatesContract tx' = CreatesContract tx.
Proof. intros [Hd Hc]. injection Hd as Hn Hp Hg Hr Hv Hd. unfold CreatesContract. split_and!; congruence. Qed.

(** What a successful [Transact] has done. *)
Record sent (key : KeyPair) (rec : option bytes) (value gas price : goval) (data h : bytes) (p p' : Pipe D)
    (addr : bytes) (tx : Transaction) : Prop := {
  sent_queue : p_queue p' = p_queue p ++ [tx];
  sent_sender : KeyPair_Address key = Ret addr ∧ Sender tx = Ret addr;
  sent_amounts : tx_Value tx = Value_BigInt value ∧ tx_Gas tx = Value_BigInt gas ∧ tx_GasPrice tx = Value_BigInt price;
  sent_nonce : account_nonce addr (tx_Nonce tx) (trans_world p);
  sent_next : has_nonce addr (u64 (tx_Nonce tx + 1)) (trans_world p');
  sent_only : only_accounts p p';
  sent_kind : match rec with
    | Some _ => tx_Recipient tx = [] ∧ CreatesContract tx = false ∧ h = tx_Hash tx
    | None => Compile mutan data = inr (tx_Data tx) ∧ CreatesContract tx = true ∧ CreationAddress tx = Ret h
    end;
}.

Lemma Transact_ok key rec value gas price data p :
  NewKeyPairFromSec (PrivateKey key) = Some key ->
  wlp (Transact mutan key rec value gas price data)
      (λ r p', ∀ h, r = inr h -> ∃ addr tx, sent key rec value gas price data h p p' addr tx) p.
Proof.
  intros Hk. pose proof (KeyPair_Address_ok _ _ Hk) as Ha. set (addr := drop 12 _) in Ha.
  unfold Transact. apply wlp_bind, wlp_lift. intros [e|tx] Htx; [by apply wlp_ret|].
  apply make_transaction_ok in Htx as (Hv & Hg & Hp & Hkind).
  apply wlp_bind. eapply wlp_mono; [|by apply send_ok].
  intros tx' p1 (n & Hq & Hc & Hsend & Hnext & Honly & Hn). apply same_content_fields in Hc as (C1 & C2 & C3 & C4 & C5 & C6 & C7).
  change (tx_Nonce tx' = n) in C1. change (tx_Recipient tx' = tx_Recipient tx) in C2.
  change (CreatesContract tx' = CreatesContract tx) in C7. change (tx_Data tx' = tx_Data tx) in C6.
  assert (∀ h, match rec with
    | Some _ => tx_Recipient tx' = [] ∧ CreatesContract tx' = false ∧ h = tx_Hash tx'
    | None => Compile mutan data = inr (tx_Data tx') ∧ CreatesContract tx' = true ∧ CreationAddress tx' = Ret h
    end -> sent key rec value gas price data h p p1 addr tx') as Hsent.
  { intros h Hh. split; [done|done| |by rewrite C1|by rewrite C1|done|done]. rewrite C3, C4, C5. done. }
  rewrite C2, C6, C7 in Hsent. destruct rec as [r|].
  - apply wlp_ret. intros h [= <-]. exists addr, tx'. apply Hsent. destruct Hkind. done.
  - apply wlp_bind, wlp_lift. intros a Hcr. apply wlp_ret. intros h [= <-]. exists addr, tx'. apply Hsent. destruct Hkind. done.
Qed.

(** A transaction made through the pipe.  When [Transact] succeeds with a
    valid key, exactly one transaction is queued, with the value, gas and price
    that were asked for; it is signed by the key, its nonce is that of the
    key's account in the state for transactions, which has the next nonce
    afterwards, so consecutive transactions are numbered consecutively; and
    nothing else of the node changes.  The recipient that is given only decides
    between a message and a contract: a message has an empty recipient, and what
    is answered is its hash; a contract has the compiled code, and the answer
    is its address. *)
Theorem Transact_spec (key : KeyPair) (rec : option bytes) (value gas price : goval) (data h : bytes) (p p' : Pipe D) :
  NewKeyPairFromSec (PrivateKey key) = Some key ->
  Transact mutan key rec value gas price data p = (Ret (inr h), p') ->
  ∃ addr tx, sent key rec value gas price data h p p' addr tx.
Proof. intros Hk E. by apply (Transact_ok key rec value gas price data p Hk (inr h) p'). Qed.

End PipeSpec.

(** * Runs *)

#[local] Existing Instances toy_crypto toy_curve toy_curve_laws list_order.

(** A compiler that knows one program, and answers with an error otherwise. *)
Definition ex_mutan (script : bytes) : bytes * list (option bytes) :=
  if bool_decide (script = asc "stop") then ([x00; x00], []) else ([], [Some (asc "syntax error")]).

Definition ex_key : KeyPair := default (mkKeyPair [] []) (NewKeyPairFromSec (replicate 32 x11)).

(** A pipe on a node with the genesis block and one more. *)
Definition lone_pipe : Pipe MemDatabase := mkPipe (node_with []) None [].

Definition send_message (p : Pipe MemDatabase) : outcome (error + bytes) * Pipe MemDatabase :=
  Transact ex_mutan ex_key (Some (replicate 20 x22)) (VInt Kint 7) (VInt Kint 500) (VInt Kint 10) (asc "1") p.

Lemma Transact_spec_witness :
  map tx_Nonce (p_queue (send_message (send_message lone_pipe).2).2) = [0; 1] ∧
  ∃ h addr tx, sent ex_mutan ex_key (Some (replicate 20 x22)) (VInt Kint 7) (VInt Kint 500) (VInt Kint 10) (asc "1") h
    lone_pipe (send_message lone_pipe).2 addr tx.
Proof.
  split; [vm_compute; reflexivity|]. exists (tx_Hash (default zero_tx (head (p_queue (send_message lone_pipe).2)))).
  apply (Transact_spec ex_mutan ex_key); vm_compute; reflexivity.
Defined.

(** The recipient is lost: the same transaction whatever it is.  On the way it
    becomes the zero address's. *)
Lemma Transact_ignores_recipient (r r' : bytes) p :
  Transact ex_mutan ex_key (Some r) (VInt Kint 7) (VInt Kint 500) (VInt Kint 10) (asc "1") p
  = Transact ex_mutan ex_key (Some r') (VInt Kint 7) (VInt Kint 500) (VInt Kint 10) (asc "1") p.
Proof. reflexivity. Qed.

(** A recipient that is neither a registered name nor hex digits makes a contract
    of the data. *)
Lemma unknown_recipient_creates_contract :
  map tx_contractCreation
    (p_queue (TransactString ex_mutan ex_key (asc "nobody") (VInt Kint 7) (VInt Kint 500) (VInt Kint 10) (asc "stop") lone_pipe).2)
  = [true].
Proof. vm_compute. reflexivity. Qed.

(** * Execution is not isolated

    A pipe executes on a copy of the state, but the object it executes is that of
    the current block: what the code stores can be read from the current state
    afterwards. *)

(** [PUSH1 5 PUSH1 0 SSTORE STOP], with one byte that is never reached. *)
Definition storing_code : bytes := [x60; x05; x60; x00; x57; x00; x00].
Definition contract_address : bytes := replicate 20 x77.

Definition with_contract : Pipe MemDatabase :=
  (on_world_state (o ← State_NewStateObject contract_address; modify_object o (set_Code storing_code)) lone_pipe).2.

Definition executed : outcome (bytes * option error) * Pipe MemDatabase :=
  Execute contract_address [] (VInt Kint 0) (VInt Kint 1000) (VInt Kint 10) with_contract.

Lemma execution_changes_current_state :
  executed.1 = Ret ([], None) ∧
  (Pipe_Storage contract_address [x00] with_contract).1 = Ret VNil ∧
  (Pipe_Storage contract_address [x00] executed.2).1 = Ret (VBig 5).
Proof. vm_compute. repeat split. Qed.
