(* ===== verification/Rpc.v ===== *)
(** [ethrpc/packages.go]: the methods of the JSON-RPC server.  A request is the
    record of its arguments, a reply the structure that [NewSuccessRes] encodes as JSON;
    the server itself ([server.go]: accepting connections and dispatching
    requests to methods by their names) is input and output of the standard library. *)

From S2P Require Import Prelude GoVal Big Bytes Errors Rlp Value Net Text Json Wire Db Crypto Nibbles Trie.
From S2P Require Import State Curve Transaction Block Bloom Pow Machine Vm BlockChain Transition.
From S2P Require Import Core TxPool StateManager Filter Pipe JSPipe.

(** * Arguments and replies *)

(** ethrpc/packages.go 24-27, GetBlockArgs. *)
Record GetBlockArgs := mkGetBlockArgs { a_BlockNumber : Z; a_Hash : bytes }.

(** ethrpc/packages.go 82-90, NewTxArgs. *)
Record NewTxArgs := mkNewTxArgs {
  a_Sec : bytes; a_Recipient : bytes; a_Value : bytes; a_Gas : bytes; a_GasPrice : bytes; a_Init : bytes; a_Body : bytes;
}.

(** ethrpc/packages.go, GetStorageArgs. *)
Record GetStorageArgs := mkGetStorageArgs { a_Address : bytes; a_Key : bytes }.

(** ethrpc/packages.go 37-40, SuccessRes. What a successful reply holds: a structure of
    the pipe, or one of those of lines 176-280. *)
Inductive Reply :=
| RBlock (block : option JSBlock)
| RReceipt (receipt : option JSReceipt)
| RKey (key : JSKey)
| RStorageAt (key value address : bytes)
| RTxCount (nonce : Z)
| RPeerCount (n : Z)
| RListening (b : bool)
| RCoinbase (address : bytes)
| RMining (b : bool)
| RBalance (balance address : bytes)
| RTest (answer : Z).

(** The names of the fields; a nil pointer is null. *)
Definition reply_json (r : Reply) : json :=
  match r with
  | RBlock block => from_option block_json JNull block
  | RReceipt receipt => from_option receipt_json JNull receipt
  | RKey key => key_json key
  | RStorageAt key value address =>
      JObj [(asc "key", JStr key); (asc "value", JStr value); (asc "address", JStr address)]
  | RTxCount nonce => JObj [(asc "nonce", JNum nonce)]
  | RPeerCount n => JObj [(asc "peerCount", JNum n)]
  | RListening b => JObj [(asc "isListening", JBool b)]
  | RCoinbase address => JObj [(asc "coinbase", JStr address)]
  | RMining b => JObj [(asc "isMining", JBool b)]
  | RBalance balance address => JObj [(asc "balance", JStr balance); (asc "address", JStr address)]
  | RTest answer => JObj [(asc "answer", JNum answer)]
  end.

(** ethrpc/packages.go, NewSuccessRes. The text of a reply. *)
Definition NewSuccessRes (object : Reply) : bytes :=
  Marshal (JObj [(asc "error", JBool false); (asc "result", reply_json object)]).

(** ethrpc/packages.go, NewErrorResponse. *)
Definition NewErrorResponse (msg : bytes) : error :=
  Errorf (Marshal (JObj [(asc "error", JBool true); (asc "errorText", JStr msg)])).

(** The first of the tests that fails. *)
Fixpoint require (l : list (bool * bytes)) : option error :=
  match l with
  | [] => None
  | (missing, msg) :: l => if missing : bool then Some (NewErrorResponse msg) else require l
  end.

Definition empty (s : bytes) : bool := bool_decide (s = []).

(** ethrpc/packages.go, GetBlockArgs.requirements. *)
Definition block_requirements (b : GetBlockArgs) : option error :=
  require [((a_BlockNumber b =? 0) && empty (a_Hash b),
            asc "GetBlock requires either a block 'number' or a block 'hash' as argument")].

(** ethrpc/packages.go, NewTxArgs.requirements. *)
Definition tx_requirements (a : NewTxArgs) : option error :=
  require [(empty (a_Recipient a), asc "Transact requires a 'recipient' address as argument");
           (empty (a_Value a), asc "Transact requires a 'value' as argument");
           (empty (a_Gas a), asc "Transact requires a 'gas' value as argument");
           (empty (a_GasPrice a), asc "Transact requires a 'gasprice' value as argument")].

(** ethrpc/packages.go, NewTxArgs.requirementsContract. *)
Definition requirementsContract (a : NewTxArgs) : option error :=
  require [(empty (a_Value a), asc "Create requires a 'value' as argument");
           (empty (a_Gas a), asc "Create requires a 'gas' value as argument");
           (empty (a_GasPrice a), asc "Create requires a 'gasprice' value as argument");
           (empty (a_Body a), asc "Create requires a 'body' value as argument")].

(** ethrpc/packages.go, GetStorageArgs.requirements. *)
Definition storage_requirements (a : GetStorageArgs) : option error :=
  require [(empty (a_Address a), asc "GetStorageAt requires an 'address' value as argument");
           (empty (a_Key a), asc "GetStorageAt requires an 'key' value as argument")].

(** ethrpc/packages.go, GetTxCountArgs.requirements. *)
Definition txcount_requirements (address : bytes) : option error :=
  require [(empty address, asc "GetTxCountAt requires an 'address' value as argument")].

(** ethrpc/packages.go, GetBalanceArgs.requirements. *)
Definition balance_requirements (address : bytes) : option error :=
  require [(empty address, asc "GetBalanceAt requires an 'address' value as argument")].

(** [math/big]'s [Int.SetString] with base ten: nothing when a character is left
    or there is no digit. *)
Definition SetString10 (s : bytes) : option Z :=
  let all s := match scan_digits 10 0 0 s with
               | (z, n) => if (n =? length s)%nat && (0 <? n)%nat then Some z else None end in
  match s with
  | c :: r => if bool_decide (c = x2d) then Z.opp <$> all r
              else if bool_decide (c = x2b) then all r else all s
  | [] => None
  end.

(** * Methods *)

Section Rpc.
Context `{HC : Crypto} `{HS : Secp256k1} {D : Type} `{HD : Database D} `{HM : MapOrder}.
Variable pubkey_error : bytes -> error.

(** The node behind the pipe. *)
Variable obj : EthManager.

(** A method with its test of the arguments. *)
Definition method (failed : option error) (m : PM (D := D) Reply) : PM (D := D) (error + Reply) :=
  match failed with
  | Some err => mret (inl err)
  | None => r ← m; mret (inr r)
  end.

(** ethrpc/packages.go, EthereumApi.GetBlock. The number is not used. *)
Definition GetBlock (args : GetBlockArgs) : PM (D := D) (error + Reply) :=
  method (block_requirements args) (block ← BlockByHash (a_Hash args); mret (RBlock block)).

(** The receipt of a transaction; an error is not looked at, and leaves nil. *)
Definition receipt_of (r : error + JSReceipt) : Reply :=
  RReceipt (match r with inl _ => None | inr receipt => Some receipt end).

(** ethrpc/packages.go, EthereumApi.Transact. *)
Definition Rpc_Transact (args : NewTxArgs) : PM (D := D) (error + Reply) :=
  method (tx_requirements args)
    (key ← lift (JS_Key obj);
     result ← JS_Transact pubkey_error (jk_PrivateKey key) (a_Recipient args) (a_Value args) (a_Gas args)
                (a_GasPrice args) (a_Body args);
     mret (receipt_of result)).

(** ethrpc/packages.go, EthereumApi.Create. *)
Definition Rpc_Create (args : NewTxArgs) : PM (D := D) (error + Reply) :=
  method (requirementsContract args)
    (key ← lift (JS_Key obj);
     result ← JS_Transact pubkey_error (jk_PrivateKey key) [] (a_Value args) (a_Gas args)
                (a_GasPrice args) (a_Body args);
     mret (receipt_of result)).

(** ethrpc/packages.go, EthereumApi.GetKey. *)
Definition GetKey : PM (D := D) (error + Reply) := method None (key ← lift (JS_Key obj); mret (RKey key)).

(** ethrpc/packages.go 182-189, EthereumApi.GetStorageAt. The key in hex digits; the number
    that [SetString] does not make is a nil pointer. *)
Definition storage_key (key : bytes) : outcome bytes :=
  if bool_decide (take 2 key = asc "0x") then Ret (drop 2 key)
  else i ← deref (SetString10 key); Ret (Bytes2Hex (big_Bytes i)).

(** ethrpc/packages.go, EthereumApi.GetStorageAt. *)
Definition GetStorageAt (args : GetStorageArgs) : PM (D := D) (error + Reply) :=
  method (storage_requirements args)
    (state ← safeGet (Hex2Bytes (a_Address args));
     hx ← lift (storage_key (a_Key args));
     value ← Storage state (Hex2Bytes hx);
     mret (RStorageAt (a_Key args) (Value_Str value) (a_Address args))).

(** ethrpc/packages.go, EthereumApi.GetPeerCount. *)
Definition GetPeerCount : PM (D := D) (error + Reply) := method None (mret (RPeerCount (PeerCount obj))).

(** ethrpc/packages.go, EthereumApi.GetIsListening. *)
Definition GetIsListening : PM (D := D) (error + Reply) := method None (mret (RListening (IsListening obj))).

(** ethrpc/packages.go, EthereumApi.GetCoinbase. *)
Definition GetCoinbase : PM (D := D) (error + Reply) := method None (a ← lift (CoinBase obj); mret (RCoinbase a)).

(** ethrpc/packages.go, EthereumApi.GetIsMining. *)
Definition GetIsMining : PM (D := D) (error + Reply) := method None (mret (RMining (IsMining obj))).

(** ethrpc/packages.go, EthereumApi.GetTxCountAt. *)
Definition GetTxCountAt (address : bytes) : PM (D := D) (error + Reply) :=
  method (txcount_requirements address) (n ← TxCountAt address; mret (RTxCount n)).

(** ethrpc/packages.go, EthereumApi.GetBalanceAt. *)
Definition GetBalanceAt (address : bytes) : PM (D := D) (error + Reply) :=
  method (balance_requirements address) (b ← BalanceAt address; mret (RBalance b address)).

(** ethrpc/packages.go, EthereumApi.Test. *)
Definition Rpc_Test : PM (D := D) (error + Reply) := method None (mret (RTest 15)).

End Rpc.

(** * Texts of replies *)

(** The value of a storage cell is passed as it is stored, so cells that are not
    UTF-8 have the same reply. *)
Lemma storage_replies_agree (key address : bytes) :
  NewSuccessRes (RStorageAt key [xff] address) = NewSuccessRes (RStorageAt key [xfe] address).
Proof. reflexivity. Qed.

Example error_text :
  NewErrorResponse (asc "no") =
  Errorf (asc "{" ++ [x22] ++ asc "error" ++ [x22] ++ asc ":true," ++ [x22] ++ asc "errorText" ++ [x22] ++ asc ":" ++
          [x22] ++ asc "no" ++ [x22] ++ asc "}").
Proof. vm_compute. reflexivity. Qed.
