(* ===== verification/RpcSpec.v ===== *)
(** What a request to send a transaction does: [Transact] of the RPC server, down
    to the queue of the transaction pool. *)

From S2P Require Import Prelude GoVal Big Bytes Errors Rlp Value Net Text Wire Db Crypto Nibbles Trie TrieIter.
From S2P Require Import State Curve Transaction Block Bloom Pow Machine Vm BlockChain Transition.
From S2P Require Import Core TxPool StateManager Filter Pipe PipeSpec JSPipe Rpc.

(** * Hex digits are no prefix *)

Lemma hexdigit_not_x d : 0 <= d < 16 -> hexdigit d ≠ x78.
Proof.
  intros Hd. assert (∃ i : nat, (i < 16)%nat ∧ d = Z.of_nat i) as (i & Hi & ->) by (exists (Z.to_nat d); lia).
  do 16 (destruct i as [|i]; [by vm_compute|]). lia.
Qed.

Lemma IsHex_Bytes2Hex b : IsHex (Bytes2Hex b) = false.
Proof.
  unfold IsHex. destruct (bool_decide_reflect (take 2 (Bytes2Hex b) = asc "0x")) as [E|]; [|by rewrite andb_false_r].
  destruct b as [|c b]; [done|]. rewrite Bytes2Hex_cons in E. cbn in E. injection E as _ E.
  exfalso. revert E. change (hexdigit (b2z c `mod` 16) ≠ x78). apply hexdigit_not_x, Z.mod_pos_bound. lia.
Qed.

Lemma strip_hex_Bytes2Hex b : strip_hex (Bytes2Hex b) = b.
Proof. unfold strip_hex. by rewrite IsHex_Bytes2Hex, Hex2Bytes_Bytes2Hex. Qed.

Section RpcSpec.
Context `{HC : Crypto} `{HS : Secp256k1} `{HL : !Secp256k1Laws} {D : Type} `{HD : Database D} `{HM : MapOrder}.
Variable pubkey_error : bytes -> error.

(** * Reading changes no account *)

Record nonces (w w' : World D) : Prop := {
  ns_objects : ∀ loc o, w_heap w !! loc = Some o -> ∃ o', w_heap w' !! loc = Some o' ∧ Nonce o' = Nonce o;
  ns_env : w_env w' = w_env w;
}.

#[local] Instance nonces_preorder : PreOrder nonces.
Proof.
  split; [intros w; split; [by intros loc o Ho; exists o|done]|]. intros w1 w2 w3 [Ha Ea] [Hb Eb]. split; [|congruence].
  intros loc o Ho. destruct (Ha loc o Ho) as (o1 & H1 & <-). apply (Hb loc o1 H1).
Qed.

Lemma nonces_same (w w' : World D) : w_heap w' = w_heap w -> w_env w' = w_env w -> nonces w w'.
Proof. intros E He. split; [|done]. intros loc o Ho. exists o. by rewrite E. Qed.

Lemma nonces_insert w loc o o' s :
  w_heap w !! loc = Some o -> Nonce o' = Nonce o -> nonces w (mkWorld (w_env w) (<[loc := o']> (w_heap w)) s).
Proof.
  intros Ho Hn. split; [|done]. intros l x Hx. cbn. destruct (decide (l = loc)) as [->|Hne].
  - exists o'. rewrite list_lookup_insert_eq by by eapply lookup_lt_Some. split; [done|]. congruence.
  - exists x. by rewrite list_lookup_insert_ne.
Qed.

Lemma steps_new_object o : steps nonces (new_object (D := D) o).
Proof. intros w. split; [|done]. intros l x Hx. exists x. cbn. by rewrite lookup_app_l by by eapply lookup_lt_Some. Qed.

Lemma steps_get_object loc : steps nonces (get_object (D := D) loc).
Proof. intros w. unfold get_object. by destruct (w_heap w !! loc). Qed.

Lemma steps_modify_object loc f : (∀ o, Nonce (f o) = Nonce o) -> steps nonces (modify_object (D := D) loc f).
Proof.
  intros Hf w. unfold modify_object, get_object, put_object, mbind, st_bind.
  destruct (w_heap w !! loc) as [o|] eqn:E; [|done]. by apply (nonces_insert w loc o).
Qed.

Lemma steps_on_object_trie loc key : steps nonces (on_object_trie (D := D) loc (Trie_Get key)).
Proof.
  intros w. unfold on_object_trie, get_object, get_env, put_object, put_env, mbind, st_bind.
  destruct (w_heap w !! loc) as [o|] eqn:E; [|done]. cbn. pose proof (Trie_Get_env key (so_Trie o) (w_env w)) as He.
  destruct (Trie_Get key (so_Trie o, w_env w)) as [r [t e']]. cbn in *. subst e'.
  by apply (nonces_insert w loc o).
Qed.

Lemma steps_on_state_trie key : steps nonces (on_state_trie (D := D) (Trie_Get key)).
Proof.
  intros w. unfold on_state_trie, get_state, get_env, put_state, put_env, mbind, st_bind. cbn.
  pose proof (Trie_Get_env key (s_Trie (w_state w)) (w_env w)) as He.
  destruct (Trie_Get key (s_Trie (w_state w), w_env w)) as [r [t e']]. by apply nonces_same.
Qed.

(** [reads]: a computation on accounts, peeled into operations that keep the nonces. *)
Ltac reads :=
  repeat first
  [ apply steps_ret; exact _ | apply steps_lift; exact _ | apply steps_new_object | apply steps_get_object
  | apply steps_on_object_trie | apply steps_on_state_trie | by apply steps_modify_object
  | by intros ?; apply nonces_same
  | apply (steps_bind nonces); [|intros ?] | case_match ].

Lemma steps_GetStateObject addr : steps nonces (GetStateObject (D := D) addr).
Proof. unfold GetStateObject. reads. Qed.

Lemma steps_GetStorage loc key : steps nonces (GetStorage (D := D) loc key).
Proof. unfold GetStorage, getStorage, GetAddr. reads. Qed.

(** The accounts of the current state may have been read; nothing else has happened. *)
Record looked_up (p p' : Pipe D) : Prop := {
  lu_nonces : nonces (trans_world p) (trans_world p');
  lu_manager : k_manager (p_node p') = k_manager (p_node p);
  lu_pool : k_pool (p_node p') = k_pool (p_node p);
  lu_effects : k_effects (p_node p') = k_effects (p_node p);
  lu_head : LastBlockHash (c_bc (k_chain (p_node p'))) = LastBlockHash (c_bc (k_chain (p_node p)))
            ∧ TD (c_bc (k_chain (p_node p'))) = TD (c_bc (k_chain (p_node p)));
  lu_vm : Vm_State p' = Vm_State p;
  lu_queue : p_queue p' = p_queue p;
}.

#[local] Instance looked_up_preorder : PreOrder looked_up.
Proof.
  split; [by intros p|]. intros p1 p2 p3 [Ha Hb Hc Hd [He Hf] Hg Hh] [Ha' Hb' Hc' Hd' [He' Hf'] Hg' Hh'].
  split; try congruence; [by etrans|]. split; congruence.
Qed.

Lemma steps_on_world_state {A} (m : SM (D := D) A) : steps nonces m -> steps looked_up (on_world_state m).
Proof.
  intros Hm p. unfold on_world_state, on_pnode, on_current, mbind, st_bind, get_core, lift.
  destruct (CurrentBlock (c_bc (k_chain (p_node p)))) as [b|]; cbn [deref]; [|by destruct p].
  unfold on_chain, on_state. cbn [k_chain].
  specialize (Hm (mkWorld (c_env (k_chain (p_node p))) (c_heap (k_chain (p_node p))) (b_state b))).
  destruct Hm as [Ho He]. destruct (m _) as [[a| |] w]; split; first [done|by split].
Qed.

(** What is the nonce of an account after accounts were read, was so before. *)
Lemma looked_up_nonce addr n p p' :
  looked_up p p' -> account_nonce addr n (trans_world p') -> account_nonce addr n (trans_world p).
Proof.
  intros Hl. pose proof (lu_nonces p p' Hl) as [Ho He]. unfold account_nonce.
  rewrite He. unfold trans_world in *. cbn [w_state w_heap w_env] in *. rewrite (lu_manager p p' Hl).
  case_match; [|done]. intros Hn o Hlo. destruct (Ho _ o Hlo) as (o' & Ho' & <-). by apply Hn.
Qed.

Ltac lookups :=
  repeat first
  [ apply steps_ret; exact _
  | apply steps_on_world_state;
      first [apply steps_GetStateObject|apply steps_GetStorage|apply steps_new_object|apply steps_get_object]
  | apply (steps_bind looked_up); [|intros ?] | case_match ].

Lemma steps_safeGet addr : steps looked_up (safeGet (D := D) addr).
Proof. unfold safeGet. lookups. Qed.

Lemma steps_StorageString loc s : steps looked_up (StorageString (D := D) loc s).
Proof. unfold StorageString, Storage. lookups. Qed.

Lemma steps_registered name : steps looked_up (registered (D := D) name).
Proof.
  unfold registered, Config_Get.
  repeat first [apply steps_safeGet | apply steps_StorageString | progress lookups].
Qed.

(** * Sending *)

(** What a transaction sent for a script does. *)
Record script_sent (key : KeyPair) (to : bytes) (creates : bool) (value gas price : Z) (data : bytes)
    (r : JSReceipt) (p p' : Pipe D) (tx : Transaction) : Prop := {
  ss_queue : p_queue p' = p_queue p ++ [tx];
  ss_content : tx_Recipient tx = to ∧ tx_Value tx = value ∧ tx_Gas tx = gas ∧ tx_GasPrice tx = price ∧
    tx_Data tx = data ∧ CreatesContract tx = creates;
  ss_sender : ∃ addr, KeyPair_Address key = Ret addr ∧ Sender tx = Ret addr ∧ jr_Sender r = Bytes2Hex addr ∧
    account_nonce addr (tx_Nonce tx) (trans_world p) ∧
    has_nonce addr (u64 (tx_Nonce tx + 1)) (trans_world p');
  ss_receipt : jr_Hash r = Bytes2Hex (tx_Hash tx) ∧ jr_CreatedContract r = creates;
  ss_rest : k_pool (p_node p') = k_pool (p_node p) ∧ k_effects (p_node p') = k_effects (p_node p) ∧
    LastBlockHash (c_bc (k_chain (p_node p'))) = LastBlockHash (c_bc (k_chain (p_node p)))
    ∧ TD (c_bc (k_chain (p_node p'))) = TD (c_bc (k_chain (p_node p))) ∧ Vm_State p' = Vm_State p;
}.

(** The address a transaction is sent to: the registered one, or the digits
    themselves; the one of contracts when there is no text. *)
Definition sent_to (toStr : bytes) (p : Pipe D) (to : bytes) : Prop :=
  if zlen toStr =? 0 then to = ContractAddr
  else ∃ name p1, registered toStr p = (Ret name, p1) ∧ to = if 0 <? zlen name then name else Hex2Bytes toStr.

Lemma send_script_ok key tx p0 p contract :
  NewKeyPairFromSec (PrivateKey key) = Some key -> looked_up p0 p ->
  wlp (tx ← send key tx; creation ← lift (CreationAddress tx); address ← lift (KeyPair_Address key);
       mret (inr (A := error) (NewJSReciept contract creation (tx_Hash tx) address)))
    (λ r p', ∃ x tx', r = inr x ∧
       script_sent key (tx_Recipient tx) (CreatesContract tx) (tx_Value tx) (tx_Gas tx) (tx_GasPrice tx) (tx_Data tx)
         (mkJSReceipt (CreatesContract tx) (jr_Address x) (jr_Hash x) (jr_Sender x)) p0 p' tx' ∧
       jr_CreatedContract x = contract) p.
Proof.
  intros Hk Hl. pose proof (KeyPair_Address_ok _ _ Hk) as Ha. set (addr := drop 12 _) in Ha.
  apply wlp_bind. eapply wlp_mono; [|by apply (send_ok key addr)].
  intros tx' p1 (n & Hq & Hc & Hsend & Hnext & Honly & Hn). apply same_content_fields in Hc as (C1 & C2 & C3 & C4 & C5 & C6 & C7).
  apply wlp_bind, wlp_lift. intros creation _. apply wlp_bind, wlp_lift. intros a Ea.
  assert (a = addr) as -> by congruence. apply wlp_ret. eexists _, tx'. split; [done|]. split; [|done].
  change (tx_Nonce tx' = n) in C1. destruct Honly as (O1 & O2 & O3 & O4). pose proof Hl as [L1 L2 L3 L4 L5 L6 L7].
  split.
  - congruence.
  - done.
  - exists addr. rewrite C1. split_and!; try done. by eapply looked_up_nonce.
  - done.
  - rewrite O1. destruct L5. split_and!; congruence.
Qed.

Lemma JS_Transact_ok key toStr v g pr code p :
  NewKeyPairFromSec (PrivateKey key) = Some key ->
  wlp (JS_Transact pubkey_error (Bytes2Hex (PrivateKey key)) toStr v g pr code)
    (λ r p', ∃ x tx to, r = inr x ∧ sent_to toStr p to ∧
       script_sent key to (zlen toStr =? 0) (Big v) (Big g) (Big pr) (strip_hex code) x p p' tx) p.
Proof.
  intros Hk. unfold JS_Transact. apply wlp_bind.
  apply (wlp_mono _ (λ to p1, sent_to toStr p (if zlen toStr =? 0 then ContractAddr else to) ∧ looked_up p p1)).
  2:{ unfold sent_to. destruct (zlen toStr =? 0) eqn:E0; [by apply wlp_ret|].
      apply wlp_bind. intros name p1 E. apply wlp_ret. split; [by exists name, p1|].
      pose proof (steps_registered toStr p) as Hs. by rewrite E in Hs. }
  intros to p1 [Hto Hl].
  rewrite strip_hex_Bytes2Hex, Hk. eapply wlp_mono; [|by apply (send_script_ok key _ p)].
  intros r p' (x & tx & -> & Hsent & Hcr). eexists x, tx, _. split; [done|]. split; [exact Hto|].
  destruct x as [c a h s]. cbn in Hcr. subst c. by destruct (zlen toStr =? 0).
Qed.

(** C31. A request to send a transaction does what it says.  On a node with a valid
    key, when [Transact] of the RPC server answers a request whose amounts are
    decimal numbers and whose body is hex digits, then it answers either that an
    argument is missing, and nothing has changed; or with the receipt of one
    transaction that it has queued: a message to the address registered under the
    recipient's name, or else to the recipient's digits, with exactly the
    amounts and the bytes of the request, signed by the node's key, with the nonce
    of its account (that of the object in memory, else of the state trie, else
    zero), which has the next nonce afterwards.  Neither pool nor chain
    change, and the receipt has the hash of the transaction and its sender. *)
Theorem Rpc_Transact_spec (obj : EthManager) (key : KeyPair) (to : bytes) (value gas price : Z) (data : bytes)
    (r : error + Reply) (p p' : Pipe D) :
  em_KeyPair obj = Some key -> NewKeyPairFromSec (PrivateKey key) = Some key ->
  0 <= value -> 0 <= gas -> 0 <= price ->
  let args := mkNewTxArgs [] to (decimal value) (decimal gas) (decimal price) [] (Bytes2Hex data) in
  Rpc_Transact pubkey_error obj args p = (Ret r, p') ->
  (∃ err, r = inl err ∧ tx_requirements args = Some err ∧ p' = p) ∨
  ∃ receipt tx addr, r = inr (RReceipt (Some receipt)) ∧ sent_to to p addr ∧
    script_sent key addr false value gas price data receipt p p' tx.
Proof.
  intros Hobj Hk Hv Hg Hp args. unfold Rpc_Transact, method. destruct (tx_requirements args) as [err|] eqn:Ereq.
  { intros [= <- <-]. left. by exists err. }
  assert ((zlen to =? 0) = false) as Hto.
  { unfold tx_requirements, args, empty in Ereq. cbn in Ereq. destruct to; [done|]. apply Z.eqb_neq. lenlia. }
  intros E. right. revert r p' E.
  apply (wlp_bind _ _ (λ r p', ∃ receipt tx addr, r = inr (RReceipt (Some receipt)) ∧ sent_to to p addr ∧
    script_sent key addr false value gas price data receipt p p' tx)).
  apply wlp_bind, wlp_lift. intros jk Ejk.
  assert (jk_PrivateKey jk = Bytes2Hex (PrivateKey key)) as ->.
  { unfold JS_Key, NewJSKey in Ejk. rewrite Hobj in Ejk. cbn [deref mbind outcome_bind] in Ejk. inv_bind Ejk.
    by injection Ejk as <-. }
  apply wlp_bind. eapply wlp_mono; [|by apply JS_Transact_ok].
  intros r p1 (x & tx & addr & -> & Haddr & Hsent). apply wlp_ret, wlp_ret. exists x, tx, addr.
  split; [done|]. split; [done|]. cbn [a_Recipient a_Value a_Gas a_GasPrice a_Body args] in Hsent.
  unfold Big in Hsent. by rewrite Hto, !SetString_decimal, strip_hex_Bytes2Hex in Hsent by done.
Qed.
End RpcSpec.

(** * Runs *)

#[local] Existing Instances toy_crypto toy_curve toy_curve_laws list_order.

Definition ex_obj : EthManager := mkEthManager (Some ex_key) 0 false true [].

Definition ex_request : NewTxArgs :=
  mkNewTxArgs [] (Bytes2Hex (replicate 20 x22)) (decimal 7) (decimal 500) (decimal 10) [] (Bytes2Hex [x01; x02]).

Definition ex_answer : outcome (error + Reply) * Pipe MemDatabase := Rpc_Transact (λ _, Errorf []) ex_obj ex_request lone_pipe.

Lemma Rpc_Transact_spec_witness :
  map (λ tx, (tx_Recipient tx, tx_Value tx)) (p_queue ex_answer.2) = [(replicate 20 x22, 7)] ∧
  ∃ r, (∃ err, r = inl err ∧ tx_requirements ex_request = Some err ∧ ex_answer.2 = lone_pipe) ∨
    ∃ receipt tx addr, r = inr (RReceipt (Some receipt)) ∧ sent_to (Bytes2Hex (replicate 20 x22)) lone_pipe addr ∧
      script_sent ex_key addr false 7 500 10 [x01; x02] receipt lone_pipe ex_answer.2 tx.
Proof.
  split; [vm_compute; reflexivity|].
  destruct ex_answer.1 as [r| |] eqn:E; [|vm_compute in E; discriminate E..]. exists r.
  apply (Rpc_Transact_spec (λ _, Errorf []) ex_obj ex_key (Bytes2Hex (replicate 20 x22)) 7 500 10 [x01; x02] r lone_pipe ex_answer.2).
  - reflexivity.
  - vm_compute. reflexivity.
  - lia.
  - lia.
  - lia.
  - rewrite <-E. exact (surjective_pairing ex_answer).
Defined.

(** A key of the storage that is no number is a nil pointer: the request ends the
    node.  A block is never looked up by its number. *)
Lemma bad_storage_key_panics :
  (GetStorageAt (mkGetStorageArgs (asc "00") (asc "abc")) lone_pipe).1 = Panic.
Proof. vm_compute. reflexivity. Qed.

Lemma block_number_not_used (n : Z) :
  n ≠ 0 -> (GetBlock (mkGetBlockArgs n []) lone_pipe).1 = Ret (inr (RBlock None)).
Proof. intros Hn%Z.eqb_neq. unfold GetBlock, block_requirements. cbn. rewrite Hn. vm_compute. reflexivity. Qed.
