(* ===== verification/Miner.v ===== *)
(** [ethminer/miner.go]: the miner assembles blocks on the head of the chain,
    searches their proof of work and gives them to the state manager.

    The loop of [listener] is a function of what its [select] receives.  The
    block under work is a pointer: once it has been accepted it is the chain's
    current block too, which [mn_head] records, and an [Undo] through it then
    reaches the chain.  [sort.Sort] is any sort by nonce ([NonceSort]: it is not
    stable); the time and the random numbers of a search are arguments. *)

From S2P Require Import Prelude GoVal Big Bytes Errors Rlp Value Reactor Wire Db Crypto Nibbles Trie.
From S2P Require Import State Curve Transaction Block Bloom Pow Machine Vm BlockChain Transition.
From S2P Require Import Core TxPool StateManager.

(** [sort.Sort] on transactions by nonce. *)
Class NonceSort := {
  sort_by_nonce : list Transaction -> list Transaction;
  sort_by_nonce_perm : ∀ l, sort_by_nonce l ≡ₚ l;
  sort_by_nonce_sorted : ∀ l, Sorted (λ x y, tx_Nonce x <= tx_Nonce y) (sort_by_nonce l);
}.

(** What comes with an event. *)
Inductive resource :=
| RBlock (b : Block)
| RTx (tx : Transaction)
| ROther.

(** ethminer/miner.go, Miner. The channels are numbers, as in [Reactor]. *)
Record Miner := mkMiner {
  mn_coinbase : bytes;
  reactChan : nat;
  powQuitChan : nat;
  mn_txs : list Transaction;
  mn_uncles : list Block;
  mn_block : option Block;
  mn_head : bool;
  turbo : bool;
}.

(** ethminer/miner.go, NewDefaultMiner. *)
Definition NewDefaultMiner (coinbase : bytes) : Miner := mkMiner coinbase 0 0 [] [] None false false.

(** ethminer/miner.go, Miner.ToggleTurbo. *)
Definition ToggleTurbo (m : Miner) : Miner :=
  mkMiner (mn_coinbase m) (reactChan m) (powQuitChan m) (mn_txs m) (mn_uncles m) (mn_block m) (mn_head m) (negb (turbo m)).

Definition set_work (block : option Block) (head : bool) (m : Miner) : Miner :=
  mkMiner (mn_coinbase m) (reactChan m) (powQuitChan m) (mn_txs m) (mn_uncles m) block head (turbo m).
Definition set_txs (txs : list Transaction) (m : Miner) : Miner :=
  mkMiner (mn_coinbase m) (reactChan m) (powQuitChan m) txs (mn_uncles m) (mn_block m) (mn_head m) (turbo m).
Definition set_uncles (us : list Block) (m : Miner) : Miner :=
  mkMiner (mn_coinbase m) (reactChan m) (powQuitChan m) (mn_txs m) us (mn_block m) (mn_head m) (turbo m).
Definition set_channels (react quit : nat) (m : Miner) : Miner :=
  mkMiner (mn_coinbase m) react quit (mn_txs m) (mn_uncles m) (mn_block m) (mn_head m) (turbo m).

Section Miner.
Context `{Crypto} `{Secp256k1} {D : Type} `{Database D} `{MapOrder} `{NonceSort}.

(** The miner in its node, with the event bus. *)
Record Mining := mkMining {
  miner : Miner;
  node : Core D;
  bus : ReactorEngine (R := resource);
}.

Definition MM : Type -> Type := st Mining.

Definition get_miner : MM Miner := λ s, (Ret (miner s), s).
Definition modify_miner (f : Miner -> Miner) : MM unit := λ s, (Ret tt, mkMining (f (miner s)) (node s) (bus s)).
Definition on_node {A} (m : NM (D := D) A) : MM A := λ s,
  let '(o, k) := m (node s) in (o, mkMining (miner s) k (bus s)).
Definition modify_bus (f : ReactorEngine (R := resource) -> outcome (ReactorEngine (R := resource))) : MM unit := λ s,
  match f (bus s) with
  | Ret r => (Ret tt, mkMining (miner s) (node s) r)
  | Panic => (Panic, s)
  | NoFuel => (NoFuel, s)
  end.

(** [BlockChain().NewBlock(coinbase)]. *)
Definition new_block (now : Z) : MM Block :=
  m ← get_miner;
  k ← on_node get_core;
  lift (NewBlock (c_bc (k_chain k)) (mn_coinbase m) now).

(** ethminer/miner.go, Miner.Start. On two new channels. *)
Definition Miner_Start (react quit : nat) (now : Z) : MM unit :=
  _ ← modify_miner (set_channels react quit);
  txs ← on_node Flush;
  _ ← modify_miner (set_txs txs);
  block ← new_block now;
  _ ← modify_miner (set_work (Some block) false);
  _ ← modify_bus (λ r, Ret (Subscribe (asc "newBlock") react r));
  _ ← modify_bus (λ r, Ret (Subscribe (asc "newTx:pre") react r));
  _ ← modify_bus (λ r, Ret (Subscribe (asc "newBlock") quit r));
  _ ← modify_bus (λ r, Ret (Subscribe (asc "newTx:pre") quit r));
  on_node (emit (PostMiner (asc "miner:start"))).

(** ethminer/miner.go, Miner.Stop. What it does once the listener has answered. *)
Definition Miner_Stop : MM unit :=
  m ← get_miner;
  _ ← modify_bus (Unsubscribe (asc "newBlock") (powQuitChan m));
  _ ← modify_bus (Unsubscribe (asc "newTx:pre") (powQuitChan m));
  _ ← modify_bus (Unsubscribe (asc "newBlock") (reactChan m));
  _ ← modify_bus (Unsubscribe (asc "newTx:pre") (reactChan m));
  on_node (emit (PostMiner (asc "miner:stop"))).

(** ethminer/miner.go 90-119, Miner.listener. A block: the transactions of a new
    head are done; a block with the head's parent is an uncle. *)
Definition on_new_block (block : Block) : MM unit :=
  k ← on_node get_core;
  cur ← lift (deref (CurrentBlock (c_bc (k_chain k))));
  h ← lift (block_Hash cur);
  h' ← lift (block_Hash block);
  if bool_decide (h = h') then
    modify_miner (λ m, set_txs (List.filter (λ tx, negb (existsb (λ othertx, bool_decide (tx_Hash tx = tx_Hash othertx))
                                                              (transactions block))) (mn_txs m)) m)
  else if bool_decide (PrevHash block = PrevHash cur) then modify_miner (λ m, set_uncles (mn_uncles m ++ [block]) m)
  else mret tt.

(** [miner.block.Undo()]. *)
Definition undo_block : MM unit :=
  m ← get_miner;
  block ← lift (deref (mn_block m));
  if mn_head m then
    _ ← on_node (on_current State_Reset);
    k ← on_node get_core;
    modify_miner (set_work (CurrentBlock (c_bc (k_chain k))) true)
  else
    '(_, s) ← on_node (with_state (b_state block) State_Reset);
    modify_miner (set_work (Some (set_b_state s block)) false).

(** ethminer/miner.go 122-135, Miner.listener. A transaction. *)
Definition on_new_tx (tx : Transaction) : MM unit :=
  m ← get_miner;
  if existsb (λ ctx, bool_decide (tx_Hash ctx = tx_Hash tx)) (mn_txs m) then mret tt
  else
    _ ← undo_block;
    modify_miner (λ m, set_txs (mn_txs m ++ [tx]) m).

(** ethminer/miner.go 176-177, Miner.mineNewBlock. The gas limit of a block; the
    first block does not look at its parent, which may be nil. *)
Definition limit_of (block : Block) (parent : option Block) : outcome Z :=
  match parent, b_Number block with
  | Some p, _ => CalcGasLimit block p
  | None, Some 0 => CalcGasLimit block block
  | None, _ => Panic
  end.

(** ethminer/miner.go 159-195, Miner.mineNewBlock. The block without its nonce, and
    the transactions the miner keeps. *)
Definition assemble (now : Z) : MM Block :=
  block ← new_block now;
  m ← get_miner;
  block ← lift (match mn_uncles m with [] => Ret block | us => SetUncles us block end);
  _ ← modify_miner (λ m, set_txs (sort_by_nonce (mn_txs m)) m);
  k ← on_node get_core;
  parent ← lift (GetBlock (e_db (c_env (k_chain k))) (PrevHash block));
  '(coinbase, state) ← on_node (with_state (b_state block) (GetOrNewStateObject (b_Coinbase block)));
  limit ← lift (limit_of block parent);
  '(_, state) ← on_node (with_state state (modify_object coinbase (SetGasPool limit)));
  m ← get_miner;
  p ← on_node (ProcessTransactions coinbase state block block (mn_txs m));
  _ ← modify_miner (set_txs (p_handled p ++ p_unhandled p));
  block ← on_node (on_env (SetTxHash (p_receipts p) (p_parent p)));
  let block := SetReceipts (p_receipts p) (p_handled p) block in
  '(_, state) ← on_node (with_state (p_state p) (AccumelateRewards block));
  '(_, state) ← on_node (with_state state State_Update);
  mret (set_b_state state block).

(** ethminer/miner.go 200-209, Miner.mineNewBlock. What follows a nonce.  A block
    that was not known and has become the head is the chain's from then on. *)
Definition submit (block : Block) : MM unit :=
  k ← on_node get_core;
  hash ← lift (block_Hash block);
  err ← on_node (Process block false);
  match err with
  | Some _ => mret tt
  | None =>
      v ← lift (block_Value block);
      _ ← on_node (emit (Broadcast MsgBlockTy [v]));
      txs ← on_node CurrentTransactions;
      k' ← on_node get_core;
      let head := negb (HasBlock (e_db (c_env (k_chain k))) hash)
                  && bool_decide (LastBlockHash (c_bc (k_chain k')) = hash) in
      _ ← modify_miner (set_work (if head then CurrentBlock (c_bc (k_chain k')) else Some block) head);
      modify_miner (set_txs txs)
  end.

(** ethminer/miner.go, Miner.mineNewBlock. *)
Definition mineNewBlock (now : Z) (rnds : list Z) : MM unit :=
  block ← assemble now;
  hash ← lift (HashNoNonce block);
  nonce ← lift (Pow_Search hash (b_Difficulty block) rnds);
  let block := set_b_Nonce (default [] nonce) block in
  _ ← modify_miner (set_work (Some block) false);
  match nonce with
  | Some _ => submit block
  | None => mret tt
  end.

(** What the listener's [select] finds. *)
Inductive wake :=
| WQuit
| WEvent (r : resource)
| WDefault (now : Z) (rnds : list Z).

(** ethminer/miner.go, Miner.listener. One round: whether it goes on. *)
Definition listener (w : wake) : MM bool :=
  match w with
  | WQuit => mret false
  | WEvent (RBlock block) => _ ← on_new_block block; mret true
  | WEvent (RTx tx) => _ ← on_new_tx tx; mret true
  | WEvent ROther => mret true
  | WDefault now rnds => _ ← mineNewBlock now rnds; mret true
  end.

End Miner.
Arguments Mining D : clear implicits.
Arguments mkMining {D}.
Arguments miner {D}.
Arguments node {D}.
Arguments bus {D}.
