(* ===== verification/MinerSpec.v ===== *)
(** What the miner does to the chain: a round of mining extends the head with
    the block it announces, or leaves the chain alone; and a miner that has
    heard of uncles of two generations never extends it again, because nothing
    takes an uncle off its list. *)

From S2P Require Import Prelude GoVal Big Bytes Errors Rlp Value Reactor Wire Db Crypto Nibbles Trie.
From S2P Require Import State Curve Transaction Block Bloom Pow Machine Vm BlockChain Transition.
From S2P Require Import WriteSpec Core TxPool StateManager StateManagerSpec Miner.

#[export] Instance mining_db {D} : HasDb D (Mining D) := λ s, db_of (node s).

Section MinerSpec.
Context `{HC : Crypto} `{HS : Secp256k1} {D : Type} `{HD : Database D} `{HM : MapOrder} `{HN : NonceSort}.

#[local] Existing Instance quiet_preorder.

Lemma wlp_on_node {A} (m : NM (D := D) A) (Q : A -> Mining D -> Prop) s :
  wlp m (λ a k, Q a (mkMining (miner s) k (bus s))) (node s) -> wlp (on_node m) Q s.
Proof.
  intros Hm a s'. unfold on_node. destruct (m (node s)) as [o k] eqn:E. intros [= -> <-]. by apply Hm.
Qed.

Lemma wlp_quiet {A} (m : NM (D := D) A) (Q : A -> Mining D -> Prop) s :
  steps quiet m -> (∀ a k, quiet (node s) k -> Q a (mkMining (miner s) k (bus s))) -> wlp (on_node m) Q s.
Proof. intros Hm HQ. apply wlp_on_node. by apply (steps_wlp quiet). Qed.

Lemma wlp_miner (f : Miner -> Miner) (Q : unit -> Mining D -> Prop) s :
  Q tt (mkMining (f (miner s)) (node s) (bus s)) -> wlp (modify_miner f) Q s.
Proof. by intros HQ [] s' [= <-]. Qed.

Lemma wlp_get_miner (Q : Miner -> Mining D -> Prop) s : Q (miner s) s -> wlp get_miner Q s.
Proof. by intros HQ m s' [= <- <-]. Qed.

Lemma wlp_core (Q : Core D -> Mining D -> Prop) s : Q (node s) s -> wlp (on_node get_core) Q s.
Proof. intros HQ. apply wlp_on_node. intros k k' [= <- <-]. by destruct s. Qed.

(** What a round of mining does not touch of the miner. *)
Definition same_job (m m' : Miner) : Prop := mn_coinbase m' = mn_coinbase m ∧ mn_uncles m' = mn_uncles m.

(** The part of a block that the rest of the assembly does not change. *)
Definition same_core (b b' : Block) : Prop :=
  PrevHash b' = PrevHash b ∧ Uncles b' = Uncles b ∧ b_Coinbase b' = b_Coinbase b ∧ b_Difficulty b' = b_Difficulty b ∧
  b_Number b' = b_Number b.

Lemma process_parent coinbase block parent txs : ∀ i rs handled total st k,
  wlp (process_loop (D := D) coinbase block parent i txs rs handled total st) (λ p _, same_core parent (p_parent p)) k.
Proof.
  induction txs as [|tx txs IH]; intros i rs handled total st k; cbn [process_loop]; [by apply wlp_ret|].
  apply wlp_bind. intros [[err gas] st1] k1 _. destruct (match err with Some e => IsNonceErr e | None => false end); [apply IH|].
  destruct (match err with Some e => IsGasLimitErr e | None => false end); [by apply wlp_ret|].
  apply wlp_bind. intros [] k2 _. apply wlp_bind. intros [[] st2] k3 _. apply wlp_bind. intros root k4 _.
  destruct (receipts block !! Z.to_nat i); [|apply IH].
  destruct (receipt_Cmp _ _); cbn [negb]; [apply IH|]. apply wlp_bind. intros e k5 _. by apply wlp_ret.
Qed.

Lemma ProcessTransactions_parent coinbase s block parent txs k :
  wlp (ProcessTransactions (D := D) coinbase s block parent txs) (λ p k', same_core parent (p_parent p) ∧ quiet k k') k.
Proof.
  apply wlp_and.
  - unfold ProcessTransactions. apply wlp_bind. intros [o st] k1 _. apply process_parent.
  - apply (steps_wlp quiet); [|done]. unfold ProcessTransactions. apply steps_bind; [apply _|apply quiet_state|].
    intros [o st]. apply quiet_loop.
Qed.

(** The block made on the head. *)
Lemma NewBlock_fields (bc : BlockChain) coinbase now b :
  NewBlock bc coinbase now = Ret b -> b_Number b ≠ None ->
  PrevHash b = LastBlockHash bc ∧ Uncles b = [] ∧ b_Coinbase b = coinbase.
Proof.
  unfold NewBlock. intros H. inv_bind H. apply bind_Ret_inv in E as (u & Eu & [= <-]).
  unfold SetUncles in Eu. apply bind_Ret_inv in Eu as (us & _ & [= <-]).
  destruct (CurrentBlock bc) as [cur|].
  - inv_bind H. inv_bind H. inv_bind H. injection H as <-. done.
  - injection H as <-. done.
Qed.

Lemma SetUncles_fields us b b' :
  match us with [] => Ret b | u :: r => SetUncles (u :: r) b end = Ret b' -> Uncles b = [] ->
  PrevHash b' = PrevHash b ∧ Uncles b' = us ∧ b_Coinbase b' = b_Coinbase b ∧ b_Number b' = b_Number b.
Proof.
  destruct us as [|u us]; [by intros [= <-]|]. unfold SetUncles. intros H. inv_bind H. by injection H as <-.
Qed.

Lemma limit_of_number b p l : limit_of b p = Ret l -> b_Number b ≠ None.
Proof. unfold limit_of, CalcGasLimit. destruct p, (b_Number b); done. Qed.

(** Assembling a block is quiet, and the block is the miner's, on the head. *)
Lemma assemble_ok now s :
  wlp (assemble (D := D) now) (λ b s', quiet (node s) (node s') ∧ same_job (miner s) (miner s') ∧
    PrevHash b = LastBlockHash (c_bc (k_chain (node s))) ∧ Uncles b = mn_uncles (miner s) ∧
    b_Coinbase b = mn_coinbase (miner s)) s.
Proof.
  unfold assemble, new_block. apply wlp_bind, wlp_bind, wlp_get_miner, wlp_bind, wlp_core, wlp_lift. intros b0 H0.
  apply wlp_bind, wlp_get_miner, wlp_bind, wlp_lift. intros b1 H1.
  apply wlp_bind, wlp_miner, wlp_bind, wlp_core, wlp_bind, wlp_lift. intros parent _. cbn [miner node].
  apply wlp_bind, wlp_quiet; [apply quiet_state|]. intros [coinbase st1] k1 Q1. cbn [node] in Q1.
  apply wlp_bind, wlp_lift. intros limit Hl.
  apply wlp_bind, wlp_quiet; [apply quiet_state|]. intros [[] st2] k2 Q2. cbn [miner node] in *.
  apply wlp_bind, wlp_get_miner, wlp_bind, wlp_on_node. cbn [miner node].
  eapply wlp_mono; [|apply ProcessTransactions_parent]. intros p k3 [Hp Q3].
  apply wlp_bind, wlp_miner, wlp_bind, wlp_on_node. cbn [miner node].
  intros b2 k4 E4. pose proof (steps_run _ _ _ _ _ (quiet_env _) E4) as Q4.
  assert (same_core (p_parent p) b2) as H2.
  { unfold on_env in E4. destruct (SetTxHash _ _ _) as [[b| |] e] eqn:E; [|done..].
    injection E4 as -> _. revert E. unfold SetTxHash, mbind, st_bind.
    destruct (CreateTxSha _ _) as [[sha| |] e']; [|done..]. by intros [= <- _]. }
  apply wlp_bind, wlp_quiet; [apply quiet_state|]. intros [[] st3] k5 Q5. cbn [miner node] in *.
  apply wlp_bind, wlp_quiet; [apply quiet_state|]. intros [[] st4] k6 Q6. cbn [miner node] in *.
  apply wlp_ret. cbn [miner node].
  split; [by repeat (etrans; [eassumption|])|]. split; [done|].
  assert (b_Number b0 ≠ None) as Hn.
  { apply limit_of_number in Hl. intros Hn. apply Hl. destruct (mn_uncles (miner s)); [by injection H1 as <-|].
    unfold SetUncles in H1. inv_bind H1. by injection H1 as <-. }
  apply NewBlock_fields in H0 as (P0 & U0 & C0); [|done]. apply SetUncles_fields in H1 as (P1 & U1 & C1 & _); [|done].
  destruct Hp as (P2 & U2 & C2 & _), H2 as (P3 & U3 & C3 & _). cbn.
  split_and!; congruence.
Qed.

(** A block becomes the head of the node [k'], when it is submitted to the node [k1]: its
    parent is in the database of that node, and on it, from that node, the block is valid. *)
Definition taken (k1 k' : Core D) (parent previous : Block) (d : D) (block : Block) : Prop :=
  GetBlock (db_of k1) (PrevHash block) = Ret (Some parent) ∧
  valid_block (attempted block k1) parent previous d block ∧
  ∃ hash, block_Hash block = Ret hash ∧
    extends (c_bc (k_chain k1)) block hash (c_bc (k_chain k')) ∧ TD (c_bc (k_chain k1)) < TD (c_bc (k_chain k')).

(** What a round of mining does to the chain of the node [k], when it submits its block to [k1]. *)
Definition mined (m : Miner) (k k1 k' : Core D) (parent previous : Block) (d : D) (block : Block) : Prop :=
  PrevHash block = LastBlockHash (c_bc (k_chain k)) ∧ Uncles block = mn_uncles m ∧ b_Coinbase block = mn_coinbase m ∧
  quiet k k1 ∧ taken k1 k' parent previous d block.

Lemma submit_ok block s :
  wlp (submit (D := D) block) (λ _ s', same_job (miner s) (miner s') ∧
    (c_bc (k_chain (node s')) = c_bc (k_chain (node s)) ∨
     (∃ parent previous d, taken (node s) (node s') parent previous d block) ∧ mn_txs (miner s') = k_pool (node s'))) s.
Proof.
  unfold submit. apply wlp_bind, wlp_core, wlp_bind, wlp_lift. intros hash Hh.
  apply wlp_bind, wlp_on_node. eapply wlp_mono; [|apply Process_ok]. intros err k1 Hk1. cbn [miner node] in *.
  destruct err as [e|].
  - apply wlp_ret. cbn [miner node]. split; [done|]. left. by destruct Hk1.
  - destruct Hk1 as (h & Hh' & Hcase). assert (h = hash) as -> by congruence.
    apply wlp_bind, wlp_lift. intros v _. apply wlp_bind, wlp_on_node. intros [] k2 [= <-]. cbn [miner node bus].
    apply wlp_bind, wlp_on_node. intros txs k3 [= <- <-]. cbn [miner node bus k_pool].
    apply wlp_bind, wlp_core. cbn [miner node bus k_chain]. apply wlp_bind, wlp_miner, wlp_miner. cbn [miner node bus k_chain k_pool].
    split; [done|]. destruct Hcase as [[_ ->] | (parent & previous & d & Hp & Hv & Hext)]; [by left|].
    destruct (0 <? CalculateBlockTD block); [|left; by destruct Hext]. destruct Hext as (Hx & _ & Htd).
    right. split; [|done]. exists parent, previous, d. split; [done|]. split; [done|]. by exists hash.
Qed.

Lemma same_job_trans m1 m2 m3 : same_job m1 m2 -> same_job m2 m3 -> same_job m1 m3.
Proof. intros [Hc Hu] [Hc' Hu']. split; congruence. Qed.

Lemma mineNewBlock_ok now rnds s :
  wlp (mineNewBlock (D := D) now rnds) (λ _ s', same_job (miner s) (miner s') ∧
    (c_bc (k_chain (node s')) = c_bc (k_chain (node s)) ∨
     ∃ k1 parent previous d block, mined (miner s) (node s) k1 (node s') parent previous d block ∧
       mn_txs (miner s') = k_pool (node s'))) s.
Proof.
  unfold mineNewBlock. apply wlp_bind. eapply wlp_mono; [|apply assemble_ok].
  intros b s1 (Q1 & J1 & Hp & Hu & Hc). apply wlp_bind, wlp_lift. intros hash _.
  apply wlp_bind, wlp_lift. intros nonce _. apply wlp_bind, wlp_miner.
  set (block := set_b_Nonce (default [] nonce) b).
  assert (∀ m, same_job (miner s) (set_work (Some block) false m) <-> same_job (miner s) m) as Hj by done.
  destruct nonce as [nonce|].
  - eapply wlp_mono; [|apply submit_ok]. cbn [miner node]. intros [] s2 (J2 & Hcase).
    split; [eapply same_job_trans; [exact J1|exact J2]|].
    destruct Hcase as [Hbc2 | [(parent & previous & d & Ht) Htx]]; [left; destruct Q1; congruence|].
    right. exists (node s1), parent, previous, d, block. split; [|done]. by repeat (split; [done|]).
  - apply wlp_ret. cbn [miner node]. split; [exact J1|]. left. by destruct Q1.
Qed.

Lemma mined_extends m k k1 k' parent previous d block : mined m k k1 k' parent previous d block ->
  ∃ hash, block_Hash block = Ret hash ∧ extends (c_bc (k_chain k)) block hash (c_bc (k_chain k')) ∧
    TD (c_bc (k_chain k)) < TD (c_bc (k_chain k')).
Proof. intros (_ & _ & _ & [<- _] & _ & _ & hash & H). by exists hash. Qed.

(** ** What a round writes before it submits *)

Context `{HL : !DatabaseLaws D}.

Lemma records_on_node {A} (m : NM (D := D) A) : steps records m -> steps records (on_node m).
Proof. intros Hm s. unfold on_node. specialize (Hm (node s)). by destruct (m (node s)). Qed.

#[local] Hint Resolve records_on_node records_with_state records_on_env records_loop records_rewards records_account
  records_modify records_State_Update records_CreateTxSha records_object : records.

Lemma records_SetTxHash rs b : steps records (SetTxHash (D := D) rs b).
Proof. unfold SetTxHash. recording. Qed.

Lemma records_process coinbase s block parent txs :
  steps records (ProcessTransactions (D := D) coinbase s block parent txs).
Proof. unfold ProcessTransactions. recording. Qed.

#[local] Hint Resolve records_SetTxHash records_process : records.

Lemma records_assemble now : steps records (assemble (D := D) now).
Proof. unfold assemble, new_block. recording. Qed.

Lemma mineNewBlock_written now rnds s :
  wlp (mineNewBlock (D := D) now rnds) (λ _ s',
    c_bc (k_chain (node s')) = c_bc (k_chain (node s)) ∨
    ∃ k1 parent previous d block, mined (miner s) (node s) k1 (node s') parent previous d block ∧
      mn_txs (miner s') = k_pool (node s') ∧ only_digests (db_of (node s)) (db_of k1)) s.
Proof.
  unfold mineNewBlock. apply wlp_bind. intros b s1 E1.
  pose proof (assemble_ok now s b s1 E1) as (Q1 & J1 & Hp & Hu & Hc).
  pose proof (steps_run _ _ _ _ _ (records_assemble now) E1) as Hw.
  apply wlp_bind, wlp_lift. intros hash _.
  apply wlp_bind, wlp_lift. intros nonce _. apply wlp_bind, wlp_miner. destruct nonce as [nonce|].
  - eapply wlp_mono; [|apply submit_ok]. cbn [miner node]. intros [] s2 (J2 & Hcase).
    destruct Hcase as [Hbc2 | [(parent & previous & d & Ht) Htx]]; [left; destruct Q1; congruence|].
    right. exists (node s1), parent, previous, d, (set_b_Nonce nonce b).
    split; [by repeat (split; [done|])|]. by split.
  - apply wlp_ret. left. by destruct Q1.
Qed.

(** C15. A round of mining extends the head or leaves the chain alone.  Whatever
    the miner, the node and the random numbers are: when a round returns, either
    the chain is as it was, or its new head is a block on the old head, with the
    miner's coinbase and all of the miner's uncles; it has passed every check of [Process] from the
    node that it was submitted to, in which the chain and the pool are as at the start and the
    database has changed by nothing but contract code stored under its digest, so that the parent it
    extends is the head as the database had it (unless such code collides with it under the hash
    function); the total difficulty has grown, and the miner goes on with the transactions of the pool. *)
Theorem mining_extends_head (now : Z) (rnds : list Z) (s s' : Mining D) :
  mineNewBlock now rnds s = (Ret tt, s') ->
  c_bc (k_chain (node s')) = c_bc (k_chain (node s)) ∨
  ∃ k1 parent previous d block,
    mined (miner s) (node s) k1 (node s') parent previous d block ∧
    mn_txs (miner s') = k_pool (node s') ∧
    (∃ hash, block_Hash block = Ret hash ∧
       extends (c_bc (k_chain (node s))) block hash (c_bc (k_chain (node s')))) ∧
    TD (c_bc (k_chain (node s))) < TD (c_bc (k_chain (node s'))) ∧
    only_digests (db_of (node s)) (db_of k1) ∧
    (GetBlock (db_of (node s)) (PrevHash block) = Ret (Some parent) ∨
     overwritten (db_of (node s)) (db_of k1) (PrevHash block)) ∧
    (previous = parent ∨ overwritten (db_of k1) d (PrevHash block)).
Proof.
  intros E. apply (mineNewBlock_written now rnds s tt s') in E as [|E]; [by left|]. right.
  destruct E as (k1 & parent & previous & d & block & Hm & Htx & Hw).
  exists k1, parent, previous, d, block. destruct (mined_extends _ _ _ _ _ _ _ _ Hm) as (hash & Hh & Hx & Htd).
  destruct Hm as (Hp & Hu & Hc & Q & Hg & Hv & Hx').
  split_and!; [by repeat (split; [done|])|done|by exists hash|done|done| |].
  - destruct (GetBlock_after _ _ (PrevHash block) Hw) as [<-|]; [by left|by right].
  - by apply (valid_block_parent (attempted block k1) parent previous d block).
Qed.

(** * Uncles stay *)

(** The chain has the same head, up to the objects of its state. *)
Definition same_head (bc bc' : BlockChain) : Prop :=
  LastBlockHash bc' = LastBlockHash bc ∧ TD bc' = TD bc ∧ LastBlockNumber bc' = LastBlockNumber bc.

Definition keeps_uncles (s s' : Mining D) : Prop := mn_uncles (miner s) `prefix_of` mn_uncles (miner s').

Definition two_generations (s : Mining D) : Prop :=
  ∃ u v, u ∈ mn_uncles (miner s) ∧ v ∈ mn_uncles (miner s) ∧ PrevHash u ≠ PrevHash v.

Lemma two_generations_keeps s s' : keeps_uncles s s' -> two_generations s -> two_generations s'.
Proof. intros [l Hl] (u & v & Hu & Hv & Hne). exists u, v. rewrite Hl, !elem_of_app. by auto. Qed.

(** A block with such uncles is not valid. *)
Lemma two_generations_not_mined s k k1 k' parent previous d block :
  two_generations s -> ¬ mined (miner s) k k1 k' parent previous d block.
Proof.
  intros (u & v & Hu & Hv & Hne) (_ & Huncles & _ & _ & _ & Hvalid & _).
  destruct Hvalid as [rs st st' k2 k3 k4 _ _ _ _ [Hus _] _ _]. rewrite Huncles, Forall_forall in Hus.
  apply Hne. by rewrite (Hus u Hu), (Hus v Hv).
Qed.

Lemma undo_block_ok s :
  wlp (undo_block (D := D)) (λ _ s', mn_uncles (miner s') = mn_uncles (miner s) ∧
    same_head (c_bc (k_chain (node s))) (c_bc (k_chain (node s')))) s.
Proof.
  unfold undo_block. apply wlp_bind, wlp_get_miner, wlp_bind, wlp_lift. intros block _.
  destruct (mn_head (miner s)).
  - apply wlp_bind, wlp_on_node. apply (steps_wlp head_state); [apply head_current|]. intros [] k1 Hk1.
    apply wlp_bind, wlp_core, wlp_miner. cbn [miner node]. split; [done|].
    destruct Hk1 as [-> | (b & st & _ & ->)]; [by repeat split|]. by repeat split.
  - apply wlp_bind, wlp_quiet; [apply quiet_state|]. intros [[] st] k1 (Hbc & _).
    apply wlp_miner. cbn [miner node]. split; [done|]. by rewrite Hbc.
Qed.

Lemma listener_keeps_uncles w s : wlp (listener (D := D) w) (λ _ s', keeps_uncles s s') s.
Proof.
  unfold keeps_uncles. destruct w as [|[block|tx|]|now rnds]; cbn [listener]; [by apply wlp_ret| | |by apply wlp_ret|].
  - apply wlp_bind. unfold on_new_block. apply wlp_bind, wlp_core, wlp_bind, wlp_lift. intros cur _.
    apply wlp_bind, wlp_lift. intros h _. apply wlp_bind, wlp_lift. intros h' _.
    repeat case_bool_decide; [| |by apply wlp_ret, wlp_ret]; apply wlp_miner, wlp_ret; cbn; [done|by apply prefix_app_r].
  - apply wlp_bind. unfold on_new_tx. apply wlp_bind, wlp_get_miner. case_match; [by apply wlp_ret, wlp_ret|].
    apply wlp_bind. eapply wlp_mono; [|apply undo_block_ok]. intros [] s1 [Hu _]. apply wlp_miner, wlp_ret. cbn. by rewrite Hu.
  - apply wlp_bind. eapply wlp_mono; [|apply mineNewBlock_ok]. intros [] s1 [[_ Hu] _]. apply wlp_ret. by rewrite Hu.
Qed.

Lemma listener_same_head w s :
  two_generations s -> wlp (listener (D := D) w) (λ _ s', same_head (c_bc (k_chain (node s))) (c_bc (k_chain (node s')))) s.
Proof.
  intros Htwo. destruct w as [|[block|tx|]|now rnds]; cbn [listener]; [by apply wlp_ret| | |by apply wlp_ret|].
  - apply wlp_bind. unfold on_new_block. apply wlp_bind, wlp_core, wlp_bind, wlp_lift. intros cur _.
    apply wlp_bind, wlp_lift. intros h _. apply wlp_bind, wlp_lift. intros h' _.
    repeat case_bool_decide; [| |by apply wlp_ret, wlp_ret]; by apply wlp_miner, wlp_ret.
  - apply wlp_bind. unfold on_new_tx. apply wlp_bind, wlp_get_miner. case_match; [by apply wlp_ret, wlp_ret|].
    apply wlp_bind. eapply wlp_mono; [|apply undo_block_ok]. intros [] s1 [_ Hh]. by apply wlp_miner, wlp_ret.
  - apply wlp_bind. eapply wlp_mono; [|apply mineNewBlock_ok]. intros [] s1 [_ [Hbc | (k1 & parent & previous & d & block & Hm & _)]].
    + apply wlp_ret. by rewrite Hbc.
    + by apply two_generations_not_mined in Hm.
Qed.

(** The listener's rounds, and between them whatever the rest of the program
    makes of the node (the head that the miner's block may be is then no longer
    shared). *)
Inductive mining_step : relation (Mining D) :=
| step_listen w s go s' : listener w s = (Ret go, s') -> mining_step s s'
| step_start react quit now s s' : Miner_Start react quit now s = (Ret tt, s') -> mining_step s s'
| step_stop s s' : Miner_Stop s = (Ret tt, s') -> mining_step s s'
| step_node k s : mining_step s (mkMining (set_work (mn_block (miner s)) false (miner s)) k (bus s)).

Lemma wlp_bus f (Q : unit -> Mining D -> Prop) s :
  (∀ r, Q tt (mkMining (miner s) (node s) r)) -> wlp (modify_bus f) Q s.
Proof. intros HQ [] s'. unfold modify_bus. destruct (f (bus s)); [|done..]. intros [= <-]. apply HQ. Qed.

Lemma wlp_node_any {A} (m : NM (D := D) A) (Q : A -> Mining D -> Prop) s :
  (∀ a k, Q a (mkMining (miner s) k (bus s))) -> wlp (on_node m) Q s.
Proof. intros HQ. apply wlp_on_node. intros a k _. apply HQ. Qed.

Lemma Start_keeps_uncles react quit now s : wlp (Miner_Start react quit now) (λ _ s', keeps_uncles s s') s.
Proof.
  unfold Miner_Start, new_block. apply wlp_bind, wlp_miner, wlp_bind, wlp_node_any. intros txs k.
  apply wlp_bind, wlp_miner, wlp_bind, wlp_bind, wlp_get_miner, wlp_bind, wlp_core, wlp_lift. intros block _.
  apply wlp_bind, wlp_miner. do 4 (apply wlp_bind, wlp_bus; intros ?). by apply wlp_node_any; intros [] k'; unfold keeps_uncles.
Qed.

Lemma Stop_keeps_uncles s : wlp Miner_Stop (λ _ s', keeps_uncles s s') s.
Proof.
  unfold Miner_Stop. apply wlp_bind, wlp_get_miner. do 4 (apply wlp_bind, wlp_bus; intros ?). by apply wlp_node_any; intros [] k'; unfold keeps_uncles.
Qed.

Lemma mining_step_keeps s s' : mining_step s s' -> keeps_uncles s s'.
Proof.
  intros [w s1 go s2 E|react quit now s1 s2 E|s1 s2 E|k s1].
  - by apply (listener_keeps_uncles w s1 go s2).
  - by apply (Start_keeps_uncles react quit now s1 tt s2).
  - by apply (Stop_keeps_uncles s1 tt s2).
  - by unfold keeps_uncles.
Qed.

(** C38. A miner that has heard of uncles of two generations mines no more.  From
    then on, whatever it receives, whatever nonces it finds, however often it is
    stopped and started and whatever else happens to the node, no round of its listener gives the
    chain another head: no uncle is ever taken off the miner's list, and the
    block with all of them fails the check that they share their parent. *)
Theorem stale_uncles_stop_mining (s0 s s' : Mining D) (w : wake) (go : bool) :
  two_generations s0 -> rtc mining_step s0 s -> listener w s = (Ret go, s') ->
  same_head (c_bc (k_chain (node s))) (c_bc (k_chain (node s'))).
Proof.
  intros Htwo Hreach E. apply (listener_same_head w s) with (a := go) (s' := s'); [|exact E]. clear E.
  induction Hreach as [|s1 s2 s3 Hstep _ IH]; [done|]. apply IH.
  eapply two_generations_keeps; [|exact Htwo]. by apply mining_step_keeps.
Qed.

End MinerSpec.

(** * Runs *)

#[local] Existing Instances toy_crypto toy_curve list_order.

Definition nonce_le (x y : Transaction) : Prop := tx_Nonce x <= tx_Nonce y.
#[local] Instance nonce_le_dec x y : Decision (nonce_le x y) := decide (tx_Nonce x <= tx_Nonce y).
#[local] Instance nonce_le_total : Total nonce_le.
Proof. intros x y. unfold nonce_le. lia. Qed.

#[local] Instance merge_nonces : NonceSort := {|
  sort_by_nonce := merge_sort nonce_le;
  sort_by_nonce_perm := λ l, merge_sort_Permutation nonce_le l;
  sort_by_nonce_sorted := λ l, Sorted_merge_sort nonce_le l;
|}.

(** A miner on the short chain, with some uncles. *)
Definition lone_miner (us : list Block) : Mining MemDatabase :=
  mkMining (set_uncles us (NewDefaultMiner [xcc])) short_node Reactor.New.

Definition round (us : list Block) : outcome unit * Mining MemDatabase := mineNewBlock 1400000100 [5] (lone_miner us).

(** The block it mines becomes the head and the total difficulty grows. *)
Lemma mining_extends_head_witness :
  let s := lone_miner [] in
  let s' := (round []).2 in
  (TD (c_bc (k_chain (node s'))) = 130944 ∧ mn_head (miner s') = true) ∧
  (c_bc (k_chain (node s')) = c_bc (k_chain (node s)) ∨
   ∃ k1 parent previous d block,
    mined (miner s) (node s) k1 (node s') parent previous d block ∧
    mn_txs (miner s') = k_pool (node s') ∧
    (∃ hash, block_Hash block = Ret hash ∧
       extends (c_bc (k_chain (node s))) block hash (c_bc (k_chain (node s')))) ∧
    TD (c_bc (k_chain (node s))) < TD (c_bc (k_chain (node s'))) ∧
    only_digests (db_of (node s)) (db_of k1) ∧
    (GetBlock (db_of (node s)) (PrevHash block) = Ret (Some parent) ∨
     overwritten (db_of (node s)) (db_of k1) (PrevHash block)) ∧
    (previous = parent ∨ overwritten (db_of k1) d (PrevHash block))).
Proof.
  split; [vm_compute; split; reflexivity|].
  apply (mining_extends_head 1400000100 [5] (lone_miner []) (round []).2). vm_compute. reflexivity.
Defined.

(** A sibling of the head, and one of the block after it. *)
Definition uncle_of (prev : bytes) : Block := 
  mkBlock prev [] (zeros 32) (zeros 20) (State_New (Trie_New (VStr []))) 1 1400000010 (Some 2) 10 1000000 0 [] [x01] [] [] [].

Definition old_uncles : list Block := [uncle_of (PrevHash first_block); uncle_of (block_digest first_block)].

Definition stale_round : outcome bool * Mining MemDatabase := listener (WDefault 1400000100 [5]) (lone_miner old_uncles).

Lemma stale_uncles_stop_mining_witness :
  stale_round.1 = Ret true ∧
  same_head (c_bc (k_chain (node (lone_miner old_uncles)))) (c_bc (k_chain (node stale_round.2))).
Proof.
  split; [vm_compute; reflexivity|].
  apply (stale_uncles_stop_mining (lone_miner old_uncles) (lone_miner old_uncles) stale_round.2
           (WDefault 1400000100 [5]) true); [|constructor|vm_compute; reflexivity].
  exists (uncle_of (PrevHash first_block)), (uncle_of (block_digest first_block)).
  split; [left|]. split; [right; left|]. vm_compute. discriminate.
Defined.

(** * The head is undone

    After a block has been mined the miner's block is the chain's current one. A
    new transaction makes the miner undo it: the head's state goes back to the
    root it was assembled on, and the next block, made on that root, is refused. *)
Definition undone : Mining MemDatabase := (listener (WEvent (RTx example_tx)) (round []).2).2.

Definition head_root (s : Mining MemDatabase) : option goval := GetRoot <$> CurrentBlock (c_bc (k_chain (node s))).

Lemma transaction_undoes_head :
  mn_head (miner undone) = true ∧
  head_root undone = head_root (lone_miner []) ∧ head_root undone ≠ head_root (round []).2 ∧
  LastBlockHash (c_bc (k_chain (node undone))) = LastBlockHash (c_bc (k_chain (node (round []).2))) ∧
  let next s := (listener (WDefault 1400000200 [5]) s).2 in
  LastBlockNumber (c_bc (k_chain (node (next (round []).2)))) = LastBlockNumber (c_bc (k_chain (node (round []).2))) + 1 ∧
  LastBlockNumber (c_bc (k_chain (node (next (mkMining (set_txs [] (miner undone)) (node undone) (bus undone))))))
  = LastBlockNumber (c_bc (k_chain (node undone))).
Proof. vm_compute. repeat split; discriminate. Qed.
