(* ===== verification/RewardSpec.v ===== *)
(** What [AccumelateRewards] pays: the balance of every account after it, for
    accounts in memory and accounts in the state trie alike. *)

From S2P Require Import Prelude GoVal Big Bytes Errors Rlp Value Wire Db Crypto Nibbles Trie TrieSpec.
From S2P Require Import State Curve Transaction Block TrieRoot StateSpec BlockChain Transition Core.
From S2P Require Import TxPool StateManager.

Section Rewards.
Context `{HC : Crypto} {D : Type} `{HD : Database D} `{HL : !DatabaseLaws D}.

(** An account as it is stored: nothing, or the encoding of an account. *)
Definition stored_account (data : bytes) (o : option StateObject) : Prop :=
  match o with
  | None => data = []
  | Some o => data = enc (object_item o) ∧ object_ok o ∧ Balance o < 2 ^ 256
  end.

(** The accounts of a world whose state trie holds [M]: every stored account can
    be read, every object in memory can be encoded, is under its own address, and no
    two addresses share one. *)
Record accounts_ok (w : World D) (M M0 : gmap bytes bytes) : Prop := {
  ao_trie : state_holds w M M0;
  ao_stored : ∀ a, zlen a = 20 -> ∃ o, stored_account (content M a) o;
  ao_object : ∀ a l, stateObjects (w_state w) !! a = Some l ->
    zlen a = 20 ∧ ∃ o, w_heap w !! l = Some o ∧ so_address o = a ∧ object_ok o;
  ao_inj : ∀ a b l, stateObjects (w_state w) !! a = Some l ->
    stateObjects (w_state w) !! b = Some l -> a = b;
}.

(** The balance of an address: of the object in memory if there is one, else
    of the stored account, else zero. *)
Definition balance_of (w : World D) (M : gmap bytes bytes) (a : bytes) (z : Z) : Prop :=
  match stateObjects (w_state w) !! Address a with
  | Some l => ∃ o, w_heap w !! l = Some o ∧ Balance o = z
  | None => ∃ o, stored_account (content M (Address a)) o ∧ z = match o with Some o => Balance o | None => 0 end
  end.

Lemma Address_Address a : Address (Address a) = Address a.
Proof. apply Address_id, Address_len. Qed.

(** An account read from the trie; its code is whatever the database has under
    the code's hash. *)
Lemma object_decode_any (e : Env D) addr o :
  object_ok o -> Balance o < 2 ^ 256 ->
  NewStateObjectFromBytes e addr (enc (object_item o))
  = Ret (set_Code (db_data (e_db e) (Sha3Bin (Code o))) (object_read addr o)).
Proof.
  intros Ho Hb. pose proof Ho as (Hn & Hb0 & Hr).
  unfold NewStateObjectFromBytes, StateObject_RlpDecode.
  rewrite NewValueFromBytes_enc by (by apply object_item_len). cbn [mbind outcome_bind].
  unfold object_item. get_fields. cbn [of_item]. unfold Value_Interface, object_read.
  rewrite BigInt_big, Uint_big, (of_str_root _ Hr), of_str_sha by lia. done.
Qed.

Lemma object_read_ok addr o c :
  object_ok o -> object_ok (set_Code c (object_read addr o)).
Proof.
  intros (Hn & Hb & (r & Hr & Hlen)). split; [done|]. split; [done|]. cbn.
  exists r. split; [right|done]. by destruct Hr as [-> | ->].
Qed.

(** A new object for an address that has none. *)
Definition with_object (w : World D) (t : Trie) (e : Env D) (a : bytes) (o : StateObject) : World D :=
  mkWorld e (w_heap w ++ [o])
    (mkState t (<[a := length (w_heap w)]> (stateObjects (w_state w))) (s_manifest (w_state w))).

Lemma accounts_new w M M0 t e a o :
  accounts_ok w M M0 -> trie_ok (t, e) M M0 -> stateObjects (w_state w) !! a = None ->
  zlen a = 20 -> so_address o = a -> object_ok o ->
  accounts_ok (with_object w t e a o) M M0.
Proof.
  intros [Htr Hst Hob Hinj] Ht Hnone Hlen Haddr Ho. split; [done|done|..]; cbn [with_object w_state w_heap stateObjects].
  - intros b l. rewrite lookup_insert_Some. intros [[<- <-]|[Hne Hb]].
    + split; [done|]. exists o. by rewrite list_lookup_middle.
    + destruct (Hob b l Hb) as (Hlb & x & Hx & ?). split; [done|]. exists x.
      split; [by apply lookup_app_l_Some|done].
  - intros b c l. rewrite !lookup_insert_Some.
    intros [[<- <-]|[Hne Hb]] [[<- Hl]|[Hne' Hc]]; [done|..|by eapply Hinj].
    + destruct (Hob c _ Hc) as (_ & x & Hx & _). apply lookup_lt_Some in Hx. lia.
    + destruct (Hob b _ Hb) as (_ & x & Hx & _). apply lookup_lt_Some in Hx. lia.
Qed.

Lemma balance_new w M t e a o :
  stateObjects (w_state w) !! a = None -> Address a = a ->
  (∀ b l, stateObjects (w_state w) !! b = Some l -> is_Some (w_heap w !! l)) ->
  balance_of w M a (Balance o) ->
  ∀ b z, balance_of w M b z -> (Address b = a -> z = Balance o) ->
         balance_of (with_object w t e a o) M b z.
Proof.
  intros Hnone Ha Hptr Hbal b z Hz Hb. unfold balance_of in *. cbn [with_object w_state w_heap stateObjects].
  destruct (decide (Address b = a)) as [E|E].
  - rewrite E, lookup_insert_eq. exists o. rewrite list_lookup_middle by done. by rewrite Hb.
  - rewrite lookup_insert_ne by done. destruct (stateObjects (w_state w) !! Address b) as [l|] eqn:El; [|done].
    destruct Hz as (x & Hx & <-). exists x. split; [by apply lookup_app_l_Some|done].
Qed.

Lemma object_item_balance o o' :
  0 <= Balance o -> 0 <= Balance o' -> object_item o = object_item o' -> Balance o = Balance o'.
Proof.
  intros H0 H0' E. unfold object_item in E.
  assert (big_Bytes (Balance o) = big_Bytes (Balance o')) as E' by congruence.
  apply (f_equal big_SetBytes) in E'. rewrite !SetBytes_Bytes in E'. lia.
Qed.

Lemma balance_unique w M a z z' : balance_of w M a z -> balance_of w M a z' -> z = z'.
Proof.
  unfold balance_of. destruct (_ !! _) as [l|].
  - intros (o & Ho & <-) (o' & Ho' & <-). congruence.
  - intros (o & Ho & ->) (o' & Ho' & ->). unfold stored_account in *. destruct o as [o|], o' as [o'|].
    + destruct Ho as (E1 & Hok & Hb), Ho' as (E & Hok' & Hb'). rewrite E1 in E.
      apply object_item_balance; [apply Hok|apply Hok'|].
      apply enc_inj; [by apply object_item_len|done].
    + destruct Ho as (E & _). rewrite Ho' in E. pose proof (enc_pos (object_item o)) as Hp.
      by rewrite <-E in Hp.
    + destruct Ho' as (E & _). rewrite Ho in E. pose proof (enc_pos (object_item o')) as Hp.
      by rewrite <-E in Hp.
    + done.
Qed.

(** The object that an address without one gets. *)
Lemma account_added w w1 M M0 a o :
  accounts_ok w M M0 -> stateObjects (w_state w) !! Address a = None ->
  w_heap w1 = w_heap w -> stateObjects (w_state w1) = stateObjects (w_state w) ->
  trie_ok (s_Trie (w_state w1), w_env w1) M M0 ->
  so_address o = Address a -> object_ok o -> balance_of w M a (Balance o) ->
  let l := length (w_heap w1) in
  let w' := mkWorld (w_env w1) (w_heap w1 ++ [o])
              (set_objects (<[Address a := l]> (stateObjects (w_state w1))) (w_state w1)) in
  accounts_ok w' M M0 ∧ stateObjects (w_state w') !! Address a = Some l ∧
  ∀ b z, balance_of w M b z -> balance_of w' M b z.
Proof.
  intros Hw Hnone Hh Hs Ht Haddr Ho Hbal l w'.
  assert (accounts_ok (with_object w (s_Trie (w_state w1)) (w_env w1) (Address a) o) M M0) as Hok.
  { apply accounts_new; [done..|apply Address_len|done|done]. }
  assert (∀ b l, stateObjects (w_state w) !! b = Some l -> is_Some (w_heap w !! l)) as Hptr.
  { intros b l' Hb. destruct (ao_object _ _ _ Hw b l' Hb) as (_ & x & Hx & _). by exists x. }
  subst l w'. unfold set_objects. cbn [w_heap w_state]. rewrite Hh, Hs. split; [|split].
  - destruct Hok as [H1 H2 H3 H4]. split; [exact H1|exact H2|exact H3|exact H4].
  - cbn. by rewrite lookup_insert_eq.
  - intros b z Hz.
    assert (balance_of w M (Address a) (Balance o)) as Hbal'.
    { unfold balance_of in *. by rewrite Address_Address. }
    apply (balance_new w M (s_Trie (w_state w1)) (w_env w1) (Address a) o Hnone
             (Address_Address a) Hptr Hbal' b z Hz).
    intros Hb. apply (balance_unique w M a); [|done].
    unfold balance_of in *. by rewrite <-Hb.
Qed.

(** Looking an account up, or making it. *)
Lemma GetAccount_ok w M M0 a :
  accounts_ok w M M0 ->
  hwp (GetAccount a) (λ l w', accounts_ok w' M M0 ∧
    stateObjects (w_state w') !! Address a = Some l ∧
    ∀ b z, balance_of w M b z -> balance_of w' M b z) w.
Proof.
  intros Hw. unfold GetAccount, GetOrNewStateObject, GetStateObject.
  destruct (stateObjects (w_state w) !! Address a) as [l|] eqn:El.
  { eapply (hwp_run _ _ (Some l)); [|by apply hwp_ret].
    rewrite (st_bind_run get_state _ w (w_state w) w) by done. by rewrite El. }
  destruct (ao_stored _ _ _ Hw (Address a) (Address_len a)) as [o Ho].
  assert (balance_of w M a (match o with Some o => Balance o | None => 0 end)) as Hbal.
  { unfold balance_of. rewrite El. by exists o. }
  assert (hwp (on_state_trie (Trie_Get (Address a))) (λ data w1, data = content M (Address a) ∧
            w_heap w1 = w_heap w ∧ stateObjects (w_state w1) = stateObjects (w_state w) ∧
            trie_ok (s_Trie (w_state w1), w_env w1) M M0) w) as Hget.
  { apply on_state_trie_wp. eapply hwp_mono; [|apply Get_ok, (ao_trie _ _ _ Hw)].
    intros v [t e] [-> Ht]. done. }
  apply hwp_bind; [intros [?|] s x Hx; exact Hx|].
  eapply (hwp_run get_state); [done|]. rewrite El.
  apply hwp_bind.
  { intros data. destruct (zlen data =? 0); [intros s x Hx; exact Hx|]. apply grows_bind; [by intros ? ?|]. intros e.
    apply grows_bind; [apply grows_lift|]. intros x. apply grows_bind; [by intros ? ?|]. intros l.
    apply grows_bind; [by intros ? ?|]. intros s. apply grows_bind; [by intros ? ?|by intros ? ? ?]. }
  eapply hwp_mono; [|exact Hget]. intros data w1 (-> & Hh & Hs & Ht).
  destruct o as [o|]; unfold stored_account in Ho.
  - destruct Ho as (E1 & Hok & Hb). rewrite E1. pose proof (enc_pos (object_item o)).
    destruct (Z.eqb_spec (zlen (enc (object_item o))) 0); [lia|].
    intros _. unfold mbind, st_bind, get_env, lift, new_object, get_state, put_state, mret, st_ret.
    cbn [w_env w_heap w_state]. rewrite object_decode_any by done.
    eexists. split; [done|]. apply hwp_ret.
    apply (account_added w w1 M M0 a); [done..|apply object_read_ok; done|done].
  - rewrite Ho. cbn. intros _. eexists. split; [done|].
    intros _. unfold State_NewStateObject, mbind, st_bind, new_object, get_state, put_state, mret, st_ret.
    cbn [w_env w_heap w_state]. eexists. split; [done|].
    apply (account_added w w1 M M0 a); [done..|apply Address_Address| |done].
    split; [done|]. split; [done|]. exists []. by auto.
Qed.

(** What one payment adds to the balance of an address. *)
Definition credit (b a : bytes) (amount : Z) : Z :=
  if bool_decide (Address b = Address a) then amount else 0.

Lemma grows_modify_object l f : grows (modify_object (D := D) l f).
Proof.
  unfold modify_object, get_object. apply grows_bind; [intros w; by case_match|].
  intros o w x Hx. exact Hx.
Qed.

Lemma reward_ok w M M0 a amount z :
  accounts_ok w M M0 -> balance_of w M a z -> 0 <= amount -> z + amount < 2 ^ 256 ->
  hwp (reward a amount) (λ _ w', ∃ M', accounts_ok w' M' M0 ∧
    ∀ b y, balance_of w M b y -> balance_of w' M' b (y + credit b a amount)) w.
Proof.
  intros Hw Hz Ha Hlt. unfold reward.
  apply hwp_bind.
  { intros l. apply grows_bind; [apply grows_modify_object|]. intros _. apply grows_UpdateStateObject. }
  eapply hwp_mono; [|by apply GetAccount_ok]. intros l w1 (Hw1 & Hl & Hbal).
  destruct (ao_object _ _ _ Hw1 _ _ Hl) as (Hlen & o & Ho & Haddr & Hok).
  assert (Balance o = z) as Hbz.
  { apply (balance_unique w1 M a); [|by apply Hbal]. unfold balance_of. rewrite Hl. by exists o. }
  set (o' := AddAmount amount o).
  set (w2 := mkWorld (w_env w1) (<[l := o']> (w_heap w1)) (w_state w1)).
  eapply (hwp_run _ _ tt _ _ w2).
  { unfold modify_object, mbind, st_bind, get_object. by rewrite Ho. }
  assert (object_ok o') as Hok'.
  { destruct Hok as (Hn & Hb & Hr). split; [done|]. split; [cbn; lia|done]. }
  assert (w_heap w2 !! l = Some o') as Hl2.
  { cbn. rewrite list_lookup_insert_eq; [done|by eapply lookup_lt_Some]. }
  eapply hwp_mono; [|apply (UpdateStateObject_ok w2 M M0 l o'); [done|done|cbn; lia|apply Hw1]].
  intros [] w' (Hw' & _ & Hheap & Hobjs).
  set (M' := <[so_address o' := enc (object_item o')]> M) in *. cbn [so_address o'] in M'.
  assert (so_address o' = Address a) as Haddr' by done.
  exists M'. split.
  - split; [done|..].
    + intros b Hb. unfold content, M'. destruct (decide (b = Address a)) as [->|Hne].
      * rewrite Haddr', lookup_insert_eq. exists (Some o'). split; [done|]. split; [done|cbn; lia].
      * rewrite lookup_insert_ne by (rewrite Haddr'; congruence). by apply (ao_stored _ _ _ Hw1).
    + rewrite Hobjs, Hheap. intros b l' Hb. destruct (ao_object _ _ _ Hw1 b l' Hb) as (Hlb & x & Hx & Hxa & Hxo).
      split; [done|]. destruct (decide (l' = l)) as [->|Hne].
      * exists o'. split; [done|]. split; [|done]. rewrite Haddr'.
        by apply (ao_inj _ _ _ Hw1 (Address a) b l).
      * exists x. split; [|done]. cbn. by rewrite list_lookup_insert_ne by congruence.
    + rewrite Hobjs. apply (ao_inj _ _ _ Hw1).
  - intros b y Hy%Hbal. unfold balance_of in *. rewrite Hobjs, Hheap. cbn [w2 w_state w_heap].
    unfold credit. case_bool_decide as E.
    + rewrite E, Hl in *. destruct Hy as (x & Hx & <-). exists o'. split; [done|]. cbn. congruence.
    + rewrite Z.add_0_r. destruct (stateObjects (w_state w1) !! Address b) as [l'|] eqn:El.
      * destruct Hy as (x & Hx & <-). exists x. split; [|done].
        rewrite list_lookup_insert_ne; [done|]. intros <-. by apply E, (ao_inj _ _ _ Hw1 _ _ l).
      * destruct Hy as (x & Hx & ->). exists x. split; [|done]. unfold content, M'.
        rewrite lookup_insert_ne; [done|]. rewrite Haddr'. congruence.
Qed.

(** The payments of a block, and what they add up to for an address. *)
Definition payments (block : Block) : list (bytes * Z) :=
  (b_Coinbase block, CalculateBlockReward block (length (Uncles block)))
  :: map (λ u, (b_Coinbase u, CalculateUncleReward u)) (Uncles block).

Definition earned (b : bytes) (ps : list (bytes * Z)) : Z :=
  foldr (λ p acc, credit b p.1 p.2 + acc) 0 ps.

Definition total_paid (ps : list (bytes * Z)) : Z := foldr (λ p acc, p.2 + acc) 0 ps.

Lemma credit_range b a x : 0 <= x -> 0 <= credit b a x <= x.
Proof. unfold credit. case_bool_decide; lia. Qed.

Lemma total_paid_nonneg ps : Forall (λ p, 0 <= p.2) ps -> 0 <= total_paid ps.
Proof.
  induction 1 as [|p ps Hp _ IH]; [done|]. cbn [total_paid foldr]. fold (total_paid ps). lia.
Qed.

Lemma grows_reward p : grows (reward (D := D) p.1 p.2).
Proof.
  unfold reward, GetAccount, GetOrNewStateObject. apply grows_bind.
  - apply grows_bind; [apply grows_GetStateObject|]. intros [?|] s x Hx; exact Hx.
  - intros l. apply grows_bind; [apply grows_modify_object|]. intros _. apply grows_UpdateStateObject.
Qed.

Lemma grows_rewards ps : grows (for_each (λ p, reward (D := D) p.1 p.2) ps).
Proof.
  induction ps as [|p ps IH]; [by intros ? ?|]. apply grows_bind; [apply grows_reward|done].
Qed.

Lemma balance_exists w M M0 a : accounts_ok w M M0 -> ∃ z, balance_of w M a z.
Proof.
  intros Hw. unfold balance_of. destruct (stateObjects (w_state w) !! Address a) as [l|] eqn:El.
  - destruct (ao_object _ _ _ Hw _ _ El) as (_ & o & Ho & _). by eexists _, o.
  - destruct (ao_stored _ _ _ Hw (Address a) (Address_len a)) as [o Ho]. by eexists _, o.
Qed.

Lemma rewards_ok M0 ps : ∀ w M,
  accounts_ok w M M0 -> Forall (λ p, 0 <= p.2) ps ->
  (∀ b y, balance_of w M b y -> y + total_paid ps < 2 ^ 256) ->
  hwp (for_each (λ p, reward p.1 p.2) ps) (λ _ w', ∃ M', accounts_ok w' M' M0 ∧
    ∀ b y, balance_of w M b y -> balance_of w' M' b (y + earned b ps)) w.
Proof.
  induction ps as [|[a x] ps IH]; intros w M Hw Hps Hlt.
  { apply hwp_ret. exists M. split; [done|]. intros b y. by rewrite Z.add_0_r. }
  apply Forall_cons in Hps as [Hx Hps]. cbn [fst snd] in Hx. pose proof (total_paid_nonneg ps Hps).
  destruct (balance_exists w M M0 a Hw) as [z Hz]. cbn [total_paid foldr snd] in Hlt.
  fold (total_paid ps) in Hlt. pose proof (Hlt a z Hz).
  cbn [for_each]. apply hwp_bind; [intros _; apply grows_rewards|].
  eapply hwp_mono; [|apply (reward_ok w M M0 a x z); [done..|lia]].
  intros [] w1 (M1 & Hw1 & Hb1).
  eapply hwp_mono; [|apply (IH w1 M1); [done|done|]].
  - intros [] w' (M' & Hw' & Hb'). exists M'. split; [done|]. intros b y Hy.
    cbn [earned foldr fst snd]. fold (earned b ps). rewrite Z.add_assoc. by apply Hb', Hb1.
  - intros b y Hy. destruct (balance_exists w M M0 b Hw) as [y0 Hy0].
    pose proof (balance_unique _ _ _ _ _ Hy (Hb1 b y0 Hy0)) as ->.
    pose proof (Hlt b y0 Hy0). pose proof (credit_range b a x Hx). lia.
Qed.

(** C23. The rewards of a block are paid exactly: after [AccumelateRewards], on any
    state whose accounts are in order, the coinbase has the block reward and
    one inclusion reward for each uncle more than before, the coinbase of each uncle has an
    uncle reward more (adding up when addresses coincide), and every other
    account, in memory or in the state trie, has what it had. *)
Theorem AccumelateRewards_pays (w : World D) (M M0 : gmap bytes bytes) (block : Block) :
  accounts_ok w M M0 ->
  (∀ b y, balance_of w M b y -> y + total_paid (payments block) < 2 ^ 256) ->
  let r := AccumelateRewards block w in
  collision_free (e_hashed (w_env r.2)) ->
  r.1 = Ret tt ∧ ∃ M', accounts_ok r.2 M' M0 ∧
    ∀ b y, balance_of w M b y ->
      balance_of r.2 M' b
        (y + credit b (b_Coinbase block)
               (BlockReward + Z.of_nat (length (Uncles block)) * UncleInclusionReward)
           + foldr (λ u acc, credit b (b_Coinbase u) UncleReward + acc) 0 (Uncles block)).
Proof.
  intros Hw Hlt r Hc.
  assert (CalculateBlockReward block (length (Uncles block))
          = BlockReward + Z.of_nat (length (Uncles block)) * UncleInclusionReward) as Hrew.
  { unfold CalculateBlockReward. generalize (length (Uncles block)). intros n.
    assert (Nat.iter n (λ base, base + UncleInclusionReward) 0 = Z.of_nat n * UncleInclusionReward) as ->.
    { induction n as [|n IH]; [done|]. rewrite Nat2Z.inj_succ. cbn [Nat.iter nat_rect]. unfold Nat.iter in IH. rewrite IH. lia. }
    lia. }
  assert (hwp (AccumelateRewards block) (λ _ w', ∃ M', accounts_ok w' M' M0 ∧
    ∀ b y, balance_of w M b y -> balance_of w' M' b (y + earned b (payments block))) w) as Hrun.
  { assert (AccumelateRewards block = for_each (λ p, reward (D := D) p.1 p.2) (payments block)) as ->.
    { unfold AccumelateRewards, payments. cbn [for_each fst snd]. by rewrite for_each_map. }
    apply rewards_ok; [done| |done].
    unfold payments. apply Forall_cons. split; [rewrite Hrew; cbn; unfold BlockReward, UncleInclusionReward; lia|].
    apply Forall_map, Forall_forall. intros u _. cbn. unfold CalculateUncleReward, UncleReward. lia. }
  destruct (Hrun Hc) as ([] & Hr & M' & Hok & Hb). split; [exact Hr|]. exists M'. split; [done|].
  intros b y Hy. specialize (Hb b y Hy). unfold payments in Hb. cbn [earned foldr fst snd] in Hb.
  rewrite Hrew, Z.add_assoc in Hb.
  assert (∀ us : list Block, foldr (λ p acc, credit b p.1 p.2 + acc) 0
            (map (λ u, (b_Coinbase u, CalculateUncleReward u)) us)
          = foldr (λ u acc, credit b (b_Coinbase u) UncleReward + acc) 0 us) as <-; [|done].
  intros us. induction us as [|u us IH]; [done|]. cbn. by rewrite IH.
Qed.

End Rewards.

(** * Runs *)

#[local] Existing Instances toy_crypto list_order.

(** A block of [2a] with an uncle of [2b]. *)
Definition rewarded_block : Block :=
  let b := mkBlock [] [] [] [x2a] (State_New (Trie_New (VStr []))) 1 0 (Some 1) 0 0 0 [] [] [] [] [] in
  let u := mkBlock [] [] [] [x2b] (State_New (Trie_New (VStr []))) 1 0 (Some 1) 0 0 0 [] [] [] [] [] in
  set_Uncles_sha [u] [] b.

Lemma example_accounts_ok : accounts_ok example_world ∅ ∅.
Proof.
  split.
  - apply New_ok.
  - intros a _. by exists None.
  - intros a l. cbn. intros [<- <-]%lookup_singleton_Some. split; [done|].
    exists example_account. split; [done|]. split; [done|]. exact example_account_ok.
  - intros a b l. cbn. by intros [<- _]%lookup_singleton_Some [<- _]%lookup_singleton_Some.
Qed.

Lemma AccumelateRewards_pays_witness :
  let r := AccumelateRewards rewarded_block example_world in
  r.1 = Ret tt ∧ ∃ M', accounts_ok r.2 M' ∅ ∧
    ∀ b y, balance_of example_world ∅ b y ->
      balance_of r.2 M' b
        (y + credit b [x2a] (1500000000000000000 + Z.of_nat 1 * 187500000000000000)
           + (credit b [x2b] 1125000000000000000 + 0)).
Proof.
  cbn zeta. apply (AccumelateRewards_pays example_world ∅ ∅ rewarded_block).
  - exact example_accounts_ok.
  - intros b y. unfold balance_of. cbn [example_world w_state set_objects stateObjects w_heap].
    destruct (_ !! _) as [l|] eqn:E.
    + apply lookup_singleton_Some in E as [_ <-]. intros (o & [= <-] & <-). vm_compute. reflexivity.
    + intros ([o|] & Ho & ->); [|vm_compute; reflexivity]. destruct Ho as (E' & _).
      unfold content in E'. rewrite lookup_empty in E'. cbn [default] in E'.
      pose proof (enc_pos (object_item o)) as Hp. by rewrite <-E' in Hp.
  - apply cf_check_ok. vm_compute. reflexivity.
Defined.
