(* ===== verification/DumpSpec.v ===== *)
(** What [Dump] of [ethstate/dump.go] writes: the accounts of the state with
    their storage, as they are in the tries. *)

From stdpp Require Import sorting.
From S2P Require Import Prelude GoVal Big Bytes Errors Text Json Rlp Value Wire Db Crypto Nibbles Trie TrieSpec.
From S2P Require Import TrieRoot TrieIter State Dump Curve Transaction Block StateSpec BlockChain Transition Core.
From S2P Require Import TxPool StateManager RewardSpec.

(** * Listings *)

Lemma Bytes2Hex_inj : Inj (=) (=) Bytes2Hex.
Proof. intros a b E%(f_equal Hex2Bytes). by rewrite !Hex2Bytes_Bytes2Hex in E. Qed.
#[local] Existing Instance Bytes2Hex_inj.

(** Inserting pairs one after the other. *)
Definition insert_all {A} (l : list (bytes * A)) (m : gmap bytes A) : gmap bytes A :=
  fold_left (λ m kv, <[kv.1 := kv.2]> m) l m.

Lemma insert_all_lookup {A} (l : list (bytes * A)) : ∀ m k,
  NoDup l.*1 -> insert_all l m !! k =
  match (list_to_map l : gmap bytes A) !! k with Some a => Some a | None => m !! k end.
Proof.
  induction l as [|[k' a] l IH]; intros m k Hl; [cbn; by rewrite lookup_empty|].
  apply NoDup_cons in Hl as [Hk Hl]. unfold insert_all in *. cbn [fold_left fst snd list_to_map foldr].
  rewrite IH by done. destruct (decide (k = k')) as [->|Hne].
  - rewrite lookup_insert_eq, (not_elem_of_list_to_map_1 l k') by done. by rewrite lookup_insert_eq.
  - by rewrite !lookup_insert_ne by done.
Qed.

Lemma insert_all_kmap {A} (l : list (bytes * A)) (m : gmap bytes A) :
  l ≡ₚ map_to_list m ->
  insert_all (prod_map Bytes2Hex id <$> l) ∅ = kmap (M2 := gmap bytes) Bytes2Hex m.
Proof.
  intros Hp. assert (NoDup (prod_map Bytes2Hex id <$> l).*1) as Hnd.
  { rewrite <-list_fmap_compose. change (fst ∘ prod_map Bytes2Hex id) with (Bytes2Hex ∘ @fst bytes A).
    rewrite list_fmap_compose. apply NoDup_fmap_2; [apply _|]. rewrite Hp. apply NoDup_fst_map_to_list. }
  apply map_eq. intros k. rewrite insert_all_lookup, lookup_empty by done.
  assert (list_to_map (prod_map Bytes2Hex id <$> l) = kmap (M2 := gmap bytes) Bytes2Hex m) as ->.
  { apply list_to_map_proper; [done|]. by rewrite Hp. }
  by destruct (_ !! k).
Qed.

(** A listing of the encodings of what is in a map. *)
Lemma listing_lookup {A} (S : gmap bytes A) (g : A -> bytes) l kv :
  listing (g <$> S) l -> kv ∈ l -> ∃ a, S !! kv.1 = Some a ∧ kv.2 = g a.
Proof.
  intros (_ & Hl & _) Hkv. destruct kv as [k w]. apply Hl in Hkv.
  apply lookup_fmap_Some in Hkv as (a & <- & Ha). by exists a.
Qed.

Lemma key_lt_nodup (l : list bytes) : StronglySorted key_lt l -> NoDup l.
Proof.
  induction 1 as [|k l _ IH Hk]; constructor; [|done]. intros Hin.
  rewrite Forall_forall in Hk. by apply Hk, path_lt_irrefl in Hin.
Qed.

Lemma listing_perm {A} (S : gmap bytes A) (g : A -> bytes) (h : bytes * bytes -> bytes * A) l :
  (∀ a, g a ≠ []) -> listing (g <$> S) l ->
  (∀ k a, S !! k = Some a -> h (k, g a) = (k, a)) ->
  (h <$> l) ≡ₚ map_to_list S.
Proof.
  intros Hg Hl Hh. pose proof Hl as (Hs & _ & Hin). apply key_lt_nodup in Hs.
  assert (∀ kv, kv ∈ l -> ∃ a, S !! kv.1 = Some a ∧ h kv = (kv.1, a)) as Hcall.
  { intros [k w] Hkv. destruct (listing_lookup _ _ _ _ Hl Hkv) as (a & Ha & E). cbn in *. subst w.
    exists a. split; [done|by apply Hh]. }
  apply NoDup_Permutation.
  - apply (NoDup_fmap_1 fst). rewrite <-list_fmap_compose.
    assert ((fst ∘ h <$> l) = l.*1) as ->; [|done].
    apply list_fmap_ext. intros i kv Hkv%list_elem_of_lookup_2. cbn.
    by destruct (Hcall kv Hkv) as (a & _ & ->).
  - apply NoDup_map_to_list.
  - intros [k a]. rewrite elem_of_map_to_list, list_elem_of_fmap. split.
    + intros (kv & E & Hkv). destruct (Hcall kv Hkv) as (a' & Ha & E'). rewrite E' in E. by injection E as -> ->.
    + intros Ha. exists (k, g a). split; [by rewrite (Hh k a Ha)|]. apply Hin; [|done].
      by rewrite lookup_fmap, Ha.
Qed.

(** Enough fuel for every entry of a map. *)
Lemma fuel_for_all {A} (m : gmap bytes A) (P : bytes -> A -> nat -> Prop) :
  (∀ k a, m !! k = Some a -> ∃ n, ∀ f, (n <= f)%nat -> P k a f) ->
  ∃ n, ∀ f, (n <= f)%nat -> ∀ k a, m !! k = Some a -> P k a f.
Proof.
  induction m as [|k a m Hk IH] using map_ind; intros HP.
  { exists 0%nat. intros f _ k a. by rewrite lookup_empty. }
  destruct IH as [n1 Hn1].
  { intros k' a' Ha. apply HP. rewrite lookup_insert_ne; [done|]. congruence. }
  destruct (HP k a) as [n2 Hn2]; [apply lookup_insert_eq|].
  exists (Nat.max n1 n2). intros f Hf k' a' [[<- <-]|[_ Ha]]%lookup_insert_Some.
  - apply Hn2. lia.
  - apply Hn1; [lia|done].
Qed.

(** * The dump *)

(** A stored account: its fields, and what its storage trie holds. *)
Record Stored := mkStored { sd_object : StateObject; sd_storage : gmap bytes bytes }.

Section Dump.
Context `{HC : Crypto} {D : Type} `{HD : Database D} `{HL : !DatabaseLaws D} `{HM : MapOrder}.

(** How a storage value and an account are stored. *)
Definition value_data (b : bytes) : bytes := enc (RStr b).
Definition account_data (x : Stored) : bytes := enc (object_item (sd_object x)).

(** The root of the storage trie as it is read back. *)
Definition storage_root (x : Stored) : goval := VBytes (Value_Bytes (tr_Root (so_Trie (sd_object x)))).

Definition stored_ok (e : Env D) (x : Stored) : Prop :=
  object_ok (sd_object x) ∧ Balance (sd_object x) < 2 ^ 256 ∧
  (∀ k b, sd_storage x !! k = Some b -> zlen (value_data b) < 2 ^ 64) ∧
  ∃ M0, trie_ok (Trie_New (storage_root x), e) (value_data <$> sd_storage x) M0.

(** What the dump has for it, and for the whole state. *)
Definition dump_of (x : Stored) : Account :=
  mkAccount (decimal (Balance (sd_object x))) (Nonce (sd_object x))
    (Bytes2Hex (Sha3Bin (Code (sd_object x))))
    (kmap (M2 := gmap bytes) Bytes2Hex (Bytes2Hex <$> sd_storage x)).

Definition dump_of_world (root : bytes) (A : gmap bytes Stored) : WorldDump :=
  mkWorldDump (Bytes2Hex root) (kmap (M2 := gmap bytes) Bytes2Hex (dump_of <$> A)).

Lemma enc_not_empty it : enc it ≠ [].
Proof. intros E. pose proof (enc_pos it). by rewrite E in *. Qed.

(** A call passes the value of its key. *)
Lemma call_value l kv it :
  Forall string_call l -> kv ∈ l -> (call_string kv).2 = enc it -> Value_Bytes kv.2 = enc it.
Proof.
  intros Hl Hkv E. rewrite Forall_forall in Hl. destruct (Hl kv Hkv) as [b Hb].
  destruct (vrep_string _ _ Hb) as (E1 & E2 & _). cbn in E. congruence.
Qed.

(** The storage trie of an account, over a database that has nothing under the
    empty key. *)
Lemma storage_run (e : Env D) r M M0 :
  trie_ok (Trie_New (VBytes r), e) M M0 -> (∀ k w, M !! k = Some w -> w ≠ []) ->
  collision_free (e_hashed e) -> db_data (e_db e) [] = [] ->
  ∃ n, ∀ fuel, (n <= fuel)%nat -> ∃ l t',
    Each fuel (Trie_New (VBytes r), e) = (Ret l, (t', e)) ∧ listing M (call_string <$> l) ∧ Forall string_call l.
Proof.
  intros Hok Hne Hcf Hdb. destruct (decide (r = [])) as [->|Hr].
  - exists 1%nat. intros fuel Hf.
    destruct (Each_nothing (Trie_New (VBytes [])) e fuel) as [t' Ht]; [done|apply lookup_empty|done|lia|].
    exists [], t'. split; [done|]. split; [|constructor]. split; [constructor|].
    split; [by intros ? ? ?%elem_of_nil|]. intros key w Hw _. destruct (Hne key w Hw).
    destruct Hok as (S & S0 & _ & (_ & m & (it & Hv & _ & Ht') & _ & Hread) & _).
    rewrite <-Hread in Hw. inversion Hv; subst. inversion Ht' as [? Hm|h n' ? _ Hl|]; subst; [|done].
    rewrite Hm in Hw; [done|apply valid_key].
  - apply (Each_run (Trie_New (VBytes r), e) M M0 Hok); [|done].
    cbn. intros E. by apply zlen_0 in E.
Qed.

(** The text of the storage. *)
Lemma dump_storage_run (S : gmap bytes bytes) : ∀ l acc,
  (∀ kv, kv ∈ l -> ∃ b, S !! kv.1 = Some b ∧ Value_Bytes kv.2 = value_data b ∧ zlen (value_data b) < 2 ^ 64) ->
  dump_storage l acc =
  Ret (insert_all (prod_map Bytes2Hex id <$> ((λ kv, (kv.1, Bytes2Hex (default [] (S !! kv.1)))) <$> l)) acc).
Proof.
  induction l as [|[k v] l IH]; intros acc Hl; [done|].
  destruct (Hl (k, v)) as (b & Hb & Hv & Hlen); [by left|].
  cbn [fst snd] in Hb, Hv. cbn [dump_storage].
  assert (Value_Decode v = Ret (of_item (RStr b))) as ->.
  { rewrite <-(NewValueFromBytes_enc (RStr b) Hlen). unfold NewValueFromBytes, Value_Decode.
    change (enc (RStr b)) with (value_data b). rewrite <-Hv. cbn [NewValue Value_Bytes].
    destruct (Z.eqb_spec (zlen (Value_Bytes v)) 0) as [E|E]; [|done].
    apply zlen_0 in E. rewrite E in Hv. by destruct (enc_not_empty (RStr b)). }
  cbn [mbind outcome_bind]. rewrite IH by (intros kv Hkv; apply Hl; by right).
  unfold insert_all. cbn [fmap list_fmap fold_left prod_map fst snd]. rewrite Hb. cbn [default of_item].
  by rewrite Bytes_of_str.
Qed.

Lemma map_order_empty {A} : map_order (∅ : gmap bytes A) = [].
Proof. apply Permutation_nil. by rewrite map_order_perm, map_to_list_empty. Qed.

(** The storage of an object with nothing in its cache. *)
Lemma EachStorage_run fuel self (w : World D) o l t' e' :
  w_heap w !! self = Some o -> storage o = ∅ ->
  Each fuel (so_Trie o, w_env w) = (Ret l, (t', e')) ->
  EachStorage fuel self w = (Ret l, mkWorld e' (<[self := set_Trie t' o]> (w_heap w)) (w_state w)).
Proof.
  intros Ho Hs Hl. assert (get_object self w = (Ret o, w)) as Hget by (unfold get_object; by rewrite Ho).
  unfold EachStorage. rewrite (st_bind_run _ _ _ _ _ Hget), Hs, map_order_empty.
  assert (on_object_trie self (Each fuel) w
          = (Ret l, mkWorld e' (<[self := set_Trie t' o]> (w_heap w)) (w_state w))) as Hrun.
  { unfold on_object_trie. rewrite (st_bind_run _ _ _ _ _ Hget).
    rewrite (st_bind_run get_env _ w (w_env w) w) by done. by rewrite Hl. }
  rewrite (st_bind_run _ _ _ _ _ Hrun). cbn [map app].
  rewrite filter_all; [done|]. intros kv _. apply lookup_empty.
Qed.

Lemma dump_account_run (e : Env D) x :
  stored_ok e x -> collision_free (e_hashed e) -> db_data (e_db e) [] = [] ->
  ∃ n, ∀ fuel, (n <= fuel)%nat -> ∀ k v w, w_env w = e -> Value_Bytes v = account_data x ->
    ∃ w', dump_account fuel (k, v) w = (Ret [(Bytes2Hex k, dump_of x)], w') ∧ w_env w' = e ∧
          w_state w' = w_state w.
Proof.
  intros (Ho & Hb & Hlen & M0 & Htrie) Hcf Hdb.
  destruct (storage_run e _ _ _ Htrie) as [n Hn]; [|done|done|].
  { intros k w (b & <- & _)%lookup_fmap_Some. apply enc_not_empty. }
  exists n. intros fuel Hf k v w <- Hv. destruct (Hn fuel Hf) as (l & t' & Hl & Hlist & Hstr).
  set (o := set_Code (db_data (e_db (w_env w)) (Sha3Bin (Code (sd_object x)))) (object_read k (sd_object x))).
  assert (dump_storage l ∅ = Ret (kmap (M2 := gmap bytes) Bytes2Hex (Bytes2Hex <$> sd_storage x))) as Hst.
  { rewrite (dump_storage_run (sd_storage x)).
    - rewrite insert_all_kmap with (m := Bytes2Hex <$> sd_storage x); [done|].
      rewrite map_to_list_fmap. rewrite <-(listing_perm (sd_storage x) value_data
        (λ kv, (kv.1, default [] (sd_storage x !! kv.1))) _ (λ b, enc_not_empty _) Hlist).
      + rewrite <-!list_fmap_compose. reflexivity.
      + intros k' b Hk. cbn. by rewrite Hk.
    - intros kv Hkv. destruct (listing_lookup (sd_storage x) value_data _ (call_string kv) Hlist) as (b & Hb' & E).
      { by apply list_elem_of_fmap_2. }
      exists b. split; [done|]. split; [by eapply call_value|by eapply Hlen]. }
  assert (w_heap (mkWorld (w_env w) (w_heap w ++ [o]) (w_state w)) !! length (w_heap w) = Some o) as Hself.
  { apply list_lookup_middle. done. }
  eexists. split; [|split; [|shelve]].
  - unfold dump_account. rewrite (st_bind_run get_env _ w (w_env w) w) by done.
    rewrite Hv. unfold account_data. rewrite object_decode_any by done. fold o.
    rewrite (st_bind_run (lift (Ret o)) _ w o w) by done.
    erewrite (st_bind_run (new_object o)) by done.
    erewrite st_bind_run; [|by apply (EachStorage_run fuel _ _ o l t' (w_env w))].
    rewrite Hst. erewrite (st_bind_run (lift _)) by done. reflexivity.
  - done.
  Unshelve. done.
Qed.

(** All the accounts. *)
Lemma dump_accounts_run (e : Env D) (A : gmap bytes Stored) fuel l :
  (∀ a x, A !! a = Some x -> ∀ k v w, w_env w = e -> Value_Bytes v = account_data x ->
    ∃ w', dump_account fuel (k, v) w = (Ret [(Bytes2Hex k, dump_of x)], w') ∧ w_env w' = e ∧
          w_state w' = w_state w) ->
  (∀ kv, kv ∈ l -> ∃ x, A !! kv.1 = Some x ∧ Value_Bytes kv.2 = account_data x) ->
  ∀ w, w_env w = e -> ∃ w', for_collect (dump_account fuel) l w =
    (Ret (prod_map Bytes2Hex id <$> ((λ kv, (kv.1, default (mkAccount [] 0 [] ∅) (dump_of <$> A !! kv.1))) <$> l)), w').
Proof.
  intros Hrun. induction l as [|[k v] l IH]; intros Hl w Hw; [by eexists|].
  destruct (Hl (k, v)) as (x & Hx & Hv); [by left|]. cbn [fst snd] in Hx, Hv.
  destruct (Hrun k x Hx k v w Hw Hv) as (w1 & H1 & Hw1 & _).
  destruct (IH ltac:(intros kv Hkv; apply Hl; by right) w1 Hw1) as (w2 & H2).
  exists w2. cbn [for_collect]. erewrite st_bind_run by done. erewrite st_bind_run by done.
  cbn [fmap list_fmap fst snd]. rewrite Hx. reflexivity.
Qed.

(** C17. The dump of a state is the state: for accounts stored in the state trie
    with their storage tries, all over one database, [Dump] ends without a panic
    and writes the JSON text of the root, and for every account, under its
    address in hex, the balance and the nonce in decimal, the hash of its code,
    and under each storage key in hex the bytes stored there in hex, nothing more
    and nothing less.  (The root is a byte slice, as it is after an update or a
    restart from a stored root; nothing is stored under the empty key; and no
    hash collides.) *)
Theorem Dump_writes_the_state (w : World D) (root : bytes) (A : gmap bytes Stored) (M0 : gmap bytes bytes) :
  state_holds w (account_data <$> A) M0 -> tr_Root (s_Trie (w_state w)) = VBytes root -> root ≠ [] ->
  (∀ a x, A !! a = Some x -> stored_ok (w_env w) x) ->
  db_data (e_db (w_env w)) [] = [] -> collision_free (e_hashed (w_env w)) ->
  ∃ n, ∀ fuel, (n <= fuel)%nat ->
    (Dump fuel w).1 = Ret (MarshalIndent (asc "    ") (world_json (dump_of_world root A))).
Proof.
  intros Hst Hroot Hr HA Hdb Hcf.
  destruct (Each_run (s_Trie (w_state w), w_env w) _ _ Hst) as [n1 Hn1]; [|done|].
  { cbn. rewrite Hroot. cbn. intros E. by apply zlen_0 in E. }
  destruct (fuel_for_all A (λ a x fuel, ∀ k v w', w_env w' = w_env w -> Value_Bytes v = account_data x ->
    ∃ w'', dump_account fuel (k, v) w' = (Ret [(Bytes2Hex k, dump_of x)], w'') ∧ w_env w'' = w_env w ∧
          w_state w'' = w_state w')) as [n2 Hn2].
  { intros a x Hx. apply dump_account_run; [by eapply HA|done|done]. }
  exists (Nat.max n1 n2). intros fuel Hf.
  destruct (Hn1 fuel ltac:(lia)) as (l & t' & Hl & Hlist & Hstr). cbn [snd] in Hl.
  set (w1 := mkWorld (w_env w) (w_heap w) (set_s_Trie t' (w_state w))).
  destruct (dump_accounts_run (w_env w) A fuel l (Hn2 fuel ltac:(lia))) with (w := w1) as (w2 & H2); [|done|].
  { intros kv Hkv. destruct (listing_lookup A account_data _ (call_string kv) Hlist) as (x & Hx & E).
    { by apply list_elem_of_fmap_2. }
    exists x. split; [done|by eapply call_value]. }
  assert (insert_all (prod_map Bytes2Hex id <$>
    ((λ kv, (kv.1, default (mkAccount [] 0 [] ∅) (dump_of <$> A !! kv.1))) <$> l)) ∅
    = kmap (M2 := gmap bytes) Bytes2Hex (dump_of <$> A)) as Hacc.
  { apply insert_all_kmap. rewrite map_to_list_fmap.
    rewrite <-(listing_perm A account_data (λ kv, (kv.1, default (mkStored (NewStateObject []) ∅) (A !! kv.1))) _
      (λ x, enc_not_empty _) Hlist).
    - rewrite <-!list_fmap_compose. apply Permutation_refl', list_fmap_ext. intros i kv Hkv.
      destruct (listing_lookup A account_data _ (call_string kv) Hlist) as (x & Hx & _).
      { apply list_elem_of_fmap_2. by eapply list_elem_of_lookup_2. }
      cbn in *. by rewrite Hx.
    - intros k x Hk. cbn. by rewrite Hk. }
  assert (dump_world fuel w = (Ret (dump_of_world root A), w2)) as Hw.
  { unfold dump_world. rewrite (st_bind_run get_state _ w (w_state w) w) by done.
    rewrite Hroot. rewrite (st_bind_run (lift (Ret root)) _ w root w) by done.
    rewrite (st_bind_run (on_state_trie (Each fuel)) _ w l w1).
    - erewrite st_bind_run by exact H2. unfold dump_of_world. rewrite <-Hacc. reflexivity.
    - unfold on_state_trie. rewrite (st_bind_run get_state _ w (w_state w) w) by done.
      rewrite (st_bind_run get_env _ w (w_env w) w) by done. by rewrite Hl. }
  unfold Dump. by rewrite (st_bind_run _ _ _ _ _ Hw).
Qed.

End Dump.

(** ** A run *)

#[local] Existing Instance toy_crypto.
#[local] Existing Instance list_order.

Definition ex_key : bytes := LeftPadBytes [x01] 32.
Definition ex_storage_ops : list trie_op := [OpUpdate ex_key (value_data (asc "value")); OpSync; OpReopen].
Definition ex_storage : Trie * Env MemDatabase :=
  (for_collect trie_step ex_storage_ops (Trie_New (VStr []), new_env)).2.

Definition ex_stored : Stored :=
  mkStored (set_Trie ex_storage.1 example_account) {[ ex_key := asc "value" ]}.

Definition ex_ops : list trie_op := [OpUpdate (Address [x2a]) (account_data ex_stored)].
#[local] Notation ex_state := ((for_collect trie_step ex_ops (Trie_New (VStr []), ex_storage.2)).2).
Definition ex_world : World MemDatabase := mkWorld ex_state.2 [] (State_New ex_state.1).
Definition ex_root : bytes := Value_Bytes (tr_Root ex_state.1).

Lemma ex_collision_free : collision_free (e_hashed ex_state.2).
Proof. apply cf_check_ok. vm_compute. reflexivity. Qed.

Lemma ex_hashed : e_hashed ex_storage.2 ⊆ e_hashed ex_state.2.
Proof. apply (grows_steps ex_ops (Trie_New (VStr []), ex_storage.2)). Qed.

Lemma ex_state_ok : trie_ok ex_state (maps_after ex_ops (∅, ∅)).1 (maps_after ex_ops (∅, ∅)).2.
Proof.
  apply trie_run_ok; [|exact ex_collision_free]. repeat constructor. vm_compute. discriminate.
Qed.

Lemma ex_world_ok : state_holds ex_world (account_data <$> {[ Address [x2a] := ex_stored ]}) ∅.
Proof.
  rewrite map_fmap_singleton.
  assert (maps_after ex_ops (∅, ∅) = ({[ Address [x2a] := account_data ex_stored ]}, ∅)) as Hmaps
    by (vm_compute; reflexivity).
  pose proof ex_state_ok as Hok. rewrite Hmaps in Hok. unfold state_holds, ex_world.
  cbn [w_state w_env s_Trie State_New]. by rewrite <-surjective_pairing.
Qed.

Lemma ex_stored_ok : stored_ok (w_env ex_world) ex_stored.
Proof.
  assert (root_ok (tr_Root ex_storage.1)) as Hroot.
  { exists (Value_Bytes (tr_Root ex_storage.1)). vm_compute. auto. }
  split; [|split; [reflexivity|split]].
  - destruct example_account_ok as (H1 & H2 & _). split; [exact H1|]. split; [exact H2|exact Hroot].
  - intros k b Hk. cbn [sd_storage ex_stored] in Hk. apply lookup_singleton_Some in Hk as [_ <-]. reflexivity.
  - eexists. apply (trie_ok_hashed _ ex_storage.2); [vm_compute; reflexivity|exact ex_hashed|].
    cbn [sd_storage ex_stored]. rewrite map_fmap_singleton.
    assert ((Trie_New (storage_root ex_stored), ex_storage.2) = ex_storage) as -> by (vm_compute; reflexivity).
    apply (trie_run_ok ex_storage_ops new_env).
    + repeat constructor. vm_compute. discriminate.
    + eapply collision_free_mono; [exact ex_hashed|exact ex_collision_free].
Qed.

Lemma Dump_writes_the_state_witness :
  ∃ n, ∀ fuel, (n <= fuel)%nat ->
    (Dump fuel ex_world).1 =
    Ret (MarshalIndent (asc "    ") (world_json (dump_of_world ex_root {[ Address [x2a] := ex_stored ]}))).
Proof.
  apply (Dump_writes_the_state (HC := toy_crypto) ex_world ex_root {[ Address [x2a] := ex_stored ]} ∅).
  - exact ex_world_ok.
  - vm_compute. reflexivity.
  - vm_compute. discriminate.
  - intros a x [_ <-]%lookup_singleton_Some. exact ex_stored_ok.
  - vm_compute. reflexivity.
  - exact ex_collision_free.
Defined.
